(** * Arkanoid AI match core: physics, golden-brick roulette, loop detector,
      shot planner and paddle targeting.

    The per-frame engine of [Game] (the [draw] callback and the functions it
    calls) is embedded function by function.  TypeScript [number]s of the
    physics engine are idealised as real numbers, because the engine takes
    square roots; there the decision of the AI block enters a frame as an
    input.  The AI block itself (defensive projection, shot planner, offensive
    targets, choice of the final target, paddle move) is embedded a second
    time over exact rationals extended with the special values of JavaScript
    arithmetic, so that its simulations run and its divisions by zero can be
    followed. *)

From Stdlib Require Import Reals Lra Lia ZArith List Bool QArith Qcanon Qround.
From stdpp Require Import base decidable option list sorting gmap.

Set Default Proof Using "Type".

(** ** Real numbers as the engine's [number] *)

Module Num.
Local Open Scope R_scope.

#[global] Instance Rlt_decision (a b : R) : Decision (a < b) := Rlt_dec a b.
#[global] Instance Rle_decision (a b : R) : Decision (a <= b) := Rle_dec a b.
#[global] Instance Rgt_decision (a b : R) : Decision (a > b) := Rgt_dec a b.
#[global] Instance Rge_decision (a b : R) : Decision (a >= b) := Rge_dec a b.
#[global] Instance Req_decision : EqDecision R := Req_dec_T.

(** [Math.round]: the integer nearest to [x], halves rounded up. *)
Definition Math_round (x : R) : Z := (up (x + / 2) - 1)%Z.

(** [Math.sign]. *)
Definition Math_sign (x : R) : R :=
  if bool_decide (x > 0) then 1 else if bool_decide (x < 0) then -1 else 0.

(** [a || b] on numbers: [a] unless it is zero. *)
Definition orElse (a b : R) : R := if bool_decide (a = 0) then b else a.

End Num.
Export Num.

(** ** constants.ts *)

Module Constants.
Local Open Scope R_scope.

Definition CANVAS_WIDTH : R := 400.
Definition CANVAS_HEIGHT : R := 300.
Definition PADDLE_WIDTH : R := 60.
Definition PADDLE_HEIGHT : R := 8.
Definition PADDLE_Y_OFFSET : R := 15.
Definition BALL_RADIUS : R := 5.
Definition BALL_SPEED_X : R := 6.
Definition BALL_SPEED_Y : R := -6.
Definition MIN_BALL_SPEED : R := 4.
Definition MAX_BALL_SPEED : R := 10.
Definition PADDLE_SPIN_FACTOR : R := 4.
Definition PADDLE_VELOCITY_SPIN_FACTOR : R := 0.3.
Definition PADDLE_EDGE_BOOST : R := 2.5.
Definition PADDLE_FLICK_SPEED_BONUS : R := 1.1.
Definition BALL_FRICTION : R := 0.9995.

Definition BRICK_ROW_COUNT : nat := 5.
Definition BRICK_COLUMN_COUNT : nat := 9.
Definition BRICK_WIDTH : R := 36.
Definition BRICK_HEIGHT : R := 10.
Definition BRICK_PADDING : R := 5.
Definition BRICK_OFFSET_TOP : R := 20.
Definition BRICK_OFFSET_LEFT : R := 18.

Definition LEVEL_LAYOUTS : list (list (list nat)) :=
  [ (* Layout 1: Classic Solid Wall *)
    [ [1;1;1;1;1;1;1;1;1]; [1;1;1;1;1;1;1;1;1]; [1;1;1;1;1;1;1;1;1];
      [1;1;1;1;1;1;1;1;1]; [1;1;1;1;1;1;1;1;1] ];
    (* Layout 2: Pyramid *)
    [ [0;0;0;0;1;0;0;0;0]; [0;0;0;1;1;1;0;0;0]; [0;0;1;1;1;1;1;0;0];
      [0;1;1;1;1;1;1;1;0]; [1;1;1;1;1;1;1;1;1] ];
    (* Layout 3: Gaps *)
    [ [1;1;0;1;1;1;0;1;1]; [1;1;0;1;1;1;0;1;1]; [1;1;0;1;1;1;0;1;1];
      [1;1;0;1;1;1;0;1;1]; [1;1;0;1;1;1;0;1;1] ];
    (* Layout 4: Fortress *)
    [ [1;1;1;1;1;1;1;1;1]; [1;0;0;1;0;1;0;0;1]; [1;1;1;1;1;1;1;1;1];
      [1;0;1;0;0;0;1;0;1]; [1;1;1;1;1;1;1;1;1] ];
    (* Layout 5: Sparse *)
    [ [1;0;1;0;1;0;1;0;1]; [0;1;0;1;0;1;0;1;0]; [1;0;1;0;1;0;1;0;1];
      [0;1;0;1;0;1;0;1;0]; [1;0;1;0;1;0;1;0;1] ] ]%nat.

Definition INITIAL_LIVES : Z := 3.
Definition POINTS_PER_BRICK : nat := 10.

(** [GOLDEN_BRICK_ROULETTE_CHANCES]. *)
Definition CHANCE_JACKPOT : R := 0.25.
Definition CHANCE_POWER_BALL : R := 0.35.
Definition CHANCE_DUD : R := 0.4.
Definition POWER_BALL_DURATION : nat := 240.

Definition AI_STUCK_FRAMES_THRESHOLD : nat := 180.
Definition AI_POWER_SHOT_MULTIPLIER : R := 7.
Definition AI_RECOVERY_FRAMES : nat := 90.
Definition AI_LOOP_DETECTION_HISTORY_LENGTH : nat := 60.
Definition AI_LOOP_DETECTION_BOX_SIZE : R := BALL_RADIUS * 6.

End Constants.
Export Constants.

(** ** types.ts *)

Local Open Scope R_scope.

Record Ball := mkBall {
  ball_x : R;
  ball_y : R;
  ball_dx : R;
  ball_dy : R;
  ball_radius : R;
  isPowerBall : bool;
  powerBallTimer : nat
}.

Record Paddle := mkPaddle {
  paddle_x : R;
  paddle_width : R;
  paddle_height : R
}.

(** [status]: [true] for 1 (visible), [false] for 0 (broken). *)
Record Brick := mkBrick {
  brick_x : R;
  brick_y : R;
  status : bool;
  isGolden : bool
}.

(** ** The refs of one [Game] instance

    One field per mutable ref of the component that the engine reads or
    writes, plus the two React state flags [isWinning] and [isLosing]. *)

Record State := mkState {
  ball : Ball;
  paddle : Paddle;
  prevPaddleX : R;
  paddleVelocity : R;
  bricks : list (list Brick);
  score : nat;
  lives : Z;
  isPowerShotMode : bool;
  frameCounter : nat;
  lastBrickBreakFrame : nat;
  ballPositionHistory : list (R * R);
  recoveringFromStuckCounter : nat;
  isStuck : bool;
  productiveHits : nat;
  nonProductiveHits : nat;
  dynamicAggressionFactor : R;
  jackpotsThisGame : nat;
  isWinning : bool;
  isLosing : bool
}.

Definition set_ball (v : Ball) (s : State) : State :=
  mkState v (paddle s) (prevPaddleX s) (paddleVelocity s) (bricks s) (score s) (lives s) (isPowerShotMode s) (frameCounter s) (lastBrickBreakFrame s) (ballPositionHistory s) (recoveringFromStuckCounter s) (isStuck s) (productiveHits s) (nonProductiveHits s) (dynamicAggressionFactor s) (jackpotsThisGame s) (isWinning s) (isLosing s).
Definition set_paddle (v : Paddle) (s : State) : State :=
  mkState (ball s) v (prevPaddleX s) (paddleVelocity s) (bricks s) (score s) (lives s) (isPowerShotMode s) (frameCounter s) (lastBrickBreakFrame s) (ballPositionHistory s) (recoveringFromStuckCounter s) (isStuck s) (productiveHits s) (nonProductiveHits s) (dynamicAggressionFactor s) (jackpotsThisGame s) (isWinning s) (isLosing s).
Definition set_prevPaddleX (v : R) (s : State) : State :=
  mkState (ball s) (paddle s) v (paddleVelocity s) (bricks s) (score s) (lives s) (isPowerShotMode s) (frameCounter s) (lastBrickBreakFrame s) (ballPositionHistory s) (recoveringFromStuckCounter s) (isStuck s) (productiveHits s) (nonProductiveHits s) (dynamicAggressionFactor s) (jackpotsThisGame s) (isWinning s) (isLosing s).
Definition set_paddleVelocity (v : R) (s : State) : State :=
  mkState (ball s) (paddle s) (prevPaddleX s) v (bricks s) (score s) (lives s) (isPowerShotMode s) (frameCounter s) (lastBrickBreakFrame s) (ballPositionHistory s) (recoveringFromStuckCounter s) (isStuck s) (productiveHits s) (nonProductiveHits s) (dynamicAggressionFactor s) (jackpotsThisGame s) (isWinning s) (isLosing s).
Definition set_bricks (v : list (list Brick)) (s : State) : State :=
  mkState (ball s) (paddle s) (prevPaddleX s) (paddleVelocity s) v (score s) (lives s) (isPowerShotMode s) (frameCounter s) (lastBrickBreakFrame s) (ballPositionHistory s) (recoveringFromStuckCounter s) (isStuck s) (productiveHits s) (nonProductiveHits s) (dynamicAggressionFactor s) (jackpotsThisGame s) (isWinning s) (isLosing s).
Definition set_score (v : nat) (s : State) : State :=
  mkState (ball s) (paddle s) (prevPaddleX s) (paddleVelocity s) (bricks s) v (lives s) (isPowerShotMode s) (frameCounter s) (lastBrickBreakFrame s) (ballPositionHistory s) (recoveringFromStuckCounter s) (isStuck s) (productiveHits s) (nonProductiveHits s) (dynamicAggressionFactor s) (jackpotsThisGame s) (isWinning s) (isLosing s).
Definition set_lives (v : Z) (s : State) : State :=
  mkState (ball s) (paddle s) (prevPaddleX s) (paddleVelocity s) (bricks s) (score s) v (isPowerShotMode s) (frameCounter s) (lastBrickBreakFrame s) (ballPositionHistory s) (recoveringFromStuckCounter s) (isStuck s) (productiveHits s) (nonProductiveHits s) (dynamicAggressionFactor s) (jackpotsThisGame s) (isWinning s) (isLosing s).
Definition set_isPowerShotMode (v : bool) (s : State) : State :=
  mkState (ball s) (paddle s) (prevPaddleX s) (paddleVelocity s) (bricks s) (score s) (lives s) v (frameCounter s) (lastBrickBreakFrame s) (ballPositionHistory s) (recoveringFromStuckCounter s) (isStuck s) (productiveHits s) (nonProductiveHits s) (dynamicAggressionFactor s) (jackpotsThisGame s) (isWinning s) (isLosing s).
Definition set_frameCounter (v : nat) (s : State) : State :=
  mkState (ball s) (paddle s) (prevPaddleX s) (paddleVelocity s) (bricks s) (score s) (lives s) (isPowerShotMode s) v (lastBrickBreakFrame s) (ballPositionHistory s) (recoveringFromStuckCounter s) (isStuck s) (productiveHits s) (nonProductiveHits s) (dynamicAggressionFactor s) (jackpotsThisGame s) (isWinning s) (isLosing s).
Definition set_lastBrickBreakFrame (v : nat) (s : State) : State :=
  mkState (ball s) (paddle s) (prevPaddleX s) (paddleVelocity s) (bricks s) (score s) (lives s) (isPowerShotMode s) (frameCounter s) v (ballPositionHistory s) (recoveringFromStuckCounter s) (isStuck s) (productiveHits s) (nonProductiveHits s) (dynamicAggressionFactor s) (jackpotsThisGame s) (isWinning s) (isLosing s).
Definition set_ballPositionHistory (v : list (R * R)) (s : State) : State :=
  mkState (ball s) (paddle s) (prevPaddleX s) (paddleVelocity s) (bricks s) (score s) (lives s) (isPowerShotMode s) (frameCounter s) (lastBrickBreakFrame s) v (recoveringFromStuckCounter s) (isStuck s) (productiveHits s) (nonProductiveHits s) (dynamicAggressionFactor s) (jackpotsThisGame s) (isWinning s) (isLosing s).
Definition set_recoveringFromStuckCounter (v : nat) (s : State) : State :=
  mkState (ball s) (paddle s) (prevPaddleX s) (paddleVelocity s) (bricks s) (score s) (lives s) (isPowerShotMode s) (frameCounter s) (lastBrickBreakFrame s) (ballPositionHistory s) v (isStuck s) (productiveHits s) (nonProductiveHits s) (dynamicAggressionFactor s) (jackpotsThisGame s) (isWinning s) (isLosing s).
Definition set_isStuck (v : bool) (s : State) : State :=
  mkState (ball s) (paddle s) (prevPaddleX s) (paddleVelocity s) (bricks s) (score s) (lives s) (isPowerShotMode s) (frameCounter s) (lastBrickBreakFrame s) (ballPositionHistory s) (recoveringFromStuckCounter s) v (productiveHits s) (nonProductiveHits s) (dynamicAggressionFactor s) (jackpotsThisGame s) (isWinning s) (isLosing s).
Definition set_productiveHits (v : nat) (s : State) : State :=
  mkState (ball s) (paddle s) (prevPaddleX s) (paddleVelocity s) (bricks s) (score s) (lives s) (isPowerShotMode s) (frameCounter s) (lastBrickBreakFrame s) (ballPositionHistory s) (recoveringFromStuckCounter s) (isStuck s) v (nonProductiveHits s) (dynamicAggressionFactor s) (jackpotsThisGame s) (isWinning s) (isLosing s).
Definition set_nonProductiveHits (v : nat) (s : State) : State :=
  mkState (ball s) (paddle s) (prevPaddleX s) (paddleVelocity s) (bricks s) (score s) (lives s) (isPowerShotMode s) (frameCounter s) (lastBrickBreakFrame s) (ballPositionHistory s) (recoveringFromStuckCounter s) (isStuck s) (productiveHits s) v (dynamicAggressionFactor s) (jackpotsThisGame s) (isWinning s) (isLosing s).
Definition set_dynamicAggressionFactor (v : R) (s : State) : State :=
  mkState (ball s) (paddle s) (prevPaddleX s) (paddleVelocity s) (bricks s) (score s) (lives s) (isPowerShotMode s) (frameCounter s) (lastBrickBreakFrame s) (ballPositionHistory s) (recoveringFromStuckCounter s) (isStuck s) (productiveHits s) (nonProductiveHits s) v (jackpotsThisGame s) (isWinning s) (isLosing s).
Definition set_jackpotsThisGame (v : nat) (s : State) : State :=
  mkState (ball s) (paddle s) (prevPaddleX s) (paddleVelocity s) (bricks s) (score s) (lives s) (isPowerShotMode s) (frameCounter s) (lastBrickBreakFrame s) (ballPositionHistory s) (recoveringFromStuckCounter s) (isStuck s) (productiveHits s) (nonProductiveHits s) (dynamicAggressionFactor s) v (isWinning s) (isLosing s).
Definition set_isWinning (v : bool) (s : State) : State :=
  mkState (ball s) (paddle s) (prevPaddleX s) (paddleVelocity s) (bricks s) (score s) (lives s) (isPowerShotMode s) (frameCounter s) (lastBrickBreakFrame s) (ballPositionHistory s) (recoveringFromStuckCounter s) (isStuck s) (productiveHits s) (nonProductiveHits s) (dynamicAggressionFactor s) (jackpotsThisGame s) v (isLosing s).
Definition set_isLosing (v : bool) (s : State) : State :=
  mkState (ball s) (paddle s) (prevPaddleX s) (paddleVelocity s) (bricks s) (score s) (lives s) (isPowerShotMode s) (frameCounter s) (lastBrickBreakFrame s) (ballPositionHistory s) (recoveringFromStuckCounter s) (isStuck s) (productiveHits s) (nonProductiveHits s) (dynamicAggressionFactor s) (jackpotsThisGame s) (isWinning s) v.

Definition set_ball_x (v : R) (b : Ball) : Ball :=
  mkBall v (ball_y b) (ball_dx b) (ball_dy b) (ball_radius b) (isPowerBall b) (powerBallTimer b).
Definition set_ball_y (v : R) (b : Ball) : Ball :=
  mkBall (ball_x b) v (ball_dx b) (ball_dy b) (ball_radius b) (isPowerBall b) (powerBallTimer b).
Definition set_ball_dx (v : R) (b : Ball) : Ball :=
  mkBall (ball_x b) (ball_y b) v (ball_dy b) (ball_radius b) (isPowerBall b) (powerBallTimer b).
Definition set_ball_dy (v : R) (b : Ball) : Ball :=
  mkBall (ball_x b) (ball_y b) (ball_dx b) v (ball_radius b) (isPowerBall b) (powerBallTimer b).
Definition set_ball_radius (v : R) (b : Ball) : Ball :=
  mkBall (ball_x b) (ball_y b) (ball_dx b) (ball_dy b) v (isPowerBall b) (powerBallTimer b).
Definition set_isPowerBall (v : bool) (b : Ball) : Ball :=
  mkBall (ball_x b) (ball_y b) (ball_dx b) (ball_dy b) (ball_radius b) v (powerBallTimer b).
Definition set_powerBallTimer (v : nat) (b : Ball) : Ball :=
  mkBall (ball_x b) (ball_y b) (ball_dx b) (ball_dy b) (ball_radius b) (isPowerBall b) v.

(** The props of [Game] that the engine reads. *)
Record GameProps := mkProps {
  initialLives : Z;
  initialSkillLevel : R;
  isAIEnabled : bool
}.

(** ** Ball kinematics *)

(** [Math.sqrt(ball.dx ** 2 + ball.dy ** 2)]. *)
Definition speedOf (b : Ball) : R := sqrt (ball_dx b ^ 2 + ball_dy b ^ 2).

(** [ball.dx *= scale; ball.dy *= scale]. *)
Definition scaleVelocity (scale : R) (b : Ball) : Ball :=
  set_ball_dy (ball_dy b * scale) (set_ball_dx (ball_dx b * scale) b).

(** [draw], "Apply friction and clamp ball speed". *)
Definition frictionClamp (b : Ball) : Ball :=
  let b := scaleVelocity BALL_FRICTION b in
  let speed := speedOf b in
  if bool_decide (speed < MIN_BALL_SPEED) && bool_decide (speed > 0)
  then scaleVelocity (MIN_BALL_SPEED / speed) b
  else b.

(** [draw], the position update and the friction step of an active match. *)
Definition moveBall (b : Ball) : Ball :=
  let b := set_ball_x (ball_x b + ball_dx b) b in
  let b := set_ball_y (ball_y b + ball_dy b) b in
  frictionClamp b.

(** [draw], the power-ball countdown at the head of the frame. *)
Definition powerBallTick (b : Ball) : Ball :=
  match powerBallTimer b with
  | O => b
  | S t =>
      let b := set_powerBallTimer t b in
      match t with
      | O =>
          let b := set_isPowerBall false b in
          let speed := speedOf b in
          if bool_decide (speed > MAX_BALL_SPEED * 0.8)
          then scaleVelocity ((MIN_BALL_SPEED + 2) / speed) b
          else b
      | S _ => b
      end
  end.

(** ** GoldenBrickResolver *)

Inductive Outcome := JACKPOT | POWER_BALL | DUD.

#[global] Instance Outcome_eq_dec : EqDecision Outcome.
Proof. solve_decision. Defined.

(** [handleGoldenBrick], the roulette: [cumulative] starts at 0 and each
    test adds one chance to it before comparing. *)
Definition rouletteOutcome (rand : R) : Outcome :=
  let cumulative := 0 in
  let cumulative := cumulative + CHANCE_JACKPOT in
  if bool_decide (rand < cumulative) then JACKPOT
  else
    let cumulative := cumulative + CHANCE_POWER_BALL in
    if bool_decide (rand < cumulative) then POWER_BALL else DUD.

(** ** BrickField *)

(** [bricksRef.current[c][r]]; [None] is JavaScript's [undefined]. *)
Definition getBrick (g : list (list Brick)) (c r : nat) : option Brick :=
  col ← g !! c; col !! r.

(** Assignment through the reference [bricksRef.current[c][r]]. *)
Definition setBrick (c r : nat) (b : Brick) (g : list (list Brick))
  : list (list Brick) :=
  match g !! c with
  | Some col => <[c := <[r := b]> col]> g
  | None => g
  end.

Definition set_status (v : bool) (b : Brick) : Brick :=
  mkBrick (brick_x b) (brick_y b) v (isGolden b).

(** The order in which the nested loops [for c ... for r ...] visit cells. *)
Definition scanOrder : list (nat * nat) :=
  c ← seq 0 BRICK_COLUMN_COUNT; r ← seq 0 BRICK_ROW_COUNT; [(c, r)].

(** [createBricks]: cell (c, r) is alive iff [layout[r]?.[c] === 1]; the
    brick at position [goldenIndex] of [availableBricks] becomes golden.
    [layout] and [goldenIndex] stand for the two [Math.random] draws. *)
Definition hasBrick (layout : list (list nat)) (c r : nat) : bool :=
  match layout !! r ≫= (.!! c) with
  | Some 1%nat => true
  | _ => false
  end.

Definition availableBricks (layout : list (list nat)) : list (nat * nat) :=
  filter (λ cr, hasBrick layout cr.1 cr.2 = true) scanOrder.

Definition createBricks (layout : list (list nat)) (goldenIndex : nat)
  : list (list Brick) :=
  let newBricks :=
    (λ c, (λ r, mkBrick 0 0 (hasBrick layout c r) false)
            <$> seq 0 BRICK_ROW_COUNT) <$> seq 0 BRICK_COLUMN_COUNT in
  match availableBricks layout !! goldenIndex with
  | Some (c, r) =>
      match getBrick newBricks c r with
      | Some b => setBrick c r (mkBrick (brick_x b) (brick_y b) (status b) true) newBricks
      | None => newBricks
      end
  | None => newBricks
  end.

(** [drawBricks], the part with an effect on the engine: every visible brick
    gets its pixel position. *)
Definition placeBrick (c r : nat) (b : Brick) : Brick :=
  if status b
  then mkBrick (INR c * (BRICK_WIDTH + BRICK_PADDING) + BRICK_OFFSET_LEFT)
               (INR r * (BRICK_HEIGHT + BRICK_PADDING) + BRICK_OFFSET_TOP)
               (status b) (isGolden b)
  else b.

Definition drawBricks (g : list (list Brick)) : list (list Brick) :=
  imap (λ c col, imap (λ r b, placeBrick c r b) col) g.

(** ** Sequencing with JavaScript exceptions

    Reading a property of [undefined] throws; the engine never catches, so a
    throw ends the frame.  [None] is a thrown [TypeError]. *)
Fixpoint forEach {A S : Type} (f : A → S → option S) (l : list A) (s : S)
  : option S :=
  match l with
  | [] => Some s
  | a :: l => s' ← f a s; forEach f l s'
  end.

(** [bricksRef.current[c][row]] for a row computed by [Math.round]. *)
Definition getBrickZ (g : list (list Brick)) (c : nat) (row : Z) : option Brick :=
  if bool_decide (row < 0)%Z then None else getBrick g c (Z.to_nat row).

(** [handleGoldenBrick], one turn of the JACKPOT loop over the columns. *)
Definition jackpotColumn (row : Z) (c : nat) (s : State) : option State :=
  b ← getBrickZ (bricks s) c row;
  if status b
  then Some (set_productiveHits (S (productiveHits s))
            (set_score (score s + POINTS_PER_BRICK)%nat
            (set_bricks (setBrick c (Z.to_nat row) (set_status false b) (bricks s)) s)))
  else Some s.

(** [handleGoldenBrick]. *)
Definition handleGoldenBrick (rand : R) (brick : Brick) (s : State) : option State :=
  match rouletteOutcome rand with
  | JACKPOT =>
      let s := set_jackpotsThisGame (S (jackpotsThisGame s)) s in
      let row := Math_round ((brick_y brick - BRICK_OFFSET_TOP)
                             / (BRICK_HEIGHT + BRICK_PADDING)) in
      forEach (jackpotColumn row) (seq 0 BRICK_COLUMN_COUNT) s
  | POWER_BALL =>
      let b := set_powerBallTimer POWER_BALL_DURATION (set_isPowerBall true (ball s)) in
      let speed := speedOf b in
      let scale := (speed + 2) / speed in
      Some (set_ball (scaleVelocity scale b) s)
  | DUD =>
      let speed := speedOf (ball s) in
      let scale := MAX_BALL_SPEED / speed in
      Some (set_ball (scaleVelocity scale (ball s)) s)
  end.

(** ** PhysicsEngine: [collisionDetection] *)

(** The locals of [collisionDetection] that live across the brick loops,
    together with the refs; [draws] counts the calls of [Math.random] made
    by the resolver so far in this frame. *)
Record Scan := mkScan {
  sc_state : State;
  totalLayoutBricks : nat;
  brokenBricks : nat;
  collisionDetectedThisFrame : bool;
  draws : nat
}.

(** [distanceSquared < ball.radius * ball.radius] for the closest point of
    the brick's rectangle. *)
Definition overlaps (bl : Ball) (b : Brick) : bool :=
  let closestX := Rmax (brick_x b) (Rmin (ball_x bl) (brick_x b + BRICK_WIDTH)) in
  let closestY := Rmax (brick_y b) (Rmin (ball_y bl) (brick_y b + BRICK_HEIGHT)) in
  let distanceSquared := (ball_x bl - closestX) ^ 2 + (ball_y bl - closestY) ^ 2 in
  bool_decide (distanceSquared < ball_radius bl * ball_radius bl).

(** The bounce of a ball that is not a power ball: face hit or edge hit. *)
Definition bounceOffBrick (b : Brick) (bl : Ball) : Ball :=
  let prevY := ball_y bl - ball_dy bl in
  let wasVerticallyClear :=
    bool_decide (prevY + ball_radius bl <= brick_y b)
    || bool_decide (prevY - ball_radius bl >= brick_y b + BRICK_HEIGHT) in
  if wasVerticallyClear then set_ball_dy (- ball_dy bl) bl
  else set_ball_dx (- ball_dx bl) bl.

(** What a registered hit does to the refs before the resolver runs. *)
Definition breakBrick (props : GameProps) (c r : nat) (b : Brick) (s : State) : State :=
  set_lastBrickBreakFrame (frameCounter s)
  (set_dynamicAggressionFactor
     (Rmin 1.5 (dynamicAggressionFactor s + 0.05 * initialSkillLevel props))
  (set_productiveHits (S (productiveHits s))
  (set_score (score s + POINTS_PER_BRICK)%nat
  (set_bricks (setBrick c r (set_status false b) (bricks s)) s)))).

(** The body of [if (distanceSquared < ... && !collisionDetectedThisFrame)]
    after the one-hit flag: break the brick, run the resolver on a golden
    one, bounce unless the ball is (by now) a power ball. *)
Definition registerHit (props : GameProps) (rand : R) (c r : nat) (b : Brick)
    (s : State) : option State :=
  let s := breakBrick props c r b s in
  s ← (if isGolden b then handleGoldenBrick rand b s else Some s);
  Some (if negb (isPowerBall (ball s))
        then set_ball (bounceOffBrick b (ball s)) s else s).

(** The body of the two nested loops for cell (c, r). *)
Definition visitBrick (props : GameProps) (rnd : nat → R) (cr : nat * nat) (sc : Scan)
  : option Scan :=
  let '(c, r) := cr in
  let s := sc_state sc in
  b ← getBrick (bricks s) c r;
  if negb (status b) && bool_decide (brick_x b = 0) && bool_decide (brick_y b = 0)
  then Some sc
  else
    let total := S (totalLayoutBricks sc) in
    if negb (status b)
    then Some (mkScan s total (S (brokenBricks sc)) (collisionDetectedThisFrame sc) (draws sc))
    else if overlaps (ball s) b && negb (collisionDetectedThisFrame sc)
    then
      let detected :=
        if negb (isPowerBall (ball s)) then true else collisionDetectedThisFrame sc in
      s' ← registerHit props (rnd (draws sc)) c r b s;
      Some (mkScan s' total (brokenBricks sc) detected
                   (if isGolden b then S (draws sc) else draws sc))
    else Some (mkScan s total (brokenBricks sc) (collisionDetectedThisFrame sc) (draws sc)).

Definition scanBricks (props : GameProps) (rnd : nat → R) (s : State) : option Scan :=
  forEach (visitBrick props rnd) scanOrder (mkScan s 0 0 false 0).

(** Side walls, then the top wall. *)
Definition wallPenalty (props : GameProps) (s : State) : State :=
  set_dynamicAggressionFactor
    (Rmax 0.5 (dynamicAggressionFactor s - 0.02 * initialSkillLevel props))
  (set_nonProductiveHits (S (nonProductiveHits s)) s).

Definition sideWalls (props : GameProps) (s : State) : State :=
  let bl := ball s in
  if bool_decide (ball_x bl + ball_radius bl > CANVAS_WIDTH)
  then wallPenalty props
         (set_ball (set_ball_dx (- ball_dx bl)
                   (set_ball_x (CANVAS_WIDTH - ball_radius bl) bl)) s)
  else if bool_decide (ball_x bl - ball_radius bl < 0)
  then wallPenalty props
         (set_ball (set_ball_dx (- ball_dx bl) (set_ball_x (ball_radius bl) bl)) s)
  else s.

Definition topWall (props : GameProps) (s : State) : State :=
  let bl := ball s in
  if bool_decide (ball_y bl - ball_radius bl < 0)
  then wallPenalty props
         (set_ball (set_ball_dy (- ball_dy bl) (set_ball_y (ball_radius bl) bl)) s)
  else s.

Definition paddleTopY : R := CANVAS_HEIGHT - PADDLE_Y_OFFSET - PADDLE_HEIGHT.

(** The guard of the paddle branch. *)
Definition touchesPaddle (s : State) : bool :=
  let bl := ball s in
  let p := paddle s in
  bool_decide (ball_dy bl > 0)
  && bool_decide (ball_y bl + ball_radius bl >= paddleTopY)
  && bool_decide (ball_y bl - ball_dy bl < paddleTopY)
  && bool_decide (ball_x bl > paddle_x p)
  && bool_decide (ball_x bl < paddle_x p + paddle_width p).

(** The paddle branch: reflection, spin, flick shot, minimum sideways speed. *)
Definition paddleBounce (s : State) : State :=
  let bl := ball s in
  let p := paddle s in
  let s := if isStuck s then set_isStuck false s else s in
  let bl := set_ball_dy (- ball_dy bl) (set_ball_y (paddleTopY - ball_radius bl) bl) in
  let collidePoint :=
    (ball_x bl - (paddle_x p + paddle_width p / 2)) / (paddle_width p / 2) in
  let spinFromVelocity := paddleVelocity s * PADDLE_VELOCITY_SPIN_FACTOR in
  let spin :=
    collidePoint * (if isPowerShotMode s then AI_POWER_SHOT_MULTIPLIER
                    else PADDLE_SPIN_FACTOR) in
  let flick := bool_decide (Rabs collidePoint > 0.85) in
  let spin := if flick then spin * PADDLE_EDGE_BOOST else spin in
  let bl := if flick then set_ball_dy (ball_dy bl * PADDLE_FLICK_SPEED_BONUS) bl else bl in
  let bl := set_ball_dx (spin + spinFromVelocity) bl in
  let bl := if bool_decide (Rabs (ball_dx bl) < 0.2)
            then set_ball_dx (Math_sign (orElse (ball_dx bl) 1) * 0.5) bl else bl in
  set_isPowerShotMode false (set_ball bl s).

Definition paddleCollision (s : State) : State :=
  if touchesPaddle s then paddleBounce s else s.

(** [resetBallAndPaddle]; [rand] is its [Math.random] draw. *)
Definition resetBallAndPaddle (rand : R) (s : State) : State :=
  let bl :=
    mkBall (CANVAS_WIDTH / 2)
           (CANVAS_HEIGHT - PADDLE_Y_OFFSET - PADDLE_HEIGHT - BALL_RADIUS)
           (BALL_SPEED_X * (if bool_decide (rand > 0.5) then 1 else -1))
           BALL_SPEED_Y (ball_radius (ball s)) false 0 in
  let p := mkPaddle ((CANVAS_WIDTH - PADDLE_WIDTH) / 2)
                    (paddle_width (paddle s)) (paddle_height (paddle s)) in
  set_paddle p (set_ball bl s).

(** The floor: a life is lost; the last one ends the match. *)
Definition floorCheck (rand : R) (s : State) : State :=
  let bl := ball s in
  if bool_decide (ball_y bl - ball_radius bl > CANVAS_HEIGHT)
  then
    let s := set_lives (lives s - 1)%Z s in
    if bool_decide (lives s = 0%Z) then set_isLosing true s
    else resetBallAndPaddle rand s
  else s.

(** The values one frame takes from outside the physics engine: the draws
    of [Math.random] and, when the AI is enabled, what the decision layer
    of [draw] settles on (the point the paddle centre is eased towards with
    its jitter, the easing rate, and whether a power shot is armed). *)
Record FrameInput := mkInput {
  aiTargetX : R;
  aiEasing : R;
  aiPowerShot : bool;
  goldenDraws : nat → R;
  resetDraw : R
}.

(** [collisionDetection]: bricks, win test, walls, paddle, floor. *)
Definition collisionDetection (props : GameProps) (inp : FrameInput) (s : State)
  : option State :=
  sc ← scanBricks props (goldenDraws inp) s;
  let s := sc_state sc in
  if bool_decide (0 < totalLayoutBricks sc)%nat
     && bool_decide (brokenBricks sc = totalLayoutBricks sc)
     && negb (isWinning s)
  then Some (set_isWinning true s)
  else Some (floorCheck (resetDraw inp)
            (paddleCollision (topWall props (sideWalls props s)))).

(** ** LoopDetector *)

(** [Math.min(...l)] and [Math.max(...l)] on a non-empty list. *)
Definition listMin (l : list R) : R :=
  match l with [] => 0 | a :: l => foldl Rmin a l end.
Definition listMax (l : list R) : R :=
  match l with [] => 0 | a :: l => foldl Rmax a l end.

(** [push] then, past the history length, [shift]. *)
Definition pushHistory (p : R * R) (h : list (R * R)) : list (R * R) :=
  let h := h ++ [p] in
  if bool_decide (AI_LOOP_DETECTION_HISTORY_LENGTH < length h)%nat then tail h else h.

(** The test that declares the ball stuck, on the refreshed history. *)
Definition loopDetected (s : State) : bool :=
  let history := ballPositionHistory s in
  negb (isStuck s)
  && bool_decide (recoveringFromStuckCounter s = 0%nat)
  && bool_decide (length history = AI_LOOP_DETECTION_HISTORY_LENGTH)
  && (let minX := listMin (fst <$> history) in
      let maxX := listMax (fst <$> history) in
      let minY := listMin (snd <$> history) in
      let maxY := listMax (snd <$> history) in
      let framesSinceLastBreak :=
        (Z.of_nat (frameCounter s) - Z.of_nat (lastBrickBreakFrame s))%Z in
      bool_decide (framesSinceLastBreak > Z.of_nat AI_STUCK_FRAMES_THRESHOLD)%Z
      && bool_decide (maxX - minX < AI_LOOP_DETECTION_BOX_SIZE)
      && bool_decide (maxY - minY < AI_LOOP_DETECTION_BOX_SIZE)).

(** Raising "stuck": flag, cooldown, fresh history. *)
Definition raiseStuck (s : State) : State :=
  set_ballPositionHistory []
  (set_recoveringFromStuckCounter AI_RECOVERY_FRAMES (set_isStuck true s)).

(** [draw], "Loop Detection". *)
Definition loopDetection (s : State) : State :=
  let s := set_ballPositionHistory
             (pushHistory (ball_x (ball s), ball_y (ball s)) (ballPositionHistory s)) s in
  if loopDetected s then raiseStuck s else s.

(** ** PaddleController *)

(** [draw], step 5 of the AI block, after the decision layer has set the
    power-shot flag. *)
Definition aiMove (inp : FrameInput) (s : State) : State :=
  let p := paddle s in
  let x := paddle_x p
           + (aiTargetX inp - (paddle_x p + paddle_width p / 2)) * aiEasing inp in
  let x := Rmax 0 (Rmin (CANVAS_WIDTH - paddle_width p) x) in
  set_paddle (mkPaddle x (paddle_width p) (paddle_height p))
    (set_isPowerShotMode (aiPowerShot inp) s).

(** ** One frame: [draw] on an active canvas *)

(** The head of the frame: counters, power-ball countdown, paddle velocity,
    brick positions. *)
Definition frameHead (s : State) : State :=
  let s := set_frameCounter (S (frameCounter s)) s in
  let s := set_recoveringFromStuckCounter (pred (recoveringFromStuckCounter s)) s in
  let s := set_ball (powerBallTick (ball s)) s in
  let s := set_paddleVelocity (paddle_x (paddle s) - prevPaddleX s) s in
  let s := set_prevPaddleX (paddle_x (paddle s)) s in
  set_bricks (drawBricks (bricks s)) s.

(** The state in which the detector runs. *)
Definition beforeDetection (props : GameProps) (inp : FrameInput) (s : State) : State :=
  let s := frameHead s in
  if isAIEnabled props then aiMove inp s else s.

(** The state in which [collisionDetection] runs, for an active match. *)
Definition beforeCollision (props : GameProps) (inp : FrameInput) (s : State) : State :=
  let s := loopDetection (beforeDetection props inp s) in
  set_ball (moveBall (ball s)) s.

Definition draw (props : GameProps) (inp : FrameInput) (s : State) : option State :=
  let s' := loopDetection (beforeDetection props inp s) in
  if negb (isWinning s') && negb (isLosing s')
  then collisionDetection props inp (beforeCollision props inp s)
  else Some s'.

(** ** A match *)

(** The random choices made when a match starts. *)
Record MatchSetup := mkSetup {
  layout : list (list nat);
  goldenIndex : nat;
  serveDraw : R
}.

(** The refs after the initialising effect. *)
Definition initialState (props : GameProps) (m : MatchSetup) : State :=
  let s :=
    mkState (mkBall (CANVAS_WIDTH / 2)
                    (CANVAS_HEIGHT - PADDLE_Y_OFFSET - PADDLE_HEIGHT - BALL_RADIUS)
                    BALL_SPEED_X BALL_SPEED_Y BALL_RADIUS false 0)
            (mkPaddle ((CANVAS_WIDTH - PADDLE_WIDTH) / 2) PADDLE_WIDTH PADDLE_HEIGHT)
            ((CANVAS_WIDTH - PADDLE_WIDTH) / 2) 0
            (createBricks (layout m) (goldenIndex m))
            0 (initialLives props) false 0 0 [] 0 false 0 0 1.0 0 false false in
  resetBallAndPaddle (serveDraw m) s.

(** The state after [n] frames; [inputs k] feeds frame [k]. *)
Fixpoint run (props : GameProps) (m : MatchSetup) (inputs : nat → FrameInput) (n : nat)
  : option State :=
  match n with
  | O => Some (initialState props m)
  | S k => s ← run props m inputs k; draw props (inputs k) s
  end.

(** * Predicates of the statements, and worked states *)

(** The refs that no statement of the brick loops or of the resolver
    assigns. *)
Definition besideBricks (s : State) :=
  (paddle s, prevPaddleX s, paddleVelocity s, lives s, isPowerShotMode s,
   frameCounter s, ballPositionHistory s, recoveringFromStuckCounter s,
   isStuck s, nonProductiveHits s, isWinning s, isLosing s,
   ball_x (ball s), ball_y (ball s), ball_radius (ball s)).

(** The shape [createBricks] builds: nine columns of five cells. *)
Definition gridOK (g : list (list Brick)) : Prop :=
  ∀ c r, is_Some (getBrick g c r)
         ↔ (c < BRICK_COLUMN_COUNT ∧ r < BRICK_ROW_COUNT)%nat.

(** Every visible brick carries the pixel position [drawBricks] gives it. *)
Definition placed (g : list (list Brick)) : Prop :=
  ∀ c r b, getBrick g c r = Some b → status b = true →
    brick_x b = INR c * (BRICK_WIDTH + BRICK_PADDING) + BRICK_OFFSET_LEFT
    ∧ brick_y b = INR r * (BRICK_HEIGHT + BRICK_PADDING) + BRICK_OFFSET_TOP.

(** Is cell (c, r) a visible brick? *)
Definition cellAlive (g : list (list Brick)) (c r : nat) : bool :=
  match getBrick g c r with Some b => status b | None => false end.

(** The visible bricks of row [r] among the columns [cs]. *)
Definition aliveInRow (g : list (list Brick)) (r : nat) (cs : list nat) : nat :=
  length (filter (λ c, cellAlive g c r = true) cs).

(** What the engine relies on when it scans: the grid has its shape and
    the visible bricks have been drawn. *)
Definition fieldOK (s : State) : Prop := gridOK (bricks s) ∧ placed (bricks s).

(** The cells a hit on brick [b] of cell (c, r) breaks when the roulette
    draw is [rand]: the cell itself and, on a golden JACKPOT, its row. *)
Definition brokenByHit (rand : R) (c r : nat) (b : Brick) (c' r' : nat) : bool :=
  bool_decide ((c', r') = (c, r))
  || (isGolden b && bool_decide (rouletteOutcome rand = JACKPOT)
      && bool_decide (r' = r)).

(** [g'] is [g] with the cells of [D] broken. *)
Definition breaks (D : nat → nat → bool) (g g' : list (list Brick)) : Prop :=
  ∀ c r, getBrick g' c r =
    if D c r then set_status false <$> getBrick g c r else getBrick g c r.

(** Does the ball register on cell [cr] of grid [g]?  The cell holds a
    visible brick whose rectangle comes within the ball's radius. *)
Definition hitCell (bl : Ball) (g : list (list Brick)) (cr : nat * nat) : bool :=
  match getBrick g cr.1 cr.2 with
  | Some b => status b && overlaps bl b
  | None => false
  end.

(** The first cell, in scan order, on which the ball registers. *)
Definition firstHit (bl : Ball) (g : list (list Brick)) : option (nat * nat) :=
  List.find (hitCell bl g) scanOrder.

(** Has cell [cr] ever been drawn?  These are the cells the win test counts. *)
Definition wasDrawn (g : list (list Brick)) (cr : nat * nat) : bool :=
  match getBrick g cr.1 cr.2 with
  | Some b => negb (negb (status b) && bool_decide (brick_x b = 0)
                    && bool_decide (brick_y b = 0))
  | None => false
  end.

(** No visible brick is golden. *)
Definition noGolden (g : list (list Brick)) : Prop :=
  ∀ c r b, getBrick g c r = Some b → status b = true → isGolden b = false.

(** A match is over once either flag is up. *)
Definition terminal (s : State) : bool := isWinning s || isLosing s.

(** What the stages before [collisionDetection] leave alone. *)
Definition besideHead (s : State) :=
  (score s, lives s, productiveHits s, nonProductiveHits s,
   dynamicAggressionFactor s, jackpotsThisGame s, lastBrickBreakFrame s,
   isWinning s, isLosing s, paddle_width (paddle s), paddle_height (paddle s)).

(** The stages after the brick loops, for a match that goes on. *)
Definition afterBricks (props : GameProps) (inp : FrameInput) (s : State) : State :=
  floorCheck (resetDraw inp) (paddleCollision (topWall props (sideWalls props s))).

(** What the wall tests leave alone. *)
Definition besideWalls (s : State) :=
  (paddle s, bricks s, isWinning s, isLosing s, isStuck s, lives s,
   recoveringFromStuckCounter s, score s, productiveHits s).

(** What the paddle branch leaves alone. *)
Definition besidePaddle (s : State) :=
  (paddle s, bricks s, isWinning s, isLosing s, lives s,
   recoveringFromStuckCounter s, dynamicAggressionFactor s).

(** What the floor test leaves alone. *)
Definition besideFloor (s : State) :=
  (bricks s, isWinning s, isStuck s, recoveringFromStuckCounter s,
   dynamicAggressionFactor s, paddle_width (paddle s)).

(** The paddle has its width and lies within the field. *)
Definition paddleOK (s : State) : Prop :=
  paddle_width (paddle s) = PADDLE_WIDTH
  ∧ 0 <= paddle_x (paddle s) <= CANVAS_WIDTH - paddle_width (paddle s).

(** The ball has a horizontal velocity. *)
Definition sideways (s : State) : Prop := ball_dx (ball s) ≠ 0.

(** The confidence multiplier is within its bounds. *)
Definition confident (s : State) : Prop :=
  0.5 <= dynamicAggressionFactor s <= 1.5.

(** The refs when the detector's test runs in the frame that starts in [s]:
    after the head of the frame, the paddle move and the history update. *)
Definition atDetector (props : GameProps) (inp : FrameInput) (s : State) : State :=
  let s1 := beforeDetection props inp s in
  set_ballPositionHistory
    (pushHistory (ball_x (ball s1), ball_y (ball s1)) (ballPositionHistory s1)) s1.

(** Does the detector raise "stuck" in the frame that starts in [s]? *)
Definition raisesStuck (props : GameProps) (inp : FrameInput) (s : State) : bool :=
  loopDetected (atDetector props inp s).

(** Does the paddle branch of [collisionDetection] run in the frame that
    starts in [s]?  The match must be going on, the win test must fail, and
    the guard of the branch must hold after the walls. *)
Definition paddleContact (props : GameProps) (inp : FrameInput) (s : State) : bool :=
  negb (terminal s)
  && match scanBricks props (goldenDraws inp) (beforeCollision props inp s) with
     | Some sc =>
         negb (bool_decide (0 < totalLayoutBricks sc)%nat
               && bool_decide (brokenBricks sc = totalLayoutBricks sc))
         && touchesPaddle (topWall props (sideWalls props (sc_state sc)))
     | None => false
     end.

(** The first layout of [LEVEL_LAYOUTS], the solid wall. *)
Definition solidWall : list (list nat) := default [] (LEVEL_LAYOUTS !! 0%nat).

(** Breaking every brick outside [keep]. *)
Definition breakAllBut (keep : nat → nat → bool) (g : list (list Brick))
  : list (list Brick) :=
  imap (λ c col, imap (λ r b, if keep c r then b else set_status false b) col) g.

(** A drawn field on which only the bricks of [keep] are left. *)
Definition lateField (lay : list (list nat)) (k : nat) (keep : nat → nat → bool)
  : list (list Brick) :=
  breakAllBut keep (drawBricks (createBricks lay k)).

(** The brick such a field holds in cell (c, r). *)
Definition lateCell (lay : list (list nat)) (k : nat) (keep : nat → nat → bool)
    (c r : nat) : Brick :=
  let b := placeBrick c r
             (mkBrick 0 0 (hasBrick lay c r)
                (bool_decide (availableBricks lay !! k = Some (c, r)))) in
  if keep c r then b else set_status false b.

(** A match without the AI, three lives, skill 1. *)
Definition demoProps : GameProps := mkProps 3 1.0 false.

(** Frame inputs: every roulette draw is [roulette]. *)
Definition demoInput (roulette : R) : FrameInput :=
  mkInput 0 0 false (λ _, roulette) 0.7.

(** A state some way into a match: the paddle at rest in the middle,
    [broken] bricks broken so far. *)
Definition demoState (bl : Ball) (g : list (list Brick)) (broken : nat) : State :=
  mkState bl (mkPaddle 170 60 8) 170 0 g (POINTS_PER_BRICK * broken) 3 false
          200 150 [] 0 false broken 12 1.0 0 false false.

(** Only the brick of column 4, row 4 is left. *)
Definition keepLast (c r : nat) : bool := (c =? 4)%nat && (r =? 4)%nat.

(** The ball is about to reach that brick from below. *)
Definition lastBrickState : State :=
  demoState (mkBall 197 96 3 (-4) 5 false 0) (lateField solidWall 0 keepLast) 44.

(** Two bricks of row 2 are left, in columns 3 and 5. *)
Definition keepRowPair (c r : nat) : bool :=
  Nat.eqb r 2 && (Nat.eqb c 3 || Nat.eqb c 5).

(** The brick of column 3 is the golden one (the eighteenth cell of the
    solid wall in scan order); the ball, not a power ball, is about to touch
    it from below. *)
Definition goldenState : State :=
  demoState (mkBall 156 67 3 (-4) 5 false 0) (lateField solidWall 17 keepRowPair) 43.

(** Two neighbouring bricks of row 2 are left, in columns 3 and 4. *)
Definition keepNeighbours (c r : nat) : bool :=
  Nat.eqb r 2 && (Nat.eqb c 3 || Nat.eqb c 4).

(** A power ball is about to enter the gap between them. *)
Definition powerState : State :=
  demoState (mkBall 176.5 59 3 (-4) 5 true 100) (lateField solidWall 0 keepNeighbours) 43.

(** The ball comes down on the right end of the resting paddle. *)
Definition flickState : State :=
  demoState (mkBall 223 268 3 5 5 false 0) (lateField solidWall 0 keepLast) 44.

(** The solid wall as first drawn, its first brick golden and just broken. *)
Definition wallState : State :=
  demoState (mkBall 36 35 3 (-4) 5 false 0)
            (lateField solidWall 0 (λ c r, negb (Nat.eqb c 0 && Nat.eqb r 0))) 1.

(** A match on the solid wall without the AI. *)
Definition demoSetup : MatchSetup := mkSetup solidWall 0 0.7.

(** * The decision layer over JavaScript numbers *)

(** ** JavaScript numbers

    A [number] is NaN, an infinity, the negative zero, or a rational (the
    rational 0 is the positive zero).  The operations follow IEEE 754 on the
    special values and are exact on the rationals: rounding and overflow are
    left out. *)

Module JsNumber.

Inductive number :=
  | NaN
  | PInf
  | NInf
  | NegZero
  | Fin (q : Qc).

Definition lit (q : Q) : number := Fin (Q2Qc q).
Definition ofNat (n : nat) : number := lit (inject_Z (Z.of_nat n)).

Definition Qcltb (a b : Qc) : bool :=
  match (a ?= b)%Qc with Lt => true | _ => false end.
Definition Qcleb (a b : Qc) : bool :=
  match (a ?= b)%Qc with Gt => false | _ => true end.

(** The rational a finite number stands for. *)
Definition val (a : number) : Qc :=
  match a with Fin q => q | _ => Q2Qc 0 end.

Definition isNaN (a : number) : bool :=
  match a with NaN => true | _ => false end.
Definition isInf (a : number) : bool :=
  match a with PInf | NInf => true | _ => false end.
Definition isZero (a : number) : bool :=
  match a with NegZero => true | Fin q => Qc_eq_bool q (Q2Qc 0) | _ => false end.
(** [Number.isFinite]. *)
Definition isFinite (a : number) : bool :=
  match a with NegZero | Fin _ => true | _ => false end.
(** The sign bit. *)
Definition isNeg (a : number) : bool :=
  match a with NInf | NegZero => true | Fin q => Qcltb q (Q2Qc 0) | _ => false end.

Definition mkInf (negative : bool) : number := if negative then NInf else PInf.
Definition mkZero (negative : bool) : number :=
  if negative then NegZero else Fin (Q2Qc 0).
(** A finite product or quotient: a zero takes the sign of the operation. *)
Definition mkFin (negative : bool) (q : Qc) : number :=
  if Qc_eq_bool q (Q2Qc 0) then mkZero negative else Fin q.

(** Unary minus. *)
Definition neg (a : number) : number :=
  match a with
  | NaN => NaN
  | PInf => NInf
  | NInf => PInf
  | NegZero => Fin (Q2Qc 0)
  | Fin q => if Qc_eq_bool q (Q2Qc 0) then NegZero else Fin (- q)%Qc
  end.

Definition add (a b : number) : number :=
  match a, b with
  | NaN, _ | _, NaN => NaN
  | PInf, NInf | NInf, PInf => NaN
  | PInf, _ | _, PInf => PInf
  | NInf, _ | _, NInf => NInf
  | NegZero, NegZero => NegZero
  | _, _ => Fin (val a + val b)%Qc
  end.

Definition sub (a b : number) : number := add a (neg b).

Definition mul (a b : number) : number :=
  if isNaN a || isNaN b then NaN
  else if isInf a || isInf b then
    if isZero a || isZero b then NaN else mkInf (xorb (isNeg a) (isNeg b))
  else mkFin (xorb (isNeg a) (isNeg b)) (val a * val b)%Qc.

Definition div (a b : number) : number :=
  if isNaN a || isNaN b then NaN
  else if isInf a then
    if isInf b then NaN else mkInf (xorb (isNeg a) (isNeg b))
  else if isInf b then mkZero (xorb (isNeg a) (isNeg b))
  else if isZero b then
    if isZero a then NaN else mkInf (xorb (isNeg a) (isNeg b))
  else mkFin (xorb (isNeg a) (isNeg b)) (val a / val b)%Qc.

(** [a < b]: false as soon as an operand is NaN. *)
Definition ltb (a b : number) : bool :=
  match a, b with
  | NaN, _ | _, NaN => false
  | PInf, _ | _, NInf => false
  | _, PInf | NInf, _ => true
  | _, _ => Qcltb (val a) (val b)
  end.

(** [a <= b]. *)
Definition leb (a b : number) : bool :=
  match a, b with
  | NaN, _ | _, NaN => false
  | NInf, _ | _, PInf => true
  | PInf, _ | _, NInf => false
  | _, _ => Qcleb (val a) (val b)
  end.

Definition gtb (a b : number) : bool := ltb b a.
Definition geb (a b : number) : bool := leb b a.

(** [a === b]. *)
Definition eqb (a b : number) : bool := leb a b && leb b a.

Definition Math_abs (a : number) : number :=
  if isNeg a then neg a else a.

(** [Math.max] and [Math.min] of two numbers: NaN if either is. *)
Definition Math_max (a b : number) : number :=
  if isNaN a || isNaN b then NaN
  else if ltb a b then b else if ltb b a then a
  else if isNeg a then b else a.

Definition Math_min (a b : number) : number :=
  if isNaN a || isNaN b then NaN
  else if ltb a b then a else if ltb b a then b
  else if isNeg a then a else b.

Definition Math_sign (a : number) : number :=
  if isNaN a then NaN
  else if isZero a then a
  else if isNeg a then lit (-1) else lit 1.

(** [Math.round]: the nearest integer, halves rounded up. *)
Definition Math_round (a : number) : number :=
  match a with
  | Fin q => mkFin (isNeg a) (Q2Qc (inject_Z (Qfloor (q + Q2Qc (1 # 2))%Qc)))
  | _ => a
  end.

(** [a || b] on numbers: [b] when [a] is zero or NaN. *)
Definition orElse (a b : number) : number :=
  if isNaN a || isZero a then b else a.

(** [l[i]] for a number [i]: defined on the integers from 0 to the length. *)
Definition index {A} (l : list A) (i : number) : option A :=
  match i with
  | NegZero => l !! 0%nat
  | Fin q =>
      if ((Qden q =? 1)%positive && (0 <=? Qnum q)%Z)%bool
      then l !! Z.to_nat (Qnum q) else None
  | _ => None
  end.

Declare Scope js_scope.
Delimit Scope js_scope with js.
Bind Scope js_scope with number.
Infix "+" := add : js_scope.
Infix "-" := sub : js_scope.
Infix "*" := mul : js_scope.
Infix "/" := div : js_scope.
Notation "- a" := (neg a) : js_scope.
Infix "<?" := ltb : js_scope.
Infix "<=?" := leb : js_scope.
Infix ">?" := gtb : js_scope.
Infix ">=?" := geb : js_scope.
Infix "=?" := eqb : js_scope.

End JsNumber.

(** ** The agent: [Game]'s AI logic functions and the AI block of [draw] *)

Module Agent.
Import JsNumber.
Local Open Scope js_scope.

(** constants.ts, as numbers. *)
Definition CANVAS_WIDTH : number := lit 400.
Definition CANVAS_HEIGHT : number := lit 300.
Definition PADDLE_HEIGHT : number := lit 8.
Definition PADDLE_Y_OFFSET : number := lit 15.
Definition BALL_RADIUS : number := lit 5.
Definition BALL_SPEED_Y : number := lit (-6).
Definition PADDLE_SPIN_FACTOR : number := lit 4.
Definition BRICK_COLUMN_COUNT : number := lit 9.
Definition BRICK_WIDTH : number := lit 36.
Definition BRICK_HEIGHT : number := lit 10.
Definition BRICK_PADDING : number := lit 5.
Definition BRICK_OFFSET_TOP : number := lit 20.
Definition BRICK_OFFSET_LEFT : number := lit 18.
Definition AI_PADDLE_EASING : number := lit 0.4.
Definition AI_PADDLE_JITTER_AMOUNT : number := lit 4.
Definition AI_POWER_SHOT_MULTIPLIER : number := lit 7.
Definition AI_END_GAME_BRICK_COUNT : nat := 3.
Definition AI_STRATEGIC_PLANNING_THRESHOLD_Y : number := CANVAS_HEIGHT * lit 0.75.
Definition AI_SIMULATION_DEPTH : nat := 4.
Definition AI_SIMULATION_ANGLES : list number :=
  [lit (-0.9); lit (-0.6); lit (-0.3); lit 0; lit 0.3; lit 0.6; lit 0.9].

Record Ball := mkBall {
  ball_x : number;
  ball_y : number;
  ball_dx : number;
  ball_dy : number;
  ball_radius : number
}.

Record Paddle := mkPaddle {
  paddle_x : number;
  paddle_width : number
}.

Record Brick := mkBrick {
  brick_x : number;
  brick_y : number;
  status : bool;
  isGolden : bool
}.

(** [SimulatedPath]. *)
Record SimulatedPath := mkPath {
  path : list (number * number);
  hits : list Brick;
  score : nat;
  requiredPaddleCenter : number
}.

(** The value of [strategicPlanRef] when it is not null. *)
Record StrategicPlan := mkPlan {
  paths : list SimulatedPath;
  bestPathIndex : Z
}.

(** The refs the AI block reads, and the props of the instance. *)
Record Refs := mkRefs {
  ball : Ball;
  paddle : Paddle;
  bricks : list (list Brick);
  lives : Z;
  isStuck : bool;
  recoveringFromStuckCounter : nat;
  dynamicAggressionFactor : number;
  productiveHits : nat;
  nonProductiveHits : nat;
  frameCounter : nat
}.

Record Props := mkProps {
  rank : nat;
  totalInstances : nat;
  initialSkillLevel : number
}.

Definition paddleY : number := CANVAS_HEIGHT - PADDLE_Y_OFFSET - PADDLE_HEIGHT.

(** [bricks.flat().filter(b => b.status === 1)]. *)
Definition visibleBricks (g : list (list Brick)) : list Brick :=
  List.filter status (concat g).

(** *** getProductivity *)

Definition getProductivity (s : Refs) : number :=
  let totalHits := (productiveHits s + nonProductiveHits s)%nat in
  if (0 <? totalHits)%nat
  then ofNat (productiveHits s) / ofNat totalHits * lit 100
  else lit 0.

(** *** findBestTargetBrick *)

Definition neighbors : list (number * number) :=
  [(lit (-1), lit 0); (lit 1, lit 0); (lit 0, lit (-1)); (lit 0, lit 1)].

Definition threatScore (g : list (list Brick)) (brick : Brick) : number :=
  let c := Math_round ((brick_x brick - BRICK_OFFSET_LEFT) / (BRICK_WIDTH + BRICK_PADDING)) in
  let r := Math_round ((brick_y brick - BRICK_OFFSET_TOP) / (BRICK_HEIGHT + BRICK_PADDING)) in
  let threat := lit 0 + Math_abs (c - (BRICK_COLUMN_COUNT - lit 1) / lit 2) in
  let neighborCount :=
    length (List.filter
      (λ '(dc, dr),
         match index g (c + dc) ≫= (λ col, index col (r + dr)) with
         | Some b => status b
         | None => false
         end) neighbors) in
  threat + (lit 4 - ofNat neighborCount) * lit 1.5.

Definition findBestTargetBrick (g : list (list Brick)) : option Brick :=
  let remainingBricks :=
    List.filter (λ b, status b && negb (isGolden b)) (concat g) in
  fst (foldl
    (λ '(bestBrick, maxThreat) brick,
       let t := threatScore g brick in
       if t >? maxThreat then (Some brick, t) else (bestBrick, maxThreat))
    (None, lit (-1)) remainingBricks).

(** *** getDefensiveTargetX *)

(** The [while] loop, for the steps that are left of [maxSteps]. *)
Fixpoint defensiveLoop (stepsLeft : nat) (radius timeToImpact simX simDX : number)
  : number :=
  match stepsLeft with
  | O => simX
  | S k =>
      if timeToImpact >? lit 0 then
        let timeToWall :=
          if simDX >? lit 0 then (CANVAS_WIDTH - radius - simX) / simDX
          else (simX - radius) / - simDX in
        if (timeToWall >=? timeToImpact) || (timeToWall <=? lit 0)
        then defensiveLoop k radius (lit 0) (simX + simDX * timeToImpact) simDX
        else defensiveLoop k radius (timeToImpact - timeToWall)
               (simX + simDX * timeToWall) (simDX * lit (-1))
      else simX
  end.

Definition getDefensiveTargetX (b : Ball) : number :=
  if ball_dy b <=? lit 0.1 then ball_x b
  else
    let timeToImpact := (paddleY - ball_y b) / ball_dy b in
    defensiveLoop 10 (ball_radius b) timeToImpact (ball_x b) (ball_dx b).

(** *** projectTrajectory *)

(** The simulated ball and the bookkeeping of one projection. *)
Record Sim := mkSim {
  sim_x : number;
  sim_y : number;
  sim_dx : number;
  sim_dy : number;
  sim_path : list (number * number);
  sim_hits : list Brick;
  liveBricks : list Brick;
  bounces : nat
}.

Definition inside (x y : number) (b : Brick) : bool :=
  (x >? brick_x b) && (x <? brick_x b + BRICK_WIDTH) &&
  (y >? brick_y b) && (y <? brick_y b + BRICK_HEIGHT).

(** The scan of [liveBricks] from index [i - 1] down to 0. *)
Fixpoint scanLive (i : nat) (x y : number) (live : list Brick) : option (nat * Brick) :=
  match i with
  | O => None
  | S j =>
      match live !! j with
      | Some b => if inside x y b then Some (j, b) else scanLive j x y live
      | None => scanLive j x y live
      end
  end.

(** One turn of the step loop; the flag tells that the loop was left. *)
Definition simStep (depth : nat) (s : Sim) : Sim * bool :=
  let x := sim_x s + sim_dx s in
  let y := sim_y s + sim_dy s in
  let path := sim_path s ++ [(x, y)] in
  let side := (x >? CANVAS_WIDTH) || (x <? lit 0) in
  let dx := if side then sim_dx s * lit (-1) else sim_dx s in
  let n := if side then S (bounces s) else bounces s in
  let top := y <? lit 0 in
  let dy := if top then sim_dy s * lit (-1) else sim_dy s in
  let n := if top then S n else n in
  if y >? CANVAS_HEIGHT
  then (mkSim x y dx dy path (sim_hits s) (liveBricks s) n, true)
  else
    let s' :=
      match scanLive (length (liveBricks s)) x y (liveBricks s) with
      | Some (i, b) =>
          mkSim x y dx (dy * lit (-1)) path (sim_hits s ++ [b])
            (delete i (liveBricks s)) (S n)
      | None => mkSim x y dx dy path (sim_hits s) (liveBricks s) n
      end in
    (s', bool_decide (depth ≤ bounces s')).

Fixpoint simLoop (stepsLeft depth : nat) (s : Sim) : Sim :=
  match stepsLeft with
  | O => s
  | S k =>
      let '(s', stop) := simStep depth s in
      if stop then s' else simLoop k depth s'
  end.

Definition projectTrajectory (startX startY startDX startDY : number)
    (g : list (list Brick)) (depth : nat)
  : list (number * number) * list Brick * nat :=
  let s := simLoop 500 depth
             (mkSim startX startY startDX startDY [(startX, startY)] []
                (visibleBricks g) 0) in
  (sim_path s, sim_hits s, length (sim_hits s)).

(** *** runShotSimulations *)

Definition simulateAngle (b : Ball) (p : Paddle) (g : list (list Brick))
    (angle : number) : SimulatedPath :=
  let startX := ball_x b in
  let startY := paddleY in
  let collidePoint := angle in
  let requiredPaddleCenter := startX - collidePoint * (paddle_width p / lit 2) in
  let simDX := collidePoint * PADDLE_SPIN_FACTOR * lit 1.2 in
  let simDY := BALL_SPEED_Y in
  let '(path, hits, score) :=
    projectTrajectory startX startY simDX simDY g AI_SIMULATION_DEPTH in
  mkPath path hits score requiredPaddleCenter.

Definition simulatePaths (b : Ball) (p : Paddle) (g : list (list Brick))
  : list SimulatedPath :=
  simulateAngle b p g <$> AI_SIMULATION_ANGLES.

(** The callback of the [forEach] that looks for the best path, on the pair
    ([bestPathIndex], [maxScore]). *)
Definition pickStep (acc : Z * nat) (ip : nat * SimulatedPath) : Z * nat :=
  if (snd acc <? score (snd ip))%nat then (Z.of_nat (fst ip), score (snd ip)) else acc.

Definition pickBest (ps : list SimulatedPath) : Z * nat :=
  foldl pickStep ((-1)%Z, 0%nat) (imap pair ps).

(** The value [runShotSimulations] leaves in [strategicPlanRef]. *)
Definition runShotSimulations (b : Ball) (p : Paddle) (g : list (list Brick))
  : option StrategicPlan :=
  let ps := simulatePaths b p g in
  let best := pickBest ps in
  if (1 <? snd best)%nat then Some (mkPlan ps (fst best)) else None.

(** [plan?.paths[plan.bestPathIndex]]. *)
Definition bestPlanOf (plan : option StrategicPlan) : option SimulatedPath :=
  pl ← plan;
  if (bestPathIndex pl <? 0)%Z then None
  else paths pl !! Z.to_nat (bestPathIndex pl).

(** The offensive target taken from the plan. *)
Definition plannedTarget (plan : option StrategicPlan) : option number :=
  match bestPlanOf plan with
  | Some bestPlan =>
      if (1 <? score bestPlan)%nat then Some (requiredPaddleCenter bestPlan) else None
  | None => None
  end.

(** *** The offensive targets of [draw] *)

(** The golden-brick gamble. *)
Definition gambleTarget (goldenBrick : Brick) (b : Ball) (p : Paddle) : option number :=
  let aimPoint_x := brick_x goldenBrick + BRICK_WIDTH / lit 2 in
  let timeToImpact := (paddleY - ball_y b) / ball_dy b in
  if timeToImpact >? lit 0 then
    let requiredDX := (aimPoint_x - ball_x b) / timeToImpact in
    let requiredCollidePoint := requiredDX / (PADDLE_SPIN_FACTOR * lit 1.5) in
    let targetPaddleCenter := ball_x b - requiredCollidePoint * (paddle_width p / lit 2) in
    Some targetPaddleCenter
  else None.

(** [remainingBricks.reduce(...)]: the lowest brick. *)
Definition lowestBrick (remainingBricks : list Brick) : option Brick :=
  b0 ← head remainingBricks;
  Some (foldl (λ lowest current,
                 if brick_y current >? brick_y lowest then current else lowest)
          b0 remainingBricks).

(** The finisher shot at [targetBrick]. *)
Definition finisherTarget (targetBrick : Brick) (b : Ball) (p : Paddle) : option number :=
  let aimPoint_x := brick_x targetBrick + BRICK_WIDTH / lit 2 in
  let requiredDX := (aimPoint_x - ball_x b) / ((paddleY - ball_y b) / ball_dy b) in
  let requiredCollidePoint := requiredDX / PADDLE_SPIN_FACTOR in
  let targetPaddleCenter := ball_x b - requiredCollidePoint * (paddle_width p / lit 2) in
  if (targetPaddleCenter <=? paddle_width p / lit 2)
     || (targetPaddleCenter >=? CANVAS_WIDTH - paddle_width p / lit 2)
  then None else Some targetPaddleCenter.

(** The shot at the next-best regular brick, straight or off a side wall. *)
Definition heuristicTarget (bestTarget : Brick) (b : Ball) (p : Paddle)
    (defensiveTargetX : number) : option number :=
  let aimPoint_x := brick_x bestTarget + BRICK_WIDTH / lit 2 in
  let aimPoint_y := brick_y bestTarget + BRICK_HEIGHT / lit 2 in
  let shotMultiplier := AI_POWER_SHOT_MULTIPLIER in
  let calculatePaddleCenter (tx ty : number) :=
    (tx - ball_x b) * (- ball_dy b) / (ty - paddleY) / shotMultiplier
    * (paddle_width p / lit 2) in
  let virtualTargets := [aimPoint_x; - aimPoint_x; lit 2 * CANVAS_WIDTH - aimPoint_x] in
  let options :=
    List.filter (λ opt, (fst opt >? lit 0) && (fst opt <? CANVAS_WIDTH))
      ((λ tx, (ball_x b - calculatePaddleCenter tx aimPoint_y,
               Math_abs (ball_x b - calculatePaddleCenter tx aimPoint_y
                         - defensiveTargetX))) <$> virtualTargets) in
  match options with
  | [] => None
  | o :: rest => Some (fst (foldl (λ p c, if snd c <? snd p then c else p) o rest))
  end.

(** *** The AI block of [draw] *)

Inductive AgentMode := normal | grit | clutch | finisher.

(** What the block computes: the two targets, the target it commits to, the
    plan it leaves in [strategicPlanRef], [isPowerShotModeRef] and the paddle's
    new x. *)
Record AiOutcome := mkOutcome {
  defensiveTargetX : number;
  offensiveTargetX : option number;
  finalTargetX : number;
  strategicPlan : option StrategicPlan;
  powerShotMode : bool;
  new_paddle_x : number
}.

Definition agentModeOf (s : Refs) : AgentMode :=
  let remainingBricks := visibleBricks (bricks s) in
  let isEndGame := (0 <? length remainingBricks)%nat
                   && (length remainingBricks <=? AI_END_GAME_BRICK_COUNT)%nat in
  if isEndGame then finisher
  else if (lives s =? 1)%Z then clutch
  else if (2 <? lives s)%Z && (getProductivity s <? lit 40) && (180 <? frameCounter s)%nat
       then grit
  else normal.

(** Steps 1 to 3: the plan and the offensive target. *)
Definition offensiveTarget (props : Props) (s : Refs) (defensive : number)
  : option StrategicPlan * option number :=
  let b := ball s in
  let p := paddle s in
  let remainingBricks := visibleBricks (bricks s) in
  let isEndGame := (0 <? length remainingBricks)%nat
                   && (length remainingBricks <=? AI_END_GAME_BRICK_COUNT)%nat in
  let isRecovering := (0 <? recoveringFromStuckCounter s)%nat in
  let plan :=
    if (ball_dy b <? lit 0) && (ball_y b <? AI_STRATEGIC_PLANNING_THRESHOLD_Y)
       && negb isRecovering && negb (isStuck s)
    then runShotSimulations b p (bricks s) else None in
  let goldenBrick := List.find (λ k, isGolden k && status k) (concat (bricks s)) in
  let wantsToGamble :=
    match goldenBrick with
    | Some _ =>
        if (1 <? lives s)%Z then
          if (rank props =? totalInstances props)%nat && (1 <? totalInstances props)%nat
          then true
          else if (rank props =? 1)%nat && (1 <? totalInstances props)%nat then false
          else dynamicAggressionFactor s >? lit 1.2
        else false
    | None => false
    end in
  let offensive :=
    match goldenBrick with
    | Some g => if wantsToGamble then gambleTarget g b p else None
    | None => None
    end in
  let offensive :=
    match offensive with
    | Some t => Some t
    | None =>
        let offensive :=
          match plannedTarget plan with
          | Some t => Some t
          | None =>
              if negb isRecovering && negb (bool_decide (is_Some plan)) && isEndGame
              then targetBrick ← lowestBrick remainingBricks;
                   finisherTarget targetBrick b p
              else None
          end in
        match offensive with
        | Some t => Some t
        | None =>
            if negb isRecovering && negb (bool_decide (is_Some plan))
            then bestTarget ← findBestTargetBrick (bricks s);
                 heuristicTarget bestTarget b p defensive
            else None
        end
    end in
  (plan, offensive).

(** The confidence the decision is taken with. *)
Definition decisionConfidenceOf (props : Props) (s : Refs) : number :=
  let decisionConfidence :=
    match agentModeOf s with
    | finisher => lit 2.0
    | grit => lit 1.5
    | clutch => lit 0.5
    | normal => dynamicAggressionFactor s
    end in
  let decisionConfidence :=
    if (rank props =? 1)%nat && (1 <? totalInstances props)%nat
    then decisionConfidence * lit 1.1 else decisionConfidence in
  if (rank props =? totalInstances props)%nat && (1 <? totalInstances props)%nat
  then Math_max decisionConfidence (lit 1.4) else decisionConfidence.

(** Step 4: the target the paddle is sent to, with [useFlickShot] and the
    new value of [isPowerShotModeRef]. *)
Definition chooseTarget (props : Props) (s : Refs) (defensive : number)
    (plan : option StrategicPlan) (offensive : option number)
  : number * bool * bool :=
  let b := ball s in
  let p := paddle s in
  let isRecovering := (0 <? recoveringFromStuckCounter s)%nat in
  let center := paddle_x p + paddle_width p / lit 2 in
  let safeZone := paddle_width p * lit 0.7 in
  let useFlickShot :=
    negb (isStuck s) && (Math_abs (defensive - center) >? safeZone / lit 2) in
  let finalTarget :=
    if useFlickShot then
      if defensive >? center
      then defensive - paddle_width p / lit 2 + paddle_width p * lit 0.1
      else defensive + paddle_width p / lit 2 - paddle_width p * lit 0.1
    else defensive in
  let decisionConfidence := decisionConfidenceOf props s in
  if isStuck s && negb isRecovering then
    let flickDirection := orElse (Math_sign (CANVAS_WIDTH / lit 2 - ball_x b)) (lit 1) in
    (defensive - paddle_width p / lit 2 * lit 0.9 * flickDirection, true, false)
  else
    match offensive with
    | Some off =>
        if negb isRecovering && negb useFlickShot then
          let requiredPaddleMovement := Math_abs (off - defensive) in
          let riskFactor := requiredPaddleMovement / (CANVAS_WIDTH * lit 0.75) in
          if decisionConfidence >? lit 0.7 + riskFactor
          then (off, useFlickShot,
                match bestPlanOf plan with
                | Some bestPlan => (2 <? score bestPlan)%nat
                | None => true
                end)
          else (finalTarget, useFlickShot, false)
        else (finalTarget, useFlickShot, false)
    | None => (finalTarget, useFlickShot, false)
    end.

(** Step 5: easing, jitter ([random] is the draw of [Math.random]) and the
    clamped move. *)
Definition finalEasingOf (props : Props) (agentMode : AgentMode) (useFlickShot : bool)
  : number :=
  let finalEasing := AI_PADDLE_EASING * initialSkillLevel props in
  match agentMode with
  | grit | finisher => finalEasing * lit 1.5
  | _ => if useFlickShot then finalEasing * lit 1.5 else finalEasing
  end.

Definition jitterOf (props : Props) (random : number) (b : Ball) : number :=
  if (ball_dy b >? lit 0)
     && (ball_y b >? CANVAS_HEIGHT - PADDLE_Y_OFFSET - PADDLE_HEIGHT - lit 50)
  then
    let jitterMagnitude := AI_PADDLE_JITTER_AMOUNT / initialSkillLevel props in
    (random - lit 0.5) * jitterMagnitude
  else lit 0.

Definition movePaddle (p : Paddle) (finalTargetX jitter finalEasing : number) : number :=
  let x := paddle_x p
           + (finalTargetX + jitter - (paddle_x p + paddle_width p / lit 2)) * finalEasing in
  Math_max (lit 0) (Math_min (CANVAS_WIDTH - paddle_width p) x).

(** The whole block. *)
Definition aiBlock (props : Props) (random : number) (s : Refs) : AiOutcome :=
  let defensive := getDefensiveTargetX (ball s) in
  let po := offensiveTarget props s defensive in
  let choice := chooseTarget props s defensive (fst po) (snd po) in
  let finalTarget := fst (fst choice) in
  let useFlickShot := snd (fst choice) in
  let finalEasing := finalEasingOf props (agentModeOf s) useFlickShot in
  let jitter := jitterOf props random (ball s) in
  mkOutcome defensive (snd po) finalTarget (fst po) (snd choice)
    (movePaddle (paddle s) finalTarget jitter finalEasing).

(** *** Predicates of the statements *)

(** The numbers the block reads are finite, and the paddle is not wider than
    the field. *)
Definition finiteInputs (props : Props) (random : number) (s : Refs) : Prop :=
  isFinite (ball_x (ball s)) = true ∧ isFinite (ball_y (ball s)) = true
  ∧ isFinite (ball_dx (ball s)) = true ∧ isFinite (ball_dy (ball s)) = true
  ∧ isFinite (ball_radius (ball s)) = true
  ∧ isFinite (paddle_x (paddle s)) = true ∧ isFinite (paddle_width (paddle s)) = true
  ∧ (lit 0 <=? CANVAS_WIDTH - paddle_width (paddle s)) = true
  ∧ isFinite (initialSkillLevel props) = true ∧ isFinite random = true.

(** The left edge [x] of paddle [p] is on the field. *)
Definition onField (p : Paddle) (x : number) : Prop :=
  (lit 0 <=? x) = true ∧ (x <=? CANVAS_WIDTH - paddle_width p) = true.

End Agent.

(** ** Worked inputs of the decision layer *)

Module AgentExamples.
Import JsNumber Agent.

(** The grid as [drawBricks] places it, with the brick of column 4, row 4 the
    only one left. *)
Definition oneBrickField : list (list Brick) :=
  (λ c, (λ r, mkBrick (lit (inject_Z (18 + 41 * Z.of_nat c)))
                      (lit (inject_Z (20 + 15 * Z.of_nat r)))
                      (bool_decide (c = 4%nat ∧ r = 4%nat)) false) <$> seq 0 5)
  <$> seq 0 9.

Definition lastBrick : Brick := mkBrick (lit 182) (lit 80) true false.

Definition soloProps : Props := mkProps 1 1 (lit 1).

Definition pad (x : Q) : Paddle := mkPaddle (lit x) (lit 60).

(** The refs of a fresh match on that field, with the paddle centred under
    the ball. *)
Definition refsAt (b : Ball) (p : Paddle) : Refs :=
  mkRefs b p oneBrickField 3 false 0 (lit 1) 0 0 10.

(** A ball rising under the last brick. *)
Definition ballRising : Ball := mkBall (lit 200) (lit 100) (lit 3) (lit (-4)) (lit 5).


(** A ball coming down, fifty pixels above the paddle line at most. *)
Definition ballFalling : Ball := mkBall (lit 200) (lit 240) (lit 3) (lit 4) (lit 5).

End AgentExamples.

(** * Further predicates of the physics engine *)

(** The number of visible bricks of a grid. *)
Definition aliveCount (g : list (list Brick)) : nat :=
  length (filter (λ cr, cellAlive g cr.1 cr.2 = true) scanOrder).

(** The books of a match: ten points per productive hit, and every brick of
    the layout either still visible or counted as a productive hit. *)
Definition booksBalance (total : nat) (s : State) : Prop :=
  score s = (POINTS_PER_BRICK * productiveHits s)%nat
  ∧ (productiveHits s + aliveCount (bricks s))%nat = total.

(** The lives are within their range and the loss flag tells that none is
    left. *)
Definition livesOK (props : GameProps) (s : State) : Prop :=
  (0 <= lives s <= initialLives props)%Z
  ∧ (isLosing s = true ↔ lives s = 0%Z).

(** The ball's centre is at least its radius away from the side walls and
    from the top wall. *)
Definition ballInField (s : State) : Prop :=
  ball_radius (ball s) <= ball_x (ball s) <= CANVAS_WIDTH - ball_radius (ball s)
  ∧ ball_radius (ball s) <= ball_y (ball s).

(** A power ball carries a running timer. *)
Definition powerBallOK (b : Ball) : Prop :=
  isPowerBall b = true → (0 < powerBallTimer b <= POWER_BALL_DURATION)%nat.

(** The rectangles of two bricks are apart. *)
Definition apart (b b' : Brick) : Prop :=
  brick_x b + BRICK_WIDTH < brick_x b' ∨ brick_x b' + BRICK_WIDTH < brick_x b
  ∨ brick_y b + BRICK_HEIGHT < brick_y b' ∨ brick_y b' + BRICK_HEIGHT < brick_y b.

(** * The particles of an explosion *)

(** [particlesRef] holds one array that [createParticleExplosion] appends to
    and [drawParticles] walks with [forEach], removing dead particles with
    [splice] while it walks.  The calls on the canvas are left out. *)

Definition PARTICLE_COUNT : R := 15.
Definition PARTICLE_LIFESPAN : Z := 40.
Definition PARTICLE_SPEED : R := 2.
Definition PARTICLE_FRICTION : R := 0.96.

Record Particle := mkParticle {
  part_x : R;
  part_y : R;
  part_dx : R;
  part_dy : R;
  part_radius : R;
  alpha : R;
  life : Z;
  color : String.string
}.

(** [for (let i = ...; i < count; i++) push(particle i)], with [turns] turns
    at most: [count] is a number, whole or not. *)
Fixpoint pushWhileBelow (turns i : nat) (count : R) (particle : nat → Particle)
    (particles : list Particle) : list Particle :=
  match turns with
  | O => particles
  | S turns' =>
      if bool_decide (INR i < count)
      then pushWhileBelow turns' (S i) count particle (particles ++ [particle i])
      else particles
  end.

(** The three calls of [Math.random] for the [i]-th particle read
    [rand (3 * i)], [rand (3 * i + 1)] and [rand (3 * i + 2)].  The loop is
    left when [i < count] fails; [up count], the first whole number above
    [count], bounds its turns. *)
Definition createParticleExplosion (rand : nat → R) (x y : R) (color : String.string)
    (count speed : R) (particles : list Particle) : list Particle :=
  pushWhileBelow (Z.to_nat (up count)) 0 count
    (λ i, let angle := rand (3 * i)%nat * PI * 2 in
          let velocity := rand (3 * i + 1)%nat * speed in
          mkParticle x y (cos angle * velocity) (sin angle * velocity)
            (rand (3 * i + 2)%nat * 2 + 1) 1 PARTICLE_LIFESPAN color)
    particles.

(** The explosion of a broken brick.  The colour, which the function takes
    from the brick's row, is a parameter here. *)
Definition triggerBrickBreakEffects (rand : nat → R) (color : String.string)
    (brick : Brick) (particles : list Particle) : list Particle :=
  createParticleExplosion rand
    (brick_x brick + BRICK_WIDTH / 2) (brick_y brick + BRICK_HEIGHT / 2) color
    (PARTICLE_COUNT / (if isGolden brick then 0.5 else 2))
    (PARTICLE_SPEED * (if isGolden brick then 1.5 else 1)) particles.

Section flick_shot_effect.
Import String.StringSyntax.
Local Open Scope string_scope.

(** The sparks of a flick shot: ten particles with half the lifespan. *)
Definition triggerFlickShotEffect (rand : nat → R) (x y direction : R)
    (particles : list Particle) : list Particle :=
  particles ++
  ((λ i, let angle := direction * (PI / 2) + (rand (3 * i)%nat - 0.5) * (PI / 4) in
         let speed := PARTICLE_SPEED * 1.5 + rand (3 * i + 1)%nat in
         mkParticle x y (cos angle * speed) (sin angle * speed)
           (rand (3 * i + 2)%nat * 1.5 + 0.5) 1 (PARTICLE_LIFESPAN / 2) "#ffffff")
   <$> seq 0 10).

End flick_shot_effect.

(** The callback's update of one particle. *)
Definition advance (p : Particle) : Particle :=
  mkParticle (part_x p + part_dx p) (part_y p + part_dy p)
    (part_dx p * PARTICLE_FRICTION) (part_dy p * PARTICLE_FRICTION)
    (part_radius p) (IZR (life p - 1) / IZR PARTICLE_LIFESPAN) (life p - 1) (color p).

(** [forEach] visits the indices below the length the array had at the start
    and calls back only for an index the array still has; the callback
    removes its particle when its life is over, which moves the later ones
    down by one. *)
Fixpoint forEachParticle (left index : nat) (particles : list Particle) : list Particle :=
  match left with
  | O => particles
  | S left' =>
      match particles !! index with
      | None => forEachParticle left' (S index) particles
      | Some p =>
          let particles' := <[index := advance p]> particles in
          forEachParticle left' (S index)
            (if (life (advance p) <=? 0)%Z then delete index particles' else particles')
      end
  end.

Definition drawParticles (particles : list Particle) : list Particle :=
  forEachParticle (length particles) 0 particles.

(** A particle in flight: some life left, and as opaque as it was made or as
    its life says. *)
Definition inFlight (p : Particle) : Prop :=
  (1 <= life p <= PARTICLE_LIFESPAN)%Z
  ∧ (alpha p = 1 ∨ alpha p = IZR (life p) / IZR PARTICLE_LIFESPAN).

(** How many whole numbers, from 0 on, lie below [count]. *)
Definition turnsBelow (count : R) : nat := Z.to_nat (1 - up (- count)).

(** Every second element of a list, from the second on. *)
Fixpoint everySecond {A} (l : list A) : list A :=
  match l with
  | _ :: b :: l' => b :: everySecond l'
  | _ => []
  end.

(** ** Finite numbers as reals *)

Module JsReal.
Import JsNumber.

(** The real a finite number stands for (both zeros stand for 0). *)
Definition toR (a : number) : R := Q2R (this (val a)).

End JsReal.

(** * The trainer: [App]'s bookkeeping between matches *)

(** [App] keeps the agents ([GameInstance]s) and the statistics they share.
    The counters are JavaScript numbers that start at 0 and grow by whole
    steps: they are natural numbers here.  [Date.now], [Math.random] and
    [decideNextStrategy] are read from an oracle. *)

Module Trainer.
Import JsNumber.
Local Open Scope js_scope.

Definition SIMULATION_GAME_COUNT : nat := 6.
Definition LOSS_PENALTY_SECONDS : number := lit 120.
Definition INITIAL_SKILL_LEVEL : number := lit 1.
Definition SKILL_INCREASE_ON_WIN : number := lit 0.1.
Definition SKILL_DECREASE_ON_LOSS : number := lit 0.03.
Definition SKILL_INHERITANCE_CHANCE : number := lit 0.15.
Definition MIN_SKILL_LEVEL : number := lit 0.7.
Definition MAX_SKILL_LEVEL : number := lit 2.
Definition CAREER_PRODUCTIVITY_INHERITANCE_THRESHOLD : number := lit 30.
Definition SKILL_INHERITANCE_CHANCE_BOOST_FACTOR : number := lit 3.

Inductive GameResult := win | loss.

Record StrategyPerformance := mkPerformance {
  avgTime : number;
  plays : nat;
  wins : nat
}.

Record AIStrategyData := mkData {
  gamesPlayed : nat;
  gamesWon : nat;
  bestTime : number;
  strategyPerformance : gmap nat StrategyPerformance;
  totalBricksDestroyed : number;
  totalJackpotsHit : nat
}.

(** The fields [id], [initialLives], [gamesPlayed] and [gamesWon] of a
    [GameInstance] carry the prefix [inst_]. *)
Record GameInstance := mkInstance {
  inst_id : nat;
  key : number;
  inst_initialLives : Z;
  strategy : nat;
  inst_gamesPlayed : nat;
  inst_gamesWon : nat;
  skillLevel : number;
  careerProductivity : number;
  totalProductiveHits : nat;
  totalNonProductiveHits : nat;
  totalWinTime : number
}.

(** An instance with its performance, as [rankedInstances] holds it. *)
Record RankedInstance := mkRanked {
  instance : GameInstance;
  averageWinTime : number;
  efficiency : number
}.

(** What one update of an instance reads from the environment: [Date.now()],
    [Math.random()] and [decideNextStrategy()]. *)
Record Oracle := mkOracle {
  now : number;
  random : number;
  nextStrategy : nat
}.

(** The arguments of [handleGameEnd]. *)
Record GameEnd := mkGameEnd {
  instanceId : nat;
  result : GameResult;
  score : nat;
  time : number;
  playedStrategy : nat;
  remainingLives : Z;
  gameProductivity : number;
  productiveHits : nat;
  nonProductiveHits : nat;
  jackpotsHit : nat
}.

(** ** decideNextStrategy *)

(** [Math.floor]. *)
Definition Math_floor (a : number) : number :=
  match a with
  | Fin q => mkFin (isNeg a) (Q2Qc (inject_Z (Qfloor q)))
  | _ => a
  end.

(** [random] is the draw of [Math.random]. *)
Definition decideNextStrategy (random : number) : number :=
  Math_floor (random * Agent.BRICK_COLUMN_COUNT).

(** ** initializeInstances *)

(** In the instances, [nextStrategy] of the oracle is the index that
    [decideNextStrategy] returns. *)

Definition initializeInstances (oracle : nat → Oracle) : list GameInstance :=
  (λ i, mkInstance i (now (oracle i) + ofNat i) INITIAL_LIVES (nextStrategy (oracle i))
          0 0 INITIAL_SKILL_LEVEL (lit 50) 0 0 (lit 0))
  <$> seq 0 SIMULATION_GAME_COUNT.

(** ** rankedInstances *)

Definition withPerformance (inst : GameInstance) : RankedInstance :=
  let averageWinTime :=
    if (0 <? inst_gamesWon inst)%nat then totalWinTime inst / ofNat (inst_gamesWon inst)
    else lit 0 in
  let efficiency :=
    if (1 <? inst_gamesWon inst)%nat && (totalWinTime inst >? lit 0)
    then ofNat (inst_gamesWon inst) / totalWinTime inst
    else lit 0 in
  mkRanked inst averageWinTime efficiency.

(** The comparator of the sort, [(a, b) => b.efficiency - a.efficiency]. *)
Definition byEfficiency (a b : RankedInstance) : number :=
  efficiency b - efficiency a.

(** [Array.prototype.sort] is stable: an element is put before the first
    element that the comparator sends it before. *)
Fixpoint insertSorted {A} (cmp : A → A → number) (x : A) (l : list A) : list A :=
  match l with
  | [] => [x]
  | y :: l' => if cmp x y <? lit 0 then x :: l else y :: insertSorted cmp x l'
  end.

Definition sort {A} (cmp : A → A → number) (l : list A) : list A :=
  foldl (λ sorted x, insertSorted cmp x sorted) [] l.

Definition rankedInstances (gameInstances : list GameInstance) : list RankedInstance :=
  sort byEfficiency (withPerformance <$> gameInstances).

(** The width of the skill bar, in percent. *)
Definition skillPercentage (inst : GameInstance) : number :=
  (skillLevel inst - MIN_SKILL_LEVEL) / (MAX_SKILL_LEVEL - MIN_SKILL_LEVEL) * lit 100.

(** ** handleGameEnd: the shared statistics *)

Definition effectiveTimeOf (e : GameEnd) : number :=
  match result e with win => time e | loss => time e + LOSS_PENALTY_SECONDS end.

(** The record returned by the first updater.  (It is a shallow copy of
    [prevData]: the table [strategyPerformance] is the one of [prevData],
    written in place.) *)
Definition updateSharedData (e : GameEnd) (prevData : AIStrategyData) : AIStrategyData :=
  let effectiveTime := effectiveTimeOf e in
  let oldStats :=
    default (mkPerformance (lit 0) 0 0) (strategyPerformance prevData !! playedStrategy e) in
  let newPlays := (plays oldStats + 1)%nat in
  let newWins :=
    match result e with win => (wins oldStats + 1)%nat | loss => wins oldStats end in
  let newAvgTime := avgTime oldStats + (effectiveTime - avgTime oldStats) / ofNat newPlays in
  mkData (gamesPlayed prevData + 1)
    (match result e with win => (gamesWon prevData + 1)%nat | loss => gamesWon prevData end)
    (match result e with
     | win => Math_min (bestTime prevData) (time e)
     | loss => bestTime prevData
     end)
    (<[playedStrategy e := mkPerformance newAvgTime newPlays newWins]>
       (strategyPerformance prevData))
    (totalBricksDestroyed prevData + ofNat (score e) / ofNat POINTS_PER_BRICK)
    (totalJackpotsHit prevData + jackpotsHit e).

(** What [getSharedAIData] returns when the storage holds nothing, or cannot
    be read. *)
Definition emptyAIData : AIStrategyData := mkData 0 0 PInf ∅ (lit 0) 0.

(** The statistics after a series of reported games. *)
Definition afterReports (start : AIStrategyData) (games : list GameEnd) : AIStrategyData :=
  foldl (λ d e, updateSharedData e d) start games.

(** ** handleGameEnd: the instances *)

Definition updateInstance (champ : option RankedInstance) (e : GameEnd) (o : Oracle)
    (inst : GameInstance) : GameInstance :=
  let championSkill :=
    match champ with Some c => skillLevel (instance c) | None => INITIAL_SKILL_LEVEL end in
  let nextInitialLives :=
    match result e with
    | win => Z.min (INITIAL_LIVES + 1) (remainingLives e + 1)
    | loss => INITIAL_LIVES
    end in
  let newGamesWon :=
    match result e with win => (inst_gamesWon inst + 1)%nat | loss => inst_gamesWon inst end in
  let newTotalWinTime :=
    match result e with win => totalWinTime inst + time e | loss => totalWinTime inst end in
  let newTotalP := (totalProductiveHits inst + productiveHits e)%nat in
  let newTotalNP := (totalNonProductiveHits inst + nonProductiveHits e)%nat in
  let totalHits := (newTotalP + newTotalNP)%nat in
  let newCareerProductivity :=
    if (0 <? totalHits)%nat then ofNat newTotalP / ofNat totalHits * lit 100 else lit 50 in
  let newSkill :=
    match result e with
    | win =>
        let productivityBonus :=
          if isNaN (gameProductivity e) then lit 0.5 else gameProductivity e / lit 100 in
        skillLevel inst + SKILL_INCREASE_ON_WIN * productivityBonus
    | loss =>
        let safeProductivity :=
          if isNaN (gameProductivity e) then lit 0 else gameProductivity e in
        let productivityPenalty := lit 1 - safeProductivity / lit 100 in
        skillLevel inst - SKILL_DECREASE_ON_LOSS * (lit 1 + productivityPenalty)
    end in
  let inheritanceChance :=
    if newCareerProductivity <? CAREER_PRODUCTIVITY_INHERITANCE_THRESHOLD
    then SKILL_INHERITANCE_CHANCE * SKILL_INHERITANCE_CHANCE_BOOST_FACTOR
    else SKILL_INHERITANCE_CHANCE in
  let newSkill :=
    if (random o <? inheritanceChance) && (championSkill >? newSkill)
       && match champ with
          | Some c => negb (inst_id inst =? inst_id (instance c))%nat
          | None => false
          end
    then championSkill else newSkill in
  let newSkill := Math_max MIN_SKILL_LEVEL (Math_min MAX_SKILL_LEVEL newSkill) in
  mkInstance (inst_id inst) (now o + ofNat (inst_id inst)) nextInitialLives (nextStrategy o)
    (inst_gamesPlayed inst + 1) newGamesWon newSkill newCareerProductivity
    newTotalP newTotalNP newTotalWinTime.

(** The second updater; the instance at position [i] reads [oracle i]. *)
Definition updateInstances (ranked : list RankedInstance) (e : GameEnd)
    (oracle : nat → Oracle) (prevInstances : list GameInstance) : list GameInstance :=
  let champ := head ranked in
  imap (λ i inst,
          if (inst_id inst =? instanceId e)%nat then updateInstance champ e (oracle i) inst
          else inst)
       prevInstances.

(** The agents after a series of finished games, each reported with the
    ranking its handler had at hand. *)
Definition afterGames (start : list GameInstance)
    (games : list (list RankedInstance * GameEnd * (nat → Oracle))) : list GameInstance :=
  foldl (λ insts '(ranked, e, oracle), updateInstances ranked e oracle insts) start games.

End Trainer.

Module TrainerExamples.
Import JsNumber Trainer.

Definition quiet (i : nat) : Oracle := mkOracle (lit 0) (lit 0.5) 0.

(** An agent as [initializeInstances] makes it. *)
Definition rookie : GameInstance :=
  mkInstance 0 (lit 0) INITIAL_LIVES 0 0 0 INITIAL_SKILL_LEVEL (lit 50) 0 0 (lit 0).

(** A match won in 42.5 seconds with two lives left. *)
Definition quickWin : GameEnd := mkGameEnd 0 win 450 (lit 42.5) 4 2 (lit 75) 45 15 1.

End TrainerExamples.

(** ** Predicates of the trainer's and the agent's statements *)

(** An agent in good standing: a finite skill level between the two bounds,
    no more wins than games, at most one life more than [INITIAL_LIVES], and
    a career productivity that is a percentage. *)
Definition agentOK (inst : Trainer.GameInstance) : Prop :=
  JsNumber.isFinite (Trainer.skillLevel inst) = true
  ∧ JsNumber.leb Trainer.MIN_SKILL_LEVEL (Trainer.skillLevel inst) = true
  ∧ JsNumber.leb (Trainer.skillLevel inst) Trainer.MAX_SKILL_LEVEL = true
  ∧ (Trainer.inst_gamesWon inst <= Trainer.inst_gamesPlayed inst)%nat
  ∧ (Trainer.inst_initialLives inst <= INITIAL_LIVES + 1)%Z
  ∧ JsNumber.isFinite (Trainer.careerProductivity inst) = true
  ∧ JsNumber.leb (JsNumber.lit 0) (Trainer.careerProductivity inst) = true
  ∧ JsNumber.leb (Trainer.careerProductivity inst) (JsNumber.lit 100) = true.

(** The sum of a list of reals. *)
Definition sumR (l : list R) : R := foldr Rplus 0 l.

(** The reported games that were won, and those that opened with strategy
    [k]. *)
Definition won (e : Trainer.GameEnd) : bool :=
  match Trainer.result e with Trainer.win => true | Trainer.loss => false end.

Definition wonGames (games : list Trainer.GameEnd) : list Trainer.GameEnd :=
  filter (λ e, won e = true) games.

Definition openedWith (k : nat) (games : list Trainer.GameEnd) : list Trainer.GameEnd :=
  filter (λ e, Trainer.playedStrategy e = k) games.

(** The books of the shared statistics over the games reported so far. *)
Definition statisticsBalance (games : list Trainer.GameEnd) (d : Trainer.AIStrategyData) : Prop :=
  Trainer.gamesPlayed d = length games
  ∧ Trainer.gamesWon d = length (wonGames games)
  ∧ ∀ k,
      match Trainer.strategyPerformance d !! k with
      | None => openedWith k games = []
      | Some p =>
          Trainer.plays p = length (openedWith k games)
          ∧ Trainer.wins p = length (wonGames (openedWith k games))
          ∧ (0 < Trainer.plays p)%nat
          ∧ JsNumber.isFinite (Trainer.avgTime p) = true
          ∧ JsReal.toR (Trainer.avgTime p) * INR (Trainer.plays p)
            = sumR ((λ e, JsReal.toR (Trainer.effectiveTimeOf e)) <$> openedWith k games)
      end.


(** The order of the ranking: not less efficient. *)
Definition outranks (a b : Trainer.RankedInstance) : Prop :=
  JsReal.toR (Trainer.efficiency b) <= JsReal.toR (Trainer.efficiency a).

(** The state of [findBestTargetBrick]'s search after the bricks [seen]: no
    brick seen exceeds the maximum, which is the threat of the best brick, or
    -1 as long as there is none. *)
Definition searched (g : list (list Agent.Brick)) (seen : list Agent.Brick)
    (acc : option Agent.Brick * JsNumber.number) : Prop :=
  (∀ b', b' ∈ seen → JsNumber.gtb (Agent.threatScore g b') (snd acc) = false)
  ∧ match fst acc with
    | Some b => b ∈ seen ∧ snd acc = Agent.threatScore g b
    | None => snd acc = JsNumber.lit (-1)
    end.

(** * Further worked inputs *)

Module PlannerExamples.
Import JsNumber Agent.

(** The grid as [drawBricks] places it, with the bricks of the two leftmost
    columns left. *)
Definition leftColumns : list (list Brick) :=
  (λ c, (λ r, mkBrick (lit (inject_Z (18 + 41 * Z.of_nat c)))
                      (lit (inject_Z (20 + 15 * Z.of_nat r)))
                      (c <? 2)%nat false) <$> seq 0 5)
  <$> seq 0 9.

(** A ball rising near the left wall. *)
Definition ballLeft : Ball := mkBall (lit 30) (lit 100) (lit 3) (lit (-4)) (lit 5).

End PlannerExamples.

Module ParticleExamples.
Import String.StringSyntax.
Local Open Scope string_scope.

(** A particle as [createParticleExplosion] makes it. *)
Definition spark : Particle :=
  mkParticle 100 50 1 (-1) 2 1 PARTICLE_LIFESPAN "#ef4444".

End ParticleExamples.

(** A ball coming down on the middle of the resting paddle. *)
Definition landingState : State := demoState (mkBall 200 275 3 5 5 false 0) [] 0.

(** * Properties of the physics engine *)

(** ** Evaluating the real-number tests *)

Lemma decide_true_R (P : Prop) `{Decision P} : P → bool_decide P = true.
Proof. intros HP. by apply bool_decide_eq_true. Qed.

Lemma decide_false_R (P : Prop) `{Decision P} : ¬ P → bool_decide P = false.
Proof. intros HP. by apply bool_decide_eq_false. Qed.

(** ** GoldenBrickResolver: the roulette *)

(** C6. For every draw the resolver answers JACKPOT exactly below the jackpot
    chance 0.25, POWER_BALL exactly from there up to (but not including) the
    sum with the power-ball chance 0.35, and DUD from that sum on. *)
Theorem roulette_thresholds (r : R) :
  CHANCE_JACKPOT = 0.25 ∧ CHANCE_POWER_BALL = 0.35 ∧
  (rouletteOutcome r = JACKPOT ↔ r < CHANCE_JACKPOT) ∧
  (rouletteOutcome r = POWER_BALL ↔
     CHANCE_JACKPOT <= r ∧ r < CHANCE_JACKPOT + CHANCE_POWER_BALL) ∧
  (rouletteOutcome r = DUD ↔
     ¬ r < CHANCE_JACKPOT ∧
     ¬ (CHANCE_JACKPOT <= r ∧ r < CHANCE_JACKPOT + CHANCE_POWER_BALL)).
Proof.
  unfold rouletteOutcome, CHANCE_JACKPOT, CHANCE_POWER_BALL.
  repeat split; try reflexivity;
    repeat case_bool_decide; intros; try discriminate; try lra; try tauto.
Qed.

(** ** Ball speed *)

Lemma sum_squares_nonneg (a b : R) : 0 <= a ^ 2 + b ^ 2.
Proof. nra. Qed.

Lemma speedOf_nonneg (b : Ball) : 0 <= speedOf b.
Proof. apply sqrt_pos. Qed.

Lemma speedOf_scale (k : R) (b : Ball) :
  0 <= k → speedOf (scaleVelocity k b) = k * speedOf b.
Proof.
  intros Hk. unfold speedOf, scaleVelocity, set_ball_dx, set_ball_dy.
  cbn [ball_dx ball_dy].
  replace ((ball_dx b * k) ^ 2 + (ball_dy b * k) ^ 2)
    with (k ^ 2 * (ball_dx b ^ 2 + ball_dy b ^ 2)) by ring.
  rewrite sqrt_mult; [| nra | apply sum_squares_nonneg].
  by rewrite sqrt_pow2.
Qed.

Lemma speedOf_pos (b : Ball) :
  ball_dx b ≠ 0 ∨ ball_dy b ≠ 0 → 0 < speedOf b.
Proof.
  intros Hv. unfold speedOf. apply sqrt_lt_R0.
  destruct Hv as [Hv | Hv]; nra.
Qed.

Lemma speedOf_square (b : Ball) : speedOf b ^ 2 = ball_dx b ^ 2 + ball_dy b ^ 2.
Proof. unfold speedOf. apply pow2_sqrt, sum_squares_nonneg. Qed.

(** A speed is compared with a non-negative bound through its square. *)
Lemma speedOf_lt_iff (b : Ball) (v : R) :
  0 <= v → speedOf b < v ↔ ball_dx b ^ 2 + ball_dy b ^ 2 < v ^ 2.
Proof.
  intros Hv. rewrite <- speedOf_square.
  pose proof (speedOf_nonneg b). split; intros; nra.
Qed.

Lemma frictionClamp_speed (b : Ball) :
  speedOf (frictionClamp b) =
    if bool_decide (BALL_FRICTION * speedOf b < MIN_BALL_SPEED)
       && bool_decide (BALL_FRICTION * speedOf b > 0)
    then MIN_BALL_SPEED
    else BALL_FRICTION * speedOf b.
Proof.
  unfold frictionClamp. cbv zeta.
  assert (HF : 0 <= BALL_FRICTION) by (unfold BALL_FRICTION; lra).
  rewrite (speedOf_scale _ b HF).
  destruct (bool_decide (_ < _) && bool_decide (_ > 0)) eqn:E.
  - apply andb_prop in E as [_ Hpos%bool_decide_eq_true].
    rewrite speedOf_scale, (speedOf_scale _ b HF).
    + unfold BALL_FRICTION in *. field. split; [| lra].
      intros E0. rewrite E0 in Hpos. lra.
    + apply Rlt_le, Rdiv_lt_0_compat; [unfold MIN_BALL_SPEED; lra | lra].
  - by rewrite (speedOf_scale _ b HF).
Qed.

Lemma moveBall_speed (b : Ball) :
  speedOf (moveBall b) = speedOf (frictionClamp b).
Proof.
  unfold moveBall. cbv zeta. rewrite !frictionClamp_speed. reflexivity.
Qed.

(** The step leaves a fast ball fast: friction alone acts on it. *)
Lemma moveBall_keeps_fast (b : Ball) :
  MAX_BALL_SPEED / BALL_FRICTION < speedOf b → MAX_BALL_SPEED < speedOf (moveBall b).
Proof.
  intros H. rewrite moveBall_speed, frictionClamp_speed.
  unfold MIN_BALL_SPEED, MAX_BALL_SPEED, BALL_FRICTION in *.
  repeat case_bool_decide; simpl; lra.
Qed.

(** The friction-and-clamp step. After it a ball that is moving has speed at
    least MIN_BALL_SPEED, and the step takes no speed above MAX_BALL_SPEED
    that was not above it before; it does not bring a faster ball down to
    MAX_BALL_SPEED. *)
Theorem moveBall_speed_bounds (b : Ball) :
  ball_dx b ≠ 0 ∨ ball_dy b ≠ 0 →
  MIN_BALL_SPEED <= speedOf (moveBall b) ∧
  (speedOf b <= MAX_BALL_SPEED → speedOf (moveBall b) <= MAX_BALL_SPEED) ∧
  (MAX_BALL_SPEED / BALL_FRICTION < speedOf b → MAX_BALL_SPEED < speedOf (moveBall b)).
Proof.
  intros Hv. rewrite moveBall_speed, frictionClamp_speed.
  pose proof (speedOf_pos b Hv) as Hpos.
  unfold MIN_BALL_SPEED, MAX_BALL_SPEED, BALL_FRICTION in *.
  repeat split; intros; repeat case_bool_decide; simpl; lra.
Qed.

(** ** Reading the refs after an assignment *)

Ltac refs :=
  cbn [ball paddle prevPaddleX paddleVelocity bricks score lives isPowerShotMode
       frameCounter lastBrickBreakFrame ballPositionHistory
       recoveringFromStuckCounter isStuck productiveHits nonProductiveHits
       dynamicAggressionFactor jackpotsThisGame isWinning isLosing
       set_ball set_paddle set_prevPaddleX set_paddleVelocity set_bricks set_score
       set_lives set_isPowerShotMode set_frameCounter set_lastBrickBreakFrame
       set_ballPositionHistory set_recoveringFromStuckCounter set_isStuck
       set_productiveHits set_nonProductiveHits set_dynamicAggressionFactor
       set_jackpotsThisGame set_isWinning set_isLosing
       ball_x ball_y ball_dx ball_dy ball_radius isPowerBall powerBallTimer
       set_ball_x set_ball_y set_ball_dx set_ball_dy set_ball_radius
       set_isPowerBall set_powerBallTimer
       paddle_x paddle_width paddle_height
       brick_x brick_y status isGolden set_status
       sc_state totalLayoutBricks brokenBricks collisionDetectedThisFrame draws
       aiTargetX aiEasing aiPowerShot goldenDraws resetDraw
       initialLives initialSkillLevel isAIEnabled] in *.

(** ** Loops that may throw *)

Lemma forEach_invariant {A S : Type} (f : A → S → option S) (P : S → Prop)
    (l : list A) :
  (∀ a s s', a ∈ l → P s → f a s = Some s' → P s') →
  ∀ s s', P s → forEach f l s = Some s' → P s'.
Proof.
  induction l as [| a l IH]; intros Hstep s s' HP Hrun; simpl in Hrun.
  - by simplify_eq.
  - destruct (f a s) as [s1 |] eqn:E; simpl in Hrun; [| done].
    eapply IH; [| | exact Hrun].
    + intros a' t t' Hin. apply Hstep. by right.
    + eapply Hstep; [by left | exact HP | exact E].
Qed.

Lemma forEach_total {A S : Type} (f : A → S → option S) (P : S → Prop)
    (l : list A) :
  (∀ a s, a ∈ l → P s → ∃ s', f a s = Some s' ∧ P s') →
  ∀ s, P s → ∃ s', forEach f l s = Some s' ∧ P s'.
Proof.
  induction l as [| a l IH]; intros Hstep s HP; simpl.
  - by exists s.
  - destruct (Hstep a s) as (s1 & E & HP1); [by left | done |].
    rewrite E. simpl. apply IH; [| done].
    intros a' t Hin. apply Hstep. by right.
Qed.

(** ** What the brick phase leaves alone *)

Lemma jackpotColumn_beside (row : Z) (c : nat) (s s' : State) :
  jackpotColumn row c s = Some s' →
  besideBricks s' = besideBricks s ∧ ball s' = ball s
  ∧ dynamicAggressionFactor s' = dynamicAggressionFactor s.
Proof.
  unfold jackpotColumn. intros H.
  destruct (getBrickZ _ _ _) as [b |]; simpl in H; [| done].
  destruct (status b); by simplify_eq.
Qed.

Lemma handleGoldenBrick_beside (rand : R) (b : Brick) (s s' : State) :
  handleGoldenBrick rand b s = Some s' →
  besideBricks s' = besideBricks s
  ∧ dynamicAggressionFactor s' = dynamicAggressionFactor s.
Proof.
  unfold handleGoldenBrick. intros H.
  destruct (rouletteOutcome rand); [| by simplify_eq ..].
  revert H. cbv zeta.
  apply (forEach_invariant (jackpotColumn _)
           (λ t, besideBricks t = besideBricks s
                 ∧ dynamicAggressionFactor t = dynamicAggressionFactor s)).
  - intros c t t' _ [E1 E2] Hc.
    apply jackpotColumn_beside in Hc as (E3 & _ & E4). split; congruence.
  - done.
Qed.

Lemma bounceOffBrick_position (b : Brick) (bl : Ball) :
  ball_x (bounceOffBrick b bl) = ball_x bl ∧ ball_y (bounceOffBrick b bl) = ball_y bl
  ∧ ball_radius (bounceOffBrick b bl) = ball_radius bl
  ∧ isPowerBall (bounceOffBrick b bl) = isPowerBall bl.
Proof. unfold bounceOffBrick. cbv zeta. by destruct (_ || _). Qed.

Lemma registerHit_beside (props : GameProps) (rand : R) (c r : nat) (b : Brick)
    (s s' : State) :
  registerHit props rand c r b s = Some s' →
  besideBricks s' = besideBricks s.
Proof.
  unfold registerHit. cbv zeta. intros H.
  assert (∃ s1, besideBricks s1 = besideBricks s
                ∧ s' = (if negb (isPowerBall (ball s1))
                        then set_ball (bounceOffBrick b (ball s1)) s1 else s1))
    as (s1 & <- & ->).
  { destruct (isGolden b); simpl in H.
    - destruct (handleGoldenBrick _ _ _) as [s1 |] eqn:E; simpl in H; [| done].
      apply handleGoldenBrick_beside in E as [E _].
      exists s1. split; [exact E | by injection H].
    - exists (breakBrick props c r b s). split; [done |].
      injection H as <-. reflexivity. }
  destruct (negb _); [| done].
  unfold besideBricks. refs.
  by destruct (bounceOffBrick_position b (ball s1)) as (-> & -> & -> & _).
Qed.

Lemma visitBrick_beside (props : GameProps) (rnd : nat → R) (cr : nat * nat)
    (sc sc' : Scan) :
  visitBrick props rnd cr sc = Some sc' →
  besideBricks (sc_state sc') = besideBricks (sc_state sc).
Proof.
  unfold visitBrick. destruct cr as [c r]. intros H.
  destruct (getBrick _ _ _) as [b |]; simpl in H; [| done].
  destruct (negb (status b) && _ && _); [by simplify_eq |].
  destruct (negb (status b)); [by simplify_eq |].
  destruct (overlaps _ _ && _); [| by simplify_eq].
  destruct (registerHit _ _ _ _ _ _) as [s1 |] eqn:E; simpl in H; [| done].
  apply registerHit_beside in E. injection H as <-. exact E.
Qed.

Lemma scanBricks_beside (props : GameProps) (rnd : nat → R) (s : State) (sc : Scan) :
  scanBricks props rnd s = Some sc →
  besideBricks (sc_state sc) = besideBricks s.
Proof.
  apply (forEach_invariant (visitBrick props rnd)
           (λ t, besideBricks (sc_state t) = besideBricks s)); [| done].
  intros cr t t' _ E Hv. apply visitBrick_beside in Hv. congruence.
Qed.

(** ** The brick grid *)

Lemma elem_of_scanOrder (c r : nat) :
  (c, r) ∈ scanOrder ↔ (c < BRICK_COLUMN_COUNT ∧ r < BRICK_ROW_COUNT)%nat.
Proof.
  unfold scanOrder. rewrite list_elem_of_bind. split.
  - intros (c' & Hin & Hc). apply list_elem_of_bind in Hin as (r' & Hin & Hr).
    apply list_elem_of_singleton in Hin. simplify_eq.
    apply elem_of_seq in Hc, Hr. lia.
  - intros [Hc Hr]. exists c. split; [| apply elem_of_seq; lia].
    apply list_elem_of_bind. exists r. split; [by apply list_elem_of_singleton |].
    apply elem_of_seq. lia.
Qed.

Lemma getBrick_Some_lt (g : list (list Brick)) (c r : nat) (b : Brick) :
  gridOK g → getBrick g c r = Some b →
  (c < BRICK_COLUMN_COUNT ∧ r < BRICK_ROW_COUNT)%nat.
Proof. intros Hg H. apply Hg. by exists b. Qed.

Lemma getBrick_is_Some (g : list (list Brick)) (c r : nat) :
  gridOK g → (c < BRICK_COLUMN_COUNT)%nat → (r < BRICK_ROW_COUNT)%nat →
  is_Some (getBrick g c r).
Proof. intros Hg Hc Hr. by apply Hg. Qed.

Lemma getBrick_setBrick_eq (g : list (list Brick)) (c r : nat) (b0 b : Brick) :
  getBrick g c r = Some b0 → getBrick (setBrick c r b g) c r = Some b.
Proof.
  unfold getBrick, setBrick. intros H.
  destruct (g !! c) as [col |] eqn:Ec; simpl in H; [| done].
  rewrite list_lookup_insert_eq by by eapply lookup_lt_Some.
  simpl. apply list_lookup_insert_eq. by eapply lookup_lt_Some.
Qed.

Lemma getBrick_setBrick_ne (g : list (list Brick)) (c r c' r' : nat) (b : Brick) :
  (c, r) ≠ (c', r') → getBrick (setBrick c r b g) c' r' = getBrick g c' r'.
Proof.
  unfold getBrick, setBrick. intros Hne.
  destruct (g !! c) as [col |] eqn:Ec; [| done].
  destruct (decide (c = c')) as [<- | Hc].
  - rewrite list_lookup_insert_eq by by eapply lookup_lt_Some.
    rewrite Ec. simpl. apply list_lookup_insert_ne. congruence.
  - by rewrite list_lookup_insert_ne.
Qed.

Lemma getBrick_setBrick_is_Some (g : list (list Brick)) (c r c' r' : nat) (b : Brick) :
  is_Some (getBrick (setBrick c r b g) c' r') ↔ is_Some (getBrick g c' r').
Proof.
  destruct (decide ((c, r) = (c', r'))) as [E | Hne].
  - simplify_eq. unfold getBrick, setBrick.
    destruct (g !! c') as [col |] eqn:Ec; simpl; [| by rewrite Ec].
    rewrite list_lookup_insert_eq by by eapply lookup_lt_Some.
    simpl. by rewrite !lookup_lt_is_Some, length_insert.
  - by rewrite getBrick_setBrick_ne.
Qed.

Lemma setBrick_gridOK (g : list (list Brick)) (c r : nat) (b : Brick) :
  gridOK g → gridOK (setBrick c r b g).
Proof. intros Hg c' r'. rewrite getBrick_setBrick_is_Some. apply Hg. Qed.

Lemma breaking_keeps_placed (g : list (list Brick)) (c r : nat) (b : Brick) :
  placed g → placed (setBrick c r (set_status false b) g).
Proof.
  intros Hp c' r' b' H Hs.
  destruct (decide ((c, r) = (c', r'))) as [E | Hne].
  - simplify_eq. destruct (getBrick g c' r') as [b0 |] eqn:E0.
    + rewrite (getBrick_setBrick_eq _ _ _ b0) in H by done. by simplify_eq.
    + unfold getBrick, setBrick in *.
      destruct (g !! c') as [col |] eqn:Ec; simpl in *; [| by rewrite Ec in H].
      rewrite list_lookup_insert_eq in H by by eapply lookup_lt_Some.
      simpl in H. rewrite list_lookup_insert in H.
      case_decide as Hd; [| congruence].
      destruct Hd as [_ Hd]. apply lookup_lt_is_Some in Hd as [? ?]. congruence.
  - rewrite getBrick_setBrick_ne in H by done. by apply Hp.
Qed.

Lemma getBrick_drawBricks (g : list (list Brick)) (c r : nat) :
  getBrick (drawBricks g) c r = placeBrick c r <$> getBrick g c r.
Proof.
  unfold getBrick, drawBricks. rewrite list_lookup_imap.
  destruct (g !! c) as [col |]; simpl; [| done]. by rewrite list_lookup_imap.
Qed.

Lemma drawBricks_gridOK (g : list (list Brick)) : gridOK g → gridOK (drawBricks g).
Proof.
  intros Hg c r. split.
  - intros H. apply Hg. rewrite getBrick_drawBricks in H.
    destruct (getBrick g c r); [by eexists | by destruct H].
  - intros [b Hb]%Hg. rewrite getBrick_drawBricks, Hb. by eexists.
Qed.

Lemma drawBricks_placed (g : list (list Brick)) : placed (drawBricks g).
Proof.
  intros c r b H Hs. rewrite getBrick_drawBricks in H.
  destruct (getBrick g c r) as [b0 |]; simpl in H; [| done].
  simplify_eq. unfold placeBrick in *.
  destruct (status b0) eqn:E; [by split | congruence].
Qed.

Lemma createBricks_gridOK (lay : list (list nat)) (k : nat) :
  gridOK (createBricks lay k).
Proof.
  assert (gridOK ((λ c, (λ r, mkBrick 0 0 (hasBrick lay c r) false)
                          <$> seq 0 BRICK_ROW_COUNT) <$> seq 0 BRICK_COLUMN_COUNT)) as H0.
  { intros c r. unfold getBrick. rewrite list_lookup_fmap.
    destruct (seq 0 BRICK_COLUMN_COUNT !! c) as [c' |] eqn:Ec;
      cbn [fmap option_fmap option_map mbind option_bind].
    - apply lookup_seq in Ec as [-> Hc]. rewrite list_lookup_fmap.
      destruct (seq 0 BRICK_ROW_COUNT !! r) as [r' |] eqn:Er;
        cbn [fmap option_fmap option_map].
      + apply lookup_seq in Er as [-> Hr]. split; [done | by eexists].
      + apply lookup_ge_None in Er. rewrite length_seq in Er.
        split; [by intros [? ?] | lia].
    - apply lookup_ge_None in Ec. rewrite length_seq in Ec.
      split; [by intros [? ?] | lia]. }
  unfold createBricks. cbv zeta.
  destruct (_ !! k) as [[c r] |]; [| done].
  destruct (getBrick _ c r); [| done]. by apply setBrick_gridOK.
Qed.

(** ** GoldenBrickResolver: JACKPOT *)

Lemma Math_round_INR (n : nat) : Math_round (INR n) = Z.of_nat n.
Proof.
  unfold Math_round.
  assert (Z.of_nat n + 1 = up (INR n + / 2))%Z as <-; [| lia].
  apply tech_up; rewrite plus_IZR, <- INR_IZR_INZ; lra.
Qed.

(** The row the resolver computes for a brick drawn in row [r]. *)
Lemma jackpot_row (brick : Brick) (r : nat) :
  brick_y brick = INR r * (BRICK_HEIGHT + BRICK_PADDING) + BRICK_OFFSET_TOP →
  Math_round ((brick_y brick - BRICK_OFFSET_TOP) / (BRICK_HEIGHT + BRICK_PADDING))
  = Z.of_nat r.
Proof.
  intros ->. rewrite <- Math_round_INR. f_equal.
  unfold BRICK_HEIGHT, BRICK_PADDING, BRICK_OFFSET_TOP. field.
Qed.

Lemma getBrickZ_of_nat (g : list (list Brick)) (c r : nat) :
  getBrickZ g c (Z.of_nat r) = getBrick g c r.
Proof.
  unfold getBrickZ. rewrite bool_decide_eq_false_2 by lia. by rewrite Nat2Z.id.
Qed.

Lemma filter_agree {A : Type} (P Q : A → Prop) `{∀ x, Decision (P x)}
    `{∀ x, Decision (Q x)} (l : list A) :
  (∀ x, x ∈ l → P x ↔ Q x) → filter P l = filter Q l.
Proof.
  induction l as [| a l IH]; intros Hl; [done |].
  rewrite !filter_cons, IH by (intros x Hx; apply Hl; by right).
  destruct (decide (P a)) as [HP | HP], (decide (Q a)) as [HQ | HQ]; try done.
  - exfalso. apply HQ, Hl; [by left | done].
  - exfalso. apply HP, Hl; [by left | done].
Qed.

Lemma jackpotColumn_spec (r c : nat) (s : State) :
  is_Some (getBrick (bricks s) c r) →
  ∃ s', jackpotColumn (Z.of_nat r) c s = Some s'
    ∧ (∀ c' r', getBrick (bricks s') c' r' =
         if decide ((c, r) = (c', r'))
         then set_status false <$> getBrick (bricks s) c' r'
         else getBrick (bricks s) c' r')
    ∧ score s' = (score s + POINTS_PER_BRICK * aliveInRow (bricks s) r [c])%nat
    ∧ productiveHits s' = (productiveHits s + aliveInRow (bricks s) r [c])%nat
    ∧ jackpotsThisGame s' = jackpotsThisGame s.
Proof.
  intros [b Hb]. unfold jackpotColumn, aliveInRow, cellAlive.
  rewrite getBrickZ_of_nat, Hb, Nat2Z.id. simpl.
  rewrite filter_cons, filter_nil, Hb.
  destruct (status b) eqn:Es; eexists; (split; [reflexivity |]); refs.
  - rewrite decide_True by done. simpl. repeat split; try lia.
    intros c' r'. case_decide as E.
    + simplify_eq. rewrite Hb. simpl. by eapply getBrick_setBrick_eq.
    + by apply getBrick_setBrick_ne.
  - rewrite decide_False by done. simpl. repeat split; try lia.
    intros c' r'. case_decide as E; [| done].
    simplify_eq. rewrite Hb. simpl. destruct b. simpl in Es. by subst.
Qed.

Lemma jackpot_loop_spec (r : nat) (cs : list nat) (s : State) :
  NoDup cs → (∀ c, c ∈ cs → is_Some (getBrick (bricks s) c r)) →
  ∃ s', forEach (jackpotColumn (Z.of_nat r)) cs s = Some s'
    ∧ (∀ c' r', getBrick (bricks s') c' r' =
         if decide (r' = r ∧ c' ∈ cs)
         then set_status false <$> getBrick (bricks s) c' r'
         else getBrick (bricks s) c' r')
    ∧ score s' = (score s + POINTS_PER_BRICK * aliveInRow (bricks s) r cs)%nat
    ∧ productiveHits s' = (productiveHits s + aliveInRow (bricks s) r cs)%nat
    ∧ jackpotsThisGame s' = jackpotsThisGame s.
Proof.
  intros Hnd. revert s. induction Hnd as [| c cs Hc Hnd IH]; intros s Hsome.
  - exists s. simpl. repeat split; try (unfold aliveInRow; simpl; lia).
    intros c' r'. rewrite decide_False; [done |]. intros [_ H]. by apply not_elem_of_nil in H.
  - destruct (jackpotColumn_spec r c s) as (s1 & E1 & Hg1 & Hsc1 & Hp1 & Hj1).
    { apply Hsome. by left. }
    destruct (IH s1) as (s' & E & Hg & Hsc & Hp & Hj).
    { intros c' Hc'. rewrite Hg1. rewrite decide_False by (intros ?; simplify_eq; done).
      apply Hsome. by right. }
    assert (aliveInRow (bricks s1) r cs = aliveInRow (bricks s) r cs) as Hcs.
    { unfold aliveInRow. f_equal. apply filter_agree.
      intros c' Hc'. unfold cellAlive. rewrite Hg1.
      by rewrite decide_False by (intros ?; simplify_eq; done). }
    exists s'. simpl. rewrite E1. simpl. split; [exact E |].
    rewrite Hsc, Hp, Hj, Hsc1, Hp1, Hj1, Hcs.
    assert (aliveInRow (bricks s) r (c :: cs)
            = (aliveInRow (bricks s) r [c] + aliveInRow (bricks s) r cs)%nat) as ->.
    { unfold aliveInRow. rewrite (filter_cons _ c cs), (filter_cons _ c []), filter_nil.
      by destruct (decide _). }
    unfold POINTS_PER_BRICK. repeat split; try lia.
    intros c' r'. rewrite Hg, !Hg1. clear -Hc.
    destruct (decide (r' = r)) as [-> | Hr].
    + destruct (decide (c' = c)) as [-> | Hne].
      * rewrite (decide_False (P := _ ∧ c ∈ cs)) by tauto.
        rewrite decide_True by done. by rewrite decide_True by (split; [done | by left]).
      * rewrite (decide_False (P := (c, r) = _)) by congruence.
        destruct (decide (c' ∈ cs)) as [Hin | Hin].
        -- rewrite !decide_True; [done | split; [done | by right] | done].
        -- rewrite !decide_False; [done | | tauto].
           intros [_ [? | ?]%elem_of_cons]; done.
    + rewrite !decide_False; [done | tauto | congruence | tauto].
Qed.

(** The JACKPOT branch of the resolver on a well-shaped grid. *)
Lemma jackpot_row_cleared (rand : R) (brick : Brick) (r : nat) (s : State) :
  rouletteOutcome rand = JACKPOT →
  gridOK (bricks s) → (r < BRICK_ROW_COUNT)%nat →
  brick_y brick = INR r * (BRICK_HEIGHT + BRICK_PADDING) + BRICK_OFFSET_TOP →
  ∃ s', handleGoldenBrick rand brick s = Some s'
    ∧ (∀ c, cellAlive (bricks s') c r = false)
    ∧ (∀ c r', getBrick (bricks s') c r' =
         if decide (r' = r) then set_status false <$> getBrick (bricks s) c r'
         else getBrick (bricks s) c r')
    ∧ score s' = (score s + POINTS_PER_BRICK
                            * aliveInRow (bricks s) r (seq 0 BRICK_COLUMN_COUNT))%nat
    ∧ productiveHits s' = (productiveHits s
                           + aliveInRow (bricks s) r (seq 0 BRICK_COLUMN_COUNT))%nat
    ∧ jackpotsThisGame s' = S (jackpotsThisGame s).
Proof.
  intros Hout Hg Hr Hy. unfold handleGoldenBrick. rewrite Hout. cbv zeta.
  rewrite (jackpot_row brick r Hy).
  destruct (jackpot_loop_spec r (seq 0 BRICK_COLUMN_COUNT)
              (set_jackpotsThisGame (S (jackpotsThisGame s)) s))
    as (s' & E & Hb & Hsc & Hp & Hj).
  { apply NoDup_seq. }
  { intros c Hc%elem_of_seq. apply getBrick_is_Some; [done | lia | done]. }
  refs. exists s'. split; [exact E |].
  assert (∀ c r', getBrick (bricks s') c r' =
            if decide (r' = r) then set_status false <$> getBrick (bricks s) c r'
            else getBrick (bricks s) c r') as Hb'.
  { intros c r'. rewrite Hb. destruct (decide (r' = r)) as [-> | Hne].
    - destruct (decide (c ∈ seq 0 BRICK_COLUMN_COUNT)) as [Hin | Hin].
      + by rewrite decide_True.
      + rewrite decide_False by tauto.
        destruct (getBrick (bricks s) c r) as [b |] eqn:Eb; [| done].
        apply getBrick_Some_lt in Eb as [Hc _]; [| done].
        exfalso. apply Hin, elem_of_seq. lia.
    - by rewrite decide_False by tauto. }
  repeat split; try done.
  intros c. unfold cellAlive. rewrite Hb', decide_True by done.
  by destruct (getBrick (bricks s) c r).
Qed.

(** C5. When the roulette resolves JACKPOT for a golden brick drawn in row
    [r], every visible brick of that row becomes broken (keeping its place
    and its golden mark), no cell of another row changes, the score grows
    by POINTS_PER_BRICK and the productive-hit counter by one for each brick
    that was visible in the row, and the jackpot counter by one. *)
Theorem jackpot_clears_row (rand : R) (brick : Brick) (r : nat) (s : State) :
  rouletteOutcome rand = JACKPOT →
  gridOK (bricks s) → (r < BRICK_ROW_COUNT)%nat →
  brick_y brick = INR r * (BRICK_HEIGHT + BRICK_PADDING) + BRICK_OFFSET_TOP →
  ∃ s', handleGoldenBrick rand brick s = Some s'
    ∧ (∀ c, cellAlive (bricks s') c r = false)
    ∧ (∀ c r', getBrick (bricks s') c r' =
         if decide (r' = r) then set_status false <$> getBrick (bricks s) c r'
         else getBrick (bricks s) c r')
    ∧ score s' = (score s + POINTS_PER_BRICK
                            * aliveInRow (bricks s) r (seq 0 BRICK_COLUMN_COUNT))%nat
    ∧ productiveHits s' = (productiveHits s
                           + aliveInRow (bricks s) r (seq 0 BRICK_COLUMN_COUNT))%nat
    ∧ jackpotsThisGame s' = S (jackpotsThisGame s).
Proof. apply jackpot_row_cleared. Qed.

(** ** A registered hit *)

Lemma breaks_gridOK (D : nat → nat → bool) (g g' : list (list Brick)) :
  breaks D g g' → gridOK g → gridOK g'.
Proof.
  intros Hb Hg c r. split.
  - intros HS. apply Hg. rewrite Hb in HS.
    destruct (D c r), (getBrick g c r); simpl in *; try done; by destruct HS.
  - intros [b0 H0]%Hg. rewrite Hb, H0. destruct (D c r); by eexists.
Qed.

Lemma breaks_placed (D : nat → nat → bool) (g g' : list (list Brick)) :
  breaks D g g' → placed g → placed g'.
Proof.
  intros Hb Hp c r b. rewrite Hb.
  destruct (D c r); [| apply Hp].
  destruct (getBrick g c r); simpl; intros; by simplify_eq.
Qed.

Lemma breaks_compose (D1 D2 : nat → nat → bool) (g g1 g2 : list (list Brick)) :
  breaks D1 g g1 → breaks D2 g1 g2 → breaks (λ c r, D1 c r || D2 c r) g g2.
Proof.
  intros H1 H2 c r. rewrite H2, H1.
  by destruct (D1 c r), (D2 c r), (getBrick g c r).
Qed.

Lemma breaks_ext (D D' : nat → nat → bool) (g g' : list (list Brick)) :
  (∀ c r, D c r = D' c r) → breaks D g g' → breaks D' g g'.
Proof. intros E H c r. by rewrite <- E. Qed.

Lemma breaks_setBrick (g : list (list Brick)) (c r : nat) (b : Brick) :
  getBrick g c r = Some b →
  breaks (λ c' r', bool_decide ((c', r') = (c, r))) g
         (setBrick c r (set_status false b) g).
Proof.
  intros Hb c' r'. case_bool_decide as E.
  - simplify_eq. rewrite Hb. simpl. by eapply getBrick_setBrick_eq.
  - apply getBrick_setBrick_ne. congruence.
Qed.

Lemma handleGoldenBrick_spec (rand : R) (b : Brick) (r : nat) (s : State) :
  fieldOK s → (r < BRICK_ROW_COUNT)%nat →
  brick_y b = INR r * (BRICK_HEIGHT + BRICK_PADDING) + BRICK_OFFSET_TOP →
  ∃ s', handleGoldenBrick rand b s = Some s'
    ∧ breaks (λ c' r', bool_decide (rouletteOutcome rand = JACKPOT)
                       && bool_decide (r' = r)) (bricks s) (bricks s')
    ∧ (isPowerBall (ball s) = true → isPowerBall (ball s') = true).
Proof.
  intros [Hg Hp] Hr Hy.
  destruct (rouletteOutcome rand) eqn:Eo.
  - destruct (jackpot_row_cleared rand b r s Eo Hg Hr Hy)
      as (s' & E & _ & Hb & _ & _ & _).
    exists s'. split; [done |]. split.
    + intros c' r'. rewrite Hb. rewrite bool_decide_eq_true_2 by done. simpl.
      by destruct (decide (r' = r));
        [rewrite bool_decide_eq_true_2 | rewrite bool_decide_eq_false_2].
    + revert E. unfold handleGoldenBrick. rewrite Eo. cbv zeta. intros E Hpw.
      apply (forEach_invariant _ (λ t, isPowerBall (ball t) = true)) in E; [done | | done].
      intros c t t' _ Ht Hc. apply jackpotColumn_beside in Hc as (_ & -> & _). done.
  - unfold handleGoldenBrick. rewrite Eo. eexists. split; [done |]. split; [| done].
    intros c' r'. by rewrite bool_decide_eq_false_2.
  - unfold handleGoldenBrick. rewrite Eo. eexists. split; [done |]. split; [| done].
    intros c' r'. by rewrite bool_decide_eq_false_2.
Qed.

Lemma registerHit_spec (props : GameProps) (rand : R) (c r : nat) (b : Brick)
    (s : State) :
  fieldOK s → getBrick (bricks s) c r = Some b → status b = true →
  ∃ s', registerHit props rand c r b s = Some s'
    ∧ fieldOK s'
    ∧ breaks (brokenByHit rand c r b) (bricks s) (bricks s')
    ∧ (isPowerBall (ball s) = true → isPowerBall (ball s') = true)
    ∧ (isPowerBall (ball s) = true → isGolden b = false → ball s' = ball s).
Proof.
  intros [Hg Hp] Hb Hs. unfold registerHit. cbv zeta.
  pose proof (breaks_setBrick _ _ _ _ Hb) as Hb1.
  destruct (Hp c r b Hb Hs) as [_ Hy].
  pose proof (getBrick_Some_lt _ _ _ _ Hg Hb) as [_ Hr].
  destruct (isGolden b) eqn:Egold.
  - destruct (handleGoldenBrick_spec rand b r (breakBrick props c r b s))
      as (s1 & E1 & Hb2 & Hpw); [| done | done |].
    { split; [eapply breaks_gridOK | eapply breaks_placed]; done. }
    rewrite E1. simpl. eexists. split; [done |].
    assert (breaks (brokenByHit rand c r b) (bricks s) (bricks s1)) as Hb3.
    { eapply breaks_ext; [| exact (breaks_compose _ _ _ _ _ Hb1 Hb2)].
      intros c' r'. unfold brokenByHit. by rewrite Egold. }
    assert (bricks (if negb (isPowerBall (ball s1))
                    then set_ball (bounceOffBrick b (ball s1)) s1 else s1)
            = bricks s1) as Ebr by (by destruct (negb _)).
    unfold fieldOK. rewrite Ebr.
    split; [split; [eapply breaks_gridOK | eapply breaks_placed]; done |].
    split; [done |]. split; [| done].
    intros Hpw1. specialize (Hpw Hpw1). by rewrite Hpw.
  - simpl. eexists. split; [done |].
    assert (breaks (brokenByHit rand c r b) (bricks s)
              (bricks (breakBrick props c r b s))) as Hb3.
    { eapply breaks_ext; [| exact Hb1].
      intros c' r'. unfold brokenByHit. rewrite Egold. simpl. by rewrite orb_false_r. }
    destruct (isPowerBall (ball s)) eqn:Epw; simpl.
    + split; [split; [eapply breaks_gridOK | eapply breaks_placed]; done |].
      by repeat split.
    + split; [split; [eapply breaks_gridOK | eapply breaks_placed]; done |].
      by repeat split.
Qed.

(** ** The brick loops *)

(** A visit that registers nothing: only the two counters move. *)
Lemma visitBrick_miss (props : GameProps) (rnd : nat → R) (c r : nat) (sc : Scan) :
  is_Some (getBrick (bricks (sc_state sc)) c r) →
  hitCell (ball (sc_state sc)) (bricks (sc_state sc)) (c, r) = false
  ∨ collisionDetectedThisFrame sc = true →
  visitBrick props rnd (c, r) sc =
    Some (mkScan (sc_state sc)
            (if wasDrawn (bricks (sc_state sc)) (c, r)
             then S (totalLayoutBricks sc) else totalLayoutBricks sc)
            (if wasDrawn (bricks (sc_state sc)) (c, r)
                && negb (cellAlive (bricks (sc_state sc)) c r)
             then S (brokenBricks sc) else brokenBricks sc)
            (collisionDetectedThisFrame sc) (draws sc)).
Proof.
  intros [b Hb] Hmiss. unfold visitBrick, hitCell, wasDrawn, cellAlive in *.
  simpl in *. rewrite Hb in *. simpl.
  destruct (status b) eqn:Es; simpl in *.
  - assert (overlaps (ball (sc_state sc)) b
            && negb (collisionDetectedThisFrame sc) = false) as ->.
    { destruct Hmiss as [-> | ->]; [done | by rewrite andb_false_r]. }
    by destruct sc.
  - destruct (bool_decide (brick_x b = 0) && bool_decide (brick_y b = 0)); simpl.
    + by destruct sc.
    + done.
Qed.

(** A visit that registers a hit. *)
Lemma visitBrick_hit (props : GameProps) (rnd : nat → R) (c r : nat) (b : Brick)
    (sc : Scan) :
  getBrick (bricks (sc_state sc)) c r = Some b →
  hitCell (ball (sc_state sc)) (bricks (sc_state sc)) (c, r) = true →
  collisionDetectedThisFrame sc = false →
  visitBrick props rnd (c, r) sc =
    s' ← registerHit props (rnd (draws sc)) c r b (sc_state sc);
    Some (mkScan s' (S (totalLayoutBricks sc)) (brokenBricks sc)
            (negb (isPowerBall (ball (sc_state sc))))
            (if isGolden b then S (draws sc) else draws sc)).
Proof.
  intros Hb Hhit Hdet. unfold visitBrick, hitCell in *. simpl in *.
  rewrite Hb in *. simpl.
  apply andb_prop in Hhit as [Hs Ho]. rewrite Hs, Ho, Hdet. simpl.
  by destruct (isPowerBall _).
Qed.

Lemma hitCell_alive (bl : Ball) (g : list (list Brick)) (c r : nat) :
  hitCell bl g (c, r) = true → cellAlive g c r = true.
Proof.
  unfold hitCell, cellAlive. simpl. destruct (getBrick g c r); [| done].
  by intros [? _]%andb_prop.
Qed.

Lemma visitBrick_total (props : GameProps) (rnd : nat → R) (c r : nat) (sc : Scan) :
  fieldOK (sc_state sc) → (c, r) ∈ scanOrder →
  ∃ sc', visitBrick props rnd (c, r) sc = Some sc' ∧ fieldOK (sc_state sc').
Proof.
  intros Hf Hin. apply elem_of_scanOrder in Hin as [Hc Hr].
  destruct (getBrick_is_Some _ c r (proj1 Hf) Hc Hr) as [b Hb].
  destruct (hitCell (ball (sc_state sc)) (bricks (sc_state sc)) (c, r)) eqn:Eh;
    [destruct (collisionDetectedThisFrame sc) eqn:Ed |].
  - rewrite visitBrick_miss by (by eauto). by eexists.
  - rewrite (visitBrick_hit _ _ _ _ b) by done.
    apply hitCell_alive in Eh. unfold cellAlive in Eh. rewrite Hb in Eh.
    destruct (registerHit_spec props (rnd (draws sc)) c r b (sc_state sc) Hf Hb Eh)
      as (s' & -> & Hf' & _). simpl. by eexists.
  - rewrite visitBrick_miss by (by eauto). by eexists.
Qed.

Lemma scanBricks_total (props : GameProps) (rnd : nat → R) (s : State) :
  fieldOK s → ∃ sc, scanBricks props rnd s = Some sc ∧ fieldOK (sc_state sc).
Proof.
  intros Hf. unfold scanBricks.
  apply (forEach_total _ (λ sc, fieldOK (sc_state sc))); [| done].
  intros [c r] sc Hin Hsc. by apply visitBrick_total.
Qed.

(** Once the one-hit flag is up the loops only count. *)
Lemma scan_after_hit (props : GameProps) (rnd : nat → R) (l : list (nat * nat))
    (sc sc' : Scan) :
  collisionDetectedThisFrame sc = true →
  forEach (visitBrick props rnd) l sc = Some sc' →
  sc_state sc' = sc_state sc ∧ collisionDetectedThisFrame sc' = true.
Proof.
  intros Hd. apply (forEach_invariant _
    (λ t, sc_state t = sc_state sc ∧ collisionDetectedThisFrame t = true)); [| done].
  intros [c r] t t' _ [Et Hdt] Hv.
  destruct (getBrick (bricks (sc_state t)) c r) as [b |] eqn:Eb.
  - rewrite visitBrick_miss in Hv by eauto. by simplify_eq.
  - unfold visitBrick in Hv. by rewrite Eb in Hv.
Qed.

Lemma visitBrick_undefined (props : GameProps) (rnd : nat → R) (c r : nat) (sc : Scan) :
  getBrick (bricks (sc_state sc)) c r = None → visitBrick props rnd (c, r) sc = None.
Proof. intros E. unfold visitBrick. by rewrite E. Qed.

Lemma hitCell_breaks (bl : Ball) (D : nat → nat → bool) (g g' : list (list Brick))
    (c r : nat) :
  breaks D g g' → hitCell bl g' (c, r) = negb (D c r) && hitCell bl g (c, r).
Proof.
  intros Hb. unfold hitCell. simpl. rewrite Hb.
  by destruct (D c r), (getBrick g c r).
Qed.

(** A ball that is not a power ball: the loops register the first hit and
    nothing after it. *)
Lemma scan_nonpower (props : GameProps) (rnd : nat → R) (l : list (nat * nat))
    (sc sc' : Scan) :
  collisionDetectedThisFrame sc = false →
  isPowerBall (ball (sc_state sc)) = false →
  forEach (visitBrick props rnd) l sc = Some sc' →
  match List.find (hitCell (ball (sc_state sc)) (bricks (sc_state sc))) l with
  | None => sc_state sc' = sc_state sc ∧ collisionDetectedThisFrame sc' = false
  | Some (c, r) =>
      ∃ b, getBrick (bricks (sc_state sc)) c r = Some b ∧ status b = true
           ∧ registerHit props (rnd (draws sc)) c r b (sc_state sc)
             = Some (sc_state sc')
  end.
Proof.
  revert sc. induction l as [| [c r] l IH]; intros sc Hd Hpw Hrun;
    cbn [forEach] in Hrun.
  - by simplify_eq.
  - destruct (getBrick (bricks (sc_state sc)) c r) as [b |] eqn:Eb;
      [| by rewrite visitBrick_undefined in Hrun].
    cbn [List.find]. destruct (hitCell _ _ (c, r)) eqn:Eh.
    + rewrite (visitBrick_hit _ _ _ _ b) in Hrun by done.
      destruct (registerHit _ _ _ _ _ _) as [s1 |] eqn:E1;
        cbn [mbind option_bind] in Hrun; [| done].
      apply scan_after_hit in Hrun as [-> _]; [| simpl; by rewrite Hpw].
      exists b. simpl. repeat split; [done | | done].
      apply hitCell_alive in Eh. unfold cellAlive in Eh. by rewrite Eb in Eh.
    + rewrite visitBrick_miss in Hrun by eauto.
      apply IH in Hrun; [| done | done]. exact Hrun.
Qed.

Lemma breaks_noGolden (D : nat → nat → bool) (g g' : list (list Brick)) :
  breaks D g g' → noGolden g → noGolden g'.
Proof.
  intros Hb Hn c r b. rewrite Hb. destruct (D c r); [| apply Hn].
  destruct (getBrick g c r); simpl; intros; by simplify_eq.
Qed.

(** A power ball with no golden brick left to hit: every brick it overlaps
    breaks, and the ball itself is left as it was. *)
Lemma scan_power (props : GameProps) (rnd : nat → R) (l : list (nat * nat))
    (sc sc' : Scan) :
  NoDup l → fieldOK (sc_state sc) → noGolden (bricks (sc_state sc)) →
  collisionDetectedThisFrame sc = false →
  isPowerBall (ball (sc_state sc)) = true →
  forEach (visitBrick props rnd) l sc = Some sc' →
  breaks (λ c r, bool_decide ((c, r) ∈ l)
                 && hitCell (ball (sc_state sc)) (bricks (sc_state sc)) (c, r))
         (bricks (sc_state sc)) (bricks (sc_state sc'))
  ∧ ball (sc_state sc') = ball (sc_state sc).
Proof.
  intros Hnd. revert sc.
  induction Hnd as [| [c r] l Hnotin Hnd IH]; intros sc Hf Hng Hd Hpw Hrun;
    cbn [forEach] in Hrun.
  - simplify_eq. split; [| done]. intros c r.
    by rewrite bool_decide_eq_false_2 by apply not_elem_of_nil.
  - destruct (getBrick (bricks (sc_state sc)) c r) as [b |] eqn:Eb;
      [| by rewrite visitBrick_undefined in Hrun].
    destruct (hitCell (ball (sc_state sc)) (bricks (sc_state sc)) (c, r)) eqn:Eh.
    + rewrite (visitBrick_hit _ _ _ _ b) in Hrun by done.
      pose proof (hitCell_alive _ _ _ _ Eh) as Ha.
      unfold cellAlive in Ha. rewrite Eb in Ha.
      pose proof (Hng c r b Eb Ha) as Egold.
      destruct (registerHit_spec props (rnd (draws sc)) c r b (sc_state sc) Hf Eb Ha)
        as (s1 & E1 & Hf1 & Hb1 & Hpw1 & Hball).
      rewrite E1 in Hrun. cbn [mbind option_bind] in Hrun.
      specialize (Hball Hpw Egold). specialize (Hpw1 Hpw).
      apply IH in Hrun; simpl; try done;
        [| by eapply breaks_noGolden | by rewrite Hpw].
      simpl in Hrun. destruct Hrun as [Hb2 ->]. split; [| done].
      eapply breaks_ext; [| exact (breaks_compose _ _ _ _ _ Hb1 Hb2)].
      intros c' r'. simpl. rewrite Hball, (hitCell_breaks _ _ _ _ _ _ Hb1).
      unfold brokenByHit. rewrite Egold. simpl. rewrite orb_false_r.
      destruct (decide ((c', r') = (c, r))) as [E | Hne].
      * simplify_eq. rewrite Eh, (bool_decide_eq_true_2 (_ = _)) by done.
        by rewrite (bool_decide_eq_true_2 (_ ∈ _ :: _)) by by left.
      * rewrite (bool_decide_eq_false_2 (_ = _)) by done. simpl.
        f_equal. apply bool_decide_ext. rewrite elem_of_cons.
        split; [by right | by intros [? | ?]].
    + rewrite visitBrick_miss in Hrun by eauto.
      apply IH in Hrun; [| done ..]. simpl in Hrun.
      destruct Hrun as [Hb2 ->]. split; [| done].
      eapply breaks_ext; [| exact Hb2].
      intros c' r'. simpl.
      destruct (decide ((c', r') = (c, r))) as [E | Hne].
      * simplify_eq. rewrite Eh, !andb_false_r. done.
      * f_equal. apply bool_decide_ext. rewrite elem_of_cons.
        split; [by right | by intros [? | ?]].
Qed.

(** ** The two counters of the win test *)

Lemma alive_wasDrawn (g : list (list Brick)) (c r : nat) :
  cellAlive g c r = true → wasDrawn g (c, r) = true.
Proof.
  unfold cellAlive, wasDrawn. simpl. destruct (getBrick g c r); [| done].
  by intros ->.
Qed.

(** A visit never lets [brokenBricks] catch up with [totalLayoutBricks],
    and a visible brick puts it one further behind. *)
Lemma visitBrick_counts (props : GameProps) (rnd : nat → R) (c r : nat)
    (sc sc' : Scan) :
  visitBrick props rnd (c, r) sc = Some sc' →
  (brokenBricks sc' + totalLayoutBricks sc
   ≤ brokenBricks sc + totalLayoutBricks sc')%nat
  ∧ (cellAlive (bricks (sc_state sc)) c r = true →
     (brokenBricks sc' + totalLayoutBricks sc
      < brokenBricks sc + totalLayoutBricks sc')%nat).
Proof.
  intros Hv.
  destruct (getBrick (bricks (sc_state sc)) c r) as [b |] eqn:Eb;
    [| by rewrite visitBrick_undefined in Hv].
  destruct (hitCell (ball (sc_state sc)) (bricks (sc_state sc)) (c, r)) eqn:Eh;
    [destruct (collisionDetectedThisFrame sc) eqn:Ed |].
  2: { rewrite (visitBrick_hit _ _ _ _ b) in Hv by done.
       destruct (registerHit _ _ _ _ _ _); simpl in Hv; [| done].
       simplify_eq. simpl. lia. }
  all: rewrite visitBrick_miss in Hv by eauto; simplify_eq; simpl.
  all: destruct (cellAlive _ c r) eqn:Ea;
    [rewrite (alive_wasDrawn _ _ _ Ea); simpl; lia |].
  all: destruct (wasDrawn _ _); simpl; split; (lia || done).
Qed.

Lemma scan_behind (props : GameProps) (rnd : nat → R) (l : list (nat * nat))
    (sc sc' : Scan) :
  (brokenBricks sc ≤ totalLayoutBricks sc)%nat →
  (brokenBricks sc < totalLayoutBricks sc)%nat
  ∨ (∃ c r, (c, r) ∈ l ∧ cellAlive (bricks (sc_state sc)) c r = true) →
  forEach (visitBrick props rnd) l sc = Some sc' →
  (brokenBricks sc' < totalLayoutBricks sc')%nat.
Proof.
  revert sc. induction l as [| [c r] l IH]; intros sc Hle Hcase Hrun;
    cbn [forEach] in Hrun.
  - simplify_eq. destruct Hcase as [? | (c & r & Hin & _)]; [done |].
    by apply not_elem_of_nil in Hin.
  - destruct (visitBrick props rnd (c, r) sc) as [sc1 |] eqn:Ev;
      cbn [mbind option_bind] in Hrun; [| done].
    pose proof (visitBrick_counts _ _ _ _ _ _ Ev) as [Hmono Hstrict].
    apply (IH sc1); [lia | | done].
    destruct Hcase as [Hlt | (c' & r' & Hin & Ha)]; [left; lia |].
    destruct (cellAlive (bricks (sc_state sc)) c r) eqn:Ea.
    + left. specialize (Hstrict eq_refl). lia.
    + right. exists c', r'.
      apply elem_of_cons in Hin as [E | Hin]; [simplify_eq; congruence |].
      split; [done |].
      destruct (getBrick (bricks (sc_state sc)) c r) as [b |] eqn:Eb;
        [| by rewrite visitBrick_undefined in Ev].
      rewrite visitBrick_miss in Ev; [by simplify_eq | by eauto |].
      left. unfold hitCell, cellAlive in *. simpl. rewrite Eb in *. by rewrite Ea.
Qed.

(** While a brick is visible when the loops start, the win test fails. *)
Lemma scanBricks_behind (props : GameProps) (rnd : nat → R) (s : State) (sc : Scan)
    (c r : nat) :
  gridOK (bricks s) → cellAlive (bricks s) c r = true →
  scanBricks props rnd s = Some sc →
  (brokenBricks sc < totalLayoutBricks sc)%nat.
Proof.
  intros Hg Ha. apply scan_behind; [simpl; lia |].
  right. exists c, r. split; [| done]. apply elem_of_scanOrder.
  unfold cellAlive in Ha. destruct (getBrick (bricks s) c r) eqn:Eb; [| done].
  by eapply getBrick_Some_lt.
Qed.

(** With no brick visible the loops count every drawn cell as broken. *)
Lemma scan_all_broken (props : GameProps) (rnd : nat → R) (l : list (nat * nat))
    (sc : Scan) :
  (∀ c r, (c, r) ∈ l → is_Some (getBrick (bricks (sc_state sc)) c r)) →
  (∀ c r, cellAlive (bricks (sc_state sc)) c r = false) →
  forEach (visitBrick props rnd) l sc =
    Some (mkScan (sc_state sc)
            (totalLayoutBricks sc + length (filter (λ cr, wasDrawn (bricks (sc_state sc)) cr = true) l))
            (brokenBricks sc + length (filter (λ cr, wasDrawn (bricks (sc_state sc)) cr = true) l))
            (collisionDetectedThisFrame sc) (draws sc)).
Proof.
  revert sc. induction l as [| [c r] l IH]; intros sc Hsome Hdead; cbn [forEach].
  - rewrite filter_nil. simpl. rewrite !Nat.add_0_r. by destruct sc.
  - rewrite visitBrick_miss.
    2: { apply Hsome. by left. }
    2: { left. unfold hitCell. simpl. specialize (Hdead c r). unfold cellAlive in Hdead.
         destruct (getBrick _ c r); [by rewrite Hdead | done]. }
    cbn [mbind option_bind]. rewrite IH; simpl.
    2: { intros c' r' Hin. apply Hsome. by right. }
    2: { done. }
    rewrite filter_cons, Hdead. simpl. rewrite andb_true_r.
    destruct (wasDrawn _ (c, r)) eqn:Ew.
    + rewrite decide_True by done. simpl. do 2 f_equal; lia.
    + rewrite decide_False by (by intros ?). done.
Qed.

(** ** The stages of a frame *)

Lemma loopDetection_cases (s : State) :
  let s1 := set_ballPositionHistory
              (pushHistory (ball_x (ball s), ball_y (ball s)) (ballPositionHistory s)) s in
  (loopDetected s1 = true ∧ loopDetection s = raiseStuck s1)
  ∨ (loopDetected s1 = false ∧ loopDetection s = s1).
Proof. unfold loopDetection. cbv zeta. destruct (loopDetected _); auto. Qed.

Lemma loopDetection_besideHead (s : State) :
  besideHead (loopDetection s) = besideHead s
  ∧ paddle (loopDetection s) = paddle s
  ∧ bricks (loopDetection s) = bricks s
  ∧ ball (loopDetection s) = ball s.
Proof. by destruct (loopDetection_cases s) as [[_ ->] | [_ ->]]. Qed.

Lemma beforeDetection_besideHead (props : GameProps) (inp : FrameInput) (s : State) :
  besideHead (beforeDetection props inp s) = besideHead s
  ∧ bricks (beforeDetection props inp s) = drawBricks (bricks s)
  ∧ isStuck (beforeDetection props inp s) = isStuck s
  ∧ recoveringFromStuckCounter (beforeDetection props inp s)
    = pred (recoveringFromStuckCounter s).
Proof. unfold beforeDetection, frameHead. by destruct (isAIEnabled props). Qed.

Lemma beforeCollision_besideHead (props : GameProps) (inp : FrameInput) (s : State) :
  besideHead (beforeCollision props inp s) = besideHead s
  ∧ bricks (beforeCollision props inp s) = drawBricks (bricks s)
  ∧ paddle (beforeCollision props inp s) = paddle (beforeDetection props inp s)
  ∧ isStuck (beforeCollision props inp s)
    = isStuck (loopDetection (beforeDetection props inp s)).
Proof.
  destruct (loopDetection_besideHead (beforeDetection props inp s)) as (E1 & E2 & E3 & _).
  destruct (beforeDetection_besideHead props inp s) as (E4 & E5 & _).
  unfold beforeCollision. cbv zeta. unfold besideHead in *. refs.
  rewrite E2, E3, E5. simplify_eq. repeat split; congruence.
Qed.

(** The frame, case by case. *)
Lemma draw_cases (props : GameProps) (inp : FrameInput) (s s' : State) :
  draw props inp s = Some s' →
  (terminal s = true ∧ s' = loopDetection (beforeDetection props inp s))
  ∨ (terminal s = false
     ∧ ∃ sc, scanBricks props (goldenDraws inp) (beforeCollision props inp s) = Some sc
         ∧ ((0 < totalLayoutBricks sc)%nat ∧ brokenBricks sc = totalLayoutBricks sc
            ∧ s' = set_isWinning true (sc_state sc)
            ∨ ¬ ((0 < totalLayoutBricks sc)%nat ∧ brokenBricks sc = totalLayoutBricks sc)
              ∧ s' = afterBricks props inp (sc_state sc))).
Proof.
  unfold draw. cbv zeta.
  destruct (loopDetection_besideHead (beforeDetection props inp s)) as (E1 & _).
  destruct (beforeDetection_besideHead props inp s) as (E2 & _).
  rewrite E2 in E1. unfold besideHead in E1.
  assert (isWinning (loopDetection (beforeDetection props inp s)) = isWinning s
          ∧ isLosing (loopDetection (beforeDetection props inp s)) = isLosing s)
    as [-> ->] by (by simplify_eq).
  unfold terminal.
  destruct (isWinning s) eqn:Ew; simpl; [intros; left; by simplify_eq |].
  destruct (isLosing s) eqn:El; simpl; [intros; left; by simplify_eq |].
  intros H. right. split; [done |].
  unfold collisionDetection in H.
  destruct (scanBricks _ _ _) as [sc |] eqn:Esc; simpl in H; [| done].
  exists sc. split; [done |].
  pose proof (scanBricks_beside _ _ _ _ Esc) as Eb.
  destruct (beforeCollision_besideHead props inp s) as (Eh & _).
  assert (isWinning (sc_state sc) = false) as Ew'.
  { unfold besideBricks in Eb. unfold besideHead in Eh. simplify_eq. congruence. }
  rewrite Ew' in H. simpl in H. rewrite andb_true_r in H.
  destruct (bool_decide (0 < _)%nat && bool_decide (_ = _)) eqn:E.
  - apply andb_prop in E as [?%bool_decide_eq_true ?%bool_decide_eq_true].
    left. by simplify_eq.
  - right. split; [| by simplify_eq].
    intros [? ?]. rewrite !bool_decide_eq_true_2 in E by done. done.
Qed.

(** ** Walls, paddle, floor: what each stage leaves alone *)

Lemma wallPenalty_beside (props : GameProps) (s : State) :
  besideWalls (wallPenalty props s) = besideWalls s.
Proof. done. Qed.

Lemma sideWalls_beside (props : GameProps) (s : State) :
  besideWalls (sideWalls props s) = besideWalls s.
Proof. unfold sideWalls. cbv zeta. by repeat case_bool_decide. Qed.

Lemma topWall_beside (props : GameProps) (s : State) :
  besideWalls (topWall props s) = besideWalls s.
Proof. unfold topWall. cbv zeta. by case_bool_decide. Qed.

Lemma paddleBounce_beside (s : State) :
  besidePaddle (paddleBounce s) = besidePaddle s.
Proof. unfold paddleBounce. cbv zeta. by destruct (isStuck s). Qed.

Lemma paddleCollision_beside (s : State) :
  besidePaddle (paddleCollision s) = besidePaddle s.
Proof.
  unfold paddleCollision. destruct (touchesPaddle s); [| done].
  apply paddleBounce_beside.
Qed.

Lemma floorCheck_beside (rand : R) (s : State) :
  besideFloor (floorCheck rand s) = besideFloor s.
Proof. unfold floorCheck. cbv zeta. by repeat case_bool_decide. Qed.

Lemma floorCheck_paddle (rand : R) (s : State) :
  paddle (floorCheck rand s) = paddle s
  ∨ paddle (floorCheck rand s)
    = mkPaddle ((CANVAS_WIDTH - PADDLE_WIDTH) / 2)
               (paddle_width (paddle s)) (paddle_height (paddle s)).
Proof. unfold floorCheck. cbv zeta. repeat case_bool_decide; auto. Qed.

(** ** Every frame of a match completes *)

Lemma afterBricks_bricks (props : GameProps) (inp : FrameInput) (s : State) :
  bricks (afterBricks props inp s) = bricks s.
Proof.
  unfold afterBricks.
  pose proof (floorCheck_beside (resetDraw inp)
                (paddleCollision (topWall props (sideWalls props s)))) as E1.
  pose proof (paddleCollision_beside (topWall props (sideWalls props s))) as E2.
  pose proof (topWall_beside props (sideWalls props s)) as E3.
  pose proof (sideWalls_beside props s) as E4.
  unfold besideFloor, besidePaddle, besideWalls in *. simplify_eq. congruence.
Qed.

Lemma draw_total (props : GameProps) (inp : FrameInput) (s : State) :
  gridOK (bricks s) →
  ∃ s', draw props inp s = Some s' ∧ gridOK (bricks s').
Proof.
  intros Hg.
  destruct (loopDetection_besideHead (beforeDetection props inp s)) as (E1 & _ & E3 & _).
  destruct (beforeDetection_besideHead props inp s) as (E2 & E4 & _).
  destruct (beforeCollision_besideHead props inp s) as (_ & E5 & _).
  assert (fieldOK (beforeCollision props inp s)) as Hf.
  { unfold fieldOK. rewrite E5. split; [by apply drawBricks_gridOK | apply drawBricks_placed]. }
  destruct (scanBricks_total props (goldenDraws inp) _ Hf) as (sc & Esc & [Hg' _]).
  unfold draw. cbv zeta.
  destruct (negb _ && negb _).
  - unfold collisionDetection. rewrite Esc. simpl.
    destruct (_ && _ && _); eexists; (split; [reflexivity |]); [done |].
    change (gridOK (bricks (afterBricks props inp (sc_state sc)))).
    by rewrite afterBricks_bricks.
  - eexists. split; [done |]. rewrite E3, E4. by apply drawBricks_gridOK.
Qed.

Lemma initialState_gridOK (props : GameProps) (m : MatchSetup) :
  gridOK (bricks (initialState props m)).
Proof. apply createBricks_gridOK. Qed.

Lemma run_total (props : GameProps) (m : MatchSetup) (inputs : nat → FrameInput)
    (n : nat) :
  ∃ s, run props m inputs n = Some s ∧ gridOK (bricks s).
Proof.
  induction n as [| n (s & E & Hg)]; simpl.
  - eexists. split; [done |]. apply initialState_gridOK.
  - rewrite E. simpl. by apply draw_total.
Qed.

(** An invariant of the frame that holds at the start holds after any
    number of frames, and that many frames do complete. *)
Lemma run_invariant (props : GameProps) (m : MatchSetup) (inputs : nat → FrameInput)
    (P : State → Prop) :
  P (initialState props m) →
  (∀ inp s s', P s → draw props inp s = Some s' → P s') →
  ∀ n, ∃ s, run props m inputs n = Some s ∧ P s.
Proof.
  intros H0 Hstep n. induction n as [| n (s & E & HP)]; simpl.
  - by eexists.
  - destruct (run_total props m inputs n) as (s0 & E0 & Hg).
    rewrite E in E0. simplify_eq. rewrite E. simpl.
    destruct (draw_total props (inputs n) s0 Hg) as (s' & E' & _).
    exists s'. split; [done |]. by eapply Hstep.
Qed.

(** ** PaddleController: the paddle stays on the field *)

Lemma beforeDetection_paddleOK (props : GameProps) (inp : FrameInput) (s : State) :
  paddleOK s → paddleOK (beforeDetection props inp s).
Proof.
  unfold paddleOK, beforeDetection, frameHead, aiMove. cbv zeta.
  intros [Hw Hx]. destruct (isAIEnabled props); refs; [| done].
  split; [done |]. rewrite Hw in *. unfold CANVAS_WIDTH, PADDLE_WIDTH in *.
  unfold Rmax, Rmin. repeat destruct (Rle_dec _ _); lra.
Qed.

Lemma afterBricks_paddleOK (props : GameProps) (inp : FrameInput) (s : State) :
  paddleOK s → paddleOK (afterBricks props inp s).
Proof.
  unfold afterBricks. intros [Hw Hx].
  pose proof (floorCheck_beside (resetDraw inp)
                (paddleCollision (topWall props (sideWalls props s)))) as E1.
  pose proof (paddleCollision_beside (topWall props (sideWalls props s))) as E2.
  pose proof (topWall_beside props (sideWalls props s)) as E3.
  pose proof (sideWalls_beside props s) as E4.
  unfold besideFloor, besidePaddle, besideWalls in *. simplify_eq.
  assert (paddle (paddleCollision (topWall props (sideWalls props s))) = paddle s)
    as Ep by congruence.
  unfold paddleOK.
  destruct (floorCheck_paddle (resetDraw inp)
              (paddleCollision (topWall props (sideWalls props s)))) as [-> | ->].
  - by rewrite Ep.
  - rewrite Ep. refs. split; [done |]. rewrite Hw.
    unfold CANVAS_WIDTH, PADDLE_WIDTH. lra.
Qed.

Lemma draw_paddleOK (props : GameProps) (inp : FrameInput) (s s' : State) :
  paddleOK s → draw props inp s = Some s' → paddleOK s'.
Proof.
  intros Hp Hd. pose proof (beforeDetection_paddleOK props inp s Hp) as Hp1.
  apply draw_cases in Hd as [[_ ->] | (_ & sc & Esc & Hcase)].
  - unfold paddleOK.
    by destruct (loopDetection_besideHead (beforeDetection props inp s)) as (_ & -> & _).
  - assert (paddleOK (sc_state sc)) as Hp2.
    { apply scanBricks_beside in Esc.
      destruct (beforeCollision_besideHead props inp s) as (_ & _ & E & _).
      unfold paddleOK, besideBricks in *. simplify_eq. congruence. }
    destruct Hcase as [(_ & _ & ->) | (_ & ->)]; [done |].
    by apply afterBricks_paddleOK.
Qed.


(** ** PsychologicalModeSelector: the confidence scalar *)

Lemma registerHit_confidence (props : GameProps) (rand : R) (c r : nat) (b : Brick)
    (s s' : State) :
  registerHit props rand c r b s = Some s' →
  dynamicAggressionFactor s'
  = Rmin 1.5 (dynamicAggressionFactor s + 0.05 * initialSkillLevel props).
Proof.
  unfold registerHit. cbv zeta. intros H.
  destruct (isGolden b); simpl in H.
  - destruct (handleGoldenBrick _ _ _) as [s1 |] eqn:E; simpl in H; [| done].
    apply handleGoldenBrick_beside in E as [_ E].
    destruct (negb _); simplify_eq; exact E.
  - by destruct (negb _); simplify_eq.
Qed.

Lemma visitBrick_confident (props : GameProps) (rnd : nat → R) (cr : nat * nat)
    (sc sc' : Scan) :
  0 <= initialSkillLevel props →
  confident (sc_state sc) → visitBrick props rnd cr sc = Some sc' →
  confident (sc_state sc').
Proof.
  intros Hskill Hc Hv. destruct cr as [c r].
  destruct (getBrick (bricks (sc_state sc)) c r) as [b |] eqn:Eb;
    [| by rewrite visitBrick_undefined in Hv].
  destruct (hitCell (ball (sc_state sc)) (bricks (sc_state sc)) (c, r)) eqn:Eh;
    [destruct (collisionDetectedThisFrame sc) eqn:Ed |].
  2: { rewrite (visitBrick_hit _ _ _ _ b) in Hv by done.
       destruct (registerHit _ _ _ _ _ _) as [s1 |] eqn:E1; simpl in Hv; [| done].
       apply registerHit_confidence in E1. simplify_eq. unfold confident in *. simpl.
       rewrite E1. unfold Rmin. destruct (Rle_dec _ _); lra. }
  all: rewrite visitBrick_miss in Hv by eauto; by simplify_eq.
Qed.

Lemma wallPenalty_confident (props : GameProps) (s : State) :
  0 <= initialSkillLevel props → confident s → confident (wallPenalty props s).
Proof.
  unfold confident, wallPenalty. refs. intros Hskill Hc.
  unfold Rmax. destruct (Rle_dec _ _); lra.
Qed.

Lemma afterBricks_confident (props : GameProps) (inp : FrameInput) (s : State) :
  0 <= initialSkillLevel props → confident s → confident (afterBricks props inp s).
Proof.
  intros Hskill Hc. unfold afterBricks.
  pose proof (floorCheck_beside (resetDraw inp)
                (paddleCollision (topWall props (sideWalls props s)))) as E1.
  pose proof (paddleCollision_beside (topWall props (sideWalls props s))) as E2.
  unfold besideFloor, besidePaddle in *. simplify_eq.
  assert (confident (sideWalls props s)) as Hc1.
  { unfold sideWalls. cbv zeta.
    repeat case_bool_decide; try done; by apply wallPenalty_confident. }
  assert (confident (topWall props (sideWalls props s))) as Hc2.
  { unfold topWall. cbv zeta.
    case_bool_decide; try done; by apply wallPenalty_confident. }
  unfold confident in *. congruence.
Qed.

Lemma draw_confident (props : GameProps) (inp : FrameInput) (s s' : State) :
  0 <= initialSkillLevel props →
  confident s → draw props inp s = Some s' → confident s'.
Proof.
  intros Hskill Hc Hd.
  apply draw_cases in Hd as [[_ ->] | (_ & sc & Esc & Hcase)].
  - destruct (loopDetection_besideHead (beforeDetection props inp s)) as (E1 & _).
    destruct (beforeDetection_besideHead props inp s) as (E2 & _).
    unfold confident, besideHead in *. simplify_eq. congruence.
  - assert (confident (sc_state sc)) as Hc2.
    { revert Esc. unfold scanBricks.
      apply (forEach_invariant _ (λ t, confident (sc_state t))).
      - intros cr t t' _. by apply visitBrick_confident.
      - destruct (beforeCollision_besideHead props inp s) as (E & _).
        unfold confident, besideHead in *. simplify_eq. cbn [sc_state]. congruence. }
    destruct Hcase as [(_ & _ & ->) | (_ & ->)]; [done |].
    by apply afterBricks_confident.
Qed.

(** C10. For a match with a non-negative skill level the confidence scalar
    starts at 1.0 and, after every frame, lies within [0.5, 1.5]; a hit
    raises it to at most 1.5 and a wall lowers it to at least 0.5. *)
Theorem confidence_bounded (props : GameProps) (m : MatchSetup)
    (inputs : nat → FrameInput) (n : nat) :
  0 <= initialSkillLevel props →
  dynamicAggressionFactor (initialState props m) = 1.0
  ∧ ∃ s, run props m inputs n = Some s
         ∧ 0.5 <= dynamicAggressionFactor s <= 1.5.
Proof.
  intros Hskill. split; [done |].
  apply (run_invariant props m inputs confident).
  - unfold confident, initialState, resetBallAndPaddle. cbv zeta. refs. lra.
  - intros inp s s' Hp Hd. by eapply draw_confident.
Qed.

(** ** LoopDetector: raising and clearing "stuck" *)

Lemma loopDetected_guard (s : State) :
  loopDetected s = true → isStuck s = false ∧ recoveringFromStuckCounter s = 0%nat.
Proof.
  unfold loopDetected. cbv zeta.
  intros [[[Hs Hr%bool_decide_eq_true]%andb_prop _]%andb_prop _]%andb_prop.
  by apply negb_true_iff in Hs.
Qed.

Lemma loopDetection_isStuck (props : GameProps) (inp : FrameInput) (s : State) :
  isStuck (loopDetection (beforeDetection props inp s))
  = isStuck s || raisesStuck props inp s.
Proof.
  unfold raisesStuck, atDetector. cbv zeta.
  destruct (beforeDetection_besideHead props inp s) as (_ & _ & Es & _).
  destruct (loopDetection_cases (beforeDetection props inp s)) as [[E ->] | [E ->]];
    cbv zeta in E; rewrite E; unfold raiseStuck; refs.
  - by rewrite orb_true_r.
  - by rewrite Es, orb_false_r.
Qed.

Lemma afterBricks_isStuck (props : GameProps) (inp : FrameInput) (s : State) :
  isStuck (afterBricks props inp s)
  = if touchesPaddle (topWall props (sideWalls props s)) then false else isStuck s.
Proof.
  unfold afterBricks.
  pose proof (floorCheck_beside (resetDraw inp)
                (paddleCollision (topWall props (sideWalls props s)))) as E1.
  pose proof (topWall_beside props (sideWalls props s)) as E3.
  pose proof (sideWalls_beside props s) as E4.
  unfold besideFloor, besideWalls in *. simplify_eq.
  assert (isStuck (floorCheck (resetDraw inp)
                     (paddleCollision (topWall props (sideWalls props s))))
          = isStuck (paddleCollision (topWall props (sideWalls props s)))) as ->
    by congruence.
  unfold paddleCollision. destruct (touchesPaddle _).
  - unfold paddleBounce. cbv zeta.
    destruct (isStuck (topWall props (sideWalls props s))) eqn:E; refs; [done | exact E].
  - congruence.
Qed.

Lemma draw_isStuck (props : GameProps) (inp : FrameInput) (s s' : State) :
  draw props inp s = Some s' →
  isStuck s' = if paddleContact props inp s then false
               else isStuck s || raisesStuck props inp s.
Proof.
  intros Hd. unfold paddleContact.
  apply draw_cases in Hd as [[-> ->] | (-> & sc & Esc & Hcase)]; simpl.
  - apply loopDetection_isStuck.
  - rewrite Esc.
    assert (isStuck (sc_state sc) = isStuck s || raisesStuck props inp s) as Est.
    { rewrite <- loopDetection_isStuck.
      apply scanBricks_beside in Esc.
      destruct (beforeCollision_besideHead props inp s) as (_ & _ & _ & E).
      unfold besideBricks in Esc. simplify_eq. congruence. }
    destruct Hcase as [(H1 & H2 & ->) | (Hn & ->)].
    + rewrite !bool_decide_eq_true_2 by done. simpl. exact Est.
    + assert (bool_decide (0 < totalLayoutBricks sc)%nat
              && bool_decide (brokenBricks sc = totalLayoutBricks sc) = false) as ->.
      { apply andb_false_iff.
        destruct (decide (0 < totalLayoutBricks sc)%nat);
          [right | left]; apply bool_decide_eq_false_2; tauto. }
      simpl. rewrite afterBricks_isStuck. by rewrite Est.
Qed.

Lemma afterBricks_history (props : GameProps) (inp : FrameInput) (s : State) :
  ballPositionHistory (afterBricks props inp s) = ballPositionHistory s.
Proof.
  unfold afterBricks.
  assert (H1 : ballPositionHistory (sideWalls props s) = ballPositionHistory s).
  { unfold sideWalls. cbv zeta. by repeat case_bool_decide. }
  assert (H2 : ballPositionHistory (topWall props (sideWalls props s))
               = ballPositionHistory s).
  { unfold topWall. cbv zeta. by case_bool_decide. }
  assert (H3 : ballPositionHistory (paddleCollision (topWall props (sideWalls props s)))
               = ballPositionHistory s).
  { unfold paddleCollision. destruct (touchesPaddle _); [| done].
    unfold paddleBounce. cbv zeta. by destruct (isStuck _). }
  unfold floorCheck, resetBallAndPaddle. cbv zeta. by repeat case_bool_decide.
Qed.

Lemma afterBricks_cooldown (props : GameProps) (inp : FrameInput) (s : State) :
  recoveringFromStuckCounter (afterBricks props inp s) = recoveringFromStuckCounter s.
Proof.
  unfold afterBricks.
  pose proof (floorCheck_beside (resetDraw inp)
                (paddleCollision (topWall props (sideWalls props s)))) as E1.
  pose proof (paddleCollision_beside (topWall props (sideWalls props s))) as E2.
  pose proof (topWall_beside props (sideWalls props s)) as E3.
  pose proof (sideWalls_beside props s) as E4.
  unfold besideFloor, besidePaddle, besideWalls in *. simplify_eq. congruence.
Qed.

Lemma atDetector_refs (props : GameProps) (inp : FrameInput) (s : State) :
  isStuck (atDetector props inp s) = isStuck s
  ∧ recoveringFromStuckCounter (atDetector props inp s)
    = pred (recoveringFromStuckCounter s)
  ∧ ballPositionHistory (atDetector props inp s)
    = pushHistory (ball_x (ball s), ball_y (ball s)) (ballPositionHistory s).
Proof.
  unfold atDetector. cbv zeta.
  destruct (beforeDetection_besideHead props inp s) as (_ & _ & Es & Er).
  refs. split; [done |]. split; [done |].
  assert (ball (beforeDetection props inp s) = powerBallTick (ball s)
          ∧ ballPositionHistory (beforeDetection props inp s) = ballPositionHistory s)
    as [-> ->].
  { unfold beforeDetection, frameHead, aiMove. by destruct (isAIEnabled props). }
  assert (ball_x (powerBallTick (ball s)) = ball_x (ball s)
          ∧ ball_y (powerBallTick (ball s)) = ball_y (ball s)) as [-> ->]; [| done].
  unfold powerBallTick. destruct (powerBallTimer (ball s)) as [| [| k]]; try done.
  cbv zeta. by case_bool_decide.
Qed.

Lemma draw_detector (props : GameProps) (inp : FrameInput) (s s' : State) :
  draw props inp s = Some s' →
  recoveringFromStuckCounter s'
  = recoveringFromStuckCounter (loopDetection (beforeDetection props inp s))
  ∧ ballPositionHistory s'
    = ballPositionHistory (loopDetection (beforeDetection props inp s)).
Proof.
  intros Hd.
  apply draw_cases in Hd as [[_ ->] | (_ & sc & Esc & Hcase)]; [done |].
  apply scanBricks_beside in Esc. unfold besideBricks in Esc.
  assert (recoveringFromStuckCounter (sc_state sc)
          = recoveringFromStuckCounter (loopDetection (beforeDetection props inp s))
          ∧ ballPositionHistory (sc_state sc)
            = ballPositionHistory (loopDetection (beforeDetection props inp s)))
    as [E1 E2].
  { unfold beforeCollision in Esc. cbv zeta in Esc. by simplify_eq. }
  destruct Hcase as [(_ & _ & ->) | (_ & ->)]; [done |].
  by rewrite afterBricks_cooldown, afterBricks_history.
Qed.

(** C9. In the frame that follows any number of frames of a match, let [a]
    be the refs when the detector's test runs: the flag as the frame found
    it, the cooldown after its decrement at the head of the frame, and the
    history with the ball's position pushed.  The detector raises "stuck"
    only with the flag down and the cooldown at zero in [a]; with the flag up
    or the cooldown running it does nothing beyond the push: it leaves [a],
    so the flag stays, the cooldown is not re-armed and the history is not
    emptied, also when the frame is over.  When it raises, it sets the flag,
    arms the cooldown with [AI_RECOVERY_FRAMES] and empties the history.
    After the frame the flag is down if the ball has touched the paddle in
    it, and otherwise up exactly if it was up or has been raised. *)
Theorem stuck_raised_and_cleared (props : GameProps) (m : MatchSetup)
    (inputs : nat → FrameInput) (n : nat) :
  ∃ s s', run props m inputs n = Some s
    ∧ draw props (inputs n) s = Some s'
    ∧ let a := atDetector props (inputs n) s in
      let d := loopDetection (beforeDetection props (inputs n) s) in
      let raised := raisesStuck props (inputs n) s in
      isStuck a = isStuck s
      ∧ recoveringFromStuckCounter a = pred (recoveringFromStuckCounter s)
      ∧ ballPositionHistory a
        = pushHistory (ball_x (ball s), ball_y (ball s)) (ballPositionHistory s)
      ∧ (raised = true →
           isStuck a = false ∧ recoveringFromStuckCounter a = 0%nat ∧ isStuck s = false)
      ∧ (isStuck a = true ∨ recoveringFromStuckCounter a ≠ 0%nat → raised = false)
      ∧ d = (if raised then raiseStuck a else a)
      ∧ recoveringFromStuckCounter s' = recoveringFromStuckCounter d
      ∧ ballPositionHistory s' = ballPositionHistory d
      ∧ (raised = true →
           recoveringFromStuckCounter s' = AI_RECOVERY_FRAMES
           ∧ ballPositionHistory s' = [])
      ∧ (raised = false →
           recoveringFromStuckCounter s' = pred (recoveringFromStuckCounter s)
           ∧ ballPositionHistory s' = ballPositionHistory a)
      ∧ isStuck s' = (if paddleContact props (inputs n) s then false
                      else isStuck s || raised).
Proof.
  destruct (run_total props m inputs n) as (s & E & Hg).
  destruct (draw_total props (inputs n) s Hg) as (s' & E' & _).
  exists s, s'. split; [done |]. split; [done |]. cbv zeta.
  destruct (atDetector_refs props (inputs n) s) as (Ea1 & Ea2 & Ea3).
  destruct (draw_detector props (inputs n) s s' E') as [Ed1 Ed2].
  assert (Hd : loopDetection (beforeDetection props (inputs n) s)
               = if raisesStuck props (inputs n) s
                 then raiseStuck (atDetector props (inputs n) s)
                 else atDetector props (inputs n) s).
  { unfold raisesStuck, atDetector. cbv zeta.
    by destruct (loopDetection_cases (beforeDetection props (inputs n) s))
      as [[-> ->] | [-> ->]]. }
  split; [done |]. split; [done |]. split; [done |]. split.
  { intros H. apply loopDetected_guard in H as [H1 H2].
    split; [done |]. split; [done |]. congruence. }
  split.
  { intros H. destruct (raisesStuck props (inputs n) s) eqn:Er; [| done].
    apply loopDetected_guard in Er as [H1 H2]. destruct H; congruence. }
  split; [done |]. split; [done |]. split; [done |]. split.
  { intros Er. rewrite Ed1, Ed2, Hd, Er. by unfold raiseStuck. }
  split.
  { intros Er. rewrite Ed1, Ed2, Hd, Er. by rewrite Ea2. }
  by apply draw_isStuck.
Qed.

(** ** Match termination *)

Lemma cellAlive_drawBricks (g : list (list Brick)) (c r : nat) :
  cellAlive (drawBricks g) c r = cellAlive g c r.
Proof.
  unfold cellAlive. rewrite getBrick_drawBricks.
  destruct (getBrick g c r) as [b |]; simpl; [| done].
  unfold placeBrick. by destruct (status b) eqn:E.
Qed.

Lemma wasDrawn_drawBricks (g : list (list Brick)) (c r : nat) :
  cellAlive g c r = false → wasDrawn (drawBricks g) (c, r) = wasDrawn g (c, r).
Proof.
  unfold cellAlive, wasDrawn. simpl. rewrite getBrick_drawBricks.
  destruct (getBrick g c r) as [b |]; simpl; [| done].
  unfold placeBrick. destruct b as [x y st gold]. simpl. by intros ->.
Qed.

Lemma filter_length_pos {A : Type} (P : A → Prop) `{∀ x, Decision (P x)}
    (l : list A) (x : A) :
  x ∈ l → P x → (0 < length (filter P l))%nat.
Proof.
  intros Hin HP. assert (x ∈ filter P l) as Hf by by apply list_elem_of_filter.
  destruct (filter P l); [by apply not_elem_of_nil in Hf | simpl; lia].
Qed.

Lemma filter_length_zero {A : Type} (P : A → Prop) `{∀ x, Decision (P x)}
    (l : list A) :
  (∀ x, x ∈ l → ¬ P x) → length (filter P l) = 0%nat.
Proof.
  intros Hno. destruct (filter P l) as [| x l'] eqn:E; [done |].
  assert (x ∈ filter P l) as [HP Hin]%list_elem_of_filter by (rewrite E; by left).
  by destruct (Hno x Hin).
Qed.

Lemma some_alive_or_none (g : list (list Brick)) :
  gridOK g →
  (∃ c r, cellAlive g c r = true) ∨ (∀ c r, cellAlive g c r = false).
Proof.
  intros Hg.
  destruct (decide (Exists (λ cr, cellAlive g cr.1 cr.2 = true) scanOrder))
    as [Hex | Hno].
  - left. apply Exists_exists in Hex as ([c r] & _ & Ha). by exists c, r.
  - right. intros c r. destruct (cellAlive g c r) eqn:Ea; [| done].
    exfalso. apply Hno, Exists_exists. exists (c, r). split; [| done].
    apply elem_of_scanOrder. unfold cellAlive in Ea.
    destruct (getBrick g c r) eqn:E; [| done]. by eapply getBrick_Some_lt.
Qed.

(** The frame in which the win flag goes up is one that starts with every
    brick already broken: the brick loops count a brick as broken only if
    it was broken before they reached it, so the frame that breaks the last
    brick leaves the flag down and the next frame raises it. *)
Lemma win_flag_raised_iff (props : GameProps) (inp : FrameInput) (s s' : State) :
  gridOK (bricks s) → terminal s = false → draw props inp s = Some s' →
  isWinning s' = true
  ↔ (∀ c r, cellAlive (bricks s) c r = false)
    ∧ ∃ c r, wasDrawn (bricks s) (c, r) = true.
Proof.
  intros Hg Ht Hd.
  destruct (beforeCollision_besideHead props inp s) as (Eh & Eb & _).
  apply draw_cases in Hd as [[Ht' _] | (_ & sc & Esc & Hcase)]; [congruence |].
  assert (isWinning (sc_state sc) = false) as Ew.
  { apply scanBricks_beside in Esc. unfold besideBricks, besideHead, terminal in *.
    simplify_eq. apply orb_false_iff in Ht as [? ?]. congruence. }
  assert (isWinning s' = true
          ↔ (0 < totalLayoutBricks sc)%nat ∧ brokenBricks sc = totalLayoutBricks sc)
    as ->.
  { destruct Hcase as [(H1 & H2 & ->) | (Hn & ->)]; [by split |].
    split; [| tauto]. intros Hw.
    pose proof (floorCheck_beside (resetDraw inp)
      (paddleCollision (topWall props (sideWalls props (sc_state sc))))) as E1.
    pose proof (paddleCollision_beside (topWall props (sideWalls props (sc_state sc)))) as E2.
    pose proof (topWall_beside props (sideWalls props (sc_state sc))) as E3.
    pose proof (sideWalls_beside props (sc_state sc)) as E4.
    unfold afterBricks, besideFloor, besidePaddle, besideWalls in *.
    simplify_eq. congruence. }
  destruct (some_alive_or_none _ Hg) as [(c & r & Ha) | Hall].
  - pose proof (scanBricks_behind props (goldenDraws inp)
                  (beforeCollision props inp s) sc c r) as Hlt.
    rewrite Eb in Hlt. rewrite cellAlive_drawBricks in Hlt.
    specialize (Hlt (drawBricks_gridOK _ Hg) Ha Esc).
    split; [lia |]. intros [Hall _]. rewrite Hall in Ha. done.
  - unfold scanBricks in Esc. rewrite scan_all_broken in Esc; simpl in *.
    2: { intros c r [? ?]%elem_of_scanOrder. rewrite Eb.
         by apply getBrick_is_Some; [apply drawBricks_gridOK | |]. }
    2: { intros c r. by rewrite Eb, cellAlive_drawBricks. }
    simplify_eq. simpl. rewrite Eb. split.
    + intros [Hpos _]. split; [done |].
      destruct (filter (λ cr, wasDrawn (drawBricks (bricks s)) cr = true) scanOrder)
        as [| [c r] l] eqn:Ef; [simpl in Hpos; lia |].
      assert ((c, r) ∈ filter (λ cr, wasDrawn (drawBricks (bricks s)) cr = true) scanOrder)
        as [Hw _]%list_elem_of_filter by (rewrite Ef; by left).
      exists c, r. by rewrite wasDrawn_drawBricks in Hw.
    + intros [_ (c & r & Hw)]. split; [| done].
      apply (filter_length_pos _ _ (c, r)).
      * apply elem_of_scanOrder. unfold wasDrawn in Hw. simpl in Hw.
        destruct (getBrick (bricks s) c r) eqn:E; [| done]. by eapply getBrick_Some_lt.
      * by rewrite wasDrawn_drawBricks.
Qed.

(** The loss flag goes up in the frame in which, the win test having
    failed, the ball is wholly below the canvas and the last life goes. *)
Lemma loss_flag_raised_iff (props : GameProps) (inp : FrameInput) (s s' : State) :
  terminal s = false → draw props inp s = Some s' →
  isLosing s' = true
  ↔ ∃ sc, scanBricks props (goldenDraws inp) (beforeCollision props inp s) = Some sc
      ∧ ¬ ((0 < totalLayoutBricks sc)%nat ∧ brokenBricks sc = totalLayoutBricks sc)
      ∧ (let t := paddleCollision (topWall props (sideWalls props (sc_state sc))) in
         ball_y (ball t) - ball_radius (ball t) > CANVAS_HEIGHT
         ∧ (lives s - 1 = 0)%Z).
Proof.
  intros Ht Hd.
  destruct (beforeCollision_besideHead props inp s) as (Eh & _).
  apply draw_cases in Hd as [[Ht' _] | (_ & sc & Esc & Hcase)]; [congruence |].
  pose proof (scanBricks_beside _ _ _ _ Esc) as Ebs.
  pose proof (paddleCollision_beside (topWall props (sideWalls props (sc_state sc)))) as E2.
  pose proof (topWall_beside props (sideWalls props (sc_state sc))) as E3.
  pose proof (sideWalls_beside props (sc_state sc)) as E4.
  unfold besideBricks, besideHead, besidePaddle, besideWalls, terminal in *.
  apply orb_false_iff in Ht as [Hw Hl]. simplify_eq.
  assert (isLosing (paddleCollision (topWall props (sideWalls props (sc_state sc))))
          = false) as El by congruence.
  assert (lives (paddleCollision (topWall props (sideWalls props (sc_state sc))))
          = lives s) as Elives by congruence.
  destruct Hcase as [(Hc1 & Hc2 & ->) | (Hcn & ->)].
  - refs. split; [congruence |]. intros (sc' & ? & Hcn & _). simplify_eq. tauto.
  - unfold afterBricks, floorCheck. cbv zeta. refs. rewrite Elives.
    case_bool_decide as Hfloor; [case_bool_decide as Hlast |]; refs.
    + split; [| done]. intros _. exists sc. repeat split; assumption.
    + unfold resetBallAndPaddle. cbv zeta. refs. rewrite El.
      split; [done |]. intros (sc' & ? & _ & _ & Hz). by simplify_eq.
    + rewrite El. split; [done |]. intros (sc' & ? & _ & Hf & _). by simplify_eq.
Qed.

(** Both flags are final: a frame of a finished match changes neither, and
    a frame that raises one leaves the other down. *)
Lemma terminal_states_final (props : GameProps) (inp : FrameInput) (s s' : State) :
  draw props inp s = Some s' →
  (isWinning s = true → isWinning s' = true)
  ∧ (isLosing s = true → isLosing s' = true)
  ∧ (terminal s = true → isWinning s' = isWinning s ∧ isLosing s' = isLosing s)
  ∧ (terminal s = false → isWinning s' && isLosing s' = false).
Proof.
  intros Hd.
  destruct (loopDetection_besideHead (beforeDetection props inp s)) as (E1 & _).
  destruct (beforeDetection_besideHead props inp s) as (E2 & _).
  destruct (beforeCollision_besideHead props inp s) as (Eh & _).
  apply draw_cases in Hd as [[Ht ->] | (Ht & sc & Esc & Hcase)].
  - unfold besideHead in *. simplify_eq. repeat split; congruence.
  - unfold terminal in Ht. apply orb_false_iff in Ht as [Hw Hl].
    pose proof (scanBricks_beside _ _ _ _ Esc) as Ebs.
    unfold besideBricks, besideHead in *. simplify_eq.
    split; [congruence |]. split; [congruence |].
    split; [intros Ht; unfold terminal in Ht; rewrite Hw, Hl in Ht; done |].
    intros _.
    destruct Hcase as [(_ & _ & ->) | (_ & ->)].
    + refs. rewrite andb_false_iff. right. congruence.
    + pose proof (floorCheck_beside (resetDraw inp)
        (paddleCollision (topWall props (sideWalls props (sc_state sc))))) as F1.
      pose proof (paddleCollision_beside (topWall props (sideWalls props (sc_state sc)))) as F2.
      pose proof (topWall_beside props (sideWalls props (sc_state sc))) as F3.
      pose proof (sideWalls_beside props (sc_state sc)) as F4.
      unfold afterBricks, besideFloor, besidePaddle, besideWalls in *. simplify_eq.
      rewrite andb_false_iff. left. congruence.
Qed.

(** ** Brick contacts in one frame *)

Lemma frictionClamp_beside (b : Ball) :
  ball_x (frictionClamp b) = ball_x b ∧ ball_y (frictionClamp b) = ball_y b
  ∧ ball_radius (frictionClamp b) = ball_radius b
  ∧ isPowerBall (frictionClamp b) = isPowerBall b
  ∧ powerBallTimer (frictionClamp b) = powerBallTimer b.
Proof. unfold frictionClamp. cbv zeta. by destruct (_ && _). Qed.

Lemma moveBall_beside (b : Ball) :
  ball_x (moveBall b) = ball_x b + ball_dx b
  ∧ ball_y (moveBall b) = ball_y b + ball_dy b
  ∧ ball_radius (moveBall b) = ball_radius b
  ∧ isPowerBall (moveBall b) = isPowerBall b
  ∧ powerBallTimer (moveBall b) = powerBallTimer b.
Proof.
  unfold moveBall. cbv zeta.
  by destruct (frictionClamp_beside
    (set_ball_y (ball_y (set_ball_x (ball_x b + ball_dx b) b)
                 + ball_dy (set_ball_x (ball_x b + ball_dx b) b))
       (set_ball_x (ball_x b + ball_dx b) b))) as (-> & -> & -> & -> & ->).
Qed.

Lemma hitCell_dead (bl : Ball) (g : list (list Brick)) (c r : nat) :
  cellAlive g c r = false → hitCell bl g (c, r) = false.
Proof.
  unfold cellAlive, hitCell. simpl. destruct (getBrick g c r); [| done].
  by intros ->.
Qed.

Lemma find_no_match {A : Type} (f : A → bool) (l : list A) :
  (∀ x, x ∈ l → f x = false) → List.find f l = None.
Proof.
  induction l as [| a l IH]; intros H; [done |]. simpl.
  rewrite H by by left. apply IH. intros x Hx. apply H. by right.
Qed.

(** A cell that is the only one to register is the first to register. *)
Lemma find_only {A : Type} `{EqDecision A} (f : A → bool) (l : list A) (x : A) :
  x ∈ l → f x = true → (∀ y, y ∈ l → y ≠ x → f y = false) →
  List.find f l = Some x.
Proof.
  induction l as [| a l IH]; intros Hin Hx Hothers.
  - by apply not_elem_of_nil in Hin.
  - simpl. destruct (decide (a = x)) as [-> | Hne]; [by rewrite Hx |].
    rewrite (Hothers a); [| by left | done].
    apply elem_of_cons in Hin as [-> | Hin]; [done |].
    apply IH; [done | done |]. intros y Hy. apply Hothers. by right.
Qed.

Lemma scanBricks_no_hit (props : GameProps) (rnd : nat → R) (s : State) (sc : Scan) :
  isPowerBall (ball s) = false → firstHit (ball s) (bricks s) = None →
  scanBricks props rnd s = Some sc → sc_state sc = s.
Proof.
  intros Hpw Hf Hsc. unfold scanBricks in Hsc.
  apply scan_nonpower in Hsc; [| done | done]. cbn [sc_state draws] in Hsc.
  unfold firstHit in Hf. rewrite Hf in Hsc. by destruct Hsc.
Qed.

Lemma scanBricks_first_hit (props : GameProps) (rnd : nat → R) (s : State) (sc : Scan)
    (c r : nat) :
  fieldOK s → isPowerBall (ball s) = false →
  firstHit (ball s) (bricks s) = Some (c, r) →
  scanBricks props rnd s = Some sc →
  ∃ b, getBrick (bricks s) c r = Some b ∧ status b = true
       ∧ breaks (brokenByHit (rnd 0%nat) c r b) (bricks s) (bricks (sc_state sc)).
Proof.
  intros Hfield Hpw Hf Hsc. unfold scanBricks in Hsc.
  apply scan_nonpower in Hsc; [| done | done]. cbn [sc_state draws] in Hsc.
  unfold firstHit in Hf. rewrite Hf in Hsc. destruct Hsc as (b & Hb & Hs & Hreg).
  exists b. repeat split; [done | done |].
  destruct (registerHit_spec props (rnd 0%nat) c r b s Hfield Hb Hs)
    as (s1 & E1 & _ & Hbr & _).
  rewrite E1 in Hreg. by simplify_eq.
Qed.

Lemma scanBricks_power (props : GameProps) (rnd : nat → R) (s : State) (sc : Scan) :
  fieldOK s → noGolden (bricks s) → isPowerBall (ball s) = true →
  scanBricks props rnd s = Some sc →
  breaks (λ c r, hitCell (ball s) (bricks s) (c, r)) (bricks s) (bricks (sc_state sc))
  ∧ ball (sc_state sc) = ball s.
Proof.
  intros Hfield Hng Hpw Hsc. unfold scanBricks in Hsc.
  apply scan_power in Hsc; cbn [sc_state collisionDetectedThisFrame]; try done.
  - cbn [sc_state] in Hsc. destruct Hsc as [Hb ->]. split; [| done].
    eapply breaks_ext; [| exact Hb]. intros c r. cbv beta.
    destruct (decide ((c, r) ∈ scanOrder)) as [Hin | Hout].
    + by rewrite bool_decide_eq_true_2.
    + rewrite bool_decide_eq_false_2 by done. simpl. symmetry.
      apply hitCell_dead. unfold cellAlive.
      destruct (getBrick (bricks s) c r) as [b |] eqn:Eb; [| done].
      exfalso. apply Hout, elem_of_scanOrder. eapply getBrick_Some_lt; [apply Hfield | done].
  - unfold scanOrder. apply NoDup_bind.
    + intros c1 c2 [c r] H1 H2 [r1 [E1%list_elem_of_singleton _]]%list_elem_of_bind
        [r2 [E2%list_elem_of_singleton _]]%list_elem_of_bind. congruence.
    + intros c Hc. apply NoDup_bind.
      * intros r1 r2 cr _ _ E1%list_elem_of_singleton E2%list_elem_of_singleton. congruence.
      * intros. apply NoDup_singleton.
      * apply NoDup_seq.
    + apply NoDup_seq.
Qed.

Lemma beforeCollision_fieldOK (props : GameProps) (inp : FrameInput) (s : State) :
  gridOK (bricks s) → fieldOK (beforeCollision props inp s).
Proof.
  intros Hg. destruct (beforeCollision_besideHead props inp s) as (_ & E & _).
  unfold fieldOK. rewrite E. split; [by apply drawBricks_gridOK | apply drawBricks_placed].
Qed.

(** ** A power ball and golden bricks *)

Lemma breaks_alive (D : nat → nat → bool) (g g' : list (list Brick)) (c r : nat) :
  breaks D g g' → cellAlive g' c r = negb (D c r) && cellAlive g c r.
Proof.
  intros Hb. unfold cellAlive. rewrite Hb.
  by destruct (D c r), (getBrick g c r).
Qed.

Lemma beforeCollision_ball (props : GameProps) (inp : FrameInput) (s : State) :
  ball (beforeCollision props inp s) = moveBall (powerBallTick (ball s)).
Proof.
  unfold beforeCollision. cbv zeta. refs.
  destruct (loopDetection_besideHead (beforeDetection props inp s)) as (_ & _ & _ & ->).
  unfold beforeDetection, frameHead, aiMove. by destruct (isAIEnabled props).
Qed.

Lemma scaleVelocity_sideways (k : R) (b : Ball) :
  k ≠ 0 → ball_dx b ≠ 0 → ball_dx (scaleVelocity k b) ≠ 0.
Proof.
  intros Hk Hb. unfold scaleVelocity. cbn [ball_dx set_ball_dx set_ball_dy].
  by apply Rmult_integral_contrapositive_currified.
Qed.

Lemma ratio_neq_0 (a v : R) : a ≠ 0 → 0 < v → a / v ≠ 0.
Proof.
  intros Ha Hv. unfold Rdiv. apply Rmult_integral_contrapositive_currified; [done |].
  apply Rinv_neq_0_compat. lra.
Qed.

Lemma frictionClamp_sideways (b : Ball) : ball_dx b ≠ 0 → ball_dx (frictionClamp b) ≠ 0.
Proof.
  intros Hb. unfold frictionClamp. cbv zeta.
  assert (H1 : ball_dx (scaleVelocity BALL_FRICTION b) ≠ 0).
  { apply scaleVelocity_sideways; [unfold BALL_FRICTION; lra | done]. }
  destruct (bool_decide _ && bool_decide _) eqn:E; [| done].
  apply andb_prop in E as [_ E%bool_decide_eq_true].
  apply scaleVelocity_sideways; [| done].
  apply ratio_neq_0; [unfold MIN_BALL_SPEED; lra | lra].
Qed.

Lemma moveBall_sideways (b : Ball) : ball_dx b ≠ 0 → ball_dx (moveBall b) ≠ 0.
Proof. intros Hb. unfold moveBall. cbv zeta. by apply frictionClamp_sideways. Qed.

Lemma powerBallTick_sideways (b : Ball) : ball_dx b ≠ 0 → ball_dx (powerBallTick b) ≠ 0.
Proof.
  intros Hb. unfold powerBallTick. destruct (powerBallTimer b) as [| [| t]]; try done.
  cbv zeta. case_bool_decide as E; [| done].
  apply scaleVelocity_sideways; [| done].
  apply ratio_neq_0; [unfold MIN_BALL_SPEED; lra |].
  unfold MAX_BALL_SPEED in E. lra.
Qed.

(** The resolver never turns the ball round: it leaves the velocity alone or
    rescales it by a positive factor. *)
Lemma handleGoldenBrick_heading (rand : R) (b : Brick) (s s' : State) :
  handleGoldenBrick rand b s = Some s' → ball_dx (ball s) ≠ 0 →
  (isPowerBall (ball s) = true → isPowerBall (ball s') = true)
  ∧ ∃ k, 0 < k ∧ ball_dx (ball s') = ball_dx (ball s) * k
         ∧ ball_dy (ball s') = ball_dy (ball s) * k.
Proof.
  intros H Hdx. assert (0 < speedOf (ball s)) as Hpos by (apply speedOf_pos; by left).
  revert H. unfold handleGoldenBrick. destruct (rouletteOutcome rand); cbv zeta.
  - intros H.
    apply (forEach_invariant _ (λ t, ball t = ball s)) in H; [| | done].
    + rewrite H. split; [done |]. exists 1. split; [lra |]. split; ring.
    + intros c t t' _ Ht Hc. apply jackpotColumn_beside in Hc as (_ & -> & _). done.
  - intros [= <-]. set (b1 := set_powerBallTimer _ _).
    assert (E1 : speedOf b1 = speedOf (ball s)) by done.
    split; [done |]. exists ((speedOf b1 + 2) / speedOf b1).
    split; [rewrite E1; apply Rdiv_lt_0_compat; lra |]. by refs.
  - intros [= <-]. split; [done |]. exists (MAX_BALL_SPEED / speedOf (ball s)).
    split; [apply Rdiv_lt_0_compat; [unfold MAX_BALL_SPEED; lra | done] |]. by refs.
Qed.

(** A power ball is never bounced by a brick. *)
Lemma registerHit_heading (props : GameProps) (rand : R) (c r : nat) (b : Brick)
    (s s' : State) :
  registerHit props rand c r b s = Some s' →
  isPowerBall (ball s) = true → ball_dx (ball s) ≠ 0 →
  isPowerBall (ball s') = true
  ∧ ∃ k, 0 < k ∧ ball_dx (ball s') = ball_dx (ball s) * k
         ∧ ball_dy (ball s') = ball_dy (ball s) * k.
Proof.
  unfold registerHit. cbv zeta. intros H Hpw Hdx.
  destruct (isGolden b); cbn [mbind option_bind] in H.
  - destruct (handleGoldenBrick rand b (breakBrick props c r b s)) as [s1 |] eqn:E;
      cbn [mbind option_bind] in H; [| done].
    apply handleGoldenBrick_heading in E as [Hp Hk]; [| done].
    change (ball (breakBrick props c r b s)) with (ball s) in Hp, Hk.
    specialize (Hp Hpw). rewrite Hp in H. cbn [negb] in H. injection H as <-.
    split; [done | exact Hk].
  - change (ball (breakBrick props c r b s)) with (ball s) in H.
    rewrite Hpw in H. cbn [negb] in H. injection H as <-.
    change (ball (breakBrick props c r b s)) with (ball s).
    split; [done |]. exists 1. split; [lra |]. split; ring.
Qed.

Lemma hitCell_position (bl bl' : Ball) (g : list (list Brick)) (cr : nat * nat) :
  ball_x bl' = ball_x bl → ball_y bl' = ball_y bl → ball_radius bl' = ball_radius bl →
  hitCell bl' g cr = hitCell bl g cr.
Proof.
  intros Ex Ey Er. unfold hitCell, overlaps. by rewrite Ex, Ey, Er.
Qed.

(** A power ball, golden bricks or not: every visible brick it overlaps when
    the loops start is broken when they end, no broken brick comes back, and
    the ball is a power ball on the same heading throughout. *)
Lemma scan_power_any (props : GameProps) (rnd : nat → R) (l : list (nat * nat))
    (sc sc' : Scan) :
  fieldOK (sc_state sc) → collisionDetectedThisFrame sc = false →
  isPowerBall (ball (sc_state sc)) = true → ball_dx (ball (sc_state sc)) ≠ 0 →
  forEach (visitBrick props rnd) l sc = Some sc' →
  (∀ c r, (c, r) ∈ l →
     hitCell (ball (sc_state sc)) (bricks (sc_state sc)) (c, r) = true →
     cellAlive (bricks (sc_state sc')) c r = false)
  ∧ (∀ c r, cellAlive (bricks (sc_state sc)) c r = false →
            cellAlive (bricks (sc_state sc')) c r = false)
  ∧ isPowerBall (ball (sc_state sc')) = true
  ∧ ∃ k, 0 < k
      ∧ ball_dx (ball (sc_state sc')) = ball_dx (ball (sc_state sc)) * k
      ∧ ball_dy (ball (sc_state sc')) = ball_dy (ball (sc_state sc)) * k.
Proof.
  revert sc. induction l as [| [c r] l IH]; intros sc Hf Hd Hpw Hdx Hrun;
    cbn [forEach] in Hrun.
  { simplify_eq. split; [by intros c r H%not_elem_of_nil |]. split; [done |].
    split; [done |]. exists 1. split; [lra |]. split; ring. }
  destruct (getBrick (bricks (sc_state sc)) c r) as [b |] eqn:Eb;
    [| by rewrite visitBrick_undefined in Hrun].
  destruct (hitCell (ball (sc_state sc)) (bricks (sc_state sc)) (c, r)) eqn:Eh.
  - rewrite (visitBrick_hit _ _ _ _ b) in Hrun by done.
    pose proof (hitCell_alive _ _ _ _ Eh) as Ha.
    unfold cellAlive in Ha. rewrite Eb in Ha.
    destruct (registerHit_spec props (rnd (draws sc)) c r b (sc_state sc) Hf Eb Ha)
      as (s1 & E1 & Hf1 & Hb1 & _ & _).
    rewrite E1 in Hrun. cbn [mbind option_bind] in Hrun.
    pose proof (registerHit_beside _ _ _ _ _ _ _ E1) as Eside.
    destruct (registerHit_heading _ _ _ _ _ _ _ E1 Hpw Hdx) as (Hpw1 & k1 & Hk1 & Ex1 & Ey1).
    assert (Hdx1 : ball_dx (ball s1) ≠ 0) by (rewrite Ex1; nra).
    apply IH in Hrun; cbn [sc_state collisionDetectedThisFrame]; try done;
      [| by rewrite Hpw].
    cbn [sc_state] in Hrun. destruct Hrun as (Hhit & Hmono & Hpw' & k2 & Hk2 & Ex2 & Ey2).
    assert (Hpos : ∀ cr, hitCell (ball s1) (bricks (sc_state sc)) cr
                         = hitCell (ball (sc_state sc)) (bricks (sc_state sc)) cr).
    { intros cr. unfold besideBricks in Eside. apply hitCell_position; congruence. }
    split; [| split; [| split; [done |]]].
    + intros c' r' Hin Hh.
      destruct (cellAlive (bricks s1) c' r') eqn:Ea1; [| by apply Hmono].
      rewrite (breaks_alive _ _ _ c' r' Hb1) in Ea1.
      apply andb_prop in Ea1 as [HD%negb_true_iff _].
      apply Hhit.
      * apply elem_of_cons in Hin as [E | Hin]; [| done].
        simplify_eq. unfold brokenByHit in HD.
        rewrite bool_decide_eq_true_2 in HD by done. done.
      * rewrite (hitCell_breaks _ _ _ _ _ _ Hb1), HD, Hpos. done.
    + intros c' r' Hdead. apply Hmono.
      rewrite (breaks_alive _ _ _ c' r' Hb1), Hdead. by rewrite andb_false_r.
    + exists (k1 * k2). split; [nra |]. rewrite Ex2, Ey2, Ex1, Ey1. split; ring.
  - rewrite visitBrick_miss in Hrun by eauto.
    apply IH in Hrun; [| done ..]. cbn [sc_state] in Hrun.
    destruct Hrun as (Hhit & Hmono & Hpw' & Hk).
    split; [| done]. intros c' r' Hin Hh.
    apply elem_of_cons in Hin as [E | Hin]; [| by apply Hhit].
    simplify_eq. congruence.
Qed.

Lemma scanBricks_power_any (props : GameProps) (rnd : nat → R) (s : State) (sc : Scan) :
  fieldOK s → isPowerBall (ball s) = true → ball_dx (ball s) ≠ 0 →
  scanBricks props rnd s = Some sc →
  (∀ c r, hitCell (ball s) (bricks s) (c, r) = true →
          cellAlive (bricks (sc_state sc)) c r = false)
  ∧ isPowerBall (ball (sc_state sc)) = true
  ∧ ∃ k, 0 < k
      ∧ ball_dx (ball (sc_state sc)) = ball_dx (ball s) * k
      ∧ ball_dy (ball (sc_state sc)) = ball_dy (ball s) * k.
Proof.
  intros Hf Hpw Hdx Hsc. unfold scanBricks in Hsc.
  apply scan_power_any in Hsc; cbn [sc_state collisionDetectedThisFrame]; try done.
  cbn [sc_state] in Hsc. destruct Hsc as (Hhit & _ & Hpw' & Hk).
  split; [| done]. intros c r Hh. apply Hhit; [| done].
  apply elem_of_scanOrder. pose proof (hitCell_alive _ _ _ _ Hh) as Ha.
  unfold cellAlive in Ha. destruct (getBrick (bricks s) c r) as [b |] eqn:Eb; [| done].
  eapply getBrick_Some_lt; [apply Hf | done].
Qed.

(** The brick loops of one frame, for a ball that is or is not a power ball. *)
Lemma frame_brick_contacts (props : GameProps) (inp : FrameInput) (s : State) :
  gridOK (bricks s) → terminal s = false →
  let t := beforeCollision props inp s in
  ∃ s' u, draw props inp s = Some s'
    ∧ (s' = set_isWinning true u ∨ s' = afterBricks props inp u)
    ∧ bricks s' = bricks u
    ∧ (isPowerBall (ball t) = false →
         match firstHit (ball t) (bricks t) with
         | None => u = t
         | Some (c, r) =>
             ∃ b, getBrick (bricks t) c r = Some b ∧ status b = true
                  ∧ breaks (brokenByHit (goldenDraws inp 0%nat) c r b)
                           (bricks t) (bricks u)
         end)
    ∧ (isPowerBall (ball t) = true → noGolden (bricks t) →
         breaks (λ c r, hitCell (ball t) (bricks t) (c, r)) (bricks t) (bricks u)
         ∧ ball u = ball t)
    ∧ (isPowerBall (ball t) = true → ball_dx (ball s) ≠ 0 →
         (∀ c r, hitCell (ball t) (bricks t) (c, r) = true →
                 cellAlive (bricks u) c r = false)
         ∧ isPowerBall (ball u) = true
         ∧ ∃ k, 0 < k ∧ ball_dx (ball u) = ball_dx (ball t) * k
                ∧ ball_dy (ball u) = ball_dy (ball t) * k).
Proof.
  intros Hg Ht t.
  destruct (draw_total props inp s Hg) as (s' & Hd & _).
  pose proof (beforeCollision_fieldOK props inp s Hg) as Hf. fold t in Hf.
  pose proof Hd as Hd'.
  apply draw_cases in Hd' as [[Ht' _] | (_ & sc & Esc & Hcase)]; [congruence |].
  fold t in Esc. exists s', (sc_state sc). repeat split.
  - done.
  - destruct Hcase as [(_ & _ & ->) | (_ & ->)]; auto.
  - destruct Hcase as [(_ & _ & ->) | (_ & ->)]; [done | apply afterBricks_bricks].
  - intros Hpw. destruct (firstHit (ball t) (bricks t)) as [[c r] |] eqn:Efh.
    + by eapply scanBricks_first_hit.
    + by eapply scanBricks_no_hit.
  - by eapply scanBricks_power.
  - by eapply scanBricks_power.
  - eapply scanBricks_power_any; [done | done | | done].
    unfold t. rewrite beforeCollision_ball.
    by apply moveBall_sideways, powerBallTick_sideways.
  - eapply scanBricks_power_any; [done | done | | done].
    unfold t. rewrite beforeCollision_ball.
    by apply moveBall_sideways, powerBallTick_sideways.
  - eapply scanBricks_power_any; [done | done | | done].
    unfold t. rewrite beforeCollision_ball.
    by apply moveBall_sideways, powerBallTick_sideways.
Qed.

(** C2. In a frame of a match that goes on, let [t] be the state in which
    [collisionDetection] runs and [u] the state the brick loops leave.  If
    the ball is not a power ball in [t], it breaks at most one brick by
    contact, the first in scan order that it overlaps: nothing changes when
    it overlaps none, and otherwise the bricks broken are that one and, when
    it is golden and the roulette says JACKPOT, the row that
    [handleGoldenBrick] clears.  If the ball is a power ball in [t], every
    visible brick it overlaps is broken when the loops end, however many,
    the ball is still a power ball, and its velocity is the one it had, or
    that one rescaled by a positive factor when a golden brick was among
    them: brick contact never inverts a component.  With no golden brick
    left the broken bricks are exactly the overlapped ones and the ball is
    left as it was. *)
Theorem brick_contacts_in_frame (props : GameProps) (inp : FrameInput) (s : State) :
  gridOK (bricks s) → terminal s = false →
  let t := beforeCollision props inp s in
  ∃ s' u, draw props inp s = Some s'
    ∧ (s' = set_isWinning true u ∨ s' = afterBricks props inp u)
    ∧ bricks s' = bricks u
    ∧ (isPowerBall (ball t) = false →
         match firstHit (ball t) (bricks t) with
         | None => u = t
         | Some (c, r) =>
             ∃ b, getBrick (bricks t) c r = Some b ∧ status b = true
                  ∧ breaks (brokenByHit (goldenDraws inp 0%nat) c r b)
                           (bricks t) (bricks u)
         end)
    ∧ (isPowerBall (ball t) = true → noGolden (bricks t) →
         breaks (λ c r, hitCell (ball t) (bricks t) (c, r)) (bricks t) (bricks u)
         ∧ ball u = ball t)
    ∧ (isPowerBall (ball t) = true → ball_dx (ball s) ≠ 0 →
         (∀ c r, hitCell (ball t) (bricks t) (c, r) = true →
                 cellAlive (bricks u) c r = false)
         ∧ isPowerBall (ball u) = true
         ∧ ∃ k, 0 < k ∧ ball_dx (ball u) = ball_dx (ball t) * k
                ∧ ball_dy (ball u) = ball_dy (ball t) * k).
Proof. apply frame_brick_contacts. Qed.

(** ** Worked frames: a field late in a match *)

Lemma getBrick_fresh (lay : list (list nat)) (c r : nat) :
  getBrick ((λ c, (λ r, mkBrick 0 0 (hasBrick lay c r) false)
                    <$> seq 0 BRICK_ROW_COUNT) <$> seq 0 BRICK_COLUMN_COUNT) c r
  = if bool_decide (c < BRICK_COLUMN_COUNT ∧ r < BRICK_ROW_COUNT)%nat
    then Some (mkBrick 0 0 (hasBrick lay c r) false) else None.
Proof.
  unfold getBrick. rewrite list_lookup_fmap.
  destruct (seq 0 BRICK_COLUMN_COUNT !! c) as [c' |] eqn:Ec;
    cbn [fmap option_fmap option_map mbind option_bind].
  - apply lookup_seq in Ec as [-> Hc]. rewrite list_lookup_fmap.
    destruct (seq 0 BRICK_ROW_COUNT !! r) as [r' |] eqn:Er;
      cbn [fmap option_fmap option_map].
    + apply lookup_seq in Er as [-> Hr]. by rewrite bool_decide_eq_true_2.
    + apply lookup_ge_None in Er. rewrite length_seq in Er.
      rewrite bool_decide_eq_false_2; [done | lia].
  - apply lookup_ge_None in Ec. rewrite length_seq in Ec.
    rewrite bool_decide_eq_false_2; [done | lia].
Qed.

Lemma getBrick_createBricks (lay : list (list nat)) (k c r : nat) :
  (c < BRICK_COLUMN_COUNT)%nat → (r < BRICK_ROW_COUNT)%nat →
  getBrick (createBricks lay k) c r
  = Some (mkBrick 0 0 (hasBrick lay c r)
            (bool_decide (availableBricks lay !! k = Some (c, r)))).
Proof.
  intros Hc Hr. unfold createBricks. cbv zeta.
  destruct (availableBricks lay !! k) as [[c0 r0] |] eqn:Ek.
  - assert ((c0, r0) ∈ availableBricks lay) as Hin by by eapply list_elem_of_lookup_2.
    apply list_elem_of_filter in Hin as [Hhas Hin]. simpl in Hhas.
    apply elem_of_scanOrder in Hin as [Hc0 Hr0].
    rewrite (getBrick_fresh lay c0 r0), bool_decide_eq_true_2 by done.
    destruct (decide ((c0, r0) = (c, r))) as [E | Hne].
    + simplify_eq. rewrite bool_decide_eq_true_2 by done.
      erewrite getBrick_setBrick_eq; [by rewrite Hhas |].
      by rewrite getBrick_fresh, bool_decide_eq_true_2.
    + rewrite getBrick_setBrick_ne by done.
      rewrite getBrick_fresh, bool_decide_eq_true_2 by done.
      by rewrite bool_decide_eq_false_2 by congruence.
  - rewrite getBrick_fresh, bool_decide_eq_true_2 by done.
    by rewrite bool_decide_eq_false_2.
Qed.

Lemma getBrick_breakAllBut (keep : nat → nat → bool) (g : list (list Brick)) (c r : nat) :
  getBrick (breakAllBut keep g) c r
  = (λ b, if keep c r then b else set_status false b) <$> getBrick g c r.
Proof.
  unfold getBrick, breakAllBut. rewrite list_lookup_imap.
  destruct (g !! c) as [col |]; simpl; [| done]. by rewrite list_lookup_imap.
Qed.

Lemma getBrick_lateField (lay : list (list nat)) (k : nat) (keep : nat → nat → bool)
    (c r : nat) :
  getBrick (lateField lay k keep) c r
  = if bool_decide (c < BRICK_COLUMN_COUNT ∧ r < BRICK_ROW_COUNT)%nat
    then Some (lateCell lay k keep c r) else None.
Proof.
  unfold lateField. rewrite getBrick_breakAllBut, getBrick_drawBricks.
  case_bool_decide as Hin.
  - destruct Hin. by rewrite getBrick_createBricks.
  - destruct (getBrick (createBricks lay k) c r) as [b |] eqn:Eb; [| done].
    exfalso. apply Hin. eapply getBrick_Some_lt; [apply createBricks_gridOK | done].
Qed.

Lemma lateField_gridOK (lay : list (list nat)) (k : nat) (keep : nat → nat → bool) :
  gridOK (lateField lay k keep).
Proof.
  intros c r. rewrite getBrick_lateField.
  case_bool_decide; split; first [done | by eexists | by intros [? ?]].
Qed.

Lemma lateField_alive (lay : list (list nat)) (k : nat) (keep : nat → nat → bool)
    (c r : nat) :
  cellAlive (lateField lay k keep) c r
  = bool_decide (c < BRICK_COLUMN_COUNT ∧ r < BRICK_ROW_COUNT)%nat
    && hasBrick lay c r && keep c r.
Proof.
  unfold cellAlive. rewrite getBrick_lateField.
  case_bool_decide; [| done]. unfold lateCell, placeBrick. simpl.
  by destruct (hasBrick lay c r), (keep c r).
Qed.

Lemma placeBrick_lateCell (lay : list (list nat)) (k : nat) (keep : nat → nat → bool)
    (c r : nat) :
  placeBrick c r (lateCell lay k keep c r) = lateCell lay k keep c r.
Proof.
  unfold lateCell, placeBrick. simpl.
  by destruct (hasBrick lay c r), (keep c r).
Qed.

Lemma getBrick_drawn_lateField (lay : list (list nat)) (k : nat)
    (keep : nat → nat → bool) (c r : nat) :
  getBrick (drawBricks (lateField lay k keep)) c r
  = getBrick (lateField lay k keep) c r.
Proof.
  rewrite getBrick_drawBricks, getBrick_lateField.
  case_bool_decide; [| done]. simpl. by rewrite placeBrick_lateCell.
Qed.

Lemma hasBrick_solidWall (c r : nat) :
  (c < BRICK_COLUMN_COUNT)%nat → (r < BRICK_ROW_COUNT)%nat →
  hasBrick solidWall c r = true.
Proof.
  unfold BRICK_COLUMN_COUNT, BRICK_ROW_COUNT. intros Hc Hr.
  do 9 (destruct c as [| c];
        [do 5 (destruct r as [| r]; [reflexivity |]); lia |]).
  lia.
Qed.

(** ** Worked frames: walls, paddle and floor on given numbers *)

Lemma sideWalls_clear (props : GameProps) (s : State) :
  ball_x (ball s) + ball_radius (ball s) <= CANVAS_WIDTH →
  0 <= ball_x (ball s) - ball_radius (ball s) →
  sideWalls props s = s.
Proof.
  intros H1 H2. unfold sideWalls. cbv zeta.
  rewrite !bool_decide_eq_false_2; [done | lra | lra].
Qed.

Lemma topWall_clear (props : GameProps) (s : State) :
  0 <= ball_y (ball s) - ball_radius (ball s) → topWall props s = s.
Proof.
  intros H. unfold topWall. cbv zeta. rewrite bool_decide_eq_false_2; [done | lra].
Qed.

Lemma floorCheck_clear (rand : R) (s : State) :
  ball_y (ball s) - ball_radius (ball s) <= CANVAS_HEIGHT → floorCheck rand s = s.
Proof.
  intros H. unfold floorCheck. cbv zeta. rewrite bool_decide_eq_false_2; [done | lra].
Qed.

Lemma touchesPaddle_true (s : State) :
  ball_dy (ball s) > 0 →
  ball_y (ball s) + ball_radius (ball s) >= paddleTopY →
  ball_y (ball s) - ball_dy (ball s) < paddleTopY →
  ball_x (ball s) > paddle_x (paddle s) →
  ball_x (ball s) < paddle_x (paddle s) + paddle_width (paddle s) →
  touchesPaddle s = true.
Proof.
  intros. unfold touchesPaddle. cbv zeta. by rewrite !bool_decide_eq_true_2.
Qed.

(** The velocity a flick shot leaves: an edge hit with enough sideways
    speed for the minimum not to apply. *)
Lemma paddleBounce_flick (s : State) :
  let collidePoint :=
    (ball_x (ball s) - (paddle_x (paddle s) + paddle_width (paddle s) / 2))
    / (paddle_width (paddle s) / 2) in
  let dx := collidePoint * (if isPowerShotMode s then AI_POWER_SHOT_MULTIPLIER
                            else PADDLE_SPIN_FACTOR) * PADDLE_EDGE_BOOST
            + paddleVelocity s * PADDLE_VELOCITY_SPIN_FACTOR in
  Rabs collidePoint > 0.85 → 0.2 <= Rabs dx →
  ball_dx (ball (paddleBounce s)) = dx
  ∧ ball_dy (ball (paddleBounce s)) = - ball_dy (ball s) * PADDLE_FLICK_SPEED_BONUS
  ∧ ball_x (ball (paddleBounce s)) = ball_x (ball s)
  ∧ ball_y (ball (paddleBounce s)) = paddleTopY - ball_radius (ball s)
  ∧ ball_radius (ball (paddleBounce s)) = ball_radius (ball s)
  ∧ isPowerBall (ball (paddleBounce s)) = isPowerBall (ball s)
  ∧ powerBallTimer (ball (paddleBounce s)) = powerBallTimer (ball s).
Proof.
  intros collidePoint dx Hedge Hdx. unfold paddleBounce. cbv zeta.
  assert (∀ t : State, paddleVelocity (if isStuck s then set_isStuck false s else s)
                       = paddleVelocity s
                       ∧ isPowerShotMode (if isStuck s then set_isStuck false s else s)
                         = isPowerShotMode s) as Hst by (by destruct (isStuck s)).
  destruct (Hst s) as [-> ->]. refs.
  fold collidePoint. rewrite (bool_decide_eq_true_2 _ Hedge). refs.
  fold dx. rewrite bool_decide_eq_false_2 by lra. by refs.
Qed.

Lemma speedOf_gt_iff (b : Ball) (v : R) :
  0 <= v → v < speedOf b ↔ v ^ 2 < ball_dx b ^ 2 + ball_dy b ^ 2.
Proof.
  intros Hv. rewrite <- speedOf_square.
  pose proof (speedOf_nonneg b). split; intros; nra.
Qed.

Lemma speedOf_le_iff (b : Ball) (v : R) :
  0 <= v → speedOf b <= v ↔ ball_dx b ^ 2 + ball_dy b ^ 2 <= v ^ 2.
Proof.
  intros Hv. rewrite <- speedOf_square.
  pose proof (speedOf_nonneg b). split; intros; nra.
Qed.

Lemma speedOf_ge_iff (b : Ball) (v : R) :
  0 <= v → v <= speedOf b ↔ v ^ 2 <= ball_dx b ^ 2 + ball_dy b ^ 2.
Proof.
  intros Hv. rewrite <- speedOf_square.
  pose proof (speedOf_nonneg b). split; intros; nra.
Qed.

(** ** Worked frames: the states *)

Lemma demoState_ball (inp : FrameInput) (x y dx dy : R) (g : list (list Brick)) (n : nat) :
  ball (beforeCollision demoProps inp (demoState (mkBall x y dx dy 5 false 0) g n))
  = frictionClamp (mkBall (x + dx) (y + dy) dx dy 5 false 0).
Proof. by rewrite beforeCollision_ball. Qed.

Lemma demoState_ball_beside (inp : FrameInput) (x y dx dy : R) (g : list (list Brick))
    (n : nat) :
  let bl := ball (beforeCollision demoProps inp
                    (demoState (mkBall x y dx dy 5 false 0) g n)) in
  ball_x bl = x + dx ∧ ball_y bl = y + dy ∧ ball_radius bl = 5
  ∧ isPowerBall bl = false.
Proof.
  cbv zeta. rewrite demoState_ball.
  by destruct (frictionClamp_beside (mkBall (x + dx) (y + dy) dx dy 5 false 0))
    as (-> & -> & -> & -> & _).
Qed.

(** Overlap of a ball at a given place with the brick drawn in a cell. *)
Lemma overlaps_drawn (bl : Ball) (b : Brick) (c r : nat) :
  brick_x b = INR c * (BRICK_WIDTH + BRICK_PADDING) + BRICK_OFFSET_LEFT →
  brick_y b = INR r * (BRICK_HEIGHT + BRICK_PADDING) + BRICK_OFFSET_TOP →
  overlaps bl b =
    bool_decide
      ((ball_x bl - Rmax (INR c * 41 + 18) (Rmin (ball_x bl) (INR c * 41 + 18 + 36))) ^ 2
       + (ball_y bl - Rmax (INR r * 15 + 20) (Rmin (ball_y bl) (INR r * 15 + 20 + 10))) ^ 2
       < ball_radius bl * ball_radius bl).
Proof.
  intros Hx Hy. unfold overlaps. cbv zeta. rewrite Hx, Hy.
  unfold BRICK_WIDTH, BRICK_HEIGHT, BRICK_PADDING, BRICK_OFFSET_LEFT, BRICK_OFFSET_TOP.
  by replace (36 + 5) with 41 by lra; replace (10 + 5) with 15 by lra.
Qed.

(** ** Worked frames: the frame that breaks the last brick *)

Lemma lastBrick_ball :
  let bl := ball (beforeCollision demoProps (demoInput 0.9) lastBrickState) in
  ball_x bl = 197 + 3 ∧ ball_y bl = 96 + -4 ∧ ball_radius bl = 5
  ∧ isPowerBall bl = false.
Proof. apply demoState_ball_beside. Qed.

Lemma lastBrick_cell (c r : nat) :
  cellAlive (bricks (beforeCollision demoProps (demoInput 0.9) lastBrickState)) c r
  = bool_decide ((c, r) = (4, 4)%nat).
Proof.
  destruct (beforeCollision_besideHead demoProps (demoInput 0.9) lastBrickState)
    as (_ & -> & _).
  rewrite cellAlive_drawBricks. change (bricks lastBrickState) with (lateField solidWall 0 keepLast).
  rewrite lateField_alive. unfold keepLast.
  case_bool_decide as Hin.
  - destruct Hin as [Hc Hr]. rewrite hasBrick_solidWall by done. simpl.
    destruct (Nat.eqb_spec c 4) as [-> | Hc4], (Nat.eqb_spec r 4) as [-> | Hr4]; simpl;
      first [done | by rewrite bool_decide_eq_false_2 by congruence].
  - simpl. rewrite bool_decide_eq_false_2; [done |].
    intros E. simplify_eq. apply Hin. unfold BRICK_COLUMN_COUNT, BRICK_ROW_COUNT. lia.
Qed.

Lemma lastBrick_firstHit :
  let t := beforeCollision demoProps (demoInput 0.9) lastBrickState in
  firstHit (ball t) (bricks t) = Some (4, 4)%nat.
Proof.
  cbv zeta. apply find_only.
  - apply elem_of_scanOrder. unfold BRICK_COLUMN_COUNT, BRICK_ROW_COUNT. lia.
  - pose proof (lastBrick_cell 4 4) as Ha. rewrite bool_decide_eq_true_2 in Ha by done.
    unfold hitCell. cbn [fst snd]. unfold cellAlive in Ha.
    destruct (getBrick _ 4%nat 4%nat) as [b |] eqn:Eb; [| done]. rewrite Ha. cbn [andb].
    destruct (beforeCollision_fieldOK demoProps (demoInput 0.9) lastBrickState
                (lateField_gridOK _ _ _)) as [_ Hp].
    destruct (Hp _ _ _ Eb Ha) as [Hx Hy].
    rewrite (overlaps_drawn _ b 4 4 Hx Hy).
    destruct lastBrick_ball as (-> & -> & -> & _).
    apply bool_decide_eq_true_2. simpl INR.
    unfold Rmax, Rmin. repeat destruct (Rle_dec _ _); lra.
  - intros [c r] _ Hne. apply hitCell_dead. rewrite lastBrick_cell.
    by apply bool_decide_eq_false_2.
Qed.

(** C3, the frame that breaks the last brick and the frame after it. With
    one brick left and the ball about to touch it, the frame breaks the
    brick, so that every brick of the layout is then broken, yet leaves the
    win flag down; the flag goes up in the following frame. *)
Theorem win_flag_one_frame_late :
  ∃ s1 s2,
    draw demoProps (demoInput 0.9) lastBrickState = Some s1
    ∧ cellAlive (bricks lastBrickState) 4 4 = true
    ∧ (∀ c r, cellAlive (bricks s1) c r = false)
    ∧ isWinning s1 = false
    ∧ draw demoProps (demoInput 0.9) s1 = Some s2
    ∧ isWinning s2 = true.
Proof.
  pose proof (lateField_gridOK solidWall 0 keepLast) as Hg.
  destruct (frame_brick_contacts demoProps (demoInput 0.9) lastBrickState Hg eq_refl)
    as (s1 & u & Hd1 & _ & Hbr & Hnp & _).
  cbv zeta in Hnp. rewrite lastBrick_firstHit in Hnp.
  destruct Hnp as (b & Hb & Hs & Hbreaks).
  { by destruct lastBrick_ball as (_ & _ & _ & ->). }
  assert (cellAlive (bricks lastBrickState) 4 4 = true) as Ha0.
  { change (bricks lastBrickState) with (lateField solidWall 0 keepLast).
    by rewrite lateField_alive. }
  assert (∀ c r, cellAlive (bricks s1) c r = false) as Hdead.
  { intros c r. rewrite Hbr, (breaks_alive _ _ _ c r Hbreaks), lastBrick_cell.
    unfold brokenByHit.
    destruct (bool_decide ((c, r) = (4, 4)%nat)); [done | by rewrite andb_false_r]. }
  assert (isWinning s1 = false) as Hw1.
  { destruct (isWinning s1) eqn:E; [| done].
    apply (win_flag_raised_iff demoProps (demoInput 0.9) lastBrickState s1
             Hg eq_refl Hd1) in E as [Hall _].
    by rewrite Hall in Ha0. }
  assert (isLosing s1 = false) as Hl1.
  { destruct (isLosing s1) eqn:E; [| done].
    apply (loss_flag_raised_iff demoProps (demoInput 0.9) lastBrickState s1
             eq_refl Hd1) in E as (sc & _ & _ & _ & Hz).
    simpl in Hz. lia. }
  destruct (draw_total demoProps (demoInput 0.9) lastBrickState Hg)
    as (s1' & Hd1' & Hg1).
  rewrite Hd1 in Hd1'. simplify_eq.
  destruct (draw_total demoProps (demoInput 0.9) s1' Hg1) as (s2 & Hd2 & _).
  exists s1', s2. repeat split; try done.
  apply (win_flag_raised_iff demoProps (demoInput 0.9) s1' s2 Hg1);
    [by unfold terminal; rewrite Hw1, Hl1 | done |].
  split; [done |]. exists 4%nat, 4%nat.
  unfold wasDrawn. simpl. rewrite Hbr, (Hbreaks 4%nat 4%nat), Hb. simpl.
  destruct (beforeCollision_fieldOK demoProps (demoInput 0.9) lastBrickState Hg)
    as [_ Hp].
  destruct (Hp _ _ _ Hb Hs) as [Hx _]. rewrite (bool_decide_eq_false_2 (brick_x b = 0)).
  - done.
  - rewrite Hx. unfold BRICK_WIDTH, BRICK_PADDING, BRICK_OFFSET_LEFT. simpl INR. lra.
Qed.

(** ** Worked frames: a golden brick and a JACKPOT *)

Lemma golden_ball :
  let bl := ball (beforeCollision demoProps (demoInput 0.1) goldenState) in
  ball_x bl = 156 + 3 ∧ ball_y bl = 67 + -4 ∧ ball_radius bl = 5
  ∧ isPowerBall bl = false.
Proof. apply demoState_ball_beside. Qed.

Lemma golden_cell (c r : nat) :
  cellAlive (bricks (beforeCollision demoProps (demoInput 0.1) goldenState)) c r
  = bool_decide ((c, r) = (3, 2)%nat) || bool_decide ((c, r) = (5, 2)%nat).
Proof.
  destruct (beforeCollision_besideHead demoProps (demoInput 0.1) goldenState)
    as (_ & -> & _).
  rewrite cellAlive_drawBricks.
  change (bricks goldenState) with (lateField solidWall 17 keepRowPair).
  rewrite lateField_alive. unfold keepRowPair.
  case_bool_decide as Hin.
  - destruct Hin as [Hc Hr]. rewrite hasBrick_solidWall by done. simpl.
    destruct (Nat.eqb_spec r 2), (Nat.eqb_spec c 3), (Nat.eqb_spec c 5); simpl;
      repeat case_bool_decide; simplify_eq; first [done | lia].
  - simpl. rewrite !bool_decide_eq_false_2; [done | |];
      intros E; simplify_eq; apply Hin; unfold BRICK_COLUMN_COUNT, BRICK_ROW_COUNT; lia.
Qed.

Lemma golden_firstHit :
  let t := beforeCollision demoProps (demoInput 0.1) goldenState in
  firstHit (ball t) (bricks t) = Some (3, 2)%nat.
Proof.
  cbv zeta.
  destruct (beforeCollision_fieldOK demoProps (demoInput 0.1) goldenState
              (lateField_gridOK _ _ _)) as [_ Hp].
  assert (∀ c r, cellAlive (bricks (beforeCollision demoProps (demoInput 0.1) goldenState))
                   c r = true →
          hitCell (ball (beforeCollision demoProps (demoInput 0.1) goldenState))
                  (bricks (beforeCollision demoProps (demoInput 0.1) goldenState)) (c, r)
          = bool_decide
              ((156 + 3 - Rmax (INR c * 41 + 18) (Rmin (156 + 3) (INR c * 41 + 18 + 36))) ^ 2
               + (67 + -4 - Rmax (INR r * 15 + 20) (Rmin (67 + -4) (INR r * 15 + 20 + 10))) ^ 2
               < 5 * 5)) as Hhit.
  { intros c r Ha. unfold hitCell. cbn [fst snd]. unfold cellAlive in Ha.
    destruct (getBrick _ c r) as [b |] eqn:Eb; [| done]. rewrite Ha. cbn [andb].
    destruct (Hp _ _ _ Eb Ha) as [Hx Hy]. rewrite (overlaps_drawn _ b c r Hx Hy).
    by destruct golden_ball as (-> & -> & -> & _). }
  apply find_only.
  - apply elem_of_scanOrder. unfold BRICK_COLUMN_COUNT, BRICK_ROW_COUNT. lia.
  - rewrite Hhit by by rewrite golden_cell.
    apply bool_decide_eq_true_2. simpl INR.
    unfold Rmax, Rmin. repeat destruct (Rle_dec _ _); lra.
  - intros [c r] _ Hne.
    destruct (cellAlive (bricks (beforeCollision demoProps (demoInput 0.1) goldenState))
                c r) eqn:Ea; [| by apply hitCell_dead].
    rewrite Hhit by done. rewrite golden_cell in Ea.
    apply orb_prop in Ea as [E%bool_decide_eq_true | E%bool_decide_eq_true];
      [done |]. simplify_eq.
    apply bool_decide_eq_false_2. simpl INR.
    unfold Rmax, Rmin. repeat destruct (Rle_dec _ _); lra.
Qed.

Lemma golden_isGolden (b : Brick) :
  getBrick (bricks (beforeCollision demoProps (demoInput 0.1) goldenState)) 3 2 = Some b →
  isGolden b = true.
Proof.
  destruct (beforeCollision_besideHead demoProps (demoInput 0.1) goldenState)
    as (_ & -> & _).
  change (bricks goldenState) with (lateField solidWall 17 keepRowPair).
  rewrite getBrick_drawn_lateField, getBrick_lateField.
  rewrite bool_decide_eq_true_2 by (unfold BRICK_COLUMN_COUNT, BRICK_ROW_COUNT; lia).
  intros E. by simplify_eq.
Qed.

Lemma roulette_jackpot_draw : rouletteOutcome 0.1 = JACKPOT.
Proof.
  unfold rouletteOutcome. cbv zeta.
  rewrite bool_decide_eq_true_2; [done | unfold CHANCE_JACKPOT; lra].
Qed.

(** The row clear beside the contact limit: a ball that is not a power ball
    touches the golden brick, the roulette says JACKPOT, and a second brick
    of that row, which the ball does not touch, is broken with it in the
    same frame. *)
Lemma jackpot_breaks_two_bricks_in_one_frame :
  ∃ s1, draw demoProps (demoInput 0.1) goldenState = Some s1
    ∧ isPowerBall (ball (beforeCollision demoProps (demoInput 0.1) goldenState)) = false
    ∧ cellAlive (bricks goldenState) 3 2 = true
    ∧ cellAlive (bricks goldenState) 5 2 = true
    ∧ cellAlive (bricks s1) 3 2 = false
    ∧ cellAlive (bricks s1) 5 2 = false.
Proof.
  pose proof (lateField_gridOK solidWall 17 keepRowPair) as Hg.
  destruct (frame_brick_contacts demoProps (demoInput 0.1) goldenState Hg eq_refl)
    as (s1 & u & Hd1 & _ & Hbr & Hnp & _).
  destruct golden_ball as (_ & _ & _ & Hpw).
  cbv zeta in Hnp. rewrite golden_firstHit in Hnp.
  destruct (Hnp Hpw) as (b & Hb & Hs & Hbreaks).
  pose proof (golden_isGolden b Hb) as Hgold.
  assert (∀ c r, cellAlive (bricks goldenState) c r
                 = bool_decide (c < BRICK_COLUMN_COUNT ∧ r < BRICK_ROW_COUNT)%nat
                   && hasBrick solidWall c r && keepRowPair c r) as Hstart.
  { intros c r. apply lateField_alive. }
  exists s1. split; [done |]. split; [done |].
  split; [by rewrite Hstart |]. split; [by rewrite Hstart |]. split.
  - rewrite Hbr, (breaks_alive _ _ _ 3 2 Hbreaks). unfold brokenByHit.
    by rewrite bool_decide_eq_true_2.
  - rewrite Hbr, (breaks_alive _ _ _ 5 2 Hbreaks). unfold brokenByHit.
    rewrite Hgold. cbn [goldenDraws demoInput].
    rewrite roulette_jackpot_draw, (bool_decide_eq_true_2 (JACKPOT = JACKPOT)) by done.
    rewrite (bool_decide_eq_true_2 (2 = 2)%nat) by done. by rewrite orb_true_r.
Qed.

(** ** Worked frames: a power ball between two bricks *)

Lemma power_ball :
  let bl := ball (beforeCollision demoProps (demoInput 0.9) powerState) in
  ball_x bl = 176.5 + 3 ∧ ball_y bl = 59 + -4 ∧ ball_radius bl = 5
  ∧ isPowerBall bl = true.
Proof.
  cbv zeta. rewrite beforeCollision_ball.
  by destruct (moveBall_beside (powerBallTick (ball powerState)))
    as (-> & -> & -> & -> & _).
Qed.

Lemma power_cell (c r : nat) :
  cellAlive (bricks (beforeCollision demoProps (demoInput 0.9) powerState)) c r
  = bool_decide ((c, r) = (3, 2)%nat) || bool_decide ((c, r) = (4, 2)%nat).
Proof.
  destruct (beforeCollision_besideHead demoProps (demoInput 0.9) powerState)
    as (_ & -> & _).
  rewrite cellAlive_drawBricks.
  change (bricks powerState) with (lateField solidWall 0 keepNeighbours).
  rewrite lateField_alive. unfold keepNeighbours.
  case_bool_decide as Hin.
  - destruct Hin as [Hc Hr]. rewrite hasBrick_solidWall by done. simpl.
    destruct (Nat.eqb_spec r 2), (Nat.eqb_spec c 3), (Nat.eqb_spec c 4); simpl;
      repeat case_bool_decide; simplify_eq; first [done | lia].
  - simpl. rewrite !bool_decide_eq_false_2; [done | |];
      intros E; simplify_eq; apply Hin; unfold BRICK_COLUMN_COUNT, BRICK_ROW_COUNT; lia.
Qed.

Lemma power_noGolden :
  noGolden (bricks (beforeCollision demoProps (demoInput 0.9) powerState)).
Proof.
  intros c r b Hb Hs.
  assert (cellAlive (bricks (beforeCollision demoProps (demoInput 0.9) powerState)) c r
          = true) as Ha by (unfold cellAlive; by rewrite Hb).
  rewrite power_cell in Ha. revert Hb.
  destruct (beforeCollision_besideHead demoProps (demoInput 0.9) powerState)
    as (_ & -> & _).
  change (bricks powerState) with (lateField solidWall 0 keepNeighbours).
  rewrite getBrick_drawn_lateField, getBrick_lateField.
  apply orb_prop in Ha as [E%bool_decide_eq_true | E%bool_decide_eq_true];
    simplify_eq;
    rewrite bool_decide_eq_true_2 by (unfold BRICK_COLUMN_COUNT, BRICK_ROW_COUNT; lia);
    intros E; by simplify_eq.
Qed.

Lemma power_hits (c r : nat) :
  cellAlive (bricks (beforeCollision demoProps (demoInput 0.9) powerState)) c r = true →
  hitCell (ball (beforeCollision demoProps (demoInput 0.9) powerState))
          (bricks (beforeCollision demoProps (demoInput 0.9) powerState)) (c, r) = true.
Proof.
  intros Ha.
  destruct (beforeCollision_fieldOK demoProps (demoInput 0.9) powerState
              (lateField_gridOK _ _ _)) as [_ Hp].
  unfold hitCell. cbn [fst snd]. pose proof Ha as Ha'. unfold cellAlive in Ha.
  destruct (getBrick _ c r) as [b |] eqn:Eb; [| done]. rewrite Ha. cbn [andb].
  destruct (Hp _ _ _ Eb Ha) as [Hx Hy]. rewrite (overlaps_drawn _ b c r Hx Hy).
  destruct power_ball as (-> & -> & -> & _).
  rewrite power_cell in Ha'.
  apply orb_prop in Ha' as [E%bool_decide_eq_true | E%bool_decide_eq_true];
    simplify_eq; apply bool_decide_eq_true_2; simpl INR;
    unfold Rmax, Rmin; repeat destruct (Rle_dec _ _); lra.
Qed.

(** The frame of [brick_contacts_in_frame] on the power ball between two
    bricks: both break in the one frame. *)
Lemma brick_contacts_in_frame_witness :
  gridOK (bricks powerState) ∧ terminal powerState = false
  ∧ ∃ s', draw demoProps (demoInput 0.9) powerState = Some s'
      ∧ cellAlive (bricks powerState) 3 2 = true
      ∧ cellAlive (bricks powerState) 4 2 = true
      ∧ cellAlive (bricks s') 3 2 = false
      ∧ cellAlive (bricks s') 4 2 = false.
Proof.
  pose proof (lateField_gridOK solidWall 0 keepNeighbours) as Hg.
  split; [exact Hg |]. split; [reflexivity |].
  destruct (brick_contacts_in_frame demoProps (demoInput 0.9) powerState Hg eq_refl)
    as (s' & u & Hd & _ & Hbr & _ & Hpower & _).
  destruct power_ball as (_ & _ & _ & Hpw).
  destruct (Hpower Hpw power_noGolden) as [Hbreaks _].
  assert (∀ c r, cellAlive (bricks powerState) c r
                 = bool_decide (c < BRICK_COLUMN_COUNT ∧ r < BRICK_ROW_COUNT)%nat
                   && hasBrick solidWall c r && keepNeighbours c r) as Hstart.
  { intros c r. apply lateField_alive. }
  exists s'. split; [exact Hd |].
  split; [by rewrite Hstart |]. split; [by rewrite Hstart |]. split.
  - rewrite Hbr, (breaks_alive _ _ _ 3 2 Hbreaks).
    by rewrite power_hits by by rewrite power_cell.
  - rewrite Hbr, (breaks_alive _ _ _ 4 2 Hbreaks).
    by rewrite power_hits by by rewrite power_cell.
Defined.

(** ** Worked frames: a flick shot *)

Lemma frictionClamp_fast (b : Ball) :
  (MIN_BALL_SPEED / BALL_FRICTION) ^ 2 <= ball_dx b ^ 2 + ball_dy b ^ 2 →
  frictionClamp b = scaleVelocity BALL_FRICTION b.
Proof.
  intros H. unfold frictionClamp. cbv zeta.
  rewrite speedOf_scale by (unfold BALL_FRICTION; lra).
  apply speedOf_ge_iff in H; [| unfold MIN_BALL_SPEED, BALL_FRICTION; lra].
  rewrite (bool_decide_eq_false_2 (_ < _)); [done |].
  unfold MIN_BALL_SPEED, BALL_FRICTION in *. lra.
Qed.

Lemma powerBallTick_idle (b : Ball) : powerBallTimer b = 0%nat → powerBallTick b = b.
Proof. unfold powerBallTick. by intros ->. Qed.

Lemma loopDetection_side (s : State) :
  paddleVelocity (loopDetection s) = paddleVelocity s
  ∧ isPowerShotMode (loopDetection s) = isPowerShotMode s
  ∧ lives (loopDetection s) = lives s
  ∧ prevPaddleX (loopDetection s) = prevPaddleX s.
Proof. by destruct (loopDetection_cases s) as [[_ ->] | [_ ->]]. Qed.

(** What the detector and the head of the frame leave of the paddle side,
    when the AI does not move the paddle. *)
Lemma beforeCollision_paddle_side (props : GameProps) (inp : FrameInput) (s : State) :
  isAIEnabled props = false →
  paddle (beforeCollision props inp s) = paddle s
  ∧ paddleVelocity (beforeCollision props inp s) = paddle_x (paddle s) - prevPaddleX s
  ∧ isPowerShotMode (beforeCollision props inp s) = isPowerShotMode s
  ∧ lives (beforeCollision props inp s) = lives s.
Proof.
  intros HAI.
  destruct (loopDetection_besideHead (beforeDetection props inp s)) as (_ & Ep & _).
  destruct (loopDetection_side (beforeDetection props inp s)) as (Ev & Em & El & _).
  unfold beforeCollision. cbv zeta.
  change (paddle (loopDetection (beforeDetection props inp s)) = paddle s
          ∧ paddleVelocity (loopDetection (beforeDetection props inp s))
            = paddle_x (paddle s) - prevPaddleX s
          ∧ isPowerShotMode (loopDetection (beforeDetection props inp s))
            = isPowerShotMode s
          ∧ lives (loopDetection (beforeDetection props inp s)) = lives s).
  rewrite Ep, Ev, Em, El. unfold beforeDetection. rewrite HAI. done.
Qed.

Lemma flick_ball :
  ball (beforeCollision demoProps (demoInput 0.9) flickState)
  = mkBall (223 + 3) (268 + 5) (3 * BALL_FRICTION) (5 * BALL_FRICTION) 5 false 0.
Proof.
  unfold flickState. rewrite demoState_ball, frictionClamp_fast; [done |].
  cbn [ball_dx ball_dy]. unfold MIN_BALL_SPEED, BALL_FRICTION. lra.
Qed.

Lemma flick_firstHit :
  let t := beforeCollision demoProps (demoInput 0.9) flickState in
  firstHit (ball t) (bricks t) = None.
Proof.
  cbv zeta. apply find_no_match. intros [c r] _.
  destruct (beforeCollision_fieldOK demoProps (demoInput 0.9) flickState
              (lateField_gridOK _ _ _)) as [_ Hp].
  destruct (cellAlive (bricks (beforeCollision demoProps (demoInput 0.9) flickState)) c r)
    eqn:Ha; [| by apply hitCell_dead].
  pose proof Ha as Ha'. unfold hitCell. cbn [fst snd]. unfold cellAlive in Ha.
  destruct (getBrick _ c r) as [b |] eqn:Eb; [| done]. rewrite Ha. cbn [andb].
  destruct (Hp _ _ _ Eb Ha) as [Hx Hy]. rewrite (overlaps_drawn _ b c r Hx Hy).
  rewrite flick_ball. cbn [ball_x ball_y ball_radius].
  unfold flickState in Ha'. fold lastBrickState in Ha'.
  assert (cellAlive (bricks (beforeCollision demoProps (demoInput 0.9) lastBrickState)) c r
          = true) as Hc.
  { revert Ha'.
    destruct (beforeCollision_besideHead demoProps (demoInput 0.9)
                (demoState (mkBall 223 268 3 5 5 false 0)
                   (lateField solidWall 0 keepLast) 44)) as (_ & -> & _).
    by destruct (beforeCollision_besideHead demoProps (demoInput 0.9) lastBrickState)
      as (_ & -> & _). }
  rewrite lastBrick_cell in Hc. apply bool_decide_eq_true in Hc. simplify_eq.
  apply bool_decide_eq_false_2. simpl INR.
  unfold Rmax, Rmin. repeat destruct (Rle_dec _ _); lra.
Qed.

Lemma Rabs_gt (x v : R) : v < x → Rabs x > v.
Proof. intros H. unfold Rabs. destruct (Rcase_abs x); lra. Qed.

Lemma Rabs_ge (x v : R) : v <= x → v <= Rabs x.
Proof. intros H. unfold Rabs. destruct (Rcase_abs x); lra. Qed.

(** The ball after the frame of [flickState]: the paddle has returned it
    with a flick. *)
Lemma flick_frame :
  ∃ s1, draw demoProps (demoInput 0.9) flickState = Some s1
    ∧ ball_dx (ball s1) = (223 + 3 - (170 + 60 / 2)) / (60 / 2)
                          * PADDLE_SPIN_FACTOR * PADDLE_EDGE_BOOST
                          + (170 - 170) * PADDLE_VELOCITY_SPIN_FACTOR
    ∧ ball_dy (ball s1) = - (5 * BALL_FRICTION) * PADDLE_FLICK_SPEED_BONUS
    ∧ powerBallTimer (ball s1) = 0%nat.
Proof.
  pose proof (lateField_gridOK solidWall 0 keepLast) as Hg.
  destruct (frame_brick_contacts demoProps (demoInput 0.9) flickState Hg eq_refl)
    as (s1 & u & Hd1 & Hs1 & _ & Hnp & _).
  cbv zeta in Hnp. rewrite flick_firstHit, flick_ball in Hnp.
  specialize (Hnp eq_refl). subst u.
  exists s1. split; [exact Hd1 |].
  assert (isWinning s1 = false) as Hw1.
  { destruct (isWinning s1) eqn:E; [| done].
    apply (win_flag_raised_iff demoProps (demoInput 0.9) flickState s1
             Hg eq_refl Hd1) in E as [Hall _].
    specialize (Hall 4%nat 4%nat).
    change (bricks flickState) with (lateField solidWall 0 keepLast) in Hall.
    by rewrite lateField_alive in Hall. }
  destruct Hs1 as [-> | ->]; [done |]. clear Hw1 Hd1.
  pose proof flick_ball as Hb.
  destruct (beforeCollision_paddle_side demoProps (demoInput 0.9) flickState eq_refl)
    as (Hp & Hv & Hm & _).
  set (t := beforeCollision demoProps (demoInput 0.9) flickState) in *.
  unfold afterBricks.
  rewrite sideWalls_clear by (rewrite Hb; cbn [ball_x ball_radius]; unfold CANVAS_WIDTH; lra).
  rewrite topWall_clear by (rewrite Hb; cbn [ball_y ball_radius]; lra).
  unfold paddleCollision. rewrite touchesPaddle_true.
  2-6: rewrite ?Hb, ?Hp; cbn [ball_x ball_y ball_dy ball_radius paddle_x paddle_width
                              paddle flickState demoState];
       unfold paddleTopY, CANVAS_HEIGHT, PADDLE_Y_OFFSET, PADDLE_HEIGHT, BALL_FRICTION; lra.
  destruct (paddleBounce_flick t) as (Edx & Edy & _ & Ey & Er & _ & Et).
  { rewrite Hb, Hp. cbn [ball_x paddle_x paddle_width paddle flickState demoState].
    apply Rabs_gt. lra. }
  { rewrite Hb, Hp, Hv, Hm.
    cbn [ball_x paddle_x paddle_width paddle prevPaddleX isPowerShotMode
         flickState demoState].
    apply Rabs_ge.
    unfold PADDLE_SPIN_FACTOR, PADDLE_EDGE_BOOST, PADDLE_VELOCITY_SPIN_FACTOR. lra. }
  rewrite floorCheck_clear.
  2: { rewrite Ey, Er, Hb. cbn [ball_radius].
       unfold paddleTopY, CANVAS_HEIGHT, PADDLE_Y_OFFSET, PADDLE_HEIGHT. lra. }
  rewrite Edx, Edy, Et, Hb, Hp, Hv, Hm.
  cbn [ball_x ball_dy powerBallTimer paddle_x paddle_width paddle prevPaddleX
       isPowerShotMode flickState demoState]. done.
Qed.

(** C1. The engine enforces the lower bound of the speed range
    ([moveBall_speed_bounds]) and not the upper one that its comments
    promise.  No brick is touched and no roulette runs; in the frame of
    [flickState] the speed after the friction-and-clamp step is within
    [MIN_BALL_SPEED, MAX_BALL_SPEED], the ball then meets the end of the
    paddle, whose branch sets [dx] from the spin formula and raises [dy] by
    the flick bonus, and in the next frame the speed after the
    friction-and-clamp step is above MAX_BALL_SPEED. *)
Lemma flick_shot_outruns_max_speed :
  ∃ s1, draw demoProps (demoInput 0.9) flickState = Some s1
    ∧ firstHit (ball (beforeCollision demoProps (demoInput 0.9) flickState))
               (bricks (beforeCollision demoProps (demoInput 0.9) flickState)) = None
    ∧ MIN_BALL_SPEED
      <= speedOf (ball (beforeCollision demoProps (demoInput 0.9) flickState))
      <= MAX_BALL_SPEED
    ∧ MAX_BALL_SPEED < speedOf (ball (beforeCollision demoProps (demoInput 0.9) s1)).
Proof.
  destruct flick_frame as (s1 & Hd & Edx & Edy & Et).
  exists s1. split; [exact Hd |]. split; [exact flick_firstHit |]. split.
  - rewrite flick_ball. split.
    + apply speedOf_ge_iff; [unfold MIN_BALL_SPEED; lra |].
      cbn [ball_dx ball_dy]. unfold MIN_BALL_SPEED, BALL_FRICTION. lra.
    + apply speedOf_le_iff; [unfold MAX_BALL_SPEED; lra |].
      cbn [ball_dx ball_dy]. unfold MAX_BALL_SPEED, BALL_FRICTION. lra.
  - rewrite beforeCollision_ball, (powerBallTick_idle _ Et).
    apply moveBall_keeps_fast.
    apply speedOf_gt_iff; [unfold MAX_BALL_SPEED, BALL_FRICTION; lra |].
    rewrite Edx, Edy.
    unfold MAX_BALL_SPEED, BALL_FRICTION, PADDLE_SPIN_FACTOR, PADDLE_EDGE_BOOST,
      PADDLE_VELOCITY_SPIN_FACTOR, PADDLE_FLICK_SPEED_BONUS. lra.
Qed.

(** [moveBall_speed_bounds] on a ball moving at (3, 4). *)
Lemma moveBall_speed_bounds_witness :
  (ball_dx (mkBall 200 150 3 4 5 false 0) ≠ 0 ∨ ball_dy (mkBall 200 150 3 4 5 false 0) ≠ 0)
  ∧ MIN_BALL_SPEED <= speedOf (moveBall (mkBall 200 150 3 4 5 false 0)).
Proof.
  assert (ball_dx (mkBall 200 150 3 4 5 false 0) ≠ 0
          ∨ ball_dy (mkBall 200 150 3 4 5 false 0) ≠ 0) as Hv.
  { left. simpl. lra. }
  split; [exact Hv |].
  exact (proj1 (moveBall_speed_bounds (mkBall 200 150 3 4 5 false 0) Hv)).
Defined.

(** ** Worked frames: a JACKPOT on the full wall; a match of a hundred frames *)

(** [jackpot_clears_row] on the full wall, for the golden brick of row 0. *)
Lemma jackpot_clears_row_witness :
  rouletteOutcome 0.1 = JACKPOT
  ∧ gridOK (bricks wallState) ∧ (0 < BRICK_ROW_COUNT)%nat
  ∧ brick_y (mkBrick 18 20 false true)
    = INR 0 * (BRICK_HEIGHT + BRICK_PADDING) + BRICK_OFFSET_TOP
  ∧ ∃ s', handleGoldenBrick 0.1 (mkBrick 18 20 false true) wallState = Some s'
      ∧ (∀ c, cellAlive (bricks s') c 0 = false)
      ∧ jackpotsThisGame s' = 1%nat.
Proof.
  assert (gridOK (bricks wallState)) as Hg by apply lateField_gridOK.
  assert (0 < BRICK_ROW_COUNT)%nat as Hr by (unfold BRICK_ROW_COUNT; lia).
  assert (brick_y (mkBrick 18 20 false true)
          = INR 0 * (BRICK_HEIGHT + BRICK_PADDING) + BRICK_OFFSET_TOP) as Hy.
  { simpl. unfold BRICK_OFFSET_TOP. lra. }
  split; [exact roulette_jackpot_draw |]. split; [exact Hg |].
  split; [exact Hr |]. split; [exact Hy |].
  destruct (jackpot_clears_row 0.1 (mkBrick 18 20 false true) 0 wallState
              roulette_jackpot_draw Hg Hr Hy) as (s' & E & Hrow & _ & _ & _ & Hj).
  exists s'. split; [exact E |]. split; [exact Hrow | exact Hj].
Defined.

(** [confidence_bounded] a hundred frames into that match. *)
Lemma confidence_bounded_witness :
  0 <= initialSkillLevel demoProps
  ∧ ∃ s, run demoProps demoSetup (λ _, demoInput 0.9) 100 = Some s
         ∧ 0.5 <= dynamicAggressionFactor s <= 1.5.
Proof.
  assert (0 <= initialSkillLevel demoProps) as Hskill by (simpl; lra).
  split; [exact Hskill |].
  exact (proj2 (confidence_bounded demoProps demoSetup (λ _, demoInput 0.9) 100 Hskill)).
Defined.



(** ** The ball keeps moving sideways *)

Lemma handleGoldenBrick_sideways (rand : R) (b : Brick) (s s' : State) :
  handleGoldenBrick rand b s = Some s' → sideways s → sideways s'.
Proof.
  unfold handleGoldenBrick, sideways. intros H Hs.
  destruct (rouletteOutcome rand).
  - revert H. cbv zeta.
    apply (forEach_invariant _ (λ t, ball_dx (ball t) ≠ 0)); [| done].
    intros c t t' _ Ht Hc. apply jackpotColumn_beside in Hc as (_ & -> & _). done.
  - cbv zeta in H. injection H as <-. refs.
    apply scaleVelocity_sideways; [| done].
    set (b1 := set_powerBallTimer _ _).
    assert (0 < speedOf b1) by (apply speedOf_pos; by left).
    apply ratio_neq_0; lra.
  - cbv zeta in H. injection H as <-. refs.
    apply scaleVelocity_sideways; [| done].
    assert (0 < speedOf (ball s)) by (apply speedOf_pos; by left).
    apply ratio_neq_0; [unfold MAX_BALL_SPEED; lra | done].
Qed.

Lemma bounceOffBrick_sideways (b : Brick) (bl : Ball) :
  ball_dx bl ≠ 0 → ball_dx (bounceOffBrick b bl) ≠ 0.
Proof.
  intros H. unfold bounceOffBrick. cbv zeta.
  destruct (_ || _); cbn [ball_dx set_ball_dx set_ball_dy]; [done | lra].
Qed.

Lemma breakBrick_sideways (props : GameProps) (c r : nat) (b : Brick) (s : State) :
  sideways s → sideways (breakBrick props c r b s).
Proof. done. Qed.

Lemma registerHit_sideways (props : GameProps) (rand : R) (c r : nat) (b : Brick)
    (s s' : State) :
  registerHit props rand c r b s = Some s' → sideways s → sideways s'.
Proof.
  unfold registerHit. cbv zeta. intros H Hs.
  assert (∃ s1, sideways s1
                ∧ s' = if negb (isPowerBall (ball s1))
                       then set_ball (bounceOffBrick b (ball s1)) s1 else s1)
    as (s1 & H1 & ->).
  { destruct (isGolden b).
    - destruct (handleGoldenBrick _ _ _) as [s1 |] eqn:E; simpl in H; [| done].
      exists s1. split; [| by simplify_eq].
      eapply handleGoldenBrick_sideways; [exact E | by apply breakBrick_sideways].
    - simpl in H. exists (breakBrick props c r b s).
      split; [by apply breakBrick_sideways | by simplify_eq]. }
  destruct (negb _); [| done]. unfold sideways. refs. by apply bounceOffBrick_sideways.
Qed.

Lemma visitBrick_sideways (props : GameProps) (rnd : nat → R) (cr : nat * nat)
    (sc sc' : Scan) :
  visitBrick props rnd cr sc = Some sc' →
  sideways (sc_state sc) → sideways (sc_state sc').
Proof.
  unfold visitBrick. destruct cr as [c r]. intros H Hs.
  destruct (getBrick _ _ _) as [b |]; simpl in H; [| done].
  destruct (negb (status b) && _ && _); [by simplify_eq |].
  destruct (negb (status b)); [by simplify_eq |].
  destruct (overlaps _ _ && _); [| by simplify_eq].
  destruct (registerHit _ _ _ _ _ _) as [s1 |] eqn:E; simpl in H; [| done].
  simplify_eq. cbn [sc_state]. by eapply registerHit_sideways.
Qed.

Lemma scanBricks_sideways (props : GameProps) (rnd : nat → R) (s : State) (sc : Scan) :
  scanBricks props rnd s = Some sc → sideways s → sideways (sc_state sc).
Proof.
  intros H Hs. revert H.
  apply (forEach_invariant (visitBrick props rnd) (λ t, sideways (sc_state t))); [| done].
  intros cr t t' _ Ht Hv. by eapply visitBrick_sideways.
Qed.

Lemma sideWalls_sideways (props : GameProps) (s : State) :
  sideways s → sideways (sideWalls props s).
Proof.
  unfold sideways, sideWalls. cbv zeta. intros H.
  repeat case_bool_decide; unfold wallPenalty; refs; lra.
Qed.

Lemma topWall_sideways (props : GameProps) (s : State) :
  sideways s → sideways (topWall props s).
Proof.
  unfold sideways, topWall. cbv zeta. intros H.
  case_bool_decide; unfold wallPenalty; refs; done.
Qed.

(** The paddle never sends the ball straight up. *)
Lemma paddleBounce_sideways (s : State) : sideways (paddleBounce s).
Proof.
  unfold sideways, paddleBounce. cbv zeta. refs.
  set (dx := _ + paddleVelocity _ * _).
  assert (E : ∀ bl : Ball,
             ball_dx (if bool_decide (Rabs (ball_dx (set_ball_dx dx bl)) < 0.2)
                      then set_ball_dx (Num.Math_sign (Num.orElse (ball_dx (set_ball_dx dx bl)) 1) * 0.5)
                             (set_ball_dx dx bl)
                      else set_ball_dx dx bl) ≠ 0).
  { intros bl. cbn [ball_dx set_ball_dx]. case_bool_decide as E.
    - cbn [ball_dx set_ball_dx]. unfold Num.Math_sign, Num.orElse.
      repeat case_bool_decide; lra.
    - cbn [ball_dx set_ball_dx]. intros H0. apply E. rewrite H0, Rabs_R0. lra. }
  destruct (isStuck s); refs; apply E.
Qed.

Lemma paddleCollision_sideways (s : State) : sideways s → sideways (paddleCollision s).
Proof.
  intros H. unfold paddleCollision. destruct (touchesPaddle s); [| done].
  apply paddleBounce_sideways.
Qed.

Lemma floorCheck_sideways (rand : R) (s : State) :
  sideways s → sideways (floorCheck rand s).
Proof.
  unfold sideways, floorCheck, resetBallAndPaddle. cbv zeta. intros H.
  repeat case_bool_decide; refs; try done; unfold BALL_SPEED_X; lra.
Qed.

Lemma draw_sideways (props : GameProps) (inp : FrameInput) (s s' : State) :
  sideways s → draw props inp s = Some s' → sideways s'.
Proof.
  intros Hs Hd.
  assert (H1 : sideways (beforeCollision props inp s)).
  { unfold sideways. rewrite beforeCollision_ball.
    by apply moveBall_sideways, powerBallTick_sideways. }
  apply draw_cases in Hd as [[_ ->] | (_ & sc & Esc & Hcase)].
  - unfold sideways.
    destruct (loopDetection_besideHead (beforeDetection props inp s)) as (_ & _ & _ & ->).
    unfold beforeDetection, frameHead, aiMove.
    destruct (isAIEnabled props); refs; by apply powerBallTick_sideways.
  - pose proof (scanBricks_sideways _ _ _ _ Esc H1) as H2.
    destruct Hcase as [(_ & _ & ->) | (_ & ->)]; [done |].
    unfold afterBricks.
    by apply floorCheck_sideways, paddleCollision_sideways, topWall_sideways,
             sideWalls_sideways.
Qed.

(** * Properties of the decision layer *)

Module AgentFacts.
Import JsNumber Agent.
Local Open Scope js_scope.

(** ** Finite numbers *)

Lemma isFinite_mkZero (n : bool) : isFinite (mkZero n) = true.
Proof. by destruct n. Qed.

Lemma isFinite_mkFin (n : bool) (q : Qc) : isFinite (mkFin n q) = true.
Proof. unfold mkFin. case_match; [apply isFinite_mkZero | done]. Qed.

Lemma isFinite_neg (a : number) : isFinite a = true → isFinite (- a) = true.
Proof. destruct a; try done. simpl. by case_match. Qed.

Lemma isFinite_add (a b : number) :
  isFinite a = true → isFinite b = true → isFinite (a + b) = true.
Proof. by destruct a, b. Qed.

Lemma isFinite_sub (a b : number) :
  isFinite a = true → isFinite b = true → isFinite (a - b) = true.
Proof. intros Ha Hb. apply isFinite_add; [done | by apply isFinite_neg]. Qed.

Lemma isFinite_mul (a b : number) :
  isFinite a = true → isFinite b = true → isFinite (a * b) = true.
Proof. destruct a, b; try done; intros _ _; apply isFinite_mkFin. Qed.

(** A finite number divided by anything but a zero or NaN is finite. *)
Lemma isFinite_div (a b : number) :
  isFinite a = true → isNaN b = false → isZero b = false →
  isFinite (a / b) = true.
Proof.
  intros Ha Hn Hz. unfold div. rewrite Hn, Hz, orb_false_r.
  destruct a; try done; simpl;
    destruct (isInf b); first [apply isFinite_mkZero | apply isFinite_mkFin].
Qed.

Lemma positive_not_zero (a : number) :
  (a >? lit 0) = true → isNaN a = false ∧ isZero a = false.
Proof.
  destruct a; try done. intros H. split; [done |]. simpl.
  destruct (Qc_eq_bool q (Q2Qc 0)) eqn:E; [| done].
  apply Qc_eq_bool_correct in E. subst q. by vm_compute in H.
Qed.

(** ** The guards of the targeting formulas *)




(** ** The choice of the best path *)

Lemma pickStep_eq (bi : Z) (m i : nat) (p : SimulatedPath) :
  pickStep (bi, m) (i, p)
  = if (m <? score p)%nat then (Z.of_nat i, score p) else (bi, m).
Proof. reflexivity. Qed.

Lemma max_list_scores_cons (p : SimulatedPath) (ps : list SimulatedPath) :
  max_list (score <$> p :: ps) = (score p `max` max_list (score <$> ps))%nat.
Proof. reflexivity. Qed.

Lemma pickBest_from (ps : list SimulatedPath) (k : nat) (bi : Z) (m : nat) :
  let r := foldl pickStep (bi, m) (imap (λ i p, ((k + i)%nat, p)) ps) in
  let best := max_list (score <$> ps) in
  ((best ≤ m)%nat ∧ r = (bi, m)) ∨
  ((m < best)%nat ∧ snd r = best ∧
   ∃ i p, fst r = Z.of_nat (k + i) ∧ ps !! i = Some p ∧ score p = best).
Proof.
  revert k bi m. induction ps as [| p ps IH]; intros k bi m; cbv zeta.
  { left. simpl. split; [lia | done]. }
  rewrite imap_cons, !max_list_scores_cons. cbn [foldl].
  rewrite (imap_ext _ (λ i q, ((S k + i)%nat, q))) by (intros; unfold compose; f_equal; lia).
  rewrite pickStep_eq.
  destruct (Nat.ltb_spec m (score p)) as [Hlt | Hge].
  - right. split; [lia |].
    destruct (IH (S k) (Z.of_nat (k + 0)) (score p)) as [[Hle ->] | (Hm & Hs & i & q & Hi & Hq & Hsc)].
    + split; [simpl; lia |]. exists 0%nat, p. cbn [fst]. split_and!; [done | done | lia].
    + split; [lia |]. exists (S i), q. split_and!; [| done | lia].
      rewrite Hi. f_equal. lia.
  - destruct (IH (S k) bi m) as [[Hle ->] | (Hm & Hs & i & q & Hi & Hq & Hsc)].
    + left. split; [lia | done].
    + right. split; [lia |]. split; [lia |]. exists (S i), q. split_and!; [| done | lia].
      rewrite Hi. f_equal. lia.
Qed.

(** [pickBest] finds the highest score, and a path that has it when it is
    not 0. *)
Lemma pickBest_spec (ps : list SimulatedPath) :
  let best := max_list (score <$> ps) in
  snd (pickBest ps) = best ∧
  ((0 < best)%nat → ∃ i p, fst (pickBest ps) = Z.of_nat i ∧ ps !! i = Some p ∧ score p = best).
Proof.
  cbv zeta.
  assert (E0 : foldl pickStep ((-1)%Z, 0%nat) (imap (λ i p, ((0 + i)%nat, p)) ps)
               = pickBest ps) by reflexivity.
  pose proof (pickBest_from ps 0 (-1) 0) as H. cbv zeta in H. rewrite E0 in H.
  destruct H as [[Hle E] | (Hm & Hs & i & p & Hi & Hp & Hsc)].
  - rewrite E. cbn [snd]. split; [lia | lia].
  - split; [done |]. intros _. by exists i, p.
Qed.

Lemma length_simulatePaths (b : Ball) (p : Paddle) (g : list (list Brick)) :
  length (simulatePaths b p g) = length AI_SIMULATION_ANGLES.
Proof. unfold simulatePaths. by rewrite length_fmap. Qed.

(** ** The paddle move on finite numbers *)

Lemma Qcltb_Qcleb (a b : Qc) : Qcltb a b = true → Qcleb a b = true.
Proof. unfold Qcltb, Qcleb. by destruct (a ?= b)%Qc. Qed.

Lemma Qcltb_false_Qcleb (a b : Qc) : Qcltb a b = false → Qcleb b a = true.
Proof.
  unfold Qcltb, Qcleb, Qccompare. rewrite <- (Qcompare_antisym (this a) (this b)).
  by destruct (this a ?= this b)%Q.
Qed.

Lemma ltb_finite (a b : number) :
  isFinite a = true → isFinite b = true → (a <? b) = Qcltb (val a) (val b).
Proof. by destruct a, b. Qed.

Lemma leb_finite (a b : number) :
  isFinite a = true → isFinite b = true → (a <=? b) = Qcleb (val a) (val b).
Proof. by destruct a, b. Qed.

Lemma ltb_leb (a b : number) :
  isFinite a = true → isFinite b = true → (a <? b) = true → (a <=? b) = true.
Proof.
  intros Ha Hb. rewrite ltb_finite, leb_finite by done. apply Qcltb_Qcleb.
Qed.

Lemma ltb_false_leb (a b : number) :
  isFinite a = true → isFinite b = true → (a <? b) = false → (b <=? a) = true.
Proof.
  intros Ha Hb. rewrite ltb_finite, leb_finite by done. apply Qcltb_false_Qcleb.
Qed.

Lemma leb_refl (a : number) : isFinite a = true → (a <=? a) = true.
Proof.
  intros Ha. rewrite leb_finite by done. unfold Qcleb, Qccompare.
  by rewrite (proj1 (Qeq_alt _ _) (Qeq_refl (this (val a)))).
Qed.

Lemma isFinite_not_NaN (a : number) : isFinite a = true → isNaN a = false.
Proof. by destruct a. Qed.

(** The clamp of the paddle move: a finite x ends within the bounds. *)
Lemma clamp_in_range (m x : number) :
  isFinite m = true → isFinite x = true → (lit 0 <=? m) = true →
  let r := Math_max (lit 0) (Math_min m x) in
  (lit 0 <=? r) = true ∧ (r <=? m) = true.
Proof.
  intros Hm Hx H0. cbv zeta.
  assert (Hy : isFinite (Math_min m x) = true ∧ (Math_min m x <=? m) = true).
  { unfold Math_min. rewrite (isFinite_not_NaN m), (isFinite_not_NaN x) by done.
    cbn [orb]. destruct (m <? x) eqn:E1.
    - split; [done | by apply leb_refl].
    - destruct (x <? m) eqn:E2; [split; [done | by apply ltb_leb] |].
      destruct (isNeg m); [| split; [done | by apply ltb_false_leb]].
      split; [done | by apply leb_refl]. }
  destruct Hy as [Hyf Hym]. revert Hyf Hym. generalize (Math_min m x). intros y Hyf Hym.
  unfold Math_max. rewrite (isFinite_not_NaN y) by done.
  change (isNaN (lit 0)) with false. change (isNeg (lit 0)) with false. cbn [orb].
  destruct (lit 0 <? y) eqn:E1.
  - split; [by apply ltb_leb | done].
  - destruct (y <? lit 0) eqn:E2; by split.
Qed.

(** *** Finite numbers through the block *)

Lemma Qc_eq_bool_true (a b : Qc) : Qc_eq_bool a b = true ↔ a = b.
Proof. unfold Qc_eq_bool. destruct (Qcanon.Qc_eq_dec a b); split; done. Qed.

Lemma Qc_eq_bool_false (a b : Qc) : Qc_eq_bool a b = false ↔ a ≠ b.
Proof. unfold Qc_eq_bool. destruct (Qcanon.Qc_eq_dec a b); split; done. Qed.

Lemma isZero_neg (a : number) : isZero (- a) = isZero a.
Proof.
  destruct a; try done. simpl.
  destruct (Qc_eq_bool q (Q2Qc 0)) eqn:E; [done |]. simpl.
  apply Qc_eq_bool_false. apply Qc_eq_bool_false in E. intros H. apply E.
  rewrite <- (Qcopp_involutive q), H. reflexivity.
Qed.

Lemma isZero_mul (a b : number) :
  isFinite a = true → isFinite b = true →
  isZero a = false → isZero b = false → isZero (a * b) = false.
Proof.
  destruct a as [| | | | qa], b as [| | | | qb]; try done. intros _ _ Ha Hb.
  simpl in Ha, Hb. unfold mul. cbn [isNaN isInf orb val]. unfold mkFin.
  assert (E : Qc_eq_bool (qa * qb)%Qc (Q2Qc 0) = false).
  { apply Qc_eq_bool_false. apply Qc_eq_bool_false in Ha, Hb. intros H.
    by destruct (Qcmult_integral _ _ H). }
  rewrite E. exact E.
Qed.

Lemma isFinite_abs (a : number) : isFinite a = true → isFinite (Math_abs a) = true.
Proof. intros H. unfold Math_abs. destruct (isNeg a); [by apply isFinite_neg | done]. Qed.

Lemma isFinite_sign_orElse (a : number) :
  isFinite a = true → isFinite (orElse (Math_sign a) (lit 1)) = true.
Proof.
  intros H. unfold orElse, Math_sign. rewrite (isFinite_not_NaN a H).
  destruct (isZero a) eqn:E.
  - by rewrite (isFinite_not_NaN a H), E.
  - by destruct (isNeg a).
Qed.

(** A comparison that holds has no NaN and no +Infinity on its small side. *)
Lemma ltb_true_left (v c : number) :
  (v <? c) = true → v = NInf ∨ isFinite v = true.
Proof. destruct v, c; try done; first [by left | by right]. Qed.

(** An offensive target the decision commits to is finite. *)
Lemma committed_target_finite (c off defensive : number) :
  isFinite defensive = true →
  (c >? lit 0.7 + Math_abs (off - defensive) / (CANVAS_WIDTH * lit 0.75)) = true →
  isFinite off = true.
Proof.
  intros Hd H. apply ltb_true_left in H.
  destruct off; try done; exfalso;
    destruct defensive as [| | | | q]; try done; simpl in H;
    try (destruct H as [H | H]; discriminate);
    destruct (Qc_eq_bool q (Q2Qc 0)); simpl in H; destruct H as [H | H]; discriminate.
Qed.

Lemma defensiveLoop_finite (n : nat) (radius timeToImpact simX simDX : number) :
  isFinite radius = true → isFinite timeToImpact = true →
  isFinite simX = true → isFinite simDX = true → isZero simDX = false →
  isFinite (defensiveLoop n radius timeToImpact simX simDX) = true.
Proof.
  revert timeToImpact simX simDX.
  induction n as [| n IH]; intros t x d Hr Ht Hx Hd Hz; [done |].
  cbn [defensiveLoop]. destruct (t >? lit 0); [| done].
  assert (Hw : isFinite (if d >? lit 0 then (CANVAS_WIDTH - radius - x) / d
                         else (x - radius) / - d) = true).
  { destruct (d >? lit 0).
    - apply isFinite_div; [| by apply isFinite_not_NaN | done].
      apply isFinite_sub; [by apply isFinite_sub |]. done.
    - apply isFinite_div.
      + by apply isFinite_sub.
      + apply isFinite_not_NaN. by apply isFinite_neg.
      + by rewrite isZero_neg. }
  revert Hw. generalize (if d >? lit 0 then (CANVAS_WIDTH - radius - x) / d
                         else (x - radius) / - d). intros w Hw.
  destruct ((w >=? t) || (w <=? lit 0)).
  - apply IH; try done. apply isFinite_add; [done |]. by apply isFinite_mul.
  - apply IH; try done.
    + by apply isFinite_sub.
    + apply isFinite_add; [done |]. by apply isFinite_mul.
    + by apply isFinite_mul.
    + by apply isZero_mul.
Qed.

Lemma above_tenth_not_zero (a : number) :
  isFinite a = true → (a <=? lit 0.1) = false → isZero a = false.
Proof.
  destruct a; try done. intros _ H. simpl.
  destruct (Qc_eq_bool q (Q2Qc 0)) eqn:E; [| done].
  apply Qc_eq_bool_true in E. subst q. by vm_compute in H.
Qed.

(** The defensive target of a finite ball that moves sideways is finite. *)
Lemma getDefensiveTargetX_finite (b : Ball) :
  isFinite (ball_x b) = true → isFinite (ball_y b) = true →
  isFinite (ball_dx b) = true → isFinite (ball_dy b) = true →
  isFinite (ball_radius b) = true → isZero (ball_dx b) = false →
  isFinite (getDefensiveTargetX b) = true.
Proof.
  intros Hx Hy Hdx Hdy Hr Hz. unfold getDefensiveTargetX.
  destruct (ball_dy b <=? lit 0.1) eqn:E; [done |]. cbv zeta.
  apply defensiveLoop_finite; try done.
  apply isFinite_div; [| by apply isFinite_not_NaN | by apply above_tenth_not_zero].
  by apply isFinite_sub.
Qed.

Lemma half_finite (a : number) : isFinite a = true → isFinite (a / lit 2) = true.
Proof. intros H. by apply isFinite_div. Qed.

Lemma chooseTarget_finite (props : Props) (s : Refs) (defensive : number)
    (plan : option StrategicPlan) (offensive : option number) :
  isFinite defensive = true → isFinite (ball_x (ball s)) = true →
  isFinite (paddle_x (paddle s)) = true → isFinite (paddle_width (paddle s)) = true →
  isFinite (fst (fst (chooseTarget props s defensive plan offensive))) = true.
Proof.
  intros Hd Hx Hp Hw. unfold chooseTarget. cbv zeta.
  pose proof (half_finite _ Hw) as Hh.
  set (ufs := negb (isStuck s) && (_ >? _)).
  set (ft := if ufs then _ else _).
  assert (Hs : isFinite ft = true).
  { unfold ft. destruct ufs; [| done]. destruct (_ >? _).
    - apply isFinite_add; [by apply isFinite_sub | by apply isFinite_mul].
    - apply isFinite_sub; [by apply isFinite_add | by apply isFinite_mul]. }
  clearbody ft ufs.
  destruct (isStuck s && _).
  - cbn [fst]. apply isFinite_sub; [done |]. apply isFinite_mul.
    + by apply isFinite_mul.
    + apply isFinite_sign_orElse. apply isFinite_sub; [done | done].
  - destruct offensive as [off |]; [| exact Hs].
    destruct (negb _ && negb ufs); [| exact Hs].
    destruct (decisionConfidenceOf props s >? _) eqn:E; [| exact Hs].
    exact (committed_target_finite _ _ _ Hd E).
Qed.

Lemma finalEasingOf_finite (props : Props) (m : AgentMode) (f : bool) :
  isFinite (initialSkillLevel props) = true → isFinite (finalEasingOf props m f) = true.
Proof.
  intros H. unfold finalEasingOf. cbv zeta.
  assert (isFinite (AI_PADDLE_EASING * initialSkillLevel props) = true)
    by (by apply isFinite_mul).
  destruct m, f; try done; by apply isFinite_mul.
Qed.

Lemma jitterOf_finite (props : Props) (random : number) (b : Ball) :
  isFinite (initialSkillLevel props) = true → isZero (initialSkillLevel props) = false →
  isFinite random = true → isFinite (jitterOf props random b) = true.
Proof.
  intros Hs Hz Hr. unfold jitterOf. destruct (_ && _); [| done]. cbv zeta.
  apply isFinite_mul; [by apply isFinite_sub |].
  apply isFinite_div; [done | by apply isFinite_not_NaN | done].
Qed.

(** One pass of the AI block leaves the paddle on the field: for finite
    numbers, a ball that moves sideways and a skill level other than zero,
    the paddle's new x lies within [0, CANVAS_WIDTH - paddle.width]. *)
Lemma aiBlock_paddle_on_field (props : Props) (random : number) (s : Refs) :
  finiteInputs props random s →
  isZero (ball_dx (ball s)) = false → isZero (initialSkillLevel props) = false →
  onField (paddle s) (new_paddle_x (aiBlock props random s)).
Proof.
  intros (Hx & Hy & Hdx & Hdy & Hr & Hp & Hw & Hm & Hs & Hrand) Hz Hsz.
  unfold onField, aiBlock. cbv zeta. cbn [new_paddle_x]. unfold movePaddle. cbv zeta.
  pose proof (getDefensiveTargetX_finite _ Hx Hy Hdx Hdy Hr Hz) as Hd.
  apply clamp_in_range; [by apply isFinite_sub | | done].
  apply isFinite_add; [done |]. apply isFinite_mul.
  - apply isFinite_sub.
    + apply isFinite_add; [by apply chooseTarget_finite | by apply jitterOf_finite].
    + apply isFinite_add; [done | by apply half_finite].
  - by apply finalEasingOf_finite.
Qed.


(** A skill level from [MIN_SKILL_LEVEL] up is not zero. *)
Lemma skill_not_zero (a : number) :
  (Trainer.MIN_SKILL_LEVEL <=? a) = true → isZero a = false.
Proof.
  destruct a; try done. intros H. simpl.
  destruct (Qc_eq_bool q (Q2Qc 0)) eqn:E; [| done].
  apply Qc_eq_bool_true in E. subst q. by vm_compute in H.
Qed.

End AgentFacts.

(** ** ShotPlanner: the plan is kept for a best score above 1 *)

Section planner.
Import JsNumber Agent.
Local Open Scope nat_scope.

(** C8. After every candidate angle has been simulated, [runShotSimulations]
    leaves a plan if and only if the highest score among the simulated paths
    is above 1.  A plan it leaves holds all the simulated paths and points at
    one with the highest score, whose paddle centre becomes the offensive
    target.  When the highest score is 1 (or 0) there is no plan and no
    offensive target comes from the planner. *)
Theorem plan_kept_iff_best_score_above_one (b : Ball) (p : Paddle) (g : list (list Brick)) :
  let ps := simulatePaths b p g in
  let best := max_list (score <$> ps) in
  length ps = 7%nat ∧
  (is_Some (runShotSimulations b p g) ↔ 1 < best) ∧
  (∀ plan, runShotSimulations b p g = Some plan →
     paths plan = ps ∧
     ∃ bestPlan, bestPlanOf (Some plan) = Some bestPlan ∧ score bestPlan = best ∧
                 plannedTarget (Some plan) = Some (requiredPaddleCenter bestPlan)) ∧
  (best ≤ 1 →
     runShotSimulations b p g = None ∧
     plannedTarget (runShotSimulations b p g) = None).
Proof.
  cbv zeta. unfold runShotSimulations. cbv zeta.
  destruct (AgentFacts.pickBest_spec (simulatePaths b p g)) as [Hs Hi].
  cbv zeta in Hs, Hi. rewrite Hs.
  split; [apply AgentFacts.length_simulatePaths |].
  destruct (Nat.ltb_spec 1 (max_list (score <$> simulatePaths b p g))) as [Hlt | Hge].
  - split; [split; [done | by eexists] |]. split; [| lia].
    intros plan [= <-]. split; [done |].
    destruct Hi as (i & bp & Ei & Ep & Esc); [lia |].
    exists bp. unfold plannedTarget, bestPlanOf. cbn [mbind option_bind paths bestPathIndex].
    rewrite Ei. destruct (Z.ltb_spec (Z.of_nat i) 0) as [? | _]; [lia |].
    rewrite Nat2Z.id, Ep. split; [done |]. split; [done |].
    rewrite Esc. by destruct (Nat.ltb_spec 1 (max_list (score <$> simulatePaths b p g))); [| lia].
  - split; [split; [by intros [? ?] | lia] |]. split; [done |]. done.
Qed.

End planner.

(** ** The decision layer on worked inputs *)

Section agent_examples.
Import JsNumber Agent AgentExamples.

(** [plan_kept_iff_best_score_above_one] on the field with one brick, straight
    above the ball: the straight shot scores 1, the others 0, and no plan is
    kept. *)
Lemma plan_kept_iff_best_score_above_one_witness :
  score <$> simulatePaths ballRising (pad 170) oneBrickField = [0; 0; 0; 1; 0; 0; 0]%nat ∧
  runShotSimulations ballRising (pad 170) oneBrickField = None ∧
  plannedTarget (runShotSimulations ballRising (pad 170) oneBrickField) = None.
Proof.
  assert (E : score <$> simulatePaths ballRising (pad 170) oneBrickField
              = [0; 0; 0; 1; 0; 0; 0]%nat) by (vm_compute; reflexivity).
  split; [exact E |].
  destruct (plan_kept_iff_best_score_above_one ballRising (pad 170) oneBrickField)
    as (_ & _ & _ & H).
  apply H. rewrite E. vm_compute. lia.
Defined.



End agent_examples.

(** ** PaddleController: the paddle stays on the field *)

Section paddle_on_field.
Import JsNumber.

(** C7. After every frame of a match, whatever the configuration, whether
    the AI moves the paddle or not and whatever finite target and easing the
    AI block hands to the move, the frame has completed, the paddle's left
    edge lies within [0, CANVAS_WIDTH - paddle.width] and the ball has a
    horizontal velocity.  And the AI block itself, followed on JavaScript
    numbers, moves the paddle to a place on the field whenever its inputs are
    finite, the ball has a horizontal velocity and the skill level is one
    that the trainer hands out, between [MIN_SKILL_LEVEL] and
    [MAX_SKILL_LEVEL]. *)
Theorem paddle_stays_on_field (props : GameProps) (m : MatchSetup)
    (inputs : nat → FrameInput) (n : nat) :
  (∃ s, run props m inputs n = Some s
        ∧ paddle_width (paddle s) = PADDLE_WIDTH
        ∧ 0 <= paddle_x (paddle s) <= CANVAS_WIDTH - paddle_width (paddle s)
        ∧ ball_dx (ball s) ≠ 0)
  ∧ (∀ (ai : Agent.Props) (random : number) (r : Agent.Refs),
       Agent.finiteInputs ai random r →
       isZero (Agent.ball_dx (Agent.ball r)) = false →
       (Trainer.MIN_SKILL_LEVEL <=? Agent.initialSkillLevel ai)%js = true →
       (Agent.initialSkillLevel ai <=? Trainer.MAX_SKILL_LEVEL)%js = true →
       Agent.onField (Agent.paddle r) (Agent.new_paddle_x (Agent.aiBlock ai random r))).
Proof.
  split.
  2: { intros ai random r Hf Hz Hlo _.
       apply AgentFacts.aiBlock_paddle_on_field; [done | done |].
       by apply AgentFacts.skill_not_zero. }
  destruct (run_invariant props m inputs (λ s, paddleOK s ∧ sideways s)) with (n := n)
    as (s & E & [Hw Hx] & Hs).
  - split.
    + unfold paddleOK, initialState, resetBallAndPaddle. cbv zeta. refs.
      unfold CANVAS_WIDTH, PADDLE_WIDTH. cbn [paddle_x paddle_width]. split; [done | lra].
    + unfold sideways, initialState, resetBallAndPaddle. cbv zeta. refs.
      unfold BALL_SPEED_X. case_bool_decide; lra.
  - intros inp s s' [Hp Hs] Hd. split; [by eapply draw_paddleOK | by eapply draw_sideways].
  - by exists s.
Qed.

(** [paddle_stays_on_field] a hundred frames into a match on the solid
    wall, and for the AI block on a ball that comes down over the last brick's
    field with skill level 1. *)
Lemma paddle_stays_on_field_witness :
  (∃ s, run demoProps demoSetup (λ _, demoInput 0.9) 100 = Some s
        ∧ paddle_width (paddle s) = PADDLE_WIDTH
        ∧ 0 <= paddle_x (paddle s) <= CANVAS_WIDTH - paddle_width (paddle s)
        ∧ ball_dx (ball s) ≠ 0)
  ∧ Agent.onField (AgentExamples.pad 170)
      (Agent.new_paddle_x
         (Agent.aiBlock AgentExamples.soloProps (lit 0.5)
            (AgentExamples.refsAt AgentExamples.ballFalling (AgentExamples.pad 170)))).
Proof.
  destruct (paddle_stays_on_field demoProps demoSetup (λ _, demoInput 0.9) 100) as [H1 H2].
  split; [exact H1 |].
  apply (H2 AgentExamples.soloProps (lit 0.5)
            (AgentExamples.refsAt AgentExamples.ballFalling (AgentExamples.pad 170))).
  - repeat split; vm_compute; reflexivity.
  - vm_compute; reflexivity.
  - vm_compute; reflexivity.
  - vm_compute; reflexivity.
Defined.

End paddle_on_field.

(** * Further properties of the physics engine *)

(** ** The score counts the broken bricks *)

Lemma NoDup_scanOrder : NoDup scanOrder.
Proof.
  unfold scanOrder. apply NoDup_bind.
  - intros c c' [c0 r0] _ _ H1 H2.
    apply list_elem_of_bind in H1 as (r & H1 & _).
    apply list_elem_of_bind in H2 as (r' & H2 & _).
    apply list_elem_of_singleton in H1, H2. congruence.
  - intros c Hc. apply NoDup_bind.
    + intros r r' x _ _ H1 H2. apply list_elem_of_singleton in H1, H2. congruence.
    + intros. apply NoDup_singleton.
    + apply NoDup_seq.
  - apply NoDup_seq.
Qed.

Lemma filter_one_less {A : Type} `{EqDecision A} (P P' : A → Prop)
    `{∀ x, Decision (P x)} `{∀ x, Decision (P' x)} (l : list A) (x : A) :
  NoDup l → x ∈ l → P x → ¬ P' x → (∀ y, y ≠ x → P' y ↔ P y) →
  (length (filter P' l) + 1 = length (filter P l))%nat.
Proof.
  intros Hnd Hin HP HP' Hothers.
  induction l as [| a l IH]; [by apply not_elem_of_nil in Hin |].
  apply NoDup_cons in Hnd as [Ha Hnd]. rewrite !filter_cons.
  destruct (decide (a = x)) as [-> | Hne].
  - destruct (decide (P x)); [| done]. destruct (decide (P' x)); [done |]. simpl.
    rewrite (filter_agree P' P l); [lia |].
    intros y Hy. apply Hothers. intros ->. done.
  - apply elem_of_cons in Hin as [-> | Hin]; [done |].
    specialize (IH Hnd Hin).
    destruct (decide (P a)) as [Hp | Hp], (decide (P' a)) as [Hp' | Hp']; simpl.
    + lia.
    + exfalso. apply Hp'. by apply Hothers.
    + exfalso. apply Hp. by apply Hothers.
    + done.
Qed.

Lemma aliveCount_setBrick (g : list (list Brick)) (c r : nat) (b : Brick) :
  gridOK g → getBrick g c r = Some b → status b = true →
  (aliveCount (setBrick c r (set_status false b) g) + 1 = aliveCount g)%nat.
Proof.
  intros Hg Hb Hs. unfold aliveCount.
  apply (filter_one_less _ _ scanOrder (c, r)).
  - apply NoDup_scanOrder.
  - apply elem_of_scanOrder. by eapply getBrick_Some_lt.
  - unfold cellAlive. simpl. by rewrite Hb.
  - unfold cellAlive. simpl. by rewrite (getBrick_setBrick_eq g c r b).
  - intros [c' r'] Hne. unfold cellAlive. simpl.
    rewrite getBrick_setBrick_ne by congruence. done.
Qed.

Lemma aliveCount_drawBricks (g : list (list Brick)) :
  aliveCount (drawBricks g) = aliveCount g.
Proof.
  unfold aliveCount. f_equal. apply filter_agree.
  intros [c r] _. simpl. by rewrite cellAlive_drawBricks.
Qed.

Lemma aliveCount_createBricks (lay : list (list nat)) (k : nat) :
  aliveCount (createBricks lay k) = length (availableBricks lay).
Proof.
  unfold aliveCount, availableBricks. f_equal. apply filter_agree.
  intros [c r] [Hc Hr]%elem_of_scanOrder. unfold cellAlive. simpl.
  by rewrite getBrick_createBricks.
Qed.

Lemma jackpotColumn_books (total : nat) (row : Z) (c : nat) (s s' : State) :
  gridOK (bricks s) → booksBalance total s → jackpotColumn row c s = Some s' →
  gridOK (bricks s') ∧ booksBalance total s'.
Proof.
  intros Hg [Hsc Hal] H. unfold jackpotColumn, getBrickZ in H.
  case_bool_decide; [done |].
  destruct (getBrick _ _ _) as [b |] eqn:Eb; simpl in H; [| done].
  destruct (status b) eqn:Es; simplify_eq; [| done].
  split; [by apply setBrick_gridOK |].
  pose proof (aliveCount_setBrick _ _ _ _ Hg Eb Es) as Hc.
  unfold booksBalance. refs. unfold POINTS_PER_BRICK in *. split; lia.
Qed.

Lemma handleGoldenBrick_books (total : nat) (rand : R) (b : Brick) (s s' : State) :
  gridOK (bricks s) → booksBalance total s → handleGoldenBrick rand b s = Some s' →
  gridOK (bricks s') ∧ booksBalance total s'.
Proof.
  intros Hg Hb H. unfold handleGoldenBrick in H.
  destruct (rouletteOutcome rand); [| by simplify_eq ..].
  cbv zeta in H. revert H.
  apply (forEach_invariant _ (λ t, gridOK (bricks t) ∧ booksBalance total t)); [| done].
  intros c t t' _ [Ht1 Ht2] Hc. by eapply jackpotColumn_books.
Qed.

Lemma registerHit_books (total : nat) (props : GameProps) (rand : R) (c r : nat)
    (b : Brick) (s s' : State) :
  gridOK (bricks s) → booksBalance total s →
  getBrick (bricks s) c r = Some b → status b = true →
  registerHit props rand c r b s = Some s' →
  gridOK (bricks s') ∧ booksBalance total s'.
Proof.
  intros Hg [Hsc Hal] Eb Es H. unfold registerHit in H. cbv zeta in H.
  assert (H0 : gridOK (bricks (breakBrick props c r b s))
               ∧ booksBalance total (breakBrick props c r b s)).
  { unfold breakBrick. refs. split; [by apply setBrick_gridOK |].
    pose proof (aliveCount_setBrick _ _ _ _ Hg Eb Es) as Hc.
    unfold booksBalance. refs. unfold POINTS_PER_BRICK in *. split; lia. }
  destruct H0 as [Hg0 Hb0].
  assert (∃ s1, (gridOK (bricks s1) ∧ booksBalance total s1)
                ∧ s' = if negb (isPowerBall (ball s1))
                       then set_ball (bounceOffBrick b (ball s1)) s1 else s1)
    as (s1 & [Hg1 Hb1] & ->).
  { destruct (isGolden b).
    - destruct (handleGoldenBrick _ _ _) as [s1 |] eqn:E; simpl in H; [| done].
      exists s1. split; [by eapply handleGoldenBrick_books | by simplify_eq].
    - simpl in H. exists (breakBrick props c r b s). split; [done | by simplify_eq]. }
  by destruct (negb _).
Qed.

Lemma visitBrick_books (total : nat) (props : GameProps) (rnd : nat → R)
    (cr : nat * nat) (sc sc' : Scan) :
  gridOK (bricks (sc_state sc)) → booksBalance total (sc_state sc) →
  visitBrick props rnd cr sc = Some sc' →
  gridOK (bricks (sc_state sc')) ∧ booksBalance total (sc_state sc').
Proof.
  unfold visitBrick. destruct cr as [c r]. intros Hg Hb H.
  destruct (getBrick _ _ _) as [b |] eqn:Eb; simpl in H; [| done].
  destruct (negb (status b) && _ && _); [by simplify_eq |].
  destruct (status b) eqn:Es; simpl in H; [| by simplify_eq].
  destruct (overlaps _ _ && _); [| by simplify_eq].
  destruct (registerHit _ _ _ _ _ _) as [s1 |] eqn:E; simpl in H; [| done].
  simplify_eq. cbn [sc_state]. by eapply registerHit_books.
Qed.

Lemma scanBricks_books (total : nat) (props : GameProps) (rnd : nat → R)
    (s : State) (sc : Scan) :
  gridOK (bricks s) → booksBalance total s → scanBricks props rnd s = Some sc →
  booksBalance total (sc_state sc).
Proof.
  intros Hg Hb H.
  cut (gridOK (bricks (sc_state sc)) ∧ booksBalance total (sc_state sc)); [by intros [] |].
  revert H.
  apply (forEach_invariant (visitBrick props rnd)
           (λ t, gridOK (bricks (sc_state t)) ∧ booksBalance total (sc_state t)));
    [| done].
  intros cr t t' _ [Ht1 Ht2] Hv. by eapply visitBrick_books.
Qed.

Lemma paddleCollision_tally (s : State) :
  score (paddleCollision s) = score s
  ∧ productiveHits (paddleCollision s) = productiveHits s.
Proof.
  unfold paddleCollision. destruct (touchesPaddle s); [| done].
  unfold paddleBounce. cbv zeta. by destruct (isStuck s).
Qed.

Lemma floorCheck_tally (rand : R) (s : State) :
  score (floorCheck rand s) = score s
  ∧ productiveHits (floorCheck rand s) = productiveHits s.
Proof. unfold floorCheck. cbv zeta. by repeat case_bool_decide. Qed.

Lemma afterBricks_books (total : nat) (props : GameProps) (inp : FrameInput)
    (s : State) :
  booksBalance total s → booksBalance total (afterBricks props inp s).
Proof.
  intros [Hsc Hal].
  pose proof (afterBricks_bricks props inp s) as Eb.
  assert (score (afterBricks props inp s) = score s
          ∧ productiveHits (afterBricks props inp s) = productiveHits s) as [Es Ep].
  { unfold afterBricks.
    destruct (floorCheck_tally (resetDraw inp)
                (paddleCollision (topWall props (sideWalls props s)))) as [-> ->].
    destruct (paddleCollision_tally (topWall props (sideWalls props s))) as [-> ->].
    pose proof (topWall_beside props (sideWalls props s)) as E1.
    pose proof (sideWalls_beside props s) as E2.
    unfold besideWalls in E1, E2. simplify_eq. split; congruence. }
  unfold booksBalance. by rewrite Eb, Es, Ep.
Qed.

Lemma draw_books (total : nat) (props : GameProps) (inp : FrameInput) (s s' : State) :
  gridOK (bricks s) → booksBalance total s → draw props inp s = Some s' →
  booksBalance total s'.
Proof.
  intros Hg [Hsc Hal] Hd.
  apply draw_cases in Hd as [[_ ->] | (_ & sc & Esc & Hcase)].
  - destruct (loopDetection_besideHead (beforeDetection props inp s)) as (E1 & _ & E2 & _).
    destruct (beforeDetection_besideHead props inp s) as (E3 & E4 & _).
    unfold booksBalance. rewrite E2, E4, aliveCount_drawBricks.
    unfold besideHead in E1, E3. simplify_eq. split; congruence.
  - assert (H1 : gridOK (bricks (beforeCollision props inp s))
                 ∧ booksBalance total (beforeCollision props inp s)).
    { destruct (beforeCollision_besideHead props inp s) as (E1 & E2 & _).
      unfold booksBalance. rewrite E2, aliveCount_drawBricks.
      split; [by apply drawBricks_gridOK |].
      unfold besideHead in E1. simplify_eq. split; congruence. }
    destruct H1 as [Hg1 Hb1].
    pose proof (scanBricks_books _ _ _ _ _ Hg1 Hb1 Esc) as Hb2.
    destruct Hcase as [(_ & _ & ->) | (_ & ->)]; [done |].
    by apply afterBricks_books.
Qed.

(** The books balance after every frame of a match. *)
Lemma run_books (props : GameProps) (m : MatchSetup) (inputs : nat → FrameInput) (n : nat) :
  ∃ s, run props m inputs n = Some s
       ∧ booksBalance (length (availableBricks (layout m))) s.
Proof.
  destruct (run_invariant props m inputs
              (λ s, gridOK (bricks s)
                    ∧ booksBalance (length (availableBricks (layout m))) s))
    with (n := n) as (s & E & _ & Hb).
  - split; [apply initialState_gridOK |].
    unfold booksBalance, initialState, resetBallAndPaddle. cbv zeta. refs.
    split; [done |]. simpl. apply aliveCount_createBricks.
  - intros inp s s' [Hg Hb] Hd. split; [| by eapply draw_books].
    destruct (draw_total props inp s Hg) as (s1 & E1 & Hg1).
    rewrite Hd in E1. by injection E1 as ->.
  - by exists s.
Qed.

(** X1. At every frame of a match the score is [POINTS_PER_BRICK] times the
    number of productive hits, and every brick of the layout is either still
    visible or counted as one productive hit: the score is ten points for
    each brick broken so far, whether the ball or a jackpot broke it. *)
Theorem score_counts_broken_bricks (props : GameProps) (m : MatchSetup)
    (inputs : nat → FrameInput) (n : nat) :
  ∃ s, run props m inputs n = Some s
       ∧ score s = (POINTS_PER_BRICK * productiveHits s)%nat
       ∧ (productiveHits s + aliveCount (bricks s))%nat
         = length (availableBricks (layout m)).
Proof.
  destruct (run_books props m inputs n) as (s & E & Hsc & Hal). by exists s.
Qed.

(** ** Invariants with the grid in shape *)

Lemma run_invariant_grid (props : GameProps) (m : MatchSetup)
    (inputs : nat → FrameInput) (P : State → Prop) :
  P (initialState props m) →
  (∀ inp s s', gridOK (bricks s) → P s → draw props inp s = Some s' → P s') →
  ∀ n, ∃ s, run props m inputs n = Some s ∧ gridOK (bricks s) ∧ P s.
Proof.
  intros H0 Hstep n.
  destruct (run_invariant props m inputs (λ s, gridOK (bricks s) ∧ P s)) with (n := n)
    as (s & E & Hg & HP).
  - split; [apply initialState_gridOK | done].
  - intros inp s s' [Hg HP] Hd. split; [| by eapply Hstep].
    destruct (draw_total props inp s Hg) as (s1 & E1 & Hg1).
    rewrite Hd in E1. by injection E1 as ->.
  - by exists s.
Qed.

(** ** A won match has a cleared field *)

Lemma scan_of_cleared_field (props : GameProps) (rnd : nat → R) (s : State) (sc : Scan) :
  gridOK (bricks s) → (∀ c r, cellAlive (bricks s) c r = false) →
  scanBricks props rnd s = Some sc → sc_state sc = s.
Proof.
  intros Hg Hdead H. unfold scanBricks in H.
  rewrite scan_all_broken in H.
  - by injection H as <-.
  - intros c r [Hc Hr]%elem_of_scanOrder. by apply getBrick_is_Some.
  - done.
Qed.

Lemma draw_won_cleared (props : GameProps) (inp : FrameInput) (s s' : State) :
  gridOK (bricks s) →
  (isWinning s = true → ∀ c r, cellAlive (bricks s) c r = false) →
  draw props inp s = Some s' →
  isWinning s' = true → ∀ c r, cellAlive (bricks s') c r = false.
Proof.
  intros Hg Hw Hd Hw'. destruct (terminal s) eqn:Et.
  - destruct (terminal_states_final _ _ _ _ Hd) as (_ & _ & Hsame & _).
    destruct (Hsame Et) as [Ew _]. rewrite Hw' in Ew.
    apply draw_cases in Hd as [[_ ->] | (Et' & _)]; [| congruence].
    destruct (loopDetection_besideHead (beforeDetection props inp s)) as (_ & _ & -> & _).
    destruct (beforeDetection_besideHead props inp s) as (_ & -> & _).
    intros c r. rewrite cellAlive_drawBricks. by apply Hw.
  - pose proof (proj1 (win_flag_raised_iff _ _ _ _ Hg Et Hd) Hw') as [Hdead _].
    apply draw_cases in Hd as [[Et' _] | (_ & sc & Esc & Hcase)]; [congruence |].
    destruct (beforeCollision_besideHead props inp s) as (_ & Eb & _).
    assert (Hdead' : ∀ c r, cellAlive (bricks (beforeCollision props inp s)) c r = false).
    { intros c r. by rewrite Eb, cellAlive_drawBricks. }
    assert (Hg' : gridOK (bricks (beforeCollision props inp s))).
    { rewrite Eb. by apply drawBricks_gridOK. }
    pose proof (scan_of_cleared_field _ _ _ _ Hg' Hdead' Esc) as Es.
    destruct Hcase as [(_ & _ & ->) | (_ & ->)].
    + refs. by rewrite Es.
    + rewrite afterBricks_bricks. by rewrite Es.
Qed.

(** X2. Whenever the win flag is up, no brick of the field is visible and the
    score is [POINTS_PER_BRICK] for every brick of the layout. *)
Theorem won_match_has_cleared_field (props : GameProps) (m : MatchSetup)
    (inputs : nat → FrameInput) (n : nat) :
  ∃ s, run props m inputs n = Some s
       ∧ (isWinning s = true →
            (∀ c r, cellAlive (bricks s) c r = false)
            ∧ score s = (POINTS_PER_BRICK * length (availableBricks (layout m)))%nat).
Proof.
  destruct (run_invariant_grid props m inputs
              (λ s, booksBalance (length (availableBricks (layout m))) s
                    ∧ (isWinning s = true → ∀ c r, cellAlive (bricks s) c r = false)))
    with (n := n) as (s & E & _ & [Hsc Hal] & Hw).
  - split.
    + unfold booksBalance, initialState, resetBallAndPaddle. cbv zeta. refs.
      split; [done |]. simpl. apply aliveCount_createBricks.
    + unfold initialState, resetBallAndPaddle. cbv zeta. refs. done.
  - intros inp s s' Hg [Hb Hw] Hd.
    split; [by eapply draw_books | by eapply draw_won_cleared].
  - exists s. split; [done |]. intros Hwin. split; [by apply Hw |].
    assert (aliveCount (bricks s) = 0%nat) as E0.
    { apply filter_length_zero. intros [c r] _. simpl. by rewrite (Hw Hwin). }
    rewrite Hsc. f_equal. lia.
Qed.

(** ** Lives *)

Lemma floorCheck_lives (rand : R) (s : State) :
  isLosing s = false →
  (lives (floorCheck rand s) = lives s ∧ isLosing (floorCheck rand s) = false)
  ∨ (lives (floorCheck rand s) = (lives s - 1)%Z
     ∧ isLosing (floorCheck rand s) = bool_decide (lives s - 1 = 0)%Z).
Proof.
  intros El. unfold floorCheck. cbv zeta. refs.
  case_bool_decide; [| by left]. right.
  case_bool_decide as E0; refs; [done |].
  unfold resetBallAndPaddle. cbv zeta. refs. done.
Qed.

(** What a frame does to the lives: nothing, or one life less, with the loss
    flag raised exactly when that was the last one. *)
Lemma draw_lives (props : GameProps) (inp : FrameInput) (s s' : State) :
  draw props inp s = Some s' →
  (lives s' = lives s ∧ isLosing s' = isLosing s)
  ∨ (terminal s = false ∧ lives s' = (lives s - 1)%Z
     ∧ isLosing s' = bool_decide (lives s - 1 = 0)%Z).
Proof.
  intros Hd. apply draw_cases in Hd as [[_ ->] | (Et & sc & Esc & Hcase)].
  - left.
    destruct (loopDetection_besideHead (beforeDetection props inp s)) as (E1 & _).
    destruct (beforeDetection_besideHead props inp s) as (E2 & _).
    unfold besideHead in E1, E2. simplify_eq. split; congruence.
  - assert (lives (sc_state sc) = lives s ∧ isLosing (sc_state sc) = isLosing s)
      as [El Elo].
    { apply scanBricks_beside in Esc.
      destruct (beforeCollision_besideHead props inp s) as (E & _).
      unfold besideBricks in Esc. unfold besideHead in E. simplify_eq.
      split; congruence. }
    destruct Hcase as [(_ & _ & ->) | (_ & ->)]; [by left |].
    unfold afterBricks.
    assert (lives (paddleCollision (topWall props (sideWalls props (sc_state sc))))
            = lives s
            ∧ isLosing (paddleCollision (topWall props (sideWalls props (sc_state sc))))
              = isLosing s) as [Elt Elot].
    { pose proof (paddleCollision_beside (topWall props (sideWalls props (sc_state sc)))) as E1.
      pose proof (topWall_beside props (sideWalls props (sc_state sc))) as E2.
      pose proof (sideWalls_beside props (sc_state sc)) as E3.
      unfold besidePaddle in E1. unfold besideWalls in E2, E3. simplify_eq.
      split; congruence. }
    assert (isLosing s = false) as Els.
    { unfold terminal in Et. by apply orb_false_elim in Et as [_ ?]. }
    destruct (floorCheck_lives (resetDraw inp)
                (paddleCollision (topWall props (sideWalls props (sc_state sc)))))
      as [[E1 E2] | [E1 E2]]; [congruence | |].
    + left. split; congruence.
    + right. rewrite E1, E2, Elt. done.
Qed.

(** X3. In a match that starts with at least one life, the lives stay
    between 0 and the initial lives at every frame, and the loss flag is up
    exactly when no life is left. *)
Theorem lives_bounded_and_loss_at_zero (props : GameProps) (m : MatchSetup)
    (inputs : nat → FrameInput) (n : nat) :
  (1 <= initialLives props)%Z →
  ∃ s, run props m inputs n = Some s
       ∧ (0 <= lives s <= initialLives props)%Z
       ∧ (isLosing s = true ↔ lives s = 0%Z).
Proof.
  intros H1.
  destruct (run_invariant props m inputs (livesOK props)) with (n := n)
    as (s & E & Hl).
  - unfold livesOK, initialState, resetBallAndPaddle. cbv zeta. refs.
    split; [lia |]. split; [done | lia].
  - intros inp s s' [Hr Hiff] Hd. unfold livesOK.
    destruct (draw_lives _ _ _ _ Hd) as [[-> ->] | (Et & -> & ->)]; [done |].
    assert (isLosing s = false) as Els.
    { unfold terminal in Et. by apply orb_false_elim in Et as [_ ?]. }
    assert (lives s ≠ 0%Z) by (intros H0; apply Hiff in H0; congruence).
    split; [lia |]. by rewrite bool_decide_eq_true.
  - by exists s.
Qed.

(** X4. A match that starts with no life, or fewer, is never lost: the floor
    takes the lives below zero and the loss flag waits for exactly zero. *)
Theorem no_initial_life_never_lost (props : GameProps) (m : MatchSetup)
    (inputs : nat → FrameInput) (n : nat) :
  (initialLives props <= 0)%Z →
  ∃ s, run props m inputs n = Some s
       ∧ isLosing s = false ∧ (lives s <= initialLives props)%Z.
Proof.
  intros H0.
  destruct (run_invariant props m inputs
              (λ s, isLosing s = false ∧ (lives s <= initialLives props)%Z))
    with (n := n) as (s & E & Hl).
  - unfold initialState, resetBallAndPaddle. cbv zeta. refs. split; [done | lia].
  - intros inp s s' [El Hr] Hd. cbv beta.
    destruct (draw_lives _ _ _ _ Hd) as [[-> ->] | (Et & -> & ->)]; [done |].
    split; [| lia]. apply bool_decide_eq_false_2. lia.
  - by exists s.
Qed.

(** ** The ball stays between the walls *)

Lemma powerBallTick_position (b : Ball) :
  ball_x (powerBallTick b) = ball_x b ∧ ball_y (powerBallTick b) = ball_y b
  ∧ ball_radius (powerBallTick b) = ball_radius b.
Proof.
  unfold powerBallTick. destruct (powerBallTimer b) as [| [| t]]; try done.
  cbv zeta. by case_bool_decide.
Qed.

Lemma sideWalls_inField (props : GameProps) (s : State) :
  0 <= CANVAS_WIDTH - 2 * ball_radius (ball s) →
  let t := sideWalls props s in
  ball_radius (ball t) <= ball_x (ball t) <= CANVAS_WIDTH - ball_radius (ball t)
  ∧ ball_y (ball t) = ball_y (ball s) ∧ ball_radius (ball t) = ball_radius (ball s).
Proof.
  intros Hr. unfold sideWalls. cbv zeta.
  repeat case_bool_decide; unfold wallPenalty; refs; repeat split; lra.
Qed.

Lemma topWall_inField (props : GameProps) (s : State) :
  let t := topWall props s in
  ball_radius (ball t) <= ball_y (ball t)
  ∧ ball_x (ball t) = ball_x (ball s) ∧ ball_radius (ball t) = ball_radius (ball s).
Proof.
  unfold topWall. cbv zeta.
  case_bool_decide; unfold wallPenalty; refs; repeat split; lra.
Qed.

Lemma paddleCollision_position (s : State) :
  let t := paddleCollision s in
  ball_x (ball t) = ball_x (ball s) ∧ ball_radius (ball t) = ball_radius (ball s)
  ∧ (ball_y (ball t) = ball_y (ball s)
     ∨ ball_y (ball t) = paddleTopY - ball_radius (ball s)).
Proof.
  cbv zeta. unfold paddleCollision. destruct (touchesPaddle s); [| by auto].
  unfold paddleBounce. cbv zeta.
  destruct (isStuck s); refs; repeat case_bool_decide; refs; by auto.
Qed.

Lemma floorCheck_position (rand : R) (s : State) :
  let t := floorCheck rand s in
  ball_radius (ball t) = ball_radius (ball s)
  ∧ ((ball_x (ball t) = ball_x (ball s) ∧ ball_y (ball t) = ball_y (ball s))
     ∨ (ball_x (ball t) = CANVAS_WIDTH / 2
        ∧ ball_y (ball t) = CANVAS_HEIGHT - PADDLE_Y_OFFSET - PADDLE_HEIGHT - BALL_RADIUS)).
Proof.
  cbv zeta. unfold floorCheck, resetBallAndPaddle. cbv zeta.
  repeat case_bool_decide; refs; by auto.
Qed.

Lemma afterBricks_inField (props : GameProps) (inp : FrameInput) (s : State) :
  ball_radius (ball s) = BALL_RADIUS →
  ballInField (afterBricks props inp s)
  ∧ ball_radius (ball (afterBricks props inp s)) = BALL_RADIUS.
Proof.
  intros Hr. unfold afterBricks, ballInField.
  destruct (sideWalls_inField props s) as (Hx1 & Hy1 & Hr1).
  { rewrite Hr. unfold CANVAS_WIDTH, BALL_RADIUS. lra. }
  destruct (topWall_inField props (sideWalls props s)) as (Hy2 & Hx2 & Hr2).
  destruct (paddleCollision_position (topWall props (sideWalls props s)))
    as (Hx3 & Hr3 & Hy3).
  destruct (floorCheck_position (resetDraw inp)
              (paddleCollision (topWall props (sideWalls props s)))) as (Hr4 & Hp4).
  cbv zeta in *.
  rewrite Hr4, Hr3, Hr2, Hr1, Hr.
  rewrite Hr2, Hr1, Hr in Hy2. rewrite Hr1, Hr in Hx1. rewrite Hr2, Hr1, Hr in Hy3.
  unfold paddleTopY, CANVAS_WIDTH, CANVAS_HEIGHT, PADDLE_Y_OFFSET, PADDLE_HEIGHT,
    BALL_RADIUS in *.
  split; [| done].
  destruct Hp4 as [[-> ->] | [-> ->]]; [| lra].
  rewrite Hx3, Hx2. destruct Hy3 as [-> | ->]; lra.
Qed.

(** X5. As long as the match is not won, after every frame the ball's centre
    is at least one radius inside the side walls and below the top wall, and
    the radius is [BALL_RADIUS]. *)
Theorem ball_stays_between_walls (props : GameProps) (m : MatchSetup)
    (inputs : nat → FrameInput) (n : nat) :
  ∃ s, run props m inputs n = Some s
       ∧ ball_radius (ball s) = BALL_RADIUS
       ∧ (isWinning s = false →
            BALL_RADIUS <= ball_x (ball s) <= CANVAS_WIDTH - BALL_RADIUS
            ∧ BALL_RADIUS <= ball_y (ball s)).
Proof.
  destruct (run_invariant props m inputs
              (λ s, ball_radius (ball s) = BALL_RADIUS
                    ∧ (isWinning s = false → ballInField s)))
    with (n := n) as (s & E & Hr & Hf).
  - unfold ballInField, initialState, resetBallAndPaddle. cbv zeta. refs.
    split; [done |]. intros _.
    unfold CANVAS_WIDTH, CANVAS_HEIGHT, PADDLE_Y_OFFSET, PADDLE_HEIGHT, BALL_RADIUS. lra.
  - intros inp s s' [Hr Hf] Hd.
    pose proof (terminal_states_final _ _ _ _ Hd) as (_ & _ & Hsame & _).
    apply draw_cases in Hd as [[Et ->] | (_ & sc & Esc & Hcase)].
    + destruct (Hsame Et) as [Ew _].
      destruct (loopDetection_besideHead (beforeDetection props inp s)) as (_ & _ & _ & Eb).
      assert (ball (beforeDetection props inp s) = powerBallTick (ball s)) as Eb'.
      { unfold beforeDetection, frameHead, aiMove. by destruct (isAIEnabled props). }
      destruct (powerBallTick_position (ball s)) as (Ex & Ey & Er).
      unfold ballInField. rewrite Eb, Eb', Ex, Ey, Er, Ew. done.
    + assert (ball_radius (ball (sc_state sc)) = BALL_RADIUS) as Hr2.
      { apply scanBricks_beside in Esc. unfold besideBricks in Esc.
        assert (ball_radius (ball (sc_state sc))
                = ball_radius (ball (beforeCollision props inp s))) as ->
          by (by simplify_eq).
        rewrite beforeCollision_ball.
        destruct (moveBall_beside (powerBallTick (ball s))) as (_ & _ & -> & _).
        by destruct (powerBallTick_position (ball s)) as (_ & _ & ->). }
      destruct Hcase as [(_ & _ & ->) | (_ & ->)]; [by split |].
      destruct (afterBricks_inField props inp _ Hr2) as [H1 H2]. by split.
  - exists s. split; [done |]. split; [done |]. intros Hw.
    destruct (Hf Hw) as [Hx Hy]. by rewrite Hr in Hx, Hy.
Qed.

(** ** The power ball runs on a timer *)

Lemma powerBallTick_ok (b : Ball) : powerBallOK b → powerBallOK (powerBallTick b).
Proof.
  unfold powerBallOK, powerBallTick. intros H.
  destruct (powerBallTimer b) as [| [| t]] eqn:Et.
  - intros Hp. specialize (H Hp). lia.
  - cbv zeta. case_bool_decide; cbn [isPowerBall scaleVelocity set_ball_dx set_ball_dy
      set_isPowerBall set_powerBallTimer]; done.
  - cbn [isPowerBall powerBallTimer set_powerBallTimer]. intros Hp.
    specialize (H Hp). lia.
Qed.

Lemma handleGoldenBrick_powerBall (rand : R) (b : Brick) (s s' : State) :
  handleGoldenBrick rand b s = Some s' → powerBallOK (ball s) → powerBallOK (ball s').
Proof.
  unfold handleGoldenBrick. intros H Hs.
  destruct (rouletteOutcome rand).
  - revert H. cbv zeta.
    apply (forEach_invariant _ (λ t, powerBallOK (ball t))); [| done].
    intros c t t' _ Ht Hc. apply jackpotColumn_beside in Hc as (_ & -> & _). done.
  - cbv zeta in H. injection H as <-. unfold powerBallOK. refs.
    unfold scaleVelocity. refs. unfold POWER_BALL_DURATION. intros _. lia.
  - cbv zeta in H. injection H as <-. done.
Qed.

Lemma registerHit_powerBall (props : GameProps) (rand : R) (c r : nat) (b : Brick)
    (s s' : State) :
  registerHit props rand c r b s = Some s' → powerBallOK (ball s) → powerBallOK (ball s').
Proof.
  unfold registerHit. cbv zeta. intros H Hs.
  assert (∃ s1, powerBallOK (ball s1)
                ∧ s' = if negb (isPowerBall (ball s1))
                       then set_ball (bounceOffBrick b (ball s1)) s1 else s1)
    as (s1 & H1 & ->).
  { destruct (isGolden b).
    - destruct (handleGoldenBrick _ _ _) as [s1 |] eqn:E; simpl in H; [| done].
      exists s1. split; [| by simplify_eq].
      eapply handleGoldenBrick_powerBall; [exact E | done].
    - simpl in H. exists (breakBrick props c r b s). split; [done | by simplify_eq]. }
  destruct (isPowerBall (ball s1)) eqn:Ep; simpl; [done |].
  unfold powerBallOK. refs.
  destruct (bounceOffBrick_position b (ball s1)) as (_ & _ & _ & ->). congruence.
Qed.

Lemma scanBricks_powerBall (props : GameProps) (rnd : nat → R) (s : State) (sc : Scan) :
  scanBricks props rnd s = Some sc → powerBallOK (ball s) → powerBallOK (ball (sc_state sc)).
Proof.
  intros H Hs. revert H.
  apply (forEach_invariant (visitBrick props rnd) (λ t, powerBallOK (ball (sc_state t))));
    [| done].
  intros [c r] t t' _ Ht Hv. unfold visitBrick in Hv.
  destruct (getBrick _ _ _) as [b |]; simpl in Hv; [| done].
  destruct (negb (status b) && _ && _); [by simplify_eq |].
  destruct (negb (status b)); [by simplify_eq |].
  destruct (overlaps _ _ && _); [| by simplify_eq].
  destruct (registerHit _ _ _ _ _ _) as [s1 |] eqn:E; simpl in Hv; [| done].
  simplify_eq. cbn [sc_state]. by eapply registerHit_powerBall.
Qed.

Lemma afterBricks_powerBall (props : GameProps) (inp : FrameInput) (s : State) :
  powerBallOK (ball s) → powerBallOK (ball (afterBricks props inp s)).
Proof.
  intros Hs. unfold afterBricks.
  assert (H1 : powerBallOK (ball (sideWalls props s))).
  { unfold sideWalls. cbv zeta. by repeat case_bool_decide. }
  assert (H2 : powerBallOK (ball (topWall props (sideWalls props s)))).
  { unfold topWall. cbv zeta. by case_bool_decide. }
  assert (H3 : powerBallOK (ball (paddleCollision (topWall props (sideWalls props s))))).
  { unfold paddleCollision. destruct (touchesPaddle _); [| done].
    unfold paddleBounce. cbv zeta.
    destruct (isStuck _); refs; repeat case_bool_decide; done. }
  unfold floorCheck, resetBallAndPaddle. cbv zeta. by repeat case_bool_decide.
Qed.

(** X6. At every frame, a ball that is a power ball carries a timer between
    1 and [POWER_BALL_DURATION]; the countdown at the head of each frame
    turns the power ball off when the timer reaches zero. *)
Theorem power_ball_has_running_timer (props : GameProps) (m : MatchSetup)
    (inputs : nat → FrameInput) (n : nat) :
  ∃ s, run props m inputs n = Some s
       ∧ (isPowerBall (ball s) = true →
            (0 < powerBallTimer (ball s) <= POWER_BALL_DURATION)%nat)
       ∧ (powerBallTimer (ball s) = 1%nat →
            isPowerBall (powerBallTick (ball s)) = false).
Proof.
  destruct (run_invariant props m inputs (λ s, powerBallOK (ball s))) with (n := n)
    as (s & E & Hp).
  - unfold initialState, resetBallAndPaddle. cbv zeta. refs. done.
  - intros inp s s' Hs Hd.
    assert (H0 : powerBallOK (powerBallTick (ball s))) by by apply powerBallTick_ok.
    apply draw_cases in Hd as [[Et ->] | (_ & sc & Esc & Hcase)].
    + destruct (loopDetection_besideHead (beforeDetection props inp s)) as (_ & _ & _ & ->).
      unfold beforeDetection, frameHead, aiMove. by destruct (isAIEnabled props).
    + assert (H1 : powerBallOK (ball (beforeCollision props inp s))).
      { rewrite beforeCollision_ball. unfold powerBallOK.
        destruct (moveBall_beside (powerBallTick (ball s))) as (_ & _ & _ & -> & ->).
        done. }
      pose proof (scanBricks_powerBall _ _ _ _ Esc H1) as H2.
      destruct Hcase as [(_ & _ & ->) | (_ & ->)]; [done |].
      by apply afterBricks_powerBall.
  - exists s. split; [done |]. split; [done |].
    intros E1. unfold powerBallTick. rewrite E1. cbv zeta. by case_bool_decide.
Qed.

(** ** The position history is a bounded buffer *)

Lemma pushHistory_length (p : R * R) (h : list (R * R)) :
  (length h <= AI_LOOP_DETECTION_HISTORY_LENGTH)%nat →
  (length (pushHistory p h) <= AI_LOOP_DETECTION_HISTORY_LENGTH)%nat.
Proof.
  intros H. unfold pushHistory. cbv zeta. case_bool_decide as E; [| lia].
  destruct h as [| a h]; simpl in *; [lia |]. rewrite length_app. simpl. lia.
Qed.

Lemma loopDetection_history (s : State) :
  (length (ballPositionHistory s) <= AI_LOOP_DETECTION_HISTORY_LENGTH)%nat →
  (length (ballPositionHistory (loopDetection s)) <= AI_LOOP_DETECTION_HISTORY_LENGTH)%nat.
Proof.
  intros H. destruct (loopDetection_cases s) as [[_ ->] | [_ ->]].
  - unfold raiseStuck. refs. simpl. lia.
  - refs. by apply pushHistory_length.
Qed.

(** X7. The history of ball positions that the loop detector reads never
    holds more than [AI_LOOP_DETECTION_HISTORY_LENGTH] positions, and it is
    empty right after "stuck" has been declared. *)
Theorem position_history_is_bounded (props : GameProps) (m : MatchSetup)
    (inputs : nat → FrameInput) (n : nat) :
  ∃ s, run props m inputs n = Some s
       ∧ (length (ballPositionHistory s) <= AI_LOOP_DETECTION_HISTORY_LENGTH)%nat
       ∧ ∀ s', draw props (inputs n) s = Some s' →
           raisesStuck props (inputs n) s = true → ballPositionHistory s' = [].
Proof.
  destruct (run_invariant props m inputs
              (λ s, (length (ballPositionHistory s)
                     <= AI_LOOP_DETECTION_HISTORY_LENGTH)%nat))
    with (n := n) as (s & E & Hh).
  - unfold initialState, resetBallAndPaddle. cbv zeta. refs. simpl. lia.
  - intros inp s s' Hs Hd.
    assert (H0 : (length (ballPositionHistory (loopDetection (beforeDetection props inp s)))
                  <= AI_LOOP_DETECTION_HISTORY_LENGTH)%nat).
    { apply loopDetection_history.
      unfold beforeDetection, frameHead, aiMove. by destruct (isAIEnabled props). }
    apply draw_cases in Hd as [[Et ->] | (_ & sc & Esc & Hcase)]; [done |].
    assert (ballPositionHistory (sc_state sc)
            = ballPositionHistory (loopDetection (beforeDetection props inp s))) as Eh.
    { apply scanBricks_beside in Esc. unfold besideBricks in Esc.
      assert (ballPositionHistory (sc_state sc)
              = ballPositionHistory (beforeCollision props inp s)) as ->
        by (by simplify_eq).
      done. }
    destruct Hcase as [(_ & _ & ->) | (_ & ->)].
    + refs. by rewrite Eh.
    + by rewrite afterBricks_history, Eh.
  - exists s. split; [done |]. split; [done |].
    intros s' Hd Hraise.
    assert (H0 : ballPositionHistory (loopDetection (beforeDetection props (inputs n) s)) = []).
    { unfold raisesStuck, atDetector in Hraise. unfold loopDetection. cbv zeta.
      by rewrite Hraise. }
    apply draw_cases in Hd as [[Et ->] | (_ & sc & Esc & Hcase)]; [done |].
    assert (ballPositionHistory (sc_state sc)
            = ballPositionHistory (loopDetection (beforeDetection props (inputs n) s))) as Eh.
    { apply scanBricks_beside in Esc. unfold besideBricks in Esc.
      assert (ballPositionHistory (sc_state sc)
              = ballPositionHistory (beforeCollision props (inputs n) s)) as ->
        by (by simplify_eq).
      done. }
    destruct Hcase as [(_ & _ & ->) | (_ & ->)].
    + refs. by rewrite Eh.
    + by rewrite afterBricks_history, Eh.
Qed.

(** ** The paddle sends the ball up *)

Lemma Math_sign_orElse_unit (x : R) :
  Rabs (Num.Math_sign (Num.orElse x 1) * 0.5) = 0.5.
Proof.
  unfold Num.Math_sign, Num.orElse.
  repeat case_bool_decide; try lra; unfold Rabs; destruct (Rcase_abs _); lra.
Qed.

(** X8. When the ball meets the paddle, the paddle branch leaves it on top of
    the paddle, moving up, with a horizontal speed of at least 0.2, at the
    same x; the stuck flag and the power-shot flag are down afterwards. *)
Theorem paddle_sends_ball_up (s : State) :
  touchesPaddle s = true →
  let t := paddleCollision s in
  ball_dy (ball t) < 0
  ∧ 0.2 <= Rabs (ball_dx (ball t))
  ∧ ball_y (ball t) = paddleTopY - ball_radius (ball s)
  ∧ ball_x (ball t) = ball_x (ball s)
  ∧ isStuck t = false ∧ isPowerShotMode t = false.
Proof.
  intros Ht. cbv zeta. unfold paddleCollision. rewrite Ht.
  unfold touchesPaddle in Ht. cbv zeta in Ht.
  apply andb_prop in Ht as [Ht _]. apply andb_prop in Ht as [Ht _].
  apply andb_prop in Ht as [Ht _]. apply andb_prop in Ht as [Hdy%bool_decide_eq_true _].
  unfold paddleBounce. cbv zeta.
  set (dx := _ + paddleVelocity _ * _).
  assert (Hs : isStuck (if isStuck s then set_isStuck false s else s) = false)
    by (by destruct (isStuck s) eqn:E).
  assert (Hdx : ∀ bl : Ball,
            0.2 <= Rabs (ball_dx
              (if bool_decide (Rabs (ball_dx (set_ball_dx dx bl)) < 0.2)
               then set_ball_dx (Num.Math_sign (Num.orElse (ball_dx (set_ball_dx dx bl)) 1) * 0.5)
                      (set_ball_dx dx bl)
               else set_ball_dx dx bl))).
  { intros bl. cbn [ball_dx set_ball_dx]. case_bool_decide as E; cbn [ball_dx set_ball_dx].
    - rewrite Math_sign_orElse_unit. lra.
    - lra. }
  unfold PADDLE_FLICK_SPEED_BONUS.
  refs. split_and!.
  - repeat case_bool_decide; refs; lra.
  - case_bool_decide; apply Hdx.
  - repeat case_bool_decide; refs; done.
  - repeat case_bool_decide; refs; done.
  - by destruct (isStuck s).
  - done.
Qed.

(** ** The golden brick's effects on the ball *)

(** X9. On a ball that moves, a DUD sets the speed to exactly
    [MAX_BALL_SPEED] and a POWER_BALL raises it by exactly 2 and starts the
    power-ball timer; both keep the direction of the velocity and neither
    touches a brick. *)
Theorem golden_brick_rescales_speed (rand : R) (b : Brick) (s : State) :
  ball_dx (ball s) ≠ 0 ∨ ball_dy (ball s) ≠ 0 →
  rouletteOutcome rand ≠ JACKPOT →
  ∃ s' k, handleGoldenBrick rand b s = Some s'
    ∧ 0 < k
    ∧ ball_dx (ball s') = ball_dx (ball s) * k
    ∧ ball_dy (ball s') = ball_dy (ball s) * k
    ∧ bricks s' = bricks s ∧ score s' = score s
    ∧ match rouletteOutcome rand with
      | DUD => speedOf (ball s') = MAX_BALL_SPEED
               ∧ isPowerBall (ball s') = isPowerBall (ball s)
      | _ => speedOf (ball s') = speedOf (ball s) + 2
             ∧ isPowerBall (ball s') = true
             ∧ powerBallTimer (ball s') = POWER_BALL_DURATION
      end.
Proof.
  intros Hv Hj. pose proof (speedOf_pos (ball s) Hv) as Hpos.
  unfold handleGoldenBrick. destruct (rouletteOutcome rand) eqn:Eo; [done | |]; cbv zeta.
  - set (b1 := set_powerBallTimer _ _).
    assert (E1 : speedOf b1 = speedOf (ball s)) by done.
    exists (set_ball (scaleVelocity ((speedOf b1 + 2) / speedOf b1) b1) s),
           ((speedOf b1 + 2) / speedOf b1).
    assert (Hk : 0 < (speedOf b1 + 2) / speedOf b1).
    { rewrite E1. apply Rdiv_lt_0_compat; lra. }
    split; [done |]. split; [done |]. refs.
    split; [done |]. split; [done |]. split; [done |]. split; [done |].
    rewrite speedOf_scale by lra. rewrite E1. split; [field; lra | done].
  - exists (set_ball (scaleVelocity (MAX_BALL_SPEED / speedOf (ball s)) (ball s)) s),
           (MAX_BALL_SPEED / speedOf (ball s)).
    assert (Hk : 0 < MAX_BALL_SPEED / speedOf (ball s)).
    { apply Rdiv_lt_0_compat; [unfold MAX_BALL_SPEED; lra | done]. }
    split; [done |]. split; [done |]. refs.
    split; [done |]. split; [done |]. split; [done |]. split; [done |].
    rewrite speedOf_scale by lra. split; [field; lra | done].
Qed.

(** ** The grid [createBricks] builds *)

(** X10. [createBricks] builds nine columns of five bricks without a position;
    a brick is visible exactly where the layout holds 1.  A golden brick is
    visible, and it is the cell number [goldenIndex] among the visible cells
    in scan order, so there is at most one; there is one whenever
    [goldenIndex] is below the number of visible cells, and none for a layout
    without a visible cell. *)
Theorem createBricks_one_golden_brick (lay : list (list nat)) (k : nat) :
  let g := createBricks lay k in
  gridOK g
  ∧ (∀ c r b, getBrick g c r = Some b →
       brick_x b = 0 ∧ brick_y b = 0 ∧ status b = hasBrick lay c r
       ∧ (isGolden b = true → status b = true ∧ availableBricks lay !! k = Some (c, r)))
  ∧ (∀ c r b c' r' b', getBrick g c r = Some b → getBrick g c' r' = Some b' →
       isGolden b = true → isGolden b' = true → (c, r) = (c', r'))
  ∧ ((k < length (availableBricks lay))%nat →
       ∃ c r b, getBrick g c r = Some b ∧ isGolden b = true)
  ∧ (availableBricks lay = [] → ∀ c r b, getBrick g c r = Some b → isGolden b = false).
Proof.
  cbv zeta. pose proof (createBricks_gridOK lay k) as Hg.
  assert (Hcell : ∀ c r b, getBrick (createBricks lay k) c r = Some b →
            b = mkBrick 0 0 (hasBrick lay c r)
                  (bool_decide (availableBricks lay !! k = Some (c, r)))).
  { intros c r b Hb. destruct (getBrick_Some_lt _ _ _ _ Hg Hb) as [Hc Hr].
    rewrite getBrick_createBricks in Hb by done. by injection Hb as <-. }
  split; [done |]. split_and!.
  - intros c r b Hb. rewrite (Hcell _ _ _ Hb). simpl. split_and!; try done.
    intros Hk%bool_decide_eq_true. split; [| done].
    apply list_elem_of_lookup_2 in Hk. unfold availableBricks in Hk.
    by apply list_elem_of_filter in Hk as [Hk _].
  - intros c r b c' r' b' Hb Hb'. rewrite (Hcell _ _ _ Hb), (Hcell _ _ _ Hb'). simpl.
    intros H1%bool_decide_eq_true H2%bool_decide_eq_true. congruence.
  - intros Hk. destruct (lookup_lt_is_Some_2 _ _ Hk) as [[c r] E].
    assert ((c, r) ∈ scanOrder) as [Hc Hr]%elem_of_scanOrder.
    { apply list_elem_of_lookup_2 in E. unfold availableBricks in E.
      by apply list_elem_of_filter in E as [_ E]. }
    eexists c, r, _. rewrite getBrick_createBricks by done.
    split; [done |]. simpl. by apply bool_decide_eq_true_2.
  - intros Hnil c r b Hb. rewrite (Hcell _ _ _ Hb). simpl.
    apply bool_decide_eq_false_2. by rewrite Hnil.
Qed.

(** ** The positions [drawBricks] gives *)

Lemma placeBrick_idem (c r : nat) (b : Brick) :
  placeBrick c r (placeBrick c r b) = placeBrick c r b.
Proof. unfold placeBrick. destruct (status b) eqn:E; simpl; by rewrite ?E. Qed.

Lemma drawBricks_idem (g : list (list Brick)) : drawBricks (drawBricks g) = drawBricks g.
Proof.
  unfold drawBricks. apply list_eq. intros c.
  rewrite !list_lookup_imap. destruct (g !! c) as [col |]; simpl; [| done].
  f_equal. apply list_eq. intros r.
  rewrite !list_lookup_imap. destruct (col !! r) as [b |]; simpl; [| done].
  by rewrite placeBrick_idem.
Qed.

Lemma INR_gap (a b : nat) : (a < b)%nat → INR a + 1 <= INR b.
Proof. intros H. rewrite <- S_INR. apply le_INR. lia. Qed.

(** X11. [drawBricks] changes no brick's status or colour and drawing twice
    is drawing once.  On a grid in shape, every visible brick then lies
    inside the canvas, above the paddle line, and the rectangles of two
    visible bricks in different cells are apart. *)
Theorem drawBricks_lays_out_the_wall (g : list (list Brick)) :
  gridOK g →
  let g' := drawBricks g in
  drawBricks g' = g'
  ∧ (∀ c r, status <$> getBrick g' c r = status <$> getBrick g c r
            ∧ isGolden <$> getBrick g' c r = isGolden <$> getBrick g c r)
  ∧ (∀ c r b, getBrick g' c r = Some b → status b = true →
       0 <= brick_x b ∧ brick_x b + BRICK_WIDTH <= CANVAS_WIDTH
       ∧ 0 <= brick_y b ∧ brick_y b + BRICK_HEIGHT < paddleTopY)
  ∧ (∀ c r b c' r' b', getBrick g' c r = Some b → getBrick g' c' r' = Some b' →
       status b = true → status b' = true → (c, r) ≠ (c', r') → apart b b').
Proof.
  intros Hg. cbv zeta. split; [apply drawBricks_idem |].
  pose proof (drawBricks_placed g) as Hp. pose proof (drawBricks_gridOK g Hg) as Hg'.
  split_and!.
  - intros c r. rewrite getBrick_drawBricks.
    destruct (getBrick g c r) as [b |]; simpl; [| done].
    unfold placeBrick. destruct (status b) eqn:E; simpl; by rewrite ?E.
  - intros c r b Hb Hs. destruct (Hp _ _ _ Hb Hs) as [-> ->].
    destruct (getBrick_Some_lt _ _ _ _ Hg' Hb) as [Hc Hr].
    apply INR_gap in Hc, Hr. pose proof (pos_INR c). pose proof (pos_INR r).
    unfold BRICK_COLUMN_COUNT, BRICK_ROW_COUNT in *. simpl INR in Hc, Hr.
    unfold paddleTopY, BRICK_WIDTH, BRICK_HEIGHT, BRICK_PADDING, BRICK_OFFSET_LEFT,
      BRICK_OFFSET_TOP, CANVAS_WIDTH, CANVAS_HEIGHT, PADDLE_Y_OFFSET, PADDLE_HEIGHT.
    split_and!; nra.
  - intros c r b c' r' b' Hb Hb' Hs Hs' Hne.
    destruct (Hp _ _ _ Hb Hs) as [Ex Ey]. destruct (Hp _ _ _ Hb' Hs') as [Ex' Ey'].
    unfold apart. rewrite Ex, Ey, Ex', Ey'.
    unfold BRICK_WIDTH, BRICK_HEIGHT, BRICK_PADDING, BRICK_OFFSET_LEFT, BRICK_OFFSET_TOP.
    destruct (lt_eq_lt_dec c c') as [[Hlt | ->] | Hlt].
    + left. apply INR_gap in Hlt. lra.
    + destruct (lt_eq_lt_dec r r') as [[Hlt | ->] | Hlt]; [| done |].
      * right. right. left. apply INR_gap in Hlt. lra.
      * right. right. right. apply INR_gap in Hlt. lra.
    + right. left. apply INR_gap in Hlt. lra.
Qed.

(** * Further properties of the decision layer *)

(** ** Arithmetic of finite numbers, read in the reals *)

Section js_reals.
Import JsNumber JsReal.
Local Open Scope R_scope.

Lemma Q2R_Qred (q : Q) : Q2R (Qred q) = Q2R q.
Proof. apply Qreals.Qeq_eqR, Qred_correct. Qed.

Lemma this_Q2Qc (q : Q) : this (Q2Qc q) = Qred q.
Proof. reflexivity. Qed.

Lemma toR_lit (q : Q) : toR (lit q) = Q2R q.
Proof. unfold toR, lit. cbn [val]. rewrite this_Q2Qc. apply Q2R_Qred. Qed.

Lemma toR_Fin (q : Qc) : toR (Fin q) = Q2R (this q).
Proof. done. Qed.

Lemma toR_zero : Q2R (this (Q2Qc 0)) = 0.
Proof. rewrite this_Q2Qc, Q2R_Qred. unfold Q2R. simpl. lra. Qed.

Lemma Qc_zero_iff (q : Qc) : Qc_eq_bool q (Q2Qc 0) = true ↔ Q2R (this q) = 0.
Proof.
  split.
  - intros ->%Qc_eq_bool_correct. apply toR_zero.
  - intros H. unfold Qc_eq_bool. destruct (Qcanon.Qc_eq_dec q (Q2Qc 0)) as [| Hne]; [done |].
    exfalso. apply Hne. apply Qc_is_canon. rewrite this_Q2Qc, Qred_correct.
    apply Qreals.eqR_Qeq. rewrite H. unfold Q2R. simpl. lra.
Qed.

Lemma isZero_toR (a : number) : isFinite a = true → (isZero a = true ↔ toR a = 0).
Proof.
  destruct a; try done; intros _; unfold toR; cbn [isZero val].
  - split; [intros _; apply toR_zero | done].
  - apply Qc_zero_iff.
Qed.

Lemma isZero_false_toR (a : number) : isFinite a = true → (isZero a = false ↔ toR a ≠ 0).
Proof.
  intros Ha. rewrite <- (isZero_toR a Ha). by destruct (isZero a).
Qed.

Lemma val_mkFin (n : bool) (q : Qc) : Q2R (this (val (mkFin n q))) = Q2R (this q).
Proof.
  unfold mkFin. destruct (Qc_eq_bool q (Q2Qc 0)) eqn:E; [| done].
  apply Qc_zero_iff in E. rewrite E. destruct n; apply toR_zero.
Qed.

Lemma toR_neg (a : number) : isFinite a = true → toR (neg a) = - toR a.
Proof.
  destruct a; try done; intros _; unfold toR; cbn [neg val].
  - rewrite toR_zero. lra.
  - destruct (Qc_eq_bool q (Q2Qc 0)) eqn:E; cbn [val].
    + apply Qc_zero_iff in E. rewrite E, toR_zero. lra.
    + unfold Qcopp. rewrite this_Q2Qc, Q2R_Qred. apply Qreals.Q2R_opp.
Qed.

Lemma toR_add (a b : number) :
  isFinite a = true → isFinite b = true → toR (add a b) = toR a + toR b.
Proof.
  destruct a, b; try done; intros _ _; unfold toR; cbn [add val];
    unfold Qcplus; rewrite ?this_Q2Qc, ?Q2R_Qred, ?Qreals.Q2R_plus, ?toR_zero;
    rewrite <- ?this_Q2Qc, ?toR_zero; lra.
Qed.

Lemma toR_sub (a b : number) :
  isFinite a = true → isFinite b = true → toR (sub a b) = toR a - toR b.
Proof.
  intros Ha Hb. unfold sub.
  rewrite toR_add by (done || by apply AgentFacts.isFinite_neg).
  rewrite toR_neg by done. lra.
Qed.

Lemma toR_mul (a b : number) :
  isFinite a = true → isFinite b = true → toR (mul a b) = toR a * toR b.
Proof.
  intros Ha Hb. unfold mul.
  rewrite (AgentFacts.isFinite_not_NaN a Ha), (AgentFacts.isFinite_not_NaN b Hb).
  assert (isInf a = false) as -> by (by destruct a).
  assert (isInf b = false) as -> by (by destruct b).
  cbn [orb]. unfold toR. rewrite val_mkFin. unfold Qcmult.
  by rewrite this_Q2Qc, Q2R_Qred, Qreals.Q2R_mult.
Qed.

Lemma toR_div (a b : number) :
  isFinite a = true → isFinite b = true → isZero b = false →
  toR (div a b) = toR a / toR b.
Proof.
  intros Ha Hb Hz. unfold div.
  rewrite (AgentFacts.isFinite_not_NaN a Ha), (AgentFacts.isFinite_not_NaN b Hb), Hz.
  assert (isInf a = false) as -> by (by destruct a).
  assert (isInf b = false) as -> by (by destruct b).
  cbn [orb]. unfold toR. rewrite val_mkFin.
  apply (isZero_false_toR b Hb) in Hz. unfold toR in Hz.
  unfold Qcdiv, Qcmult, Qcinv.
  rewrite !this_Q2Qc, Q2R_Qred, Qreals.Q2R_mult, Q2R_Qred, Qreals.Q2R_inv; [done |].
  intros H0. apply Hz. apply Qreals.Qeq_eqR in H0. rewrite H0. unfold Q2R. simpl. lra.
Qed.

Lemma Qcltb_toR (p q : Qc) : Qcltb p q = true ↔ Q2R (this p) < Q2R (this q).
Proof.
  unfold Qcltb, Qccompare. split.
  - intros H. apply Qreals.Qlt_Rlt. apply Qlt_alt.
    by destruct (this p ?= this q)%Q.
  - intros H%Qreals.Rlt_Qlt. by rewrite (proj1 (Qlt_alt _ _) H).
Qed.

Lemma Qcleb_toR (p q : Qc) : Qcleb p q = true ↔ Q2R (this p) <= Q2R (this q).
Proof.
  unfold Qcleb, Qccompare. split.
  - intros H. apply Qreals.Qle_Rle. apply Qle_alt. intros E. by rewrite E in H.
  - intros H%Qreals.Rle_Qle. pose proof (proj1 (Qle_alt _ _) H) as H'.
    destruct (this p ?= this q)%Q eqn:E; [done | done | by destruct H'].
Qed.

Lemma ltb_toR (a b : number) :
  isFinite a = true → isFinite b = true → (ltb a b = true ↔ toR a < toR b).
Proof. intros Ha Hb. rewrite AgentFacts.ltb_finite by done. apply Qcltb_toR. Qed.

Lemma leb_toR (a b : number) :
  isFinite a = true → isFinite b = true → (leb a b = true ↔ toR a <= toR b).
Proof. intros Ha Hb. rewrite AgentFacts.leb_finite by done. apply Qcleb_toR. Qed.

Lemma ltb_false_toR (a b : number) :
  isFinite a = true → isFinite b = true → (ltb a b = false ↔ toR b <= toR a).
Proof.
  intros Ha Hb. pose proof (ltb_toR a b Ha Hb) as H.
  destruct (ltb a b); split; intros; try done.
  - assert (toR a < toR b) by by apply H. lra.
  - apply Rnot_lt_le. intros Hlt. apply H in Hlt. done.
Qed.

Lemma leb_false_toR (a b : number) :
  isFinite a = true → isFinite b = true → (leb a b = false ↔ toR b < toR a).
Proof.
  intros Ha Hb. pose proof (leb_toR a b Ha Hb) as H.
  destruct (leb a b); split; intros; try done.
  - assert (toR a <= toR b) by by apply H. lra.
  - apply Rnot_le_lt. intros Hle. apply H in Hle. done.
Qed.

Lemma toR_ofNat (n : nat) : toR (ofNat n) = INR n.
Proof.
  unfold ofNat. rewrite toR_lit. unfold Q2R. cbn [Qnum Qden inject_Z].
  rewrite INR_IZR_INZ. lra.
Qed.

End js_reals.

Section agent_geometry.
Import JsNumber JsReal Agent.
Local Open Scope R_scope.

Lemma toR_CANVAS_WIDTH : toR CANVAS_WIDTH = 400.
Proof. unfold CANVAS_WIDTH. rewrite toR_lit. unfold Q2R. simpl. lra. Qed.

Lemma isZero_ofNat (n : nat) : (0 < n)%nat → isZero (ofNat n) = false.
Proof.
  intros Hn. apply isZero_false_toR; [done |]. rewrite toR_ofNat.
  apply not_0_INR. lia.
Qed.

(** A share of a positive total, in percent. *)
Lemma share_is_percentage (p t : nat) :
  (0 < t)%nat → (p <= t)%nat →
  let x := (ofNat p / ofNat t * lit 100)%js in
  isFinite x = true ∧ (lit 0 <=? x)%js = true ∧ (x <=? lit 100)%js = true.
Proof.
  intros Ht Hp. cbv zeta.
  pose proof (isZero_ofNat _ Ht) as Hz.
  assert (Hd : isFinite (ofNat p / ofNat t)%js = true)
    by (by apply AgentFacts.isFinite_div).
  assert (Hm : isFinite (ofNat p / ofNat t * lit 100)%js = true)
    by (by apply AgentFacts.isFinite_mul).
  assert (E : toR (ofNat p / ofNat t * lit 100)%js = INR p / INR t * 100).
  { rewrite toR_mul, toR_div, !toR_ofNat, toR_lit by done.
    unfold Q2R. simpl. lra. }
  assert (H0 : 0 < INR t) by (apply lt_0_INR; lia).
  assert (H1 : 0 <= INR p) by apply pos_INR.
  assert (H2 : INR p <= INR t) by (apply le_INR; lia).
  assert (H3 : 0 <= INR p / INR t <= 1).
  { split.
    - apply Rmult_le_pos; [done |]. left. by apply Rinv_0_lt_compat.
    - apply (Rmult_le_reg_r (INR t)); [done |].
      unfold Rdiv. rewrite Rmult_assoc, Rinv_l by lra. lra. }
  split; [done |]. split.
  - apply leb_toR; [done | done |]. rewrite E, toR_lit. unfold Q2R. simpl. lra.
  - apply leb_toR; [done | done |]. rewrite E, toR_lit. unfold Q2R. simpl. lra.
Qed.

(** X12. [getProductivity] is a percentage: a finite number between 0 and
    100, and 0 when no hit has been counted yet (no division by zero). *)
Theorem getProductivity_is_a_percentage (s : Refs) :
  let p := getProductivity s in
  isFinite p = true
  ∧ (lit 0 <=? p)%js = true ∧ (p <=? lit 100)%js = true
  ∧ ((productiveHits s + nonProductiveHits s = 0)%nat → p = lit 0).
Proof.
  cbv zeta. unfold getProductivity. cbv zeta.
  destruct (Nat.ltb_spec 0 (productiveHits s + nonProductiveHits s)) as [Ht | Ht].
  - destruct (share_is_percentage (productiveHits s)
                (productiveHits s + nonProductiveHits s)) as (H1 & H2 & H3); [done | lia |].
    split; [done |]. split; [done |]. split; [done | lia].
  - split; [done |]. split; [done |]. split; [done |]. done.
Qed.

(** *** getDefensiveTargetX *)

Lemma defensiveLoop_stop (n : nat) (radius timeToImpact simX simDX : number) :
  (timeToImpact >? lit 0)%js = false →
  defensiveLoop n radius timeToImpact simX simDX = simX.
Proof. intros H. destruct n; [done |]. cbn [defensiveLoop]. by rewrite H. Qed.

Lemma toR_lit_0 : toR (lit 0) = 0.
Proof. rewrite toR_lit. unfold Q2R. simpl. lra. Qed.

Lemma defensiveLoop_range (n : nat) (radius timeToImpact simX simDX : number) :
  isFinite radius = true → isFinite timeToImpact = true →
  isFinite simX = true → isFinite simDX = true →
  toR simDX ≠ 0 → 2 * toR radius < 400 →
  toR radius <= toR simX <= 400 - toR radius →
  (toR simX = 400 - toR radius → toR simDX < 0) →
  (toR simX = toR radius → 0 < toR simDX) →
  let y := defensiveLoop n radius timeToImpact simX simDX in
  isFinite y = true ∧ toR radius <= toR y <= 400 - toR radius.
Proof.
  intros Hr. revert timeToImpact simX simDX.
  induction n as [| n IH]; intros t x d Ht Hx Hd Hd0 Hw Hin Hright Hleft; cbv zeta.
  { done. }
  cbn [defensiveLoop].
  destruct (t >? lit 0)%js eqn:Etpos; [| done].
  apply (ltb_toR (lit 0) t) in Etpos; [| done | done]. rewrite toR_lit_0 in Etpos.
  assert (Hdz : isZero d = false) by (by apply isZero_false_toR).
  assert (Hndz : isZero (- d)%js = false) by (by rewrite AgentFacts.isZero_neg).
  assert (Hfw : isFinite (CANVAS_WIDTH - radius - x)%js = true)
    by (apply AgentFacts.isFinite_sub; [by apply AgentFacts.isFinite_sub | done]).
  assert (Hfx : isFinite (x - radius)%js = true) by (by apply AgentFacts.isFinite_sub).
  assert (Hfn : isFinite (- d)%js = true) by (by apply AgentFacts.isFinite_neg).
  set (w := if (d >? lit 0)%js then ((CANVAS_WIDTH - radius - x) / d)%js
            else ((x - radius) / - d)%js).
  assert (Hwf : isFinite w = true).
  { unfold w. destruct (d >? lit 0)%js;
      (apply AgentFacts.isFinite_div; [done | by apply AgentFacts.isFinite_not_NaN | done]). }
  assert (Hwv : 0 < toR w
                ∧ ((0 < toR d ∧ toR x + toR d * toR w = 400 - toR radius)
                   ∨ (toR d < 0 ∧ toR x + toR d * toR w = toR radius))).
  { unfold w. destruct (d >? lit 0)%js eqn:Edpos.
    - apply (ltb_toR (lit 0) d) in Edpos; [| done | done]. rewrite toR_lit_0 in Edpos.
      rewrite toR_div, !toR_sub, toR_CANVAS_WIDTH by
        (done || by apply AgentFacts.isFinite_sub).
      assert (toR x < 400 - toR radius).
      { destruct (Req_dec (toR x) (400 - toR radius)) as [E | E]; [| lra].
        specialize (Hright E). lra. }
      split; [apply Rdiv_lt_0_compat; lra |]. left. split; [done |]. field. lra.
    - apply (ltb_false_toR (lit 0) d) in Edpos; [| done | done].
      rewrite toR_lit_0 in Edpos.
      rewrite toR_div, toR_sub, toR_neg by done.
      assert (toR radius < toR x).
      { destruct (Req_dec (toR x) (toR radius)) as [E | E]; [| lra].
        specialize (Hleft E). lra. }
      split; [apply Rdiv_lt_0_compat; lra |]. right. split; [lra |]. field. lra. }
  clearbody w. destruct Hwv as [Hwpos Hwall].
  assert (Hm1 : isFinite (lit (-1)) = true) by done.
  assert (Em1 : toR (lit (-1)) = -1) by (rewrite toR_lit; unfold Q2R; simpl; lra).
  destruct ((w >=? t)%js || (w <=? lit 0)%js) eqn:Estraight.
  - rewrite defensiveLoop_stop by done.
    assert (Hge : toR t <= toR w).
    { apply orb_prop in Estraight as [E | E].
      - by apply (leb_toR t w) in E.
      - apply (leb_toR w (lit 0)) in E; [| done | done]. rewrite toR_lit_0 in E. lra. }
    assert (Hf : isFinite (x + d * t)%js = true)
      by (apply AgentFacts.isFinite_add; [done | by apply AgentFacts.isFinite_mul]).
    split; [done |].
    rewrite toR_add, toR_mul by (done || by apply AgentFacts.isFinite_mul).
    destruct Hwall as [[Hd1 Hw1] | [Hd1 Hw1]]; nra.
  - apply orb_false_elim in Estraight as [E1 E2].
    apply (leb_false_toR t w) in E1; [| done | done].
    assert (Hf : isFinite (x + d * w)%js = true)
      by (apply AgentFacts.isFinite_add; [done | by apply AgentFacts.isFinite_mul]).
    assert (Hfd : isFinite (d * lit (-1))%js = true) by (by apply AgentFacts.isFinite_mul).
    assert (Ex : toR (x + d * w)%js = toR x + toR d * toR w).
    { by rewrite toR_add, toR_mul by (done || by apply AgentFacts.isFinite_mul). }
    assert (Ed : toR (d * lit (-1))%js = - toR d).
    { rewrite toR_mul, Em1 by done. lra. }
    apply IH; try done.
    + by apply AgentFacts.isFinite_sub.
    + rewrite Ed. lra.
    + rewrite Ex. destruct Hwall as [[Hd1 Hw1] | [Hd1 Hw1]]; lra.
    + rewrite Ex, Ed. destruct Hwall as [[Hd1 Hw1] | [Hd1 Hw1]]; lra.
    + rewrite Ex, Ed. destruct Hwall as [[Hd1 Hw1] | [Hd1 Hw1]]; lra.
Qed.

(** X13. For a ball with finite numbers and a horizontal velocity, whose
    centre is between the walls (at a wall only when moving away from it),
    the defensive target is a finite x that is itself between the walls: at
    least one radius from either side, however many wall bounces the
    projection takes and also when it runs out of its ten steps. *)
Theorem getDefensiveTargetX_between_walls (b : Ball) :
  isFinite (ball_x b) = true → isFinite (ball_y b) = true →
  isFinite (ball_dx b) = true → isFinite (ball_dy b) = true →
  isFinite (ball_radius b) = true → isZero (ball_dx b) = false →
  (ball_radius b + ball_radius b <? CANVAS_WIDTH)%js = true →
  (ball_radius b <=? ball_x b)%js = true →
  (ball_x b <=? CANVAS_WIDTH - ball_radius b)%js = true →
  ((ball_x b <? CANVAS_WIDTH - ball_radius b)%js || (ball_dx b <? lit 0)%js) = true →
  ((ball_radius b <? ball_x b)%js || (lit 0 <? ball_dx b)%js) = true →
  let t := getDefensiveTargetX b in
  isFinite t = true
  ∧ (ball_radius b <=? t)%js = true ∧ (t <=? CANVAS_WIDTH - ball_radius b)%js = true.
Proof.
  intros Hx Hy Hdx Hdy Hr Hz Hw Hlo Hhi Hright Hleft. cbv zeta.
  assert (Hfw : isFinite (CANVAS_WIDTH - ball_radius b)%js = true)
    by (by apply AgentFacts.isFinite_sub).
  assert (Ew : toR (CANVAS_WIDTH - ball_radius b)%js = 400 - toR (ball_radius b))
    by (by rewrite toR_sub, toR_CANVAS_WIDTH).
  apply (ltb_toR (ball_radius b + ball_radius b)%js CANVAS_WIDTH) in Hw;
    [| by apply AgentFacts.isFinite_add | done].
  rewrite toR_add, toR_CANVAS_WIDTH in Hw by done.
  apply (leb_toR (ball_radius b) (ball_x b)) in Hlo; [| done | done].
  apply (leb_toR (ball_x b) _) in Hhi; [| done | done]. rewrite Ew in Hhi.
  cut (isFinite (getDefensiveTargetX b) = true
       ∧ toR (ball_radius b) <= toR (getDefensiveTargetX b) <= 400 - toR (ball_radius b)).
  { intros [Hf [H1 H2]]. split; [done |]. split.
    - by apply leb_toR.
    - apply leb_toR; [done | done |]. by rewrite Ew. }
  unfold getDefensiveTargetX. destruct (ball_dy b <=? lit 0.1)%js eqn:Edy; [done |].
  cbv zeta. apply defensiveLoop_range; try done.
  - apply AgentFacts.isFinite_div;
      [| by apply AgentFacts.isFinite_not_NaN | by apply AgentFacts.above_tenth_not_zero].
    by apply AgentFacts.isFinite_sub.
  - by apply isZero_false_toR.
  - lra.
  - intros E. apply orb_prop in Hright as [H | H].
    + apply (ltb_toR (ball_x b) _) in H; [| done | done]. rewrite Ew in H. lra.
    + apply (ltb_toR (ball_dx b) (lit 0)) in H; [| done | done].
      by rewrite toR_lit_0 in H.
  - intros E. apply orb_prop in Hleft as [H | H].
    + apply (ltb_toR (ball_radius b) (ball_x b)) in H; [| done | done]. lra.
    + apply (ltb_toR (lit 0) (ball_dx b)) in H; [| done | done].
      by rewrite toR_lit_0 in H.
Qed.

End agent_geometry.

Section shot_planner.
Import JsNumber Agent.
Local Open Scope nat_scope.

(** ** projectTrajectory *)

Lemma scanLive_Some (i : nat) (x y : number) (live : list Brick) (j : nat) (b : Brick) :
  scanLive i x y live = Some (j, b) →
  j < i ∧ live !! j = Some b ∧ inside x y b = true
  ∧ ∀ k b', j < k < i → live !! k = Some b' → inside x y b' = false.
Proof.
  induction i as [| i IH]; [done |]. cbn [scanLive].
  destruct (live !! i) as [bi |] eqn:Ei.
  - destruct (inside x y bi) eqn:Ein.
    + intros [= <- <-]. split; [lia |]. split; [done |]. split; [done |].
      intros k b' Hk. lia.
    + intros H. destruct (IH H) as (Hj & Hb & Hin & Hlast).
      split; [lia |]. split; [done |]. split; [done |].
      intros k b' Hk Hb'. destruct (decide (k = i)) as [-> | Hne].
      * congruence.
      * apply (Hlast k); [lia | done].
  - intros H. destruct (IH H) as (Hj & Hb & Hin & Hlast).
    split; [lia |]. split; [done |]. split; [done |].
    intros k b' Hk Hb'. destruct (decide (k = i)) as [-> | Hne].
    + congruence.
    + apply (Hlast k); [lia | done].
Qed.

(** What one turn of the step loop keeps. *)
Lemma simStep_keeps (depth : nat) (s s' : Sim) (stop : bool) :
  simStep depth s = (s', stop) →
  sim_hits s' ++ liveBricks s' ≡ₚ sim_hits s ++ liveBricks s
  ∧ length (sim_hits s') ≤ S (length (sim_hits s))
  ∧ (length (sim_hits s) ≤ bounces s → length (sim_hits s') ≤ bounces s')
  ∧ length (sim_path s') = S (length (sim_path s))
  ∧ head (sim_path s') = head (sim_path s ++ [(sim_x s', sim_y s')])
  ∧ (stop = false → bounces s' < depth).
Proof.
  unfold simStep. cbv zeta.
  set (n := if (_ <? _)%js then S _ else _).
  assert (Hn : bounces s ≤ n).
  { unfold n. repeat case_match; lia. }
  clearbody n.
  destruct (_ >? CANVAS_HEIGHT)%js.
  - intros [= <- <-]. cbn [sim_hits liveBricks bounces sim_path sim_x sim_y].
    rewrite length_app. simpl. split_and!; try done; lia.
  - destruct (scanLive _ _ _ _) as [[i b] |] eqn:Escan.
    + apply scanLive_Some in Escan as (_ & Hb & _).
      intros [= <- <-]. cbn [sim_hits liveBricks bounces sim_path sim_x sim_y].
      rewrite !length_app. simpl. split_and!; try done; try lia.
      * rewrite <- app_assoc. simpl. apply Permutation_app_head.
        symmetry. by apply delete_Permutation.
      * intros Hs. apply bool_decide_eq_false in Hs. lia.
    + intros [= <- <-]. cbn [sim_hits liveBricks bounces sim_path sim_x sim_y].
      rewrite length_app. simpl. split_and!; try done; try lia.
      intros Hs. apply bool_decide_eq_false in Hs. lia.
Qed.

Lemma simLoop_keeps (steps depth : nat) (s : Sim) :
  length (sim_hits s) ≤ bounces s → bounces s < depth → sim_path s ≠ [] →
  let t := simLoop steps depth s in
  sim_hits t ++ liveBricks t ≡ₚ sim_hits s ++ liveBricks s
  ∧ length (sim_hits t) ≤ depth
  ∧ length (sim_path s) ≤ length (sim_path t) ≤ steps + length (sim_path s)
  ∧ head (sim_path t) = head (sim_path s).
Proof.
  revert s. induction steps as [| steps IH]; intros s Hhb Hbd Hp; cbv zeta.
  { cbn [simLoop]. split_and!; try done; lia. }
  cbn [simLoop]. destruct (simStep depth s) as [s' stop] eqn:Estep.
  destruct (simStep_keeps _ _ _ _ Estep) as (Hperm & Hh & Hhb' & Hlen & Hhead & Hstop).
  assert (Hhd : head (sim_path s') = head (sim_path s)).
  { rewrite Hhead. by destruct (sim_path s). }
  destruct stop.
  - split_and!; try done; lia.
  - destruct (IH s') as (H1 & H2 & H3 & H4).
    + by apply Hhb'.
    + by apply Hstop.
    + intros E. rewrite E in Hlen. done.
    + split_and!.
      * by rewrite H1.
      * done.
      * lia.
      * lia.
      * congruence.
Qed.

(** X15. A simulated trajectory never scores more than the bounce budget
    allows nor more than there are visible bricks: its score is the number of
    its hits, at most [depth]; the bricks it hits are visible bricks of the
    grid, each taken at most as often as the grid holds it; and its path
    starts at the launch point and has at most 501 points. *)
Theorem projectTrajectory_score_bounded (startX startY startDX startDY : number)
    (g : list (list Brick)) (depth : nat) :
  1 ≤ depth →
  ∃ path hits,
    projectTrajectory startX startY startDX startDY g depth = (path, hits, length hits)
    ∧ hits ⊆+ visibleBricks g
    ∧ length hits ≤ depth ∧ length hits ≤ length (visibleBricks g)
    ∧ head path = Some (startX, startY) ∧ 1 ≤ length path ≤ 501.
Proof.
  intros Hd. unfold projectTrajectory. cbv zeta.
  set (s0 := mkSim startX startY startDX startDY [(startX, startY)] [] (visibleBricks g) 0).
  destruct (simLoop_keeps 500 depth s0) as (H1 & H2 & H3 & H4); [simpl; lia | simpl; lia | done |].
  cbv zeta in H1, H2, H3, H4.
  change (sim_hits s0 ++ liveBricks s0) with (visibleBricks g) in H1.
  change (length (sim_path s0)) with 1 in H3.
  change (head (sim_path s0)) with (Some (startX, startY)) in H4.
  assert (Hsub : sim_hits (simLoop 500 depth s0) ⊆+ visibleBricks g).
  { rewrite <- H1. by apply submseteq_inserts_r. }
  eexists _, _. split; [done |]. split; [done |]. split; [done |].
  split; [by apply submseteq_length |]. split; [done | lia].
Qed.

(** ** The choice among the simulated paths *)

Lemma pickBest_first_from (ps : list SimulatedPath) (k : nat) (bi : Z) (m : nat) :
  let r := foldl pickStep (bi, m) (imap (λ i p, ((k + i)%nat, p)) ps) in
  (r = (bi, m) ∧ ∀ q, q ∈ ps → score q ≤ m)
  ∨ (∃ i p, r = (Z.of_nat (k + i), score p) ∧ ps !! i = Some p ∧ m < score p
       ∧ (∀ q, q ∈ ps → score q ≤ score p)
       ∧ ∀ j q, j < i → ps !! j = Some q → score q < score p).
Proof.
  revert k bi m. induction ps as [| p ps IH]; intros k bi m; cbv zeta.
  { left. split; [done |]. intros q Hq. by apply not_elem_of_nil in Hq. }
  rewrite imap_cons. cbn [foldl].
  rewrite (imap_ext _ (λ i q, ((S k + i)%nat, q))) by (intros; unfold compose; f_equal; lia).
  rewrite AgentFacts.pickStep_eq.
  destruct (Nat.ltb_spec m (score p)) as [Hlt | Hge].
  - right.
    destruct (IH (S k) (Z.of_nat (k + 0)) (score p))
      as [[-> Hle] | (i & q & -> & Hq & Hm & Hmax & Hfirst)].
    + exists 0, p. split_and!; try done.
      * intros q [-> | Hq]%elem_of_cons; [lia | by apply Hle].
      * intros j q Hj. lia.
    + exists (S i), q. split_and!; try done.
      * do 2 f_equal. lia.
      * lia.
      * intros q' [-> | Hq']%elem_of_cons; [lia | by apply Hmax].
      * intros [| j] q' Hj Hq'; simpl in Hq'; [simplify_eq; lia |].
        apply (Hfirst j); [lia | done].
  - destruct (IH (S k) bi m) as [[-> Hle] | (i & q & -> & Hq & Hm & Hmax & Hfirst)].
    + left. split; [done |].
      intros q [-> | Hq]%elem_of_cons; [lia | by apply Hle].
    + right. exists (S i), q. split_and!; try done.
      * do 2 f_equal. lia.
      * intros q' [-> | Hq']%elem_of_cons; [lia | by apply Hmax].
      * intros [| j] q' Hj Hq'; simpl in Hq'; [simplify_eq; lia |].
        apply (Hfirst j); [lia | done].
Qed.

(** X16. When [runShotSimulations] keeps a plan, [bestPathIndex] is the
    first index at which the highest score occurs: every path scores at most
    as much as the chosen one and every path before it scores strictly less,
    so ties go to the earlier candidate angle. *)
Theorem plan_prefers_earlier_angle (b : Ball) (p : Paddle) (g : list (list Brick))
    (plan : StrategicPlan) :
  runShotSimulations b p g = Some plan →
  ∃ i best, bestPathIndex plan = Z.of_nat i
    ∧ paths plan !! i = Some best ∧ 1 < score best
    ∧ (∀ q, q ∈ paths plan → score q ≤ score best)
    ∧ ∀ j q, j < i → paths plan !! j = Some q → score q < score best.
Proof.
  unfold runShotSimulations. cbv zeta.
  assert (E0 : foldl pickStep ((-1)%Z, 0) (imap (λ i p, ((0 + i)%nat, p)) (simulatePaths b p g))
               = pickBest (simulatePaths b p g)) by reflexivity.
  pose proof (pickBest_first_from (simulatePaths b p g) 0 (-1) 0) as H.
  cbv zeta in H. rewrite E0 in H.
  destruct H as [[-> Hle] | (i & q & -> & Hq & Hm & Hmax & Hfirst)].
  - cbn [snd]. done.
  - cbn [fst snd]. destruct (Nat.ltb_spec 1 (score q)) as [H1 | H1]; [| done].
    intros [= <-]. cbn [paths bestPathIndex]. exists i, q. by split_and!.
Qed.

(** ** The heuristic shot *)

Lemma foldl_choice {A : Type} (f : A → A → bool) (o : A) (rest : list A) :
  foldl (λ p c, if f c p then c else p) o rest ∈ o :: rest.
Proof.
  revert o. induction rest as [| c rest IH]; intros o; simpl; [by left |].
  destruct (f c o).
  - right. apply IH.
  - specialize (IH o). apply elem_of_cons in IH as [-> | IH]; [by left |].
    right. by right.
Qed.

(** X17. A target of the heuristic shot, when there is one, lies strictly
    inside the field, between 0 and [CANVAS_WIDTH]; candidates that are NaN,
    infinite or outside never become the target. *)
Theorem heuristicTarget_inside_field (bestTarget : Brick) (b : Ball) (p : Paddle)
    (defensiveTargetX t : number) :
  heuristicTarget bestTarget b p defensiveTargetX = Some t →
  (lit 0 <? t)%js = true ∧ (t <? CANVAS_WIDTH)%js = true ∧ isFinite t = true.
Proof.
  unfold heuristicTarget. cbv zeta.
  set (opts := List.filter _ _).
  assert (Hopts : ∀ o, o ∈ opts → (fst o >? lit 0)%js && (fst o <? CANVAS_WIDTH)%js = true).
  { intros o Ho. apply list_elem_of_In in Ho. unfold opts in Ho.
    by apply filter_In in Ho as [_ Ho]. }
  clearbody opts. destruct opts as [| o rest]; [done |].
  intros [= <-].
  pose proof (foldl_choice (λ c p, (snd c <? snd p)%js) o rest) as Hin.
  apply Hopts in Hin. apply andb_prop in Hin as [H1 H2].
  split; [done |]. split; [done |].
  destruct (fst _); try done.
Qed.

(** ** Arming a power shot *)

(** X18. The AI block arms a power shot only on a frame in which it sends
    the paddle to its offensive target, and never while the agent is stuck or
    recovering. *)
Theorem power_shot_only_when_committed (props : Props) (random : number) (s : Refs) :
  powerShotMode (aiBlock props random s) = true →
  offensiveTargetX (aiBlock props random s) = Some (finalTargetX (aiBlock props random s))
  ∧ isStuck s = false ∧ recoveringFromStuckCounter s = 0.
Proof.
  unfold aiBlock. cbv zeta. cbn [powerShotMode offensiveTargetX finalTargetX].
  destruct (offensiveTarget props s (getDefensiveTargetX (ball s))) as [plan offensive].
  cbn [fst snd]. unfold chooseTarget. cbv zeta.
  destruct (Nat.ltb_spec 0 (recoveringFromStuckCounter s)) as [Hr | Hr].
  - rewrite andb_false_r. destruct offensive; cbn [negb andb fst snd]; done.
  - destruct (isStuck s) eqn:Es; cbn [negb andb fst snd]; [done |].
    destruct offensive as [off |]; [| done].
    destruct (Math_abs _ >? _)%js; cbn [negb andb fst snd]; [done |].
    destruct (decisionConfidenceOf props s >? _)%js; cbn [fst snd]; [| done].
    intros _. split; [done |]. split; [done | lia].
Qed.

End shot_planner.

Section target_choice.
Import JsNumber JsReal Agent.
Local Open Scope R_scope.

(** ** findBestTargetBrick *)

Lemma ltb_irrefl (a : number) : (a <? a)%js = false.
Proof.
  destruct a; try done; cbn [ltb val];
    (destruct (Qcltb _ _) eqn:E; [| done]); apply Qcltb_toR in E; lra.
Qed.

Lemma Qcltb_chain (a b c : Qc) :
  Qcltb a b = true → Qcltb a c = false → Qcltb b c = false.
Proof.
  intros H1 H2. destruct (Qcltb b c) eqn:E; [| done].
  apply Qcltb_toR in H1, E.
  assert (H3 : Qcltb a c = true) by (apply Qcltb_toR; lra). congruence.
Qed.

Lemma ltb_chain (m t t' : number) :
  (m <? t)%js = true → (m <? t')%js = false → (t <? t')%js = false.
Proof.
  destruct m, t, t'; try done; cbn [ltb val]; apply Qcltb_chain.
Qed.

Lemma Math_abs_nonneg (a : number) :
  isFinite a = true → 0 <= toR (Math_abs a).
Proof.
  intros Ha. unfold Math_abs. destruct a; try done.
  - cbn [isNeg neg]. rewrite toR_Fin, toR_zero. lra.
  - cbn [isNeg]. destruct (Qcltb q (Q2Qc 0)) eqn:E.
    + rewrite toR_neg by done. apply Qcltb_toR in E. rewrite toR_zero in E.
      rewrite toR_Fin. lra.
    + rewrite toR_Fin. destruct (Rlt_le_dec (Q2R (this q)) 0) as [Hlt | Hle]; [| done].
      rewrite <- toR_zero in Hlt. apply Qcltb_toR in Hlt. congruence.
Qed.

Lemma isFinite_Math_round (a : number) :
  isFinite a = true → isFinite (Math_round a) = true.
Proof. destruct a; try done. intros _. apply AgentFacts.isFinite_mkFin. Qed.

(** A brick whose [x] is a number is a candidate: its threat is above the
    initial maximum of -1. *)
Lemma threatScore_above (g : list (list Brick)) (b : Brick) :
  isNaN (brick_x b) = false → (threatScore g b >? lit (-1))%js = true.
Proof.
  intros Hx. unfold threatScore. cbv zeta.
  set (n := length (List.filter _ neighbors)).
  assert (Hn : (n <= 4)%nat) by apply filter_length_le.
  clearbody n.
  assert (HN : isFinite ((lit 4 - ofNat n) * lit 1.5)%js = true).
  { apply AgentFacts.isFinite_mul; [| done]. by apply AgentFacts.isFinite_sub. }
  assert (EN : toR ((lit 4 - ofNat n) * lit 1.5)%js = (4 - INR n) * 1.5).
  { rewrite toR_mul, toR_sub, !toR_lit, toR_ofNat by (done || by apply AgentFacts.isFinite_sub).
    unfold Q2R. simpl. lra. }
  assert (Hn' : INR n <= 4).
  { apply le_INR in Hn. simpl in Hn. lra. }
  destruct (isFinite (brick_x b)) eqn:Hf.
  - set (c := Math_round _).
    assert (Hc : isFinite c = true).
    { apply isFinite_Math_round. apply AgentFacts.isFinite_div; [| done | done].
      by apply AgentFacts.isFinite_sub. }
    clearbody c.
    assert (Hd : isFinite (c - (BRICK_COLUMN_COUNT - lit 1) / lit 2)%js = true)
      by (by apply AgentFacts.isFinite_sub).
    pose proof (Math_abs_nonneg _ Hd) as Ha.
    pose proof (AgentFacts.isFinite_abs _ Hd) as Hfa.
    set (a := Math_abs _) in *. clearbody a.
    assert (Ht : isFinite (lit 0 + a)%js = true) by (by apply AgentFacts.isFinite_add).
    unfold gtb. apply ltb_toR; [done | by apply AgentFacts.isFinite_add |].
    rewrite !toR_add, EN, !toR_lit by done. unfold Q2R. simpl. lra.
  - set (N := ((lit 4 - ofNat n) * lit 1.5)%js) in *. clearbody N.
    destruct (brick_x b); try done; destruct N; done.
Qed.

Lemma findBest_searched (g : list (list Brick)) (l : list Brick) :
  searched g l
    (foldl (λ '(bestBrick, maxThreat) brick,
              let t := threatScore g brick in
              if (t >? maxThreat)%js then (Some brick, t) else (bestBrick, maxThreat))
       (None, lit (-1)) l).
Proof.
  induction l as [| x l IH] using rev_ind.
  { split; [| done]. intros b' Hb'. by apply not_elem_of_nil in Hb'. }
  rewrite foldl_app. cbn [foldl].
  destruct (foldl _ _ l) as [best m]. destruct IH as [Hmax Hbest].
  cbn [fst snd] in Hmax, Hbest. cbv zeta.
  destruct (threatScore g x >? m)%js eqn:E; split; cbn [fst snd].
  - intros b' [Hb' | ->%list_elem_of_singleton]%elem_of_app.
    + unfold gtb in *. by apply (ltb_chain m); [| apply Hmax].
    + apply ltb_irrefl.
  - split; [| done]. apply elem_of_app. right. by apply list_elem_of_singleton.
  - intros b' [Hb' | ->%list_elem_of_singleton]%elem_of_app; [by apply Hmax | done].
  - destruct best as [b |]; [| done]. destruct Hbest as [Hb ->].
    split; [| done]. apply elem_of_app. by left.
Qed.

(** X14. [findBestTargetBrick] returns a visible brick of the grid that is
    not golden and that no other such brick exceeds in threat; it returns
    nothing only when every visible brick that is not golden has NaN for its
    [x] (in particular when there is no such brick). *)
Theorem findBestTargetBrick_is_a_most_threatening_brick (g : list (list Brick)) :
  match findBestTargetBrick g with
  | Some b =>
      b ∈ concat g ∧ status b = true ∧ isGolden b = false
      ∧ ∀ b', b' ∈ concat g → status b' = true → isGolden b' = false →
              (threatScore g b' >? threatScore g b)%js = false
  | None =>
      ∀ b', b' ∈ concat g → status b' = true → isGolden b' = false →
            isNaN (brick_x b') = true
  end.
Proof.
  unfold findBestTargetBrick. cbv zeta.
  set (remaining := List.filter _ (concat g)).
  assert (Hrem : ∀ b, b ∈ remaining ↔ b ∈ concat g ∧ status b = true ∧ isGolden b = false).
  { intros b. unfold remaining. rewrite !list_elem_of_In, filter_In, andb_true_iff, negb_true_iff.
    done. }
  clearbody remaining.
  pose proof (findBest_searched g remaining) as [Hmax Hbest].
  destruct (foldl _ _ remaining) as [best m]. cbn [fst snd] in *.
  destruct best as [b |].
  - destruct Hbest as [Hb ->]. apply Hrem in Hb as (H1 & H2 & H3).
    split_and!; try done. intros b' Hb' Hs Hg. apply Hmax. by apply Hrem.
  - subst m. intros b' Hb' Hs Hg.
    destruct (isNaN (brick_x b')) eqn:Hx; [done |].
    apply (threatScore_above g) in Hx. rewrite Hmax in Hx; [done |]. by apply Hrem.
Qed.

End target_choice.

(** * Properties of the trainer *)

Section trainer_skill.
Import JsNumber JsReal Trainer.
Local Open Scope R_scope.

Lemma isNaN_neg (a : number) : isNaN a = false → isNaN (- a)%js = false.
Proof. destruct a; try done. intros _. cbn [neg]. by destruct (Qc_eq_bool _ _). Qed.

Lemma isNaN_add_finite (a b : number) :
  isFinite a = true → isNaN b = false → isNaN (a + b)%js = false.
Proof. by destruct a, b. Qed.

Lemma isNaN_mkFin (n : bool) (q : Qc) : isNaN (mkFin n q) = false.
Proof. unfold mkFin, mkZero. by destruct (Qc_eq_bool _ _), n. Qed.

Lemma isNaN_mul (a b : number) :
  isFinite a = true → isZero a = false → isNaN b = false → isNaN (a * b)%js = false.
Proof.
  intros Ha Hz Hb. unfold mul.
  rewrite (AgentFacts.isFinite_not_NaN a Ha), Hb, Hz. cbn [orb].
  assert (isInf a = false) as -> by (by destruct a). cbn [orb].
  destruct (isInf b) eqn:Hi.
  - assert (isZero b = false) as -> by (by destruct b).
    unfold mkInf. by destruct (xorb _ _).
  - apply isNaN_mkFin.
Qed.

Lemma isNaN_div (a b : number) :
  isNaN a = false → isFinite b = true → isZero b = false → isNaN (a / b)%js = false.
Proof.
  intros Ha Hb Hz. unfold div.
  rewrite Ha, (AgentFacts.isFinite_not_NaN b Hb), Hz. cbn [orb].
  assert (isInf b = false) as -> by (by destruct b).
  destruct (isInf a); [unfold mkInf; by destruct (xorb _ _) | apply isNaN_mkFin].
Qed.

Lemma ltb_not_NaN (a b : number) :
  (a <? b)%js = true → isNaN a = false ∧ isNaN b = false.
Proof. by destruct a, b. Qed.

(** [Math.max (m, Math.min (M, x))] for a number [x] that is not NaN. *)
Lemma clamp_between (m M x : number) :
  isFinite m = true → isFinite M = true → (m <=? M)%js = true → isNaN x = false →
  let r := Math_max m (Math_min M x) in
  isFinite r = true ∧ (m <=? r)%js = true ∧ (r <=? M)%js = true.
Proof.
  intros Hm HM HmM Hx. cbv zeta.
  assert (Hy : isFinite (Math_min M x) = true ∧ (Math_min M x <=? M)%js = true
               ∨ Math_min M x = NInf).
  { unfold Math_min. rewrite (AgentFacts.isFinite_not_NaN M HM), Hx. cbn [orb].
    destruct (M <? x)%js eqn:E1.
    - left. split; [done | by apply AgentFacts.leb_refl].
    - destruct (isFinite x) eqn:Hfx.
      + left. destruct (x <? M)%js eqn:E2; [split; [done | by apply AgentFacts.ltb_leb] |].
        destruct (isNeg M); [| split; [done | by apply AgentFacts.ltb_false_leb]].
        split; [done | by apply AgentFacts.leb_refl].
      + destruct x; try done.
        * by destruct M.
        * right. by destruct M. }
  destruct Hy as [[Hyf Hym] | ->].
  - revert Hyf Hym. generalize (Math_min M x). intros y Hyf Hym.
    unfold Math_max. rewrite (AgentFacts.isFinite_not_NaN y Hyf),
      (AgentFacts.isFinite_not_NaN m Hm). cbn [orb].
    destruct (m <? y)%js eqn:E1.
    + split; [done |]. split; [by apply AgentFacts.ltb_leb | done].
    + destruct (y <? m)%js eqn:E2.
      * split; [done |]. split; [by apply AgentFacts.leb_refl | done].
      * destruct (isNeg m).
        -- split; [done |]. split; [by apply AgentFacts.ltb_false_leb | done].
        -- split; [done |]. split; [by apply AgentFacts.leb_refl | done].
  - assert (Math_max m NInf = m) as -> by (by destruct m).
    split; [done |]. split; [by apply AgentFacts.leb_refl | done].
Qed.

Lemma newSkill_not_NaN (e : GameEnd) (skill : number) :
  isFinite skill = true →
  isNaN (match result e with
         | win =>
             skill + SKILL_INCREASE_ON_WIN
                     * (if isNaN (gameProductivity e) then lit 0.5
                        else gameProductivity e / lit 100)
         | loss =>
             skill - SKILL_DECREASE_ON_LOSS
                     * (lit 1 + (lit 1 - (if isNaN (gameProductivity e) then lit 0
                                          else gameProductivity e) / lit 100))
         end)%js = false.
Proof.
  intros Hs. destruct (result e).
  - apply isNaN_add_finite; [done |]. apply isNaN_mul; [done | done |].
    destruct (isNaN (gameProductivity e)) eqn:E; [done |]. by apply isNaN_div.
  - unfold sub. apply isNaN_add_finite; [done |]. apply isNaN_neg.
    apply isNaN_mul; [done | done |]. apply isNaN_add_finite; [done |].
    apply isNaN_add_finite; [done |]. apply isNaN_neg. apply isNaN_div; [| done | done].
    by destruct (isNaN (gameProductivity e)) eqn:E.
Qed.

Lemma updateInstance_skill (champ : option RankedInstance) (e : GameEnd) (o : Oracle)
    (inst : GameInstance) :
  isFinite (skillLevel inst) = true →
  let s := skillLevel (updateInstance champ e o inst) in
  isFinite s = true
  ∧ (MIN_SKILL_LEVEL <=? s)%js = true ∧ (s <=? MAX_SKILL_LEVEL)%js = true.
Proof.
  intros Hs. cbv zeta. unfold updateInstance. cbv zeta. cbn [skillLevel].
  apply clamp_between; try done.
  pose proof (newSkill_not_NaN e _ Hs) as Hn.
  set (ns := match result e with win => _ | loss => _ end) in *. clearbody ns.
  match goal with |- isNaN (if ?c then _ else _) = false => destruct c eqn:E end; [| done].
  apply andb_prop in E as [E _]. apply andb_prop in E as [_ E].
  unfold gtb in E. by apply ltb_not_NaN in E as [_ ?].
Qed.

(** X19. Whatever a finished game reports (a productivity that is NaN or
    infinite included) and whoever the champion is, an agent whose skill
    level was finite has afterwards a finite skill level between
    [MIN_SKILL_LEVEL] and [MAX_SKILL_LEVEL]. *)
Theorem skill_level_stays_in_range (champ : option RankedInstance) (e : GameEnd)
    (o : Oracle) (inst : GameInstance) :
  isFinite (skillLevel inst) = true →
  let s := skillLevel (updateInstance champ e o inst) in
  isFinite s = true
  ∧ (MIN_SKILL_LEVEL <=? s)%js = true ∧ (s <=? MAX_SKILL_LEVEL)%js = true.
Proof. apply updateInstance_skill. Qed.

End trainer_skill.

Section trainer_agents.
Import JsNumber JsReal Trainer.
Local Open Scope nat_scope.

Lemma updateInstance_ok (champ : option RankedInstance) (e : GameEnd) (o : Oracle)
    (inst : GameInstance) :
  agentOK inst → agentOK (updateInstance champ e o inst).
Proof.
  intros (Hf & Hlo & Hhi & Hw & Hl & Hc).
  destruct (updateInstance_skill champ e o inst Hf) as (H1 & H2 & H3).
  unfold agentOK. split; [done |]. split; [done |]. split; [done |].
  unfold updateInstance. cbv zeta.
  cbn [inst_gamesWon inst_gamesPlayed inst_initialLives careerProductivity].
  split; [destruct (result e); lia |].
  split; [destruct (result e); unfold INITIAL_LIVES; lia |].
  destruct (Nat.ltb_spec 0 (totalProductiveHits inst + productiveHits e
                            + (totalNonProductiveHits inst + nonProductiveHits e)))
    as [Ht | Ht]; [| done].
  apply share_is_percentage; lia.
Qed.

Lemma updateInstances_ids (ranked : list RankedInstance) (e : GameEnd)
    (oracle : nat → Oracle) (l : list GameInstance) :
  inst_id <$> updateInstances ranked e oracle l = inst_id <$> l.
Proof.
  unfold updateInstances. cbv zeta. apply list_eq. intros i.
  rewrite !list_lookup_fmap, list_lookup_imap.
  destruct (l !! i) as [inst |]; [| done]. simpl.
  by destruct (inst_id inst =? instanceId e).
Qed.

Lemma updateInstances_ok (ranked : list RankedInstance) (e : GameEnd)
    (oracle : nat → Oracle) (l : list GameInstance) :
  Forall agentOK l → Forall agentOK (updateInstances ranked e oracle l).
Proof.
  intros Hl. apply Forall_lookup. intros i inst' Hi.
  unfold updateInstances in Hi. cbv zeta in Hi. rewrite list_lookup_imap in Hi.
  destruct (l !! i) as [inst |] eqn:E; [| done]. simpl in Hi.
  pose proof (Forall_lookup_1 _ _ _ _ Hl E) as Hok.
  destruct (inst_id inst =? instanceId e); simplify_eq; [by apply updateInstance_ok | done].
Qed.

(** The games that the agents have on their records. *)
Lemma updateInstances_played (ranked : list RankedInstance) (e : GameEnd)
    (oracle : nat → Oracle) (l : list GameInstance) (k n : nat) :
  inst_id <$> l = seq k n →
  sum_list (inst_gamesPlayed <$> updateInstances ranked e oracle l)
  = sum_list (inst_gamesPlayed <$> l)
    + (if bool_decide (k ≤ instanceId e < k + n) then 1 else 0).
Proof.
  unfold updateInstances. cbv zeta. revert k l oracle.
  induction n as [| n IH]; intros k l oracle Hl.
  { destruct l; [| done]. simpl. case_bool_decide; lia. }
  destruct l as [| inst l]; [done |]. simpl in Hl. injection Hl as Hid Hl.
  rewrite imap_cons, !fmap_cons. cbn [sum_list].
  specialize (IH (S k) l (oracle ∘ S) Hl).
  rewrite (imap_ext _ (λ i inst, if inst_id inst =? instanceId e
                                 then updateInstance (head ranked) e ((oracle ∘ S) i) inst
                                 else inst)) by done.
  rewrite IH. rewrite Hid.
  destruct (Nat.eqb_spec k (instanceId e)) as [-> | Hne].
  - unfold updateInstance. cbv zeta. cbn [inst_gamesPlayed].
    rewrite bool_decide_eq_false_2 by lia. rewrite bool_decide_eq_true_2 by lia.
    cbv iota. unfold Datatypes.id. lia.
  - destruct (bool_decide (S k ≤ instanceId e < S k + n)) eqn:E.
    + apply bool_decide_eq_true in E. rewrite bool_decide_eq_true_2 by lia.
      cbv iota. unfold Datatypes.id. lia.
    + apply bool_decide_eq_false in E. rewrite bool_decide_eq_false_2 by lia.
      cbv iota. unfold Datatypes.id. lia.
Qed.

Lemma afterGames_ok (oracle : nat → Oracle)
    (games : list (list RankedInstance * GameEnd * (nat → Oracle))) :
  Forall agentOK (afterGames (initializeInstances oracle) games).
Proof.
  unfold afterGames. induction games as [| [[ranked e] orc] games IH] using rev_ind.
  { unfold initializeInstances. apply Forall_fmap, Forall_forall. intros i _.
    unfold agentOK. simpl. by vm_compute. }
  rewrite foldl_app. cbn [foldl]. by apply updateInstances_ok.
Qed.

(** X20. From [initializeInstances] on, through any series of finished
    games (whatever they report, whatever ranking the handler sees): there
    are always the six agents 0 to 5 in this order; each has a finite skill
    level between [MIN_SKILL_LEVEL] and [MAX_SKILL_LEVEL], no more wins than
    games, at most [INITIAL_LIVES + 1] lives for its next match, and a career
    productivity between 0 and 100; and the games on the agents' records
    are, together, the reported games that name one of the six. *)
Theorem agents_stay_in_good_standing (oracle : nat → Oracle)
    (games : list (list RankedInstance * GameEnd * (nat → Oracle))) :
  let agents := afterGames (initializeInstances oracle) games in
  inst_id <$> agents = seq 0 SIMULATION_GAME_COUNT
  ∧ Forall agentOK agents
  ∧ sum_list (inst_gamesPlayed <$> agents)
    = length (filter (λ g, instanceId g.1.2 < SIMULATION_GAME_COUNT) games).
Proof.
  cbv zeta. split_and!; [| apply afterGames_ok |].
  all: unfold afterGames; induction games as [| [[ranked e] orc] games IH] using rev_ind;
    [done | rewrite foldl_app; cbn [foldl]].
  { by rewrite updateInstances_ids. }
  assert (Hids : inst_id <$> afterGames (initializeInstances oracle) games
                 = seq 0 SIMULATION_GAME_COUNT).
  { clear IH. unfold afterGames.
    induction games as [| [[ranked' e'] orc'] games IH] using rev_ind; [done |].
    rewrite foldl_app. cbn [foldl]. by rewrite updateInstances_ids. }
  unfold afterGames in Hids. rename IH into Hsum.
  rewrite (updateInstances_played _ _ _ _ 0 SIMULATION_GAME_COUNT) by done.
  rewrite Hsum, filter_app, length_app. f_equal.
  rewrite filter_cons, filter_nil. cbn [fst snd].
  destruct (decide (instanceId e < SIMULATION_GAME_COUNT)).
  - rewrite bool_decide_eq_true_2 by lia. done.
  - rewrite bool_decide_eq_false_2 by lia. done.
Qed.

End trainer_agents.

Section trainer_statistics.
Import JsNumber JsReal Trainer.
Local Open Scope R_scope.

Lemma toR_LOSS_PENALTY : toR LOSS_PENALTY_SECONDS = 120.
Proof. unfold LOSS_PENALTY_SECONDS. rewrite toR_lit. unfold Q2R. simpl. lra. Qed.

Lemma effectiveTimeOf_finite (e : GameEnd) :
  isFinite (time e) = true → isFinite (effectiveTimeOf e) = true.
Proof.
  intros H. unfold effectiveTimeOf. destruct (result e); [done |].
  by apply AgentFacts.isFinite_add.
Qed.

(** The running mean: the new average times the new count is the old
    average times the old count, plus the new value. *)
Lemma running_mean (avg x : number) (n : nat) :
  isFinite avg = true → isFinite x = true →
  let avg' := (avg + (x - avg) / ofNat (n + 1))%js in
  isFinite avg' = true ∧ toR avg' * INR (n + 1) = toR avg * INR n + toR x.
Proof.
  intros Ha Hx. cbv zeta.
  assert (Hz : isZero (ofNat (n + 1)) = false) by (apply isZero_ofNat; lia).
  assert (Hs : isFinite (x - avg)%js = true) by (by apply AgentFacts.isFinite_sub).
  assert (Hd : isFinite ((x - avg) / ofNat (n + 1))%js = true)
    by (by apply AgentFacts.isFinite_div).
  split; [by apply AgentFacts.isFinite_add |].
  rewrite toR_add, toR_div, toR_sub, toR_ofNat by done.
  rewrite plus_INR. simpl (INR 1).
  assert (0 <= INR n) by apply pos_INR. field. lra.
Qed.

Lemma sumR_app (l1 l2 : list R) : sumR (l1 ++ l2) = sumR l1 + sumR l2.
Proof. unfold sumR. induction l1 as [| x l1 IH]; simpl; [lra | rewrite IH; lra]. Qed.

Lemma wonGames_snoc (games : list GameEnd) (e : GameEnd) :
  length (wonGames (games ++ [e]))
  = (length (wonGames games) + match result e with win => 1 | loss => 0 end)%nat.
Proof.
  unfold wonGames. rewrite filter_app, length_app, filter_cons, filter_nil.
  destruct (decide (won e = true)) as [H | H]; unfold won in H;
    destruct (result e); try done; simpl; lia.
Qed.

Lemma updateSharedData_balance (games : list GameEnd) (e : GameEnd) (d : AIStrategyData) :
  isFinite (time e) = true →
  statisticsBalance games d → statisticsBalance (games ++ [e]) (updateSharedData e d).
Proof.
  intros Ht (Hp & Hw & Hk). pose proof (effectiveTimeOf_finite e Ht) as Hf.
  unfold statisticsBalance, updateSharedData. cbv zeta.
  cbn [gamesPlayed gamesWon strategyPerformance].
  split; [rewrite length_app; simpl; lia |].
  split.
  { rewrite wonGames_snoc. destruct (result e); lia. }
  intros k. destruct (decide (playedStrategy e = k)) as [<- | Hne].
  - rewrite lookup_insert_eq. cbn [plays wins avgTime].
    specialize (Hk (playedStrategy e)).
    assert (Ho : openedWith (playedStrategy e) (games ++ [e])
                 = openedWith (playedStrategy e) games ++ [e]).
    { unfold openedWith. rewrite filter_app, filter_cons, filter_nil.
      by rewrite decide_True. }
    rewrite Ho, wonGames_snoc, fmap_app, sumR_app, !length_app.
    destruct (strategyPerformance d !! playedStrategy e) as [p |]; cbn [from_option Datatypes.id].
    + destruct Hk as (H1 & H2 & H3 & H4 & H5).
      destruct (running_mean (avgTime p) (effectiveTimeOf e) (plays p) H4 Hf) as [H6 H7].
      split; [simpl; lia |]. split; [destruct (result e); lia |].
      split; [lia |]. split; [done |].
      rewrite H7, H5. unfold sumR. simpl. lra.
    + rewrite Hk. cbn [plays wins avgTime].
      destruct (running_mean (lit 0) (effectiveTimeOf e) 0 eq_refl Hf) as [H6 H7].
      split; [done |]. split; [by destruct (result e) |].
      split; [simpl; lia |]. split; [done |].
      change (0 + 1)%nat with 1%nat in *. rewrite H7, toR_lit_0. unfold sumR. simpl. lra.
  - rewrite lookup_insert_ne by done. specialize (Hk k).
    assert (Ho : openedWith k (games ++ [e]) = openedWith k games).
    { unfold openedWith. rewrite filter_app, filter_cons, filter_nil.
      rewrite decide_False by done. by rewrite app_nil_r. }
    by rewrite Ho.
Qed.

(** X21. Starting from empty statistics, after any series of reported
    games with finite times: [gamesPlayed] and [gamesWon] count the games and
    the wins; a strategy has an entry exactly when a game opened with it, and
    then [plays] and [wins] count those games and [avgTime] is the mean of
    their effective times (the time, plus [LOSS_PENALTY_SECONDS] for a
    loss). *)
Theorem strategy_statistics_are_counts_and_means (games : list GameEnd) :
  Forall (λ e, isFinite (time e) = true) games →
  let d := afterReports emptyAIData games in
  gamesPlayed d = length games
  ∧ gamesWon d = length (wonGames games)
  ∧ ∀ k,
      match strategyPerformance d !! k with
      | None => openedWith k games = []
      | Some p =>
          plays p = length (openedWith k games)
          ∧ wins p = length (wonGames (openedWith k games))
          ∧ (0 < plays p)%nat
          ∧ isFinite (avgTime p) = true
          ∧ toR (avgTime p) * INR (plays p)
            = sumR ((λ e, toR (effectiveTimeOf e)) <$> openedWith k games)
      end.
Proof.
  intros Hg. cbv zeta. change (statisticsBalance games (afterReports emptyAIData games)).
  unfold afterReports. induction games as [| e games IH] using rev_ind.
  { split; [done |]. split; [done |]. intros k.
    cbn [foldl]. unfold emptyAIData. cbn [strategyPerformance]. by rewrite lookup_empty. }
  apply Forall_app in Hg as [Hg He]. apply Forall_inv in He.
  rewrite foldl_app. cbn [foldl]. apply updateSharedData_balance; [done | by apply IH].
Qed.

End trainer_statistics.

Section trainer_and_engine.
Import JsNumber JsReal.
Local Open Scope R_scope.

Lemma isNeg_ofNat (n : nat) : isNeg (ofNat n) = false.
Proof.
  unfold ofNat, lit. cbn [isNeg]. destruct (Qcltb _ _) eqn:E; [| done].
  apply Qcltb_toR in E. rewrite toR_zero in E.
  change (Q2R (this (Q2Qc (inject_Z (Z.of_nat n))))) with (toR (ofNat n)) in E.
  rewrite toR_ofNat in E. pose proof (pos_INR n). lra.
Qed.

Lemma mkFin_false (q : Qc) : mkFin false q = Fin q.
Proof.
  unfold mkFin. destruct (Qc_eq_bool q (Q2Qc 0)) eqn:E; [| done].
  apply Qc_eq_bool_correct in E. by rewrite E.
Qed.

Lemma Fin_toR_inj (p q : Qc) : toR (Fin p) = toR (Fin q) → Fin p = Fin q.
Proof.
  unfold toR. cbn [val]. intros H. f_equal. apply Qc_is_canon.
  by apply Qreals.eqR_Qeq.
Qed.

(** A score of [POINTS_PER_BRICK] a brick, divided by [POINTS_PER_BRICK], is
    the number of bricks again, exactly. *)
Lemma score_per_brick (h : nat) :
  (ofNat (POINTS_PER_BRICK * h) / ofNat POINTS_PER_BRICK)%js = ofNat h.
Proof.
  assert (Hz : isZero (ofNat POINTS_PER_BRICK) = false) by (apply isZero_ofNat; unfold POINTS_PER_BRICK; lia).
  assert (E : toR (ofNat (POINTS_PER_BRICK * h) / ofNat POINTS_PER_BRICK)%js
              = toR (ofNat h)).
  { rewrite toR_div, !toR_ofNat, mult_INR by done.
    unfold POINTS_PER_BRICK. simpl (INR 10). field. }
  revert E. unfold div. rewrite Hz. rewrite !isNeg_ofNat. cbn [isNaN isInf ofNat lit orb xorb].
  rewrite mkFin_false. apply Fin_toR_inj.
Qed.

(** X22. When a match of the engine is reported to [handleGameEnd] with
    its score, [totalBricksDestroyed] grows by exactly the number of bricks
    broken in that match: the bricks of the layout that are no longer
    visible. *)
Theorem reported_score_adds_the_broken_bricks (props : GameProps) (m : MatchSetup)
    (inputs : nat → FrameInput) (n : nat) :
  ∃ s broken, run props m inputs n = Some s
    ∧ (broken + aliveCount (bricks s))%nat = length (availableBricks (layout m))
    ∧ ∀ id res time strategy lives productivity p np jackpots d,
        Trainer.totalBricksDestroyed
          (Trainer.updateSharedData
             (Trainer.mkGameEnd id res (score s) time strategy lives productivity
                p np jackpots) d)
        = (Trainer.totalBricksDestroyed d + ofNat broken)%js.
Proof.
  destruct (run_books props m inputs n) as (s & E & Hsc & Hal).
  exists s, (productiveHits s). split; [done |]. split; [done |].
  intros. unfold Trainer.updateSharedData. cbv zeta.
  cbn [Trainer.totalBricksDestroyed Trainer.score].
  by rewrite Hsc, score_per_brick.
Qed.

End trainer_and_engine.

Section trainer_ranking.
Import JsNumber JsReal Trainer.
Local Open Scope R_scope.

Lemma insertSorted_Permutation {A : Type} (cmp : A → A → number) (x : A) (l : list A) :
  insertSorted cmp x l ≡ₚ x :: l.
Proof.
  induction l as [| y l IH]; [done |]. cbn [insertSorted].
  destruct (cmp x y <? lit 0)%js; [done |]. rewrite IH. apply Permutation_swap.
Qed.

Lemma sort_Permutation {A : Type} (cmp : A → A → number) (l : list A) :
  sort cmp l ≡ₚ l.
Proof.
  unfold sort. induction l as [| x l IH] using rev_ind; [done |].
  rewrite foldl_app. cbn [foldl]. rewrite insertSorted_Permutation, IH.
  by rewrite Permutation_app_comm.
Qed.

(** An element that the comparator sends before no element of the list goes
    to its end. *)
Lemma insertSorted_last {A : Type} (cmp : A → A → number) (x : A) (l : list A) :
  (∀ y, y ∈ l → (cmp x y <? lit 0)%js = false) → insertSorted cmp x l = l ++ [x].
Proof.
  induction l as [| y l IH]; intros H; [done |]. cbn [insertSorted].
  rewrite H by (by left). simpl. f_equal. apply IH. intros z Hz. apply H. by right.
Qed.

Lemma efficiency_finite (inst : GameInstance) :
  isFinite (efficiency (withPerformance inst)) = true.
Proof.
  unfold withPerformance. cbv zeta. cbn [efficiency].
  destruct (_ && _) eqn:E; [| done]. apply andb_prop in E as [_ E].
  unfold gtb in E. destruct (AgentFacts.positive_not_zero _ E) as [H1 H2].
  by apply AgentFacts.isFinite_div.
Qed.

Lemma insertSorted_sorted (x : RankedInstance) (l : list RankedInstance) :
  isFinite (efficiency x) = true →
  Forall (λ a, isFinite (efficiency a) = true) l →
  StronglySorted outranks l → StronglySorted outranks (insertSorted byEfficiency x l).
Proof.
  intros Hx. induction l as [| y l IH]; intros Hl Hs; cbn [insertSorted].
  { by repeat constructor. }
  apply Forall_cons in Hl as [Hy Hl]. apply StronglySorted_inv in Hs as [Hs Hys].
  assert (Hd : isFinite (byEfficiency x y) = true) by (by apply AgentFacts.isFinite_sub).
  destruct (byEfficiency x y <? lit 0)%js eqn:E.
  - apply ltb_toR in E; [| done | done]. unfold byEfficiency in E.
    rewrite toR_sub, toR_lit_0 in E by done.
    constructor; [by constructor |]. constructor; [unfold outranks; lra |].
    eapply Forall_impl; [exact Hys |]. unfold outranks. intros z Hz. simpl in Hz. lra.
  - apply ltb_false_toR in E; [| done | done]. unfold byEfficiency in E.
    rewrite toR_sub, toR_lit_0 in E by done.
    constructor; [by apply IH |].
    rewrite insertSorted_Permutation. constructor; [unfold outranks; lra | done].
Qed.

Lemma StronglySorted_lookup {A : Type} (R : A → A → Prop) (l : list A) (i j : nat) (a b : A) :
  StronglySorted R l → (i < j)%nat → l !! i = Some a → l !! j = Some b → R a b.
Proof.
  intros Hs. revert i j. induction Hs as [| x l Hs IH Hx]; intros i j Hij Hi Hj; [done |].
  destruct j as [| j]; [lia |]. simpl in Hj. destruct i as [| i].
  - simpl in Hi. injection Hi as ->. eapply Forall_forall; [exact Hx |].
    by eapply list_elem_of_lookup_2.
  - simpl in Hi. apply (IH i j); [lia | done | done].
Qed.

(** X23. [rankedInstances] holds the same agents as the instances, each
    with a finite efficiency, ordered so that no agent is less efficient than
    one after it (the champion at the head is a most efficient one); and as
    long as no agent has won twice, every efficiency is 0 and the ranking is
    the order of the instances. *)
Theorem ranking_is_by_efficiency (gameInstances : list GameInstance) :
  let ranked := rankedInstances gameInstances in
  ranked ≡ₚ withPerformance <$> gameInstances
  ∧ Forall (λ a, isFinite (efficiency a) = true) ranked
  ∧ (∀ i j a b, (i < j)%nat → ranked !! i = Some a → ranked !! j = Some b →
       (efficiency a <? efficiency b)%js = false)
  ∧ ((∀ inst, inst ∈ gameInstances → (inst_gamesWon inst <= 1)%nat) →
     ranked = withPerformance <$> gameInstances).
Proof.
  cbv zeta. unfold rankedInstances.
  assert (Hfin : Forall (λ a, isFinite (efficiency a) = true)
                   (withPerformance <$> gameInstances)).
  { apply Forall_fmap, Forall_forall. intros inst _. apply efficiency_finite. }
  assert (Hperm := sort_Permutation byEfficiency (withPerformance <$> gameInstances)).
  assert (Hfin' : Forall (λ a, isFinite (efficiency a) = true)
                    (sort byEfficiency (withPerformance <$> gameInstances))).
  { by rewrite Hperm. }
  split; [done |]. split; [done |]. split.
  - assert (Hs : StronglySorted outranks
                   (sort byEfficiency (withPerformance <$> gameInstances))).
    { revert Hfin. generalize (withPerformance <$> gameInstances). intros l.
      unfold sort. induction l as [| x l IH] using rev_ind; intros Hl; [constructor |].
      apply Forall_app in Hl as [Hl Hx]. apply Forall_inv in Hx.
      rewrite foldl_app. cbn [foldl]. apply insertSorted_sorted; [done | | by apply IH].
      change (foldl _ [] l) with (sort byEfficiency l). by rewrite sort_Permutation. }
    intros i j a b Hij Ha Hb.
    pose proof (StronglySorted_lookup _ _ _ _ _ _ Hs Hij Ha Hb) as Hab.
    assert (Hfa : isFinite (efficiency a) = true).
    { eapply (proj1 (Forall_forall _ _) Hfin'). by eapply list_elem_of_lookup_2. }
    assert (Hfb : isFinite (efficiency b) = true).
    { eapply (proj1 (Forall_forall _ _) Hfin'). by eapply list_elem_of_lookup_2. }
    apply (proj2 (ltb_false_toR _ _ Hfa Hfb)). exact Hab.
  - intros Hw. clear Hfin Hperm Hfin'. unfold sort.
    induction gameInstances as [| inst l IH] using rev_ind; [done |].
    rewrite fmap_app, foldl_app. cbn [foldl fmap list_fmap].
    rewrite IH by (intros i Hi; apply Hw, elem_of_app; by left).
    apply insertSorted_last. intros y Hy. apply list_elem_of_fmap in Hy as (i & -> & Hi).
    assert (Hz : ∀ i, (inst_gamesWon i <= 1)%nat → efficiency (withPerformance i) = lit 0).
    { intros i' Hi'. unfold withPerformance. cbv zeta. cbn [efficiency].
      destruct (Nat.ltb_spec 1 (inst_gamesWon i')); [lia | done]. }
    unfold byEfficiency. rewrite !Hz; [done | | ].
    + apply Hw, elem_of_app. right. by apply list_elem_of_singleton.
    + apply Hw, elem_of_app. by left.
Qed.

End trainer_ranking.

(** * Properties of the particles *)

Section particles.
Local Open Scope nat_scope.

Lemma turnsBelow_spec (count : R) (i : nat) :
  i < turnsBelow count ↔ (INR i < count)%R.
Proof.
  unfold turnsBelow. destruct (archimed (- count)) as [H1 H2].
  set (z := up (- count)) in *. clearbody z. rewrite INR_IZR_INZ. split.
  - intros H. assert (Z.of_nat i <= - z)%Z as Hz by lia.
    apply IZR_le in Hz. rewrite opp_IZR in Hz. lra.
  - intros H. assert (IZR (Z.of_nat i) < IZR (1 - z))%R as Hz.
    { rewrite minus_IZR. lra. }
    apply lt_IZR in Hz. lia.
Qed.

Lemma turnsBelow_unique (count : R) (n : nat) :
  (∀ i : nat, i < n ↔ (INR i < count)%R) → turnsBelow count = n.
Proof.
  intros H.
  destruct (Nat.lt_trichotomy (turnsBelow count) n) as [Hlt | [E | Hgt]]; [| done |].
  - apply (proj1 (H _)), (proj2 (turnsBelow_spec _ _)) in Hlt. lia.
  - apply (proj1 (turnsBelow_spec _ _)), (proj2 (H _)) in Hgt. lia.
Qed.

Lemma turnsBelow_whole (n : nat) : turnsBelow (INR n) = n.
Proof.
  apply turnsBelow_unique. intros i. split; [apply lt_INR | apply INR_lt].
Qed.

Lemma turnsBelow_half (n : nat) : turnsBelow (INR n + / 2) = S n.
Proof.
  apply turnsBelow_unique. intros i. split.
  - intros H. assert (i ≤ n) as H' by lia. apply le_INR in H'. lra.
  - intros H. destruct (Nat.lt_ge_cases i (S n)) as [| H']; [done |].
    apply le_INR in H'. rewrite S_INR in H'. lra.
Qed.

Lemma turnsBelow_brick (golden : bool) :
  turnsBelow (PARTICLE_COUNT / (if golden then 0.5 else 2))
  = if golden then 30 else 8.
Proof.
  destruct golden.
  - replace (PARTICLE_COUNT / 0.5)%R with (INR 30); [apply turnsBelow_whole |].
    unfold PARTICLE_COUNT. rewrite INR_IZR_INZ. change (Z.of_nat 30) with 30%Z. lra.
  - replace (PARTICLE_COUNT / 2)%R with (INR 7 + / 2)%R; [apply turnsBelow_half |].
    unfold PARTICLE_COUNT. rewrite INR_IZR_INZ. change (Z.of_nat 7) with 7%Z. lra.
Qed.

(** The loop pushes one particle for each whole number below [count], as
    long as it is given turns enough. *)
Lemma pushWhileBelow_spec (turns i : nat) (count : R) (particle : nat → Particle)
    (ps : list Particle) :
  i ≤ turnsBelow count → turnsBelow count - i ≤ turns →
  pushWhileBelow turns i count particle ps
  = ps ++ (particle <$> seq i (turnsBelow count - i)).
Proof.
  revert i ps. induction turns as [| turns IH]; intros i ps Hi Ht.
  { cbn [pushWhileBelow]. replace (turnsBelow count - i) with 0 by lia.
    by rewrite app_nil_r. }
  cbn [pushWhileBelow]. case_bool_decide as Hc.
  - apply turnsBelow_spec in Hc. rewrite IH by lia.
    replace (turnsBelow count - i) with (S (turnsBelow count - S i)) by lia.
    cbn [seq fmap list_fmap]. by rewrite <- app_assoc.
  - assert (¬ i < turnsBelow count) as Hn by (by rewrite turnsBelow_spec).
    replace (turnsBelow count - i) with 0 by lia. by rewrite app_nil_r.
Qed.

Lemma turnsBelow_up (count : R) : turnsBelow count ≤ Z.to_nat (up count).
Proof.
  destruct (turnsBelow count) as [| n] eqn:E; [lia |].
  assert (n < turnsBelow count) as H by lia.
  apply turnsBelow_spec in H. destruct (archimed count) as [H1 _].
  rewrite INR_IZR_INZ in H.
  assert (IZR (Z.of_nat n) < IZR (up count))%R as Hz by lra.
  apply lt_IZR in Hz. lia.
Qed.

Lemma createParticleExplosion_spec (rand : nat → R) (x y : R) (color : String.string)
    (count speed : R) (ps : list Particle) :
  ∃ new, createParticleExplosion rand x y color count speed ps = ps ++ new
       ∧ length new = turnsBelow count
       ∧ Forall (λ p, life p = PARTICLE_LIFESPAN ∧ alpha p = 1%R) new.
Proof.
  unfold createParticleExplosion.
  rewrite pushWhileBelow_spec; [| lia | pose proof (turnsBelow_up count); lia].
  eexists. split; [done |]. split.
  - rewrite length_fmap, length_seq. lia.
  - apply Forall_fmap, Forall_forall. by intros i _.
Qed.

Lemma forEachParticle_beyond (left index : nat) (ps : list Particle) :
  length ps ≤ index → forEachParticle left index ps = ps.
Proof.
  revert index. induction left as [| left IH]; intros index H; [done |].
  cbn [forEachParticle]. rewrite lookup_ge_None_2 by done. apply IH. lia.
Qed.

(** What the walk does to the particles not yet visited, as long as none of
    them dies: it advances each. *)
Lemma forEachParticle_advance (left : nat) (pre rest : list Particle) :
  Forall (λ p, (2 <= life p)%Z) rest → length rest ≤ left →
  forEachParticle left (length pre) (pre ++ rest) = pre ++ (advance <$> rest).
Proof.
  revert pre rest. induction left as [| left IH]; intros pre rest Hr Hl.
  { destruct rest; [by rewrite fmap_nil | simpl in Hl; lia]. }
  destruct rest as [| p rest].
  { rewrite fmap_nil. apply forEachParticle_beyond. rewrite app_nil_r. lia. }
  apply Forall_cons in Hr as [Hp Hr]. cbn [forEachParticle].
  rewrite list_lookup_middle by done. cbv zeta.
  assert ((life (advance p) <=? 0)%Z = false) as ->.
  { apply Z.leb_gt. cbn [advance life]. lia. }
  replace (<[length pre := advance p]> (pre ++ p :: rest))
    with ((pre ++ [advance p]) ++ rest).
  - replace (S (length pre)) with (length (pre ++ [advance p]))
      by (rewrite length_app; simpl; lia).
    rewrite IH; [| done | simpl in Hl; lia]. by rewrite <- app_assoc.
  - rewrite <- app_assoc. simpl.
    rewrite <- (Nat.add_0_r (length pre)). by rewrite insert_app_r.
Qed.

(** When every particle not yet visited is in its last frame, the walk
    removes one and steps over the next. *)
Lemma forEachParticle_last_frame (left : nat) (pre rest : list Particle) :
  Forall (λ p, life p = 1%Z) rest → length rest ≤ left →
  forEachParticle left (length pre) (pre ++ rest) = pre ++ everySecond rest.
Proof.
  revert pre rest. induction left as [| left IH]; intros pre rest Hr Hl.
  { destruct rest; [done | simpl in Hl; lia]. }
  destruct rest as [| p rest].
  { apply forEachParticle_beyond. rewrite app_nil_r. lia. }
  apply Forall_cons in Hr as [Hp Hr]. cbn [forEachParticle].
  rewrite list_lookup_middle by done. cbv zeta.
  assert ((life (advance p) <=? 0)%Z = true) as ->.
  { apply Z.leb_le. cbn [advance life]. lia. }
  replace (<[length pre := advance p]> (pre ++ p :: rest))
    with (pre ++ advance p :: rest).
  2:{ rewrite <- (Nat.add_0_r (length pre)). by rewrite insert_app_r. }
  rewrite delete_middle. destruct rest as [| q rest].
  { apply forEachParticle_beyond. rewrite app_nil_r. lia. }
  apply Forall_cons in Hr as [Hq Hr].
  replace (pre ++ q :: rest) with ((pre ++ [q]) ++ rest) by (by rewrite <- app_assoc).
  replace (S (length pre)) with (length (pre ++ [q])) by (rewrite length_app; simpl; lia).
  rewrite IH; [| done | simpl in Hl; lia]. by rewrite <- app_assoc.
Qed.

Lemma length_everySecond {A : Type} (l : list A) : length (everySecond l) = length l / 2.
Proof.
  assert (H : ∀ n (l : list A), length l ≤ n → length (everySecond l) = length l / 2).
  { intros n. induction n as [| n IH]; intros k Hk.
    - destruct k; [reflexivity | simpl in Hk; lia].
    - destruct k as [| a [| b k]]; [reflexivity | reflexivity |]. simpl in Hk.
      cbn [everySecond length]. rewrite IH by lia.
      replace (S (S (length k))) with (1 * 2 + length k) by lia.
      rewrite Nat.div_add_l by lia. lia. }
  by apply (H (length l)).
Qed.

Lemma drawParticles_before_last (ps : list Particle) (n : Z) :
  (2 <= n)%Z → Forall (λ p, life p = n) ps →
  drawParticles ps = advance <$> ps ∧ Forall (λ p, life p = (n - 1)%Z) (drawParticles ps).
Proof.
  intros Hn Hps.
  assert (E : drawParticles ps = advance <$> ps).
  { unfold drawParticles. apply (forEachParticle_advance (length ps) [] ps); [| done].
    eapply Forall_impl; [exact Hps |]. intros p Hp. simpl in Hp. lia. }
  split; [done |]. rewrite E. apply Forall_fmap.
  eapply Forall_impl; [exact Hps |]. intros p Hp. simpl in *. lia.
Qed.

Lemma frames_before_last (k : nat) (ps : list Particle) (n : Z) :
  (Z.of_nat k < n)%Z → Forall (λ p, life p = n) ps →
  Forall (λ p, life p = (n - Z.of_nat k)%Z) (Nat.iter k drawParticles ps)
  ∧ length (Nat.iter k drawParticles ps) = length ps.
Proof.
  intros Hk Hps. induction k as [| k IH].
  { simpl. split; [| done]. eapply Forall_impl; [exact Hps |]. intros p Hp. simpl in *. lia. }
  destruct IH as [IH1 IH2]; [lia |].
  change (Nat.iter (S k) drawParticles ps) with (drawParticles (Nat.iter k drawParticles ps)).
  assert (Hn : (2 <= n - Z.of_nat k)%Z) by lia.
  destruct (drawParticles_before_last _ _ Hn IH1) as [E H].
  split.
  - eapply Forall_impl; [exact H |]. intros p Hp. simpl in *. lia.
  - by rewrite E, length_fmap.
Qed.

Lemma delete_insert_same {A : Type} (l : list A) (i : nat) (x : A) :
  delete i (<[i := x]> l) = delete i l.
Proof.
  revert i. induction l as [| y l IH]; intros [| i]; simpl; try done. by rewrite IH.
Qed.

Lemma advance_inFlight (p : Particle) :
  inFlight p → (0 < life (advance p))%Z → inFlight (advance p).
Proof.
  intros [H1 H2] H. unfold inFlight in *. cbn [advance life alpha] in *.
  split; [lia | by right].
Qed.

Lemma forEachParticle_inFlight (left index : nat) (l : list Particle) :
  Forall inFlight l →
  Forall inFlight (forEachParticle left index l)
  ∧ length (forEachParticle left index l) ≤ length l.
Proof.
  revert index l. induction left as [| left IH]; intros index l Hl; [done |].
  cbn [forEachParticle]. destruct (l !! index) as [p |] eqn:E; [| by apply IH].
  cbv zeta. pose proof (Forall_lookup_1 _ _ _ _ Hl E) as Hp.
  destruct (Z.leb_spec (life (advance p)) 0) as [Hd | Hd].
  - rewrite delete_insert_same.
    destruct (IH (S index) (delete index l)) as [H1 H2]; [by apply Forall_delete |].
    split; [done |]. rewrite length_delete in H2 by done. lia.
  - destruct (IH (S index) (<[index := advance p]> l)) as [H1 H2].
    + apply Forall_insert; [done | by apply advance_inFlight].
    + split; [done |]. by rewrite length_insert in H2.
Qed.

Lemma inFlight_alpha (p : Particle) : inFlight p → (0 < alpha p <= 1)%R.
Proof.
  intros [[H1 H2] [-> | ->]]; [lra |].
  apply IZR_le in H1, H2. unfold PARTICLE_LIFESPAN in *.
  split.
  - apply Rdiv_lt_0_compat; lra.
  - apply (Rmult_le_reg_r 40); [lra |]. unfold Rdiv. rewrite Rmult_assoc, Rinv_l by lra. lra.
Qed.

Lemma Forall_everySecond {A : Type} (P : A → Prop) (l : list A) :
  Forall P l → Forall P (everySecond l).
Proof.
  assert (H : ∀ n (l : list A), length l ≤ n → Forall P l → Forall P (everySecond l)).
  { intros n. induction n as [| n IH]; intros k Hk Hl.
    - destruct k; [constructor | simpl in Hk; lia].
    - destruct k as [| a [| b k]]; [constructor | constructor |]. simpl in Hk.
      apply Forall_cons in Hl as [_ Hl]. apply Forall_cons in Hl as [Hb Hl].
      cbn [everySecond]. constructor; [done |]. apply IH; [lia | done]. }
  by apply (H (length l)).
Qed.

(** X24. Every particle in the array is in flight, whatever the program
    does to the array.  If every particle has between 1 and
    [PARTICLE_LIFESPAN] frames of life and the [alpha] it was made with or
    [life / PARTICLE_LIFESPAN], the same holds after [drawParticles], with an
    [alpha] above 0 and at most 1 and no particle added; after
    [createParticleExplosion], which adds one particle for each whole number
    from 0 below [count], so 8 for the 7.5 that an ordinary brick's explosion
    asks for and 30 for a golden brick's; and after [triggerFlickShotEffect],
    which adds 10. *)
Theorem particles_stay_in_flight (ps : list Particle) :
  Forall inFlight ps →
  Forall (λ p, inFlight p ∧ (0 < alpha p <= 1)%R) (drawParticles ps)
  ∧ length (drawParticles ps) ≤ length ps
  ∧ (∀ rand x y color count speed,
       Forall inFlight (createParticleExplosion rand x y color count speed ps)
       ∧ length (createParticleExplosion rand x y color count speed ps)
         = length ps + turnsBelow count
       ∧ ∀ i : nat, i < turnsBelow count ↔ (INR i < count)%R)
  ∧ (∀ rand color brick,
       Forall inFlight (triggerBrickBreakEffects rand color brick ps)
       ∧ length (triggerBrickBreakEffects rand color brick ps)
         = length ps + (if isGolden brick then 30 else 8))
  ∧ (∀ rand x y direction,
       Forall inFlight (triggerFlickShotEffect rand x y direction ps)
       ∧ length (triggerFlickShotEffect rand x y direction ps) = length ps + 10).
Proof.
  intros Hps.
  assert (Hnew : ∀ rand x y color count speed,
             Forall inFlight (createParticleExplosion rand x y color count speed ps)
             ∧ length (createParticleExplosion rand x y color count speed ps)
               = length ps + turnsBelow count).
  { intros rand x y color count speed.
    destruct (createParticleExplosion_spec rand x y color count speed ps)
      as (new & -> & Hl & Hn).
    split; [| by rewrite length_app, Hl].
    apply Forall_app. split; [done |].
    eapply Forall_impl; [exact Hn |]. intros p [Hl' Ha]. unfold inFlight.
    rewrite Hl'. unfold PARTICLE_LIFESPAN. split; [lia | by left]. }
  unfold drawParticles.
  destruct (forEachParticle_inFlight (length ps) 0 ps Hps) as [H1 H2].
  split.
  { eapply Forall_impl; [exact H1 |]. intros p Hp. split; [done | by apply inFlight_alpha]. }
  split; [done |]. split.
  { intros rand x y color count speed.
    destruct (Hnew rand x y color count speed) as [H3 H4].
    split; [done |]. split; [done |]. intros i. apply turnsBelow_spec. }
  split.
  { intros rand color brick. unfold triggerBrickBreakEffects.
    destruct (Hnew rand (brick_x brick + BRICK_WIDTH / 2)%R
                (brick_y brick + BRICK_HEIGHT / 2)%R color
                (PARTICLE_COUNT / (if isGolden brick then 0.5 else 2))%R
                (PARTICLE_SPEED * (if isGolden brick then 1.5 else 1))%R) as [H3 H4].
    split; [done |]. by rewrite H4, turnsBelow_brick. }
  intros rand x y direction. unfold triggerFlickShotEffect. split.
  - apply Forall_app. split; [done |]. apply Forall_fmap, Forall_forall.
    intros i _. unfold inFlight. cbn [life alpha]. split; [done | by left].
  - by rewrite length_app, length_fmap, length_seq.
Qed.

(** X25. The particles of an explosion do not vanish together.  One frame
    before their life is over ([frames + 1 = PARTICLE_LIFESPAN]) all the
    particles of an explosion, one for each whole number below [count], are
    in their last frame; the next frame removes every other one and steps
    over the particle behind each removed one, which is neither moved nor
    aged: half of them (rounded down) are still in the array, with one frame
    of life left.  Of the 8 particles of an ordinary brick's explosion
    ([count] is 7.5) 4 are left, of the 30 of a golden brick's 15. *)
Theorem explosion_outlives_its_lifespan (rand : nat → R) (x y : R)
    (color : String.string) (count speed : R) (frames : nat) :
  (Z.of_nat frames + 1)%Z = PARTICLE_LIFESPAN →
  let lastFrame :=
    Nat.iter frames drawParticles (createParticleExplosion rand x y color count speed []) in
  length lastFrame = turnsBelow count
  ∧ (∀ i : nat, i < turnsBelow count ↔ (INR i < count)%R)
  ∧ Forall (λ p, life p = 1%Z) lastFrame
  ∧ drawParticles lastFrame = everySecond lastFrame
  ∧ length (drawParticles lastFrame) = turnsBelow count / 2
  ∧ Forall (λ p, life p = 1%Z) (drawParticles lastFrame)
  ∧ (count = (PARTICLE_COUNT / 2)%R →
       length lastFrame = 8 ∧ length (drawParticles lastFrame) = 4)
  ∧ (count = (PARTICLE_COUNT / 0.5)%R →
       length lastFrame = 30 ∧ length (drawParticles lastFrame) = 15).
Proof.
  intros Hf. cbv zeta.
  destruct (createParticleExplosion_spec rand x y color count speed []) as (ps & E0 & H2 & H1).
  rewrite app_nil_l in E0. rewrite E0. clear E0.
  destruct (frames_before_last frames ps PARTICLE_LIFESPAN) as [H3 H4].
  { lia. }
  { eapply Forall_impl; [exact H1 |]. by intros p [Hp _]. }
  set (lastFrame := Nat.iter frames drawParticles ps) in *. clearbody lastFrame.
  assert (H5 : Forall (λ p, life p = 1%Z) lastFrame).
  { eapply Forall_impl; [exact H3 |]. intros p Hp. cbv beta in Hp. lia. }
  assert (E : drawParticles lastFrame = everySecond lastFrame).
  { unfold drawParticles. by apply (forEachParticle_last_frame (length lastFrame) []). }
  assert (E1 : length lastFrame = turnsBelow count) by (by rewrite H4).
  assert (E2 : length (drawParticles lastFrame) = turnsBelow count / 2)
    by (by rewrite E, length_everySecond, E1).
  split; [exact E1 |]. split; [intros i; apply turnsBelow_spec |].
  split; [exact H5 |]. split; [exact E |]. split; [exact E2 |].
  split; [rewrite E; exact (Forall_everySecond _ _ H5) |].
  rewrite E1, E2. split; intros ->.
  - by rewrite (turnsBelow_brick false).
  - by rewrite (turnsBelow_brick true).
Qed.

End particles.

Section trainer_display.
Import JsNumber JsReal Trainer.
Local Open Scope R_scope.

Lemma this_Q2Qc_inject_Z (z : Z) : this (Q2Qc (inject_Z z)) = inject_Z z.
Proof. rewrite this_Q2Qc. apply Qred_identity. simpl. apply Z.gcd_1_r. Qed.

Lemma Q2R_inject_Z (z : Z) : Q2R (inject_Z z) = IZR z.
Proof. unfold Q2R. simpl. lra. Qed.

(** X26. For a draw of [Math.random] (0 <= random < 1), [decideNextStrategy]
    returns a whole number from 0 to [BRICK_COLUMN_COUNT - 1]: used as an
    index into any array it selects the element of that position. *)
Theorem decideNextStrategy_is_a_column (random : number) :
  (lit 0 <=? random)%js = true → (random <? lit 1)%js = true →
  ∃ k, (k < 9)%nat
    ∧ isFinite (decideNextStrategy random) = true
    ∧ toR (decideNextStrategy random) = INR k
    ∧ ∀ (A : Type) (l : list A), index l (decideNextStrategy random) = l !! k.
Proof.
  intros H0 H1. destruct random as [| | | | q]; try done.
  { exists 0%nat. split; [lia |]. split; [done |]. split; [| done].
    change (decideNextStrategy NegZero) with NegZero. unfold toR. cbn [val]. apply toR_zero. }
  cbn [leb ltb val lit] in H0, H1.
  apply Qcleb_toR in H0. apply Qcltb_toR in H1. rewrite toR_zero in H0.
  assert (E1 : Q2R (this (Q2Qc 1)) = 1) by (rewrite this_Q2Qc, Q2R_Qred; unfold Q2R; simpl; lra).
  rewrite E1 in H1. clear E1.
  assert (Hneg : isNeg (Fin q) = false).
  { cbn [isNeg]. destruct (Qcltb q (Q2Qc 0)) eqn:E; [| done].
    apply Qcltb_toR in E. rewrite toR_zero in E. lra. }
  unfold decideNextStrategy.
  assert (Em : (Fin q * Agent.BRICK_COLUMN_COUNT)%js = Fin (q * Q2Qc 9)%Qc).
  { unfold mul. rewrite Hneg. cbn [isNaN isInf orb val Agent.BRICK_COLUMN_COUNT lit].
    change (isNeg (Fin (Q2Qc 9))) with false. cbn [xorb]. apply mkFin_false. }
  rewrite Em. set (q9 := (q * Q2Qc 9)%Qc).
  assert (Hq9 : Q2R (this q9) = Q2R (this q) * 9).
  { unfold q9, Qcmult. rewrite this_Q2Qc, Q2R_Qred, Qreals.Q2R_mult, this_Q2Qc, Q2R_Qred.
    unfold Q2R at 2. simpl. lra. }
  assert (Hneg9 : isNeg (Fin q9) = false).
  { cbn [isNeg]. destruct (Qcltb q9 (Q2Qc 0)) eqn:E; [| done].
    apply Qcltb_toR in E. rewrite toR_zero in E. lra. }
  cbn [Math_floor]. rewrite Hneg9, mkFin_false.
  set (z := Qfloor q9).
  pose proof (Qreals.Qle_Rle _ _ (Qfloor_le q9)) as Hlo.
  pose proof (Qreals.Qlt_Rlt _ _ (Qlt_floor q9)) as Hhi.
  fold z in Hlo, Hhi. rewrite Q2R_inject_Z in Hlo, Hhi. rewrite plus_IZR in Hhi.
  assert (Hz0 : (0 <= z)%Z).
  { assert (IZR (-1) < IZR z) by (simpl; lra). apply lt_IZR in H. lia. }
  assert (Hz9 : (z < 9)%Z).
  { apply lt_IZR. lra. }
  exists (Z.to_nat z). split; [lia |]. split; [done |]. split.
  - unfold toR. cbn [val]. rewrite this_Q2Qc_inject_Z, Q2R_inject_Z.
    rewrite INR_IZR_INZ, Z2Nat.id by done. done.
  - intros A l. cbn [index]. rewrite this_Q2Qc_inject_Z. cbn [Qden Qnum inject_Z].
    rewrite Pos.eqb_refl. cbn [andb].
    destruct (Z.leb_spec 0 z) as [_ | Hn]; [done | lia].
Qed.

(** X27. From [initializeInstances] on, through any series of
    [handleGameEnd] calls, the width of every agent's skill bar is a finite
    percentage between 0 and 100. *)
Theorem skill_bar_stays_within_its_track (oracle : nat → Oracle)
    (games : list (list RankedInstance * GameEnd * (nat → Oracle))) :
  Forall (λ inst, isFinite (skillPercentage inst) = true
                  ∧ (lit 0 <=? skillPercentage inst)%js = true
                  ∧ (skillPercentage inst <=? lit 100)%js = true)
    (afterGames (initializeInstances oracle) games).
Proof.
  eapply Forall_impl; [apply afterGames_ok |].
  intros inst (Hf & Hlo & Hhi & _). cbv beta.
  apply leb_toR in Hlo; [| done | done]. apply leb_toR in Hhi; [| done | done].
  unfold MIN_SKILL_LEVEL in Hlo. unfold MAX_SKILL_LEVEL in Hhi.
  rewrite toR_lit in Hlo, Hhi. unfold Q2R in Hlo, Hhi. simpl in Hlo, Hhi.
  unfold skillPercentage.
  assert (Hs : isFinite (skillLevel inst - MIN_SKILL_LEVEL)%js = true)
    by (by apply AgentFacts.isFinite_sub).
  assert (Hd : isFinite ((skillLevel inst - MIN_SKILL_LEVEL)
                         / (MAX_SKILL_LEVEL - MIN_SKILL_LEVEL))%js = true)
    by (by apply AgentFacts.isFinite_div).
  assert (Hm : isFinite ((skillLevel inst - MIN_SKILL_LEVEL)
                         / (MAX_SKILL_LEVEL - MIN_SKILL_LEVEL) * lit 100)%js = true)
    by (by apply AgentFacts.isFinite_mul).
  assert (E : toR ((skillLevel inst - MIN_SKILL_LEVEL)
                   / (MAX_SKILL_LEVEL - MIN_SKILL_LEVEL) * lit 100)%js
              = (toR (skillLevel inst) - 0.7) / 1.3 * 100).
  { rewrite toR_mul, toR_div, !toR_sub by done.
    unfold MIN_SKILL_LEVEL, MAX_SKILL_LEVEL. rewrite !toR_lit. unfold Q2R. simpl. lra. }
  split; [done |]. split.
  - apply leb_toR; [done | done |]. rewrite E, toR_lit_0. lra.
  - apply leb_toR; [done | done |]. rewrite E, toR_lit. unfold Q2R. simpl. lra.
Qed.

End trainer_display.

(** * Worked instances of the further properties *)

Section further_instances.
Local Open Scope R_scope.

Lemma lives_bounded_and_loss_at_zero_witness :
  (1 <= initialLives demoProps)%Z
  ∧ ∃ s, run demoProps demoSetup (λ _, demoInput 0.9) 100 = Some s
         ∧ (0 <= lives s <= initialLives demoProps)%Z
         ∧ (isLosing s = true ↔ lives s = 0%Z).
Proof.
  assert (1 <= initialLives demoProps)%Z as H by (simpl; lia).
  split; [exact H |].
  exact (lives_bounded_and_loss_at_zero demoProps demoSetup (λ _, demoInput 0.9) 100 H).
Defined.

Lemma no_initial_life_never_lost_witness :
  (initialLives (mkProps 0 1.0 false) <= 0)%Z
  ∧ ∃ s, run (mkProps 0 1.0 false) demoSetup (λ _, demoInput 0.9) 100 = Some s
         ∧ isLosing s = false ∧ (lives s <= initialLives (mkProps 0 1.0 false))%Z.
Proof.
  assert (initialLives (mkProps 0 1.0 false) <= 0)%Z as H by (simpl; lia).
  split; [exact H |].
  exact (no_initial_life_never_lost (mkProps 0 1.0 false) demoSetup
           (λ _, demoInput 0.9) 100 H).
Defined.

Lemma paddle_sends_ball_up_witness :
  touchesPaddle landingState = true
  ∧ ball_dy (ball (paddleCollision landingState)) < 0
  ∧ 0.2 <= Rabs (ball_dx (ball (paddleCollision landingState))).
Proof.
  assert (touchesPaddle landingState = true) as H.
  { unfold touchesPaddle, landingState, demoState, paddleTopY. cbv zeta. simpl.
    unfold CANVAS_HEIGHT, PADDLE_Y_OFFSET, PADDLE_HEIGHT.
    rewrite !bool_decide_eq_true_2 by lra. reflexivity. }
  split; [exact H |].
  destruct (paddle_sends_ball_up landingState H) as (H1 & H2 & _).
  split; [exact H1 | exact H2].
Defined.

Lemma golden_brick_rescales_speed_witness :
  (ball_dx (ball landingState) ≠ 0 ∨ ball_dy (ball landingState) ≠ 0)
  ∧ rouletteOutcome 0.9 ≠ JACKPOT
  ∧ ∃ s' k, handleGoldenBrick 0.9 (mkBrick 0 0 true true) landingState = Some s'
      ∧ 0 < k
      ∧ ball_dx (ball s') = ball_dx (ball landingState) * k
      ∧ ball_dy (ball s') = ball_dy (ball landingState) * k.
Proof.
  assert (ball_dx (ball landingState) ≠ 0 ∨ ball_dy (ball landingState) ≠ 0) as Hv.
  { left. simpl. lra. }
  assert (rouletteOutcome 0.9 ≠ JACKPOT) as Hr.
  { unfold rouletteOutcome. cbv zeta. unfold CHANCE_JACKPOT, CHANCE_POWER_BALL.
    rewrite bool_decide_eq_false_2 by lra. by destruct (bool_decide _). }
  split; [exact Hv |]. split; [exact Hr |].
  destruct (golden_brick_rescales_speed 0.9 (mkBrick 0 0 true true) landingState Hv Hr)
    as (s' & k & H1 & H2 & H3 & H4 & _).
  exists s', k. split; [exact H1 |]. split; [exact H2 |]. split; [exact H3 | exact H4].
Defined.

Lemma drawBricks_lays_out_the_wall_witness :
  gridOK (createBricks solidWall 0)
  ∧ drawBricks (drawBricks (createBricks solidWall 0)) = drawBricks (createBricks solidWall 0).
Proof.
  assert (gridOK (createBricks solidWall 0)) as H by apply createBricks_gridOK.
  split; [exact H |].
  exact (proj1 (drawBricks_lays_out_the_wall (createBricks solidWall 0) H)).
Defined.

Lemma particles_stay_in_flight_witness :
  Forall inFlight [ParticleExamples.spark]
  ∧ Forall (λ p, inFlight p ∧ 0 < alpha p <= 1) (drawParticles [ParticleExamples.spark]).
Proof.
  assert (Forall inFlight [ParticleExamples.spark]) as H.
  { constructor; [| constructor]. unfold inFlight, ParticleExamples.spark. simpl.
    unfold PARTICLE_LIFESPAN. split; [lia | by left]. }
  split; [exact H |].
  exact (proj1 (particles_stay_in_flight [ParticleExamples.spark] H)).
Defined.

Lemma explosion_outlives_its_lifespan_witness :
  (Z.of_nat 39 + 1)%Z = PARTICLE_LIFESPAN
  ∧ length (drawParticles
              (Nat.iter 39 drawParticles
                 (createParticleExplosion (λ _, 0.5) 100 50
                    (color ParticleExamples.spark) (PARTICLE_COUNT / 2) PARTICLE_SPEED [])))
    = 4%nat.
Proof.
  assert ((Z.of_nat 39 + 1)%Z = PARTICLE_LIFESPAN) as H by reflexivity.
  split; [exact H |].
  destruct (explosion_outlives_its_lifespan (λ _, 0.5) 100 50
              (color ParticleExamples.spark) (PARTICLE_COUNT / 2) PARTICLE_SPEED 39 H)
    as (_ & _ & _ & _ & _ & _ & H4 & _).
  exact (proj2 (H4 eq_refl)).
Defined.

End further_instances.

Section further_agent_instances.
Import JsNumber Agent AgentExamples PlannerExamples.
Local Open Scope nat_scope.

Lemma getDefensiveTargetX_between_walls_witness :
  isFinite (getDefensiveTargetX ballFalling) = true
  ∧ (ball_radius ballFalling <=? getDefensiveTargetX ballFalling)%js = true
  ∧ (getDefensiveTargetX ballFalling <=? CANVAS_WIDTH - ball_radius ballFalling)%js = true.
Proof.
  apply (getDefensiveTargetX_between_walls ballFalling); vm_compute; reflexivity.
Defined.

Lemma projectTrajectory_score_bounded_witness :
  1 ≤ AI_SIMULATION_DEPTH
  ∧ ∃ path hits,
      projectTrajectory (lit 200) paddleY (lit 0) BALL_SPEED_Y oneBrickField
        AI_SIMULATION_DEPTH = (path, hits, length hits)
      ∧ hits ⊆+ visibleBricks oneBrickField
      ∧ length hits ≤ AI_SIMULATION_DEPTH.
Proof.
  assert (1 ≤ AI_SIMULATION_DEPTH) as H by (unfold AI_SIMULATION_DEPTH; lia).
  split; [exact H |].
  destruct (projectTrajectory_score_bounded (lit 200) paddleY (lit 0) BALL_SPEED_Y
              oneBrickField AI_SIMULATION_DEPTH H) as (path & hits & H1 & H2 & H3 & _).
  exists path, hits. split; [exact H1 |]. split; [exact H2 | exact H3].
Defined.

Lemma plan_prefers_earlier_angle_witness :
  score <$> simulatePaths ballLeft (pad 170) leftColumns = [0; 3; 3; 1; 1; 0; 0]
  ∧ ∃ plan, runShotSimulations ballLeft (pad 170) leftColumns = Some plan
      ∧ bestPathIndex plan = 1%Z
      ∧ ∃ i best, bestPathIndex plan = Z.of_nat i
          ∧ paths plan !! i = Some best ∧ 1 < score best
          ∧ (∀ q, q ∈ paths plan → score q ≤ score best)
          ∧ ∀ j q, j < i → paths plan !! j = Some q → score q < score best.
Proof.
  split; [vm_compute; reflexivity |].
  destruct (runShotSimulations ballLeft (pad 170) leftColumns) as [plan |] eqn:E.
  - exists plan. split; [reflexivity |]. split.
    + unfold runShotSimulations in E. cbv zeta in E.
      assert (Hb : pickBest (simulatePaths ballLeft (pad 170) leftColumns) = (1%Z, 3))
        by (vm_compute; reflexivity).
      rewrite Hb in E. cbn [fst snd] in E. simpl in E. by injection E as <-.
    + exact (plan_prefers_earlier_angle ballLeft (pad 170) leftColumns plan E).
  - exfalso. vm_compute in E. discriminate E.
Defined.

Lemma heuristicTarget_inside_field_witness :
  heuristicTarget lastBrick ballFalling (pad 170) (lit 200) = Some (lit 200)
  ∧ (lit 0 <? lit 200)%js = true ∧ (lit 200 <? CANVAS_WIDTH)%js = true.
Proof.
  assert (heuristicTarget lastBrick ballFalling (pad 170) (lit 200) = Some (lit 200)) as H
    by (vm_compute; reflexivity).
  split; [exact H |].
  destruct (heuristicTarget_inside_field lastBrick ballFalling (pad 170) (lit 200)
              (lit 200) H) as (H1 & H2 & _).
  split; [exact H1 | exact H2].
Defined.

Lemma power_shot_only_when_committed_witness :
  powerShotMode (aiBlock soloProps (lit 0.5) (refsAt ballFalling (pad 200))) = true
  ∧ offensiveTargetX (aiBlock soloProps (lit 0.5) (refsAt ballFalling (pad 200)))
    = Some (finalTargetX (aiBlock soloProps (lit 0.5) (refsAt ballFalling (pad 200)))).
Proof.
  assert (powerShotMode (aiBlock soloProps (lit 0.5) (refsAt ballFalling (pad 200))) = true)
    as H by (vm_compute; reflexivity).
  split; [exact H |].
  exact (proj1 (power_shot_only_when_committed soloProps (lit 0.5)
                  (refsAt ballFalling (pad 200)) H)).
Defined.

End further_agent_instances.

Section further_trainer_instances.
Import JsNumber JsReal Trainer TrainerExamples.

Lemma skill_level_stays_in_range_witness :
  isFinite (skillLevel rookie) = true
  ∧ (MIN_SKILL_LEVEL <=? skillLevel (updateInstance None quickWin (quiet 0) rookie))%js = true
  ∧ (skillLevel (updateInstance None quickWin (quiet 0) rookie) <=? MAX_SKILL_LEVEL)%js = true.
Proof.
  assert (isFinite (skillLevel rookie) = true) as H by reflexivity.
  split; [exact H |].
  exact (proj2 (skill_level_stays_in_range None quickWin (quiet 0) rookie H)).
Defined.

Lemma strategy_statistics_are_counts_and_means_witness :
  Forall (λ e, isFinite (time e) = true) [quickWin]
  ∧ gamesPlayed (afterReports emptyAIData [quickWin]) = 1%nat
  ∧ gamesWon (afterReports emptyAIData [quickWin]) = length (wonGames [quickWin]).
Proof.
  assert (Forall (λ e, isFinite (time e) = true) [quickWin]) as H.
  { constructor; [reflexivity | constructor]. }
  split; [exact H |].
  destruct (strategy_statistics_are_counts_and_means [quickWin] H) as (H1 & H2 & _).
  split; [exact H1 | exact H2].
Defined.

Lemma decideNextStrategy_is_a_column_witness :
  (lit 0 <=? lit 0.5)%js = true ∧ (lit 0.5 <? lit 1)%js = true
  ∧ ∃ k, (k < 9)%nat ∧ toR (decideNextStrategy (lit 0.5)) = INR k.
Proof.
  assert ((lit 0 <=? lit 0.5)%js = true) as H0 by (vm_compute; reflexivity).
  assert ((lit 0.5 <? lit 1)%js = true) as H1 by (vm_compute; reflexivity).
  split; [exact H0 |]. split; [exact H1 |].
  destruct (decideNextStrategy_is_a_column (lit 0.5) H0 H1) as (k & Hk & _ & Hr & _).
  exists k. split; [exact Hk | exact Hr].
Defined.

End further_trainer_instances.
